(* ===== verification/_CoqProject ===== *)
-Q . S2P
Prelude.v
Grid.v
Libm.v
State.v
Raster.v
Footprint.v
Catalog.v
Spiral.v
Walk.v
Planner.v
Search.v
Returns.v
Host.v
Visual.v
Lifecycle.v
Service.v
