(* ===== verification/Prelude.v ===== *)
(** * Verification of the Spiral-STC full coverage path planner

    The program is [src/src/spiral_stc.cpp], the planner plugin
    [full_coverage_path_planner::SpiralSTC]: on a coverage grid of
    square cells it plans a path that sweeps the free cells with the
    tool of a vehicle, by spiralling (turn left when possible, else go
    forward, else turn right) and, when a spiral is stuck, relocating
    to the nearest uncovered cell.  The development is a shallow
    embedding: each method is a function of Rocq on the data of the
    source, written statement by statement, and the theorems are about
    these functions.  The lines of the source that a definition
    translates are given beside it and in the map of the project.

    ** The parts and the files that model them

    - [Prelude] (this file): what the components share.  The result
      monad [res] ([Ok], [Undefined] for what the C++ standard leaves
      undefined, [OutOfFuel] for the loop bound of the model), C++
      vector access with its range ([vec_at], [vec_put]), [std::sort]
      followed by [std::unique] ([sort_unique]), comparison and rounding
      of rationals, chains of neighbours ([Sorted_snoc]), the tactics
      [res_step], [res_inv], [q_case], the hint database [fcpp] and the
      rewrite databases [fcpp_rw], [fcpp_inject].
    - [Grid]: cells ([Point_t], [MapLocation], [gridNode_t]), the
      boolean masks [grid] and [visited] with [mask_at] and [mask_mark]
      for [m[y][x]], the coverage grid [Costmap2D] with [mapToWorld],
      [worldToMapNoBounds], [getIndex], [indexToCells] (library code,
      after the specification) and [SpiralSTC::checkMapBounds].
    - [Libm]: angles and the math library.  A [double] is a rational;
      angles are in quarter turns, so that [M_PI] is [2]; [cos], [sin]
      and [atan2] are the interface [Libm] with the laws [LibmLaws]
      (exact on the four axis headings).  [approx_libm] is an
      executable instance with these laws, for the examples.
    - [State]: the fields of the [SpiralSTC] object (record [SpiralSTC],
      one [set_] function per assigned field), [same_config] (the fields
      planning never writes), and [Platform], the value a caller reads
      when [checkManoeuvreCollision] flows off its end.
    - [Raster]: [Costmap2D::convexFillCells] as the interface
      [ConvexFill] with the bounding-box law [ConvexFillLaws], and the
      instance [hull_fill] after the specification.
    - [Footprint]: [SpiralSTC::computeFootprintCells] and
      [SpiralSTC::computeManoeuvreFootprint].
    - [Catalog]: [SpiralSTC::rotatePoint] and the part of
      [SpiralSTC::makePlan] that computes the standard manoeuvres and
      stores them relative to the middle of the grid.
    - [Spiral]: [SpiralSTC::spiral] and
      [SpiralSTC::checkManoeuvreCollision].
    - [Walk]: no code of its own: an abstract spiral ([walk],
      [walk_pass], [walk_run]) with no iterator, no masks and no
      object, its passes decided by [admissible], and the functions
      [walk_start] and [walk_of] from the states of [spiral] to it.
    - [Planner]: [SpiralSTC::spiral_stc] and [SpiralSTC::makePlan] from
      the catalog to the metrics.  The relocation
      [a_star_to_open_space] and the list of open cells [map_2_goals]
      of the base class are the interface [Relocator] with the laws
      [RelocatorLaws].  The calls of [spiral_stc] that show a spiral or
      a mask are collected, with their arguments, in a list of
      [display].
    - [Search]: [a_star_to_open_space] after section 4.6 of the
      specification: a search layer by layer on the 4-connected grid
      to the nearest cell that is free and not visited ([search],
      [a_star]), as the instances [a_star_strict] and
      [a_star_obstacle_aware] of [Relocator], with the laws
      [SearchLaws] that the loops of [spiral_stc] need.
    - [Returns]: no code of its own: the run of [spiral_stc] and
      [makePlan] from the first spiral to the return, for the build in
      which the collision check reads [false], with the states of the
      outer loop between two stages ([ready], [searching]).
    - [Host]: the rest of the object (record [Plugin] around the
      planner of [State]: [initialized_], the pointers, the parameters,
      the tiles) and the host as the plugin calls it: the parameters of
      the node ([declare_parameter_if_not_declared], [get_parameter_]),
      the lifecycle publishers with the messages handed to them, the
      messages themselves.  [shown_more] and [planned] are what showing
      and planning leave unchanged.
    - [Visual]: [visualizeGridlines], [visualizeGrid],
      [visualizeSpiral], [cubeMarker], [lineStrip].
    - [Lifecycle]: [configure], [activate], [deactivate], [cleanup],
      [createPlan] and the whole of [makePlan] ([makePlan_host]), with
      [parseGrid], [parsePointlist2Plan] and [publishPlan] of the base
      class as the interface [BaseClass]; the calls of the host as a
      transition system ([call], [run], [reachable]).
    - [Service]: no code of its own: the calls of the host one after
      the other ([runs]) on a plugin that was configured, through all
      the parts above, with what a planning call needs of [parseGrid]
      ([parsed_square], [served]) and of the plugin ([serving]).

    A method that changes fields of the object takes the object and
    returns the new one; an output parameter is an argument and a
    component of the result.  Names resolve as the compiler resolves
    them.  Two of them decide what the planner computes:
    [computeManoeuvreFootprint] calls its output parameter [man_grids]
    and appends its result to [man_cells], the field; [spiral] fills a
    local [man_cells] and hands the field [man_grids] to the collision
    check.  The header that declares the fields is not in [src/]; the
    source compiles only if both names are fields, and [State] has
    them.

    ** What the theorems show

    - [Grid]: [checkMapBounds] decides the bounds; masks are read and
      marked in range, marking is monotone; cell indices determine
      cells; a point within half a cell of a centre is in that cell.
    - [Footprint]: [computeFootprintCells] returns [false] exactly for a
      corner outside the grid, and otherwise appends cells of the grid
      only; the cells of a manoeuvre are those of the final and
      intermediate footprints outside the starting footprint, each once;
      the angle turned through is the short arc between axis headings
      and not otherwise; intermediate orientations stay in [[-pi, pi]];
      the result goes to the field [man_cells], never to the output
      parameter.
    - [Raster]: the cells of the reference filler are those of the
      bounding box on or inside every edge and do not depend on the
      order of the corners ([hull_fill_cells_perm]).
    - [Catalog]: [rotatePoint] is the integer quarter-turn rotation on
      the headings of the spiral, and stays so for a cosine and sine
      that are off by less than half a cell over the distance rotated;
      relative manoeuvres rotate back to the absolute ones; [makePlan]
      computes the catalog from the vectors as they were before it ran.
    - [Spiral]: the path returned extends the initial path by unit steps
      along the axes; no vector is indexed out of range under the stated
      conditions on the masks and the catalog; an accepted step is in
      the grid when the catalog holds it; what the collision check
      returns; the cells marked are those of the first footprint only;
      a blocked cell of [man_grids] ends the spiral; the heading of the
      first iteration; the read beyond [future_right]; the spiral
      that never returns on the catalog [makePlan] leaves; and the
      loop with fuel against the transition system of its iterations
      ([spiral_step], [spiral_last]).
    - [Walk]: [spiral] implements the abstract spiral
      ([spiral_walk_refinement]): it returns the cells of the walk
      when the walk ends within the fuel, and runs out of fuel when
      the walk does.
      The loops of a pass are closed forms on the way
      ([rotate_rel_inside], [future_rejected_barred],
      [checkManoeuvreCollision_clear]), and one pass of the [for] loop
      takes the first manoeuvre that is [admissible]
      ([spiral_directions_walk]).  The path of a spiral is decided by
      the grid mask, [man_grids], the catalog and the overlap bounds;
      it does not depend on [visited].
    - [Planner]: [visited] only grows; an accepted relocation ends at a
      pose whose vehicle footprint is in the grid, free of blocked
      cells and within the overlap bound; the counter of visited cells
      against the length of the path; the cap of two spirals on a new
      planner; [visited_copy] sized as the transpose of the grid, and
      the rows an earlier call left in it kept at their length, so
      that a call on a larger grid writes outside them
      ([spiral_stc_stale_visited_copy]); and what [makePlan] returns on a new planner for either value of the
      missing return: no plan at all, or the start cell and one
      relocation without a single step of a spiral.
    - [Search]: the loop of relocations with the search: an accepted
      relocation is a shortest walk to a nearest open cell, a
      relocation resigns only when no open cell can be reached, the
      loop ends after as many refused goals as there are open cells at
      most, and the full path of [spiral_stc] is connected.  With
      visited cells impassable, as section 4.6 is written, a
      relocation is one step long at most.
    - [Returns]: when the collision check reads [false], [makePlan]
      returns a plan on every square grid, from every start cell and
      whatever the counters hold ([makePlan_returns]): each spiral ends
      in its first pass, and each stage of the outer loop that does
      not leave it closes an open cell of [visited]; and in a call
      that the cap on the spirals cannot end, no cell that is free and
      open can be reached from the end of the plan when the call
      returns ([spiral_stc_complete]); the plan stays on free cells
      ([spiral_stc_plan_on_free]).
    - [Visual]: the cubes of [visualizeGrid] are the centres of the set
      cells, in the order of [map_2_goals], and each centre lies in its
      cell of the planner grid; [visualizeGridlines] counts the
      horizontal lines along x.
    - [Lifecycle]: in every state the host can reach, an initialised
      plugin has the pointers set that its methods go through, and the
      publisher of plans has delivered nothing ([reachable_wf]);
      [configure] reads each parameter from the start of the node or
      takes its default; [createPlan] on a plugin that was never
      configured is undefined.  [makePlan_host] has the statements
      of lines 497-561 that [Planner.makePlan] has, between the head
      and the tail of the method; [makePlan_host_true] and
      [makePlan_host_plans] say so, and [Service] goes through them.
    - [Service]: when the collision check reads [false], every call
      of the host on a configured plugin returns, a call of
      [createPlan] with a path, and leaves the plugin ready for the
      next call ([service_returns]): the
      number that [resizeMap] gets bounds the loops of
      [visualizeGridlines], the masks that [spiral_stc] shows have the
      size that [visualizeGrid] reads, and the publishers that
      [configure] created are there when the markers and the plan are
      handed to them.  When the check reads [true], no call of
      [createPlan] returns a plan in any state the host can reach from
      a new planner ([service_never_plans]).

    Theorems with hypotheses are applied to concrete planners
    ([example_obj], [small_obj] of [State]) in lemmas named
    [_witness], evaluated with [approx_libm], [hull_fill] and the
    relocators [resigning] and [stepping] of [Planner] and the search
    of [Search] on the planner [roomy_obj], and to the
    plugins [shown_plugin] of [Host] and [ready_plugin] of [Lifecycle]
    with the base class [given_grid].

    ** Bounds and fuel

    Integers are unbounded ([Z]): the grids of the planner have a few
    thousand cells and no arithmetic of the source comes near the range
    of [int].  The [while] loop of [spiral] is [spiral_loop], which
    takes a fuel argument: one unit per iteration.  Every iteration but
    the last appends a node to the path, so fuel [n + 1] is enough for
    every run that accepts [n] steps and for no run that accepts more
    ([spiral_loop_steps], [spiral_loop_fuel_exact]); more fuel never
    changes a result ([spiral_loop_fuel_mono]); and a run that is
    [OutOfFuel] for every fuel is a run of the source that does not
    end ([spiral_never_returns]).  The abstract spiral of [Walk] takes
    the same fuel, one unit per pass, and runs out of it exactly when
    [spiral] does ([spiral_walk_refinement]).  [spiral_stc] has two
    more [while]
    loops: [relocate], one unit of fuel per search, and
    [spiral_stc_loop], one unit per iteration, for which two units are
    enough on a new planner ([spiral_stc_loop_two]); a call of
    [spiral_stc] or [makePlan] hands its fuel to all three.
    [relocate_ends] of [Search] bounds the fuel of [relocate] by the
    number of open cells of [visited]; the search itself runs on a
    fuel of the number of free cells plus three and never runs out
    ([search_fuel]).  When the collision check reads [false] a fuel
    above the number of open cells of the grid is enough for the three
    loops together ([makePlan_returns] of [Returns]): the measure is
    [open_count], the number of open entries of [visited], which no
    statement raises and every stage lowers.  The two
    loops of [visualizeGridlines] count with a [uint32_t] up to a
    quotient of [double] values: [for_below] gives the values of the
    counter and is [OutOfFuel] where the loop of the source does not
    end (tiles of size zero, or more lines than the counter can
    count); the conversion of such a quotient to [unsigned int] for
    [resizeMap] is [Undefined] ([ceil_quotient]).  All other loops run
    over vectors and are structural.

    ** What is not modelled

    The code of the costmap library, which is not in [src/]:
    [mapToWorld] and [worldToMapNoBounds] follow section 4.1 of the
    specification, the centre of a cell and the floor of a quotient
    on signed cells; a library that truncates or takes unsigned cells
    differs from them outside the grid only.  The code of the base
    class, which is not in [src/] either: the
    downsampling of the costmap in [parseGrid], the conversion of the
    cells to poses and the publication of the plan are the interface
    [BaseClass], with the laws the theorems need (publishing hands one
    message to the publisher of plans, and returns when that publisher
    was created) and a small implementation for the examples; what a
    theorem needs of the grid that [parseGrid] returns is among its
    hypotheses; the search of the relocator is
    modelled from the specification and not from its code, with a zero
    heuristic and nodes of cost 0.  [convexFillCells] is code of the
    costmap library: the interface [ConvexFill] with the law that its
    cells lie in the bounding box of the polygon, and [hull_fill] for
    the examples.  The planner keeps the pointer to the costmap of the
    node (line 39) and reads the footprint through it; the model keeps
    the footprint as [configure] found it, so a footprint that the
    host changes afterwards is not seen.  The messages that
    [spiral_stc] shows are handed to
    the publishers when the planning has returned and not in between;
    planning and showing share no state, so the states reached are the
    same, but a call that shows something and then never returns is
    [OutOfFuel] with nothing shown.  The log messages, the destructor, the time
    measured by [makePlan], and floating-point rounding, of which
    [rotatePoint_robust] and [Qfloor_cell] bound what the planner
    tolerates, are left out; a [float] or [double] is the rational it
    is written as. *)

From Stdlib Require Import ZArith QArith Qround Lia Lqa.
From stdpp Require Import base tactics list option numbers list_numbers sorting.

Set Warnings "-clear-no-such-hyp".

#[global] Open Scope Z_scope.

Create HintDb fcpp discriminated.
Create Rewrite HintDb fcpp_rw.
Create Rewrite HintDb fcpp_inject.

Declare Scope fcpp_scope.
Delimit Scope fcpp_scope with fcpp.

(** ** The result monad *)

(** A method of the planner either returns, or runs into behaviour the
    language leaves undefined (a vector indexed out of its range, a
    dereferenced end iterator), or, for the loops that the model bounds
    by a fuel argument, uses the fuel up. *)
Inductive res (A : Type) : Type :=
| Ok (a : A)
| Undefined
| OutOfFuel.

Arguments Ok {A} a.
Arguments Undefined {A}.
Arguments OutOfFuel {A}.

#[global] Instance res_ret : MRet res := λ A a, Ok a.
#[global] Instance res_bind : MBind res := λ A B f m,
  match m with
  | Ok a => f a
  | Undefined => Undefined
  | OutOfFuel => OutOfFuel
  end.
#[global] Instance res_fmap : FMap res := λ A B f m,
  match m with
  | Ok a => Ok (f a)
  | Undefined => Undefined
  | OutOfFuel => OutOfFuel
  end.

#[global] Instance res_eq_dec {A} `{EqDecision A} : EqDecision (res A).
Proof. solve_decision. Defined.

Definition is_Ok {A} (m : res A) : Prop := ∃ a, m = Ok a.

#[global] Instance is_Ok_dec {A} (m : res A) : Decision (is_Ok m).
Proof.
  destruct m; [left; by eexists | right; by intros [? ?] ..].
Defined.

(** A [for] loop over a vector whose body may fail. *)
Fixpoint res_foldl {A B} (f : A → B → res A) (a : A) (l : list B) : res A :=
  match l with
  | [] => Ok a
  | b :: l => a' ← f a b; res_foldl f a' l
  end.

(** ** C++ vectors *)

(** [v[i]] read and written: outside [0 .. size-1] the behaviour of
    [std::vector::operator[]] is undefined. *)
Definition vec_at {A} (v : list A) (i : Z) : res A :=
  if decide (0 ≤ i) then
    match v !! Z.to_nat i with
    | Some a => Ok a
    | None => Undefined
    end
  else Undefined.

Definition vec_put {A} (v : list A) (i : Z) (a : A) : res (list A) :=
  if decide (0 ≤ i < Z.of_nat (length v)) then Ok (<[Z.to_nat i := a]> v)
  else Undefined.

(** ** Comparisons of [double] values *)

(** The source compares angles with [==], [<] and [>]; on the rationals
    that stand for them these are the boolean tests below, which respect
    [Qeq]. *)
Definition Qlt_bool (a b : Q) : bool := negb (Qle_bool b a).

Notation "a ==q b" := (Qeq_bool a b) (at level 70, no associativity) : fcpp_scope.
Notation "a <q b" := (Qlt_bool a b) (at level 70, no associativity) : fcpp_scope.
Notation "a >q b" := (Qlt_bool b a)
  (at level 70, no associativity, only parsing) : fcpp_scope.

(** ** [std::sort] and [std::unique] on [int] *)

(** [std::unique]: every element equal to the last one kept is dropped,
    so of a run of equal adjacent elements the first one stays. *)
Fixpoint unique_after (x : Z) (l : list Z) : list Z :=
  match l with
  | [] => []
  | y :: l' =>
      if decide (x = y) then unique_after x l' else y :: unique_after y l'
  end.

Definition std_unique (l : list Z) : list Z :=
  match l with
  | [] => []
  | x :: l' => x :: unique_after x l'
  end.

(** [std::sort(v.begin(), v.end()); v.erase(std::unique(...), v.end())].
    On [int] the sorted vector is determined by the input, whatever
    algorithm the library runs. *)
Definition sort_unique (l : list Z) : list Z :=
  std_unique (merge_sort Z.le l).

(** ** Tactics *)

(** Splits a hypothesis [m ≫= f = Ok b] and the tests of the model. *)
Ltac res_step :=
  match goal with
  | H : Ok _ = Ok _ |- _ => inv H
  | H : Undefined = Ok _ |- _ => discriminate H
  | H : OutOfFuel = Ok _ |- _ => discriminate H
  | H : (_ ≫= _) = Ok _ |- _ =>
      let E := fresh "E" in
      match type of H with
      | (?m ≫= _) = _ => destruct m eqn:E; simpl in H; [| discriminate H ..]
      end
  | H : context [decide ?P] |- _ => destruct (decide P)
  end.

Ltac res_inv := repeat res_step.

(** ** Lemmas on the result monad *)

Lemma res_bind_Ok {A B} (f : A → res B) (m : res A) (b : B) :
  m ≫= f = Ok b ↔ ∃ a, m = Ok a ∧ f a = Ok b.
Proof.
  destruct m; simpl; split; try (intros (? & ? & ?)); eauto; try done.
  by simplify_eq.
Qed.

Lemma res_bind_is_Ok {A B} (f : A → res B) (m : res A) :
  is_Ok (m ≫= f) ↔ ∃ a, m = Ok a ∧ is_Ok (f a).
Proof.
  unfold is_Ok. setoid_rewrite res_bind_Ok. naive_solver.
Qed.

Lemma res_fmap_Ok {A B} (f : A → B) (m : res A) (b : B) :
  f <$> m = Ok b ↔ ∃ a, m = Ok a ∧ b = f a.
Proof. destruct m; simpl; naive_solver. Qed.

Section res_foldl_lemmas.
Context {A B : Type}.

(** An invariant of the accumulator is kept by a loop whose body keeps it. *)
Lemma res_foldl_invariant (P : A → Prop) (f : A → B → res A) l a a' :
  (∀ a b a', b ∈ l → P a → f a b = Ok a' → P a') →
  P a → res_foldl f a l = Ok a' → P a'.
Proof.
  revert a. induction l as [|b l IH]; intros a Hf Ha H; simpl in H.
  - by simplify_eq.
  - apply res_bind_Ok in H as (a1 & H1 & H2).
    apply (IH a1); eauto using list_elem_of_further, list_elem_of_here.
Qed.

(** The loop returns when every iteration does. *)
Lemma res_foldl_is_Ok (P : A → Prop) (f : A → B → res A) l a :
  (∀ a b, b ∈ l → P a → ∃ a', f a b = Ok a' ∧ P a') →
  P a → ∃ a', res_foldl f a l = Ok a' ∧ P a'.
Proof.
  revert a. induction l as [|b l IH]; intros a Hf Ha; simpl; [by eauto|].
  destruct (Hf a b) as (a1 & -> & Ha1); [by left | done |]. simpl.
  apply IH; [|done]. intros ? ? ?. apply Hf. by right.
Qed.

(** A loop over two vectors in a row. *)
Lemma res_foldl_app (f : A → B → res A) l1 l2 a :
  res_foldl f a (l1 ++ l2) = res_foldl f a l1 ≫= λ a', res_foldl f a' l2.
Proof.
  revert a. induction l1 as [|b l1 IH]; intros a; simpl; [done|].
  destruct (f a b); simpl; auto.
Qed.

End res_foldl_lemmas.

(** ** Lemmas on vectors *)

Section vec_lemmas.
Context {A : Type}.
Implicit Types (v : list A) (i j : Z) (a : A).

Lemma vec_at_Ok v i a :
  vec_at v i = Ok a ↔ 0 ≤ i ∧ v !! Z.to_nat i = Some a.
Proof.
  unfold vec_at. destruct (decide (0 ≤ i)); [|naive_solver].
  destruct (v !! Z.to_nat i); naive_solver.
Qed.

Lemma vec_at_is_Ok v i :
  is_Ok (vec_at v i) ↔ 0 ≤ i < Z.of_nat (length v).
Proof.
  unfold is_Ok. setoid_rewrite vec_at_Ok. split.
  - intros (a & ? & Ha%lookup_lt_Some). lia.
  - intros [? ?]. destruct (lookup_lt_is_Some_2 v (Z.to_nat i)) as [a Ha]; [lia|].
    eauto.
Qed.

Lemma vec_at_Undefined v i :
  ¬ 0 ≤ i < Z.of_nat (length v) → vec_at v i = Undefined.
Proof.
  intros Hi. unfold vec_at. case_decide; [|done].
  destruct (v !! Z.to_nat i) eqn:E; [|done].
  apply lookup_lt_Some in E. lia.
Qed.

Lemma vec_at_inrange v i :
  0 ≤ i < Z.of_nat (length v) → ∃ a, vec_at v i = Ok a.
Proof. intros. by apply vec_at_is_Ok. Qed.

Lemma vec_put_Ok v i a v' :
  vec_put v i a = Ok v' ↔
  0 ≤ i < Z.of_nat (length v) ∧ v' = <[Z.to_nat i := a]> v.
Proof. unfold vec_put. case_decide; naive_solver. Qed.

Lemma vec_put_length v i a v' :
  vec_put v i a = Ok v' → length v' = length v.
Proof. intros (_ & ->)%vec_put_Ok. by rewrite length_insert. Qed.

(** Only a loop runs out of fuel: a vector access ends, and a
    sequence ends when its parts do. *)
Lemma res_bind_ends {B} (f : A → res B) (m : res A) :
  m ≠ OutOfFuel → (∀ a, m = Ok a → f a ≠ OutOfFuel) → m ≫= f ≠ OutOfFuel.
Proof. destruct m; simpl; auto. Qed.

Lemma vec_at_ends v i : vec_at v i ≠ OutOfFuel.
Proof. unfold vec_at. case_decide; [destruct (v !! _)|]; done. Qed.

Lemma vec_put_ends v i a : vec_put v i a ≠ OutOfFuel.
Proof. unfold vec_put. by case_decide. Qed.

Lemma vec_at_put_eq v i a v' :
  vec_put v i a = Ok v' → vec_at v' i = Ok a.
Proof.
  intros ([? ?] & ->)%vec_put_Ok. apply vec_at_Ok. split; [done|].
  apply list_lookup_insert_eq. lia.
Qed.

Lemma vec_at_put_ne v i j a v' :
  vec_put v i a = Ok v' → 0 ≤ j → i ≠ j → vec_at v' j = vec_at v j.
Proof.
  intros ([? ?] & ->)%vec_put_Ok ? ?. unfold vec_at.
  rewrite list_lookup_insert_ne; [done | lia].
Qed.

End vec_lemmas.

(** ** Lemmas on [sort_unique] *)

Lemma unique_after_elem_of x l y :
  y ∈ x :: unique_after x l ↔ y ∈ x :: l.
Proof.
  revert x. induction l as [|z l IH]; intros x; [done|]. simpl.
  case_decide as Hxz.
  - subst z. rewrite IH, !elem_of_cons. naive_solver.
  - rewrite (elem_of_cons _ y x), IH, !elem_of_cons. naive_solver.
Qed.

Lemma std_unique_elem_of l x : x ∈ std_unique l ↔ x ∈ l.
Proof. destruct l; [done|]. apply unique_after_elem_of. Qed.

Lemma unique_after_sorted x l :
  StronglySorted Z.le l → Forall (Z.le x) l →
  StronglySorted Z.lt (unique_after x l) ∧ Forall (Z.lt x) (unique_after x l).
Proof.
  revert x. induction l as [|y l IH]; intros x Hs Hx; simpl.
  { split; constructor. }
  apply StronglySorted_inv in Hs as [Hs Hy].
  apply Forall_cons in Hx as [Hxy Hx].
  case_decide as Hne; [by apply IH|].
  destruct (IH y Hs Hy) as [IH1 IH2]. split.
  - by constructor.
  - constructor; [lia|]. eapply Forall_impl; [exact IH2|]. intros; simpl in *; lia.
Qed.

Lemma std_unique_sorted l :
  StronglySorted Z.le l → StronglySorted Z.lt (std_unique l).
Proof.
  destruct l as [|x l]; [constructor|]. intros [Hs Hx]%StronglySorted_inv.
  destruct (unique_after_sorted x l Hs Hx). by constructor.
Qed.

Lemma sort_unique_elem_of l x : x ∈ sort_unique l ↔ x ∈ l.
Proof.
  unfold sort_unique. rewrite std_unique_elem_of.
  by rewrite merge_sort_Permutation.
Qed.

Lemma sort_unique_sorted l : StronglySorted Z.lt (sort_unique l).
Proof.
  apply std_unique_sorted, StronglySorted_merge_sort; [apply _|].
  intros x y. lia.
Qed.

Lemma StronglySorted_lt_NoDup (l : list Z) : StronglySorted Z.lt l → NoDup l.
Proof.
  induction 1 as [|a l _ IH Ha]; constructor; [|done].
  intros Hin. rewrite Forall_forall in Ha. specialize (Ha a Hin). lia.
Qed.

Lemma sort_unique_NoDup l : NoDup (sort_unique l).
Proof. apply StronglySorted_lt_NoDup, sort_unique_sorted. Qed.

#[export] Hint Resolve sort_unique_sorted sort_unique_NoDup : fcpp.
#[export] Hint Rewrite sort_unique_elem_of std_unique_elem_of : fcpp_rw.

(** ** Comparisons on [Q] *)

Lemma Qlt_bool_iff a b : Qlt_bool a b = true ↔ (a < b)%Q.
Proof.
  unfold Qlt_bool. rewrite negb_true_iff, <- not_true_iff_false, Qle_bool_iff.
  split; [apply Qnot_le_lt | apply Qlt_not_le].
Qed.

Lemma Qlt_bool_false_iff a b : Qlt_bool a b = false ↔ (b <= a)%Q.
Proof.
  unfold Qlt_bool. rewrite negb_false_iff. apply Qle_bool_iff.
Qed.

#[export] Instance Qlt_bool_proper : Proper (Qeq ==> Qeq ==> eq) Qlt_bool.
Proof. intros a a' Ha b b' Hb. unfold Qlt_bool. by rewrite Ha, Hb. Qed.

(** Turns the boolean tests on [Q] of a goal or hypothesis into
    propositions that [lra] reads. *)
Ltac q_tests :=
  repeat match goal with
  | H : Qlt_bool _ _ = true |- _ => apply Qlt_bool_iff in H
  | H : Qlt_bool _ _ = false |- _ => apply Qlt_bool_false_iff in H
  | H : Qeq_bool _ _ = true |- _ => apply Qeq_bool_iff in H
  | H : Qeq_bool _ _ = false |- _ => apply Qeq_bool_neq in H
  | H : Qle_bool _ _ = true |- _ => apply Qle_bool_iff in H
  end.

(** Case analysis on the first boolean test on [Q] in the goal. *)
Ltac q_case :=
  match goal with
  | |- context [Qlt_bool ?a ?b] =>
      let E := fresh "E" in destruct (Qlt_bool a b) eqn:E; q_tests
  | |- context [Qeq_bool ?a ?b] =>
      let E := fresh "E" in destruct (Qeq_bool a b) eqn:E; q_tests
  | |- context [Qle_bool ?a ?b] =>
      let E := fresh "E" in destruct (Qle_bool a b) eqn:E; q_tests
  end.

(** ** Integers in [Q] *)

Lemma inject_Z_sub a b : inject_Z (a - b) = (inject_Z a - inject_Z b)%Q.
Proof. unfold Z.sub. by rewrite inject_Z_plus, inject_Z_opp. Qed.

#[export] Hint Rewrite inject_Z_sub inject_Z_plus inject_Z_mult inject_Z_opp
  : fcpp_inject.

Lemma inject_Z_pos n : 0 < n → (0 < inject_Z n)%Q.
Proof. intros. change 0%Q with (inject_Z 0). by rewrite <- Zlt_Qlt. Qed.

Lemma inject_Z_le a b : a ≤ b → (inject_Z a <= inject_Z b)%Q.
Proof. intros. by rewrite <- Zle_Qle. Qed.

Lemma inject_Z_ge_1 n : 1 ≤ n → (1 <= inject_Z n)%Q.
Proof. intros. change 1%Q with (inject_Z 1). by apply inject_Z_le. Qed.

(** A product of two bounded factors is bounded by the product of the
    bounds. *)
Lemma Qmult_bounded (v a X e : Q) :
  (- X <= v)%Q → (v <= X)%Q → (- e <= a)%Q → (a <= e)%Q →
  (- (X * e) <= v * a)%Q ∧ (v * a <= X * e)%Q.
Proof. intros. split; nra. Qed.

(** ** Rounding on [Q] *)

(** The cell of a world coordinate is a floor; a cell centre is half a
    cell away from the next boundary, so it is found again after an
    error smaller than that. *)
Lemma Qfloor_centre (n : Z) (e : Q) :
  (- (1 # 2) <= e)%Q → (e < 1 # 2)%Q →
  Qfloor (inject_Z n + (1 # 2) + e) = n.
Proof.
  intros Hlo Hhi.
  assert (n ≤ Qfloor (inject_Z n + (1 # 2) + e)) as H1.
  { rewrite <- (Qfloor_Z n) at 1. apply Qfloor_resp_le. lra. }
  assert (Qfloor (inject_Z n + (1 # 2) + e) < n + 1) as H2.
  { apply Z.lt_nge. intros Hge.
    pose proof (Qfloor_le (inject_Z n + (1 # 2) + e)) as Hf.
    assert (inject_Z (n + 1) <= inject_Z (Qfloor (inject_Z n + (1 # 2) + e)))%Q
      as Hi by (by rewrite <- Zle_Qle).
    rewrite inject_Z_plus in Hi. change (inject_Z 1) with 1%Q in Hi. lra. }
  lia.
Qed.

Lemma Qfloor_inject_half (n : Z) : Qfloor (inject_Z n + (1 # 2)) = n.
Proof.
  rewrite <- (Qfloor_centre n 0) at 2; [|lra..].
  apply Qfloor_comp. lra.
Qed.

(** The integers below a ceiling are the integers below the number. *)
Lemma Qceiling_gt (q : Q) (i : Z) : i < Qceiling q ↔ (inject_Z i < q)%Q.
Proof.
  split.
  - intros H. eapply Qle_lt_trans; [|apply Qceiling_lt]. rewrite <- Zle_Qle. lia.
  - intros H. rewrite Zlt_Qlt. eapply Qlt_le_trans; [done|apply Qle_ceiling].
Qed.

(** The indices of a loop that counts up, one more at the end. *)
Lemma seqZ_snoc (n : nat) :
  seqZ 0 (Z.of_nat (S n)) = seqZ 0 (Z.of_nat n) ++ [Z.of_nat n].
Proof. by rewrite Nat2Z.inj_succ, <- Z.add_1_r, seqZ_app by lia. Qed.

(** ** Chains *)

(** [Sorted R l] says that [R] relates every element of [l] to the
    next one; the path of the planner is such a chain of adjacent
    cells, and it grows at its end. *)
Section chains.
Context {A : Type} (R : A → A → Prop).

Lemma Sorted_snoc l x :
  Sorted R l → (∀ y, last l = Some y → R y x) → Sorted R (l ++ [x]).
Proof.
  induction l as [|a l IH]; intros Hl Hx; simpl.
  - repeat constructor.
  - apply Sorted_inv in Hl as [Hl Ha]. constructor.
    + apply IH; [done|]. intros y Hy. apply Hx.
      destruct l; [done|]. by rewrite last_cons_cons.
    + destruct l as [|b l]; simpl; constructor.
      * by apply Hx.
      * by inv Ha.
Qed.

Lemma Sorted_lookup_succ l i a b :
  Sorted R l → l !! i = Some a → l !! S i = Some b → R a b.
Proof.
  revert i. induction l as [|c l IH]; intros i Hl Ha Hb; [done|].
  apply Sorted_inv in Hl as [Hl Hc]. destruct i as [|i]; simpl in *.
  - simplify_eq. destruct l; simplify_eq/=. by inv Hc.
  - eauto.
Qed.

End chains.

Lemma last_lookup_pred {A} (l : list A) : last l = l !! pred (length l).
Proof. by rewrite last_lookup. Qed.
