(* ===== verification/Grid.v ===== *)
(** * GridModel: cells, masks and the coverage grid

    The data the planner works on: the cell types of the source
    ([Point_t], [MapLocation], [gridNode_t]), the boolean masks
    [grid] and [visited] (vectors of rows, read as [m[y][x]]), the
    coverage grid [planner_grid] with its conversions between cells,
    indices and world coordinates, and [SpiralSTC::checkMapBounds].

    The masks are read and written through [mask_at] and [mask_mark],
    which are [Undefined] outside the vectors' ranges.  World
    coordinates are rationals: the [double] arithmetic of the source is
    idealised, and [Qfloor_cell] bounds the error under which a point
    near a cell centre is still found in that cell. *)

From Stdlib Require Import ZArith QArith Qround Lia Lqa.
From stdpp Require Import base tactics list option numbers.
From S2P Require Import Prelude.

Set Warnings "-clear-no-such-hyp".

(** ** Cells *)

(** [Point_t]: a cell with signed coordinates. *)
Record Point_t : Type := mkPoint { p_x : Z; p_y : Z }.

(** [nav2_costmap_2d::MapLocation]: a cell with unsigned coordinates. *)
Record MapLocation : Type := mkLoc { m_x : Z; m_y : Z }.

(** [gridNode_t]: a path node; the spiral fills [cost] and [he] with 0. *)
Record gridNode_t : Type := mkNode { pos : Point_t; cost : Z; he : Z }.

#[global] Instance Point_t_eq_dec : EqDecision Point_t.
Proof. solve_decision. Defined.
#[global] Instance MapLocation_eq_dec : EqDecision MapLocation.
Proof. solve_decision. Defined.
#[global] Instance gridNode_t_eq_dec : EqDecision gridNode_t.
Proof. solve_decision. Defined.

(** The two values of a mask entry. *)
Definition eNodeOpen : bool := false.
Definition eNodeVisited : bool := true.

(** ** Masks *)

(** [std::vector<std::vector<bool>>], a vector of rows. *)
Abbreviation Mask := (list (list bool)).

(** [m[y][x]] *)
Definition mask_at (m : Mask) (x y : Z) : res bool :=
  row ← vec_at m y; vec_at row x.

(** [m[y][x] = eNodeVisited] *)
Definition mask_mark (m : Mask) (x y : Z) : res Mask :=
  row ← vec_at m y;
  row' ← vec_put row x eNodeVisited;
  vec_put m y row'.

(** The mask has [h] rows of [w] entries. *)
Definition mask_dims (m : Mask) (w h : Z) : Prop :=
  Z.of_nat (length m) = h ∧ Forall (λ row, Z.of_nat (length row) = w) m.

(** Every entry set in [m] is set in [m']. *)
Definition mask_le (m m' : Mask) : Prop :=
  ∀ x y, mask_at m x y = Ok true → mask_at m' x y = Ok true.

(** ** The coverage grid *)

(** The fields of [nav2_costmap_2d::Costmap2D] that the planner reads
    through [planner_grid]. *)
Record Costmap2D : Type := mkCostmap {
  size_x : Z;
  size_y : Z;
  resolution : Q;
  origin_x : Q;
  origin_y : Q
}.

Definition getSizeInCellsX (g : Costmap2D) : Z := size_x g.
Definition getSizeInCellsY (g : Costmap2D) : Z := size_y g.

(** The centre of a cell in world coordinates. *)
Definition mapToWorld (g : Costmap2D) (mx my : Z) : Q * Q :=
  ((origin_x g + (inject_Z mx + (1 # 2)) * resolution g)%Q,
   (origin_y g + (inject_Z my + (1 # 2)) * resolution g)%Q).

(** The cell of a world point, with no clamping to the grid. *)
Definition worldToMapNoBounds (g : Costmap2D) (wx wy : Q) : Z * Z :=
  (Qfloor ((wx - origin_x g) / resolution g),
   Qfloor ((wy - origin_y g) / resolution g)).

(** Row-major index of a cell. *)
Definition getIndex (g : Costmap2D) (mx my : Z) : Z :=
  my * size_x g + mx.

Definition indexToCells (g : Costmap2D) (index : Z) : MapLocation :=
  let my := index / size_x g in
  mkLoc (index - my * size_x g) my.

(** [SpiralSTC::checkMapBounds] *)
Definition checkMapBounds (x y x_max y_max : Z) : bool :=
  if (x <? 0) || (x >? x_max) || (y <? 0) || (y >? y_max) then false
  else true.

#[global] Arguments mapToWorld : simpl never.
#[global] Arguments worldToMapNoBounds : simpl never.
#[global] Arguments getIndex : simpl never.
#[global] Arguments indexToCells : simpl never.
#[global] Arguments checkMapBounds : simpl never.

(** A cell lies in the grid. *)
Definition in_grid (g : Costmap2D) (x y : Z) : Prop :=
  0 ≤ x < size_x g ∧ 0 ≤ y < size_y g.

(** The grid has cells of positive size. *)
Definition grid_wf (g : Costmap2D) : Prop :=
  0 < size_x g ∧ 0 < size_y g ∧ (0 < resolution g)%Q.

(** ** Lemmas on masks *)

Lemma mask_at_Ok m x y b :
  mask_at m x y = Ok b ↔
  ∃ row, 0 ≤ y ∧ m !! Z.to_nat y = Some row ∧
         0 ≤ x ∧ row !! Z.to_nat x = Some b.
Proof.
  unfold mask_at. rewrite res_bind_Ok. setoid_rewrite vec_at_Ok. naive_solver.
Qed.

Lemma mask_dims_row m w h y row :
  mask_dims m w h → m !! y = Some row → Z.of_nat (length row) = w.
Proof.
  intros [_ Hrows] Hy. by apply (Forall_lookup_1 _ _ _ _ Hrows Hy).
Qed.

Lemma mask_at_is_Ok m w h x y :
  mask_dims m w h → (is_Ok (mask_at m x y) ↔ 0 ≤ x < w ∧ 0 ≤ y < h).
Proof.
  intros Hd. unfold mask_at. rewrite res_bind_is_Ok. split.
  - intros (row & Hrow & Hx%vec_at_is_Ok).
    assert (is_Ok (vec_at m y)) as Hy%vec_at_is_Ok by (by eexists).
    apply vec_at_Ok in Hrow as [_ Hrow].
    rewrite (mask_dims_row _ _ _ _ _ Hd Hrow) in Hx. destruct Hd. lia.
  - intros [Hx Hy]. destruct (vec_at_inrange m y) as [row Hrow].
    { destruct Hd. lia. }
    exists row. split; [done|]. apply vec_at_is_Ok.
    apply vec_at_Ok in Hrow as [_ Hrow].
    by rewrite (mask_dims_row _ _ _ _ _ Hd Hrow).
Qed.

Lemma mask_mark_Ok m x y m' :
  mask_mark m x y = Ok m' ↔
  ∃ row, 0 ≤ y ∧ m !! Z.to_nat y = Some row ∧
         0 ≤ x < Z.of_nat (length row) ∧
         m' = <[Z.to_nat y := <[Z.to_nat x := true]> row]> m.
Proof.
  unfold mask_mark. rewrite res_bind_Ok. setoid_rewrite res_bind_Ok.
  setoid_rewrite vec_at_Ok. setoid_rewrite vec_put_Ok. split.
  - intros (row & [? ?] & row' & [? ->] & _ & ->). eauto 10.
  - intros (row & ? & Hrow & ? & ->). exists row. split; [done|].
    eexists. split; [done|]. split; [|done].
    apply lookup_lt_Some in Hrow. lia.
Qed.

Lemma mask_mark_is_Ok m w h x y :
  mask_dims m w h → (is_Ok (mask_mark m x y) ↔ 0 ≤ x < w ∧ 0 ≤ y < h).
Proof.
  intros Hd. unfold is_Ok. setoid_rewrite mask_mark_Ok. split.
  - intros (m' & row & ? & Hrow & ? & _).
    rewrite <- (mask_dims_row _ _ _ _ _ Hd Hrow).
    apply lookup_lt_Some in Hrow. destruct Hd. lia.
  - intros [Hx Hy]. destruct Hd as [Hh Hrows].
    destruct (lookup_lt_is_Some_2 m (Z.to_nat y)) as [row Hrow]; [lia|].
    eexists _, row. repeat split; try done; try lia.
    rewrite (mask_dims_row m w h _ _ (conj Hh Hrows) Hrow). lia.
Qed.

Lemma mask_mark_dims m w h x y m' :
  mask_dims m w h → mask_mark m x y = Ok m' → mask_dims m' w h.
Proof.
  intros Hd (row & ? & Hrow & ? & ->)%mask_mark_Ok.
  pose proof (mask_dims_row _ _ _ _ _ Hd Hrow) as Hlen.
  destruct Hd as [Hh Hrows]. split; [by rewrite length_insert|].
  apply Forall_insert; [done|]. by rewrite length_insert.
Qed.

(** Reading a mask after a mark: the marked entry is set, the others
    are as before. *)
Lemma mask_at_mark m x y m' x' y' :
  mask_mark m x y = Ok m' → 0 ≤ x' → 0 ≤ y' →
  mask_at m' x' y' =
    if decide (x' = x ∧ y' = y) then Ok true else mask_at m x' y'.
Proof.
  intros (row & ? & Hrow & ? & ->)%mask_mark_Ok ? ?. unfold mask_at, vec_at.
  rewrite !(decide_True (P := 0 ≤ y')) by done.
  destruct (decide (y' = y)) as [->|Hy].
  - rewrite list_lookup_insert_eq by (by eapply lookup_lt_Some).
    rewrite Hrow. simpl. rewrite !(decide_True (P := 0 ≤ x')) by done.
    destruct (decide (x' = x)) as [->|Hx].
    + rewrite (decide_True (P := _ ∧ _)) by done.
      by rewrite list_lookup_insert_eq by lia.
    + rewrite (decide_False (P := _ ∧ _)) by naive_solver.
      by rewrite list_lookup_insert_ne by lia.
  - rewrite (decide_False (P := _ ∧ _)) by naive_solver.
    by rewrite list_lookup_insert_ne by lia.
Qed.

Lemma mask_mark_le m x y m' : mask_mark m x y = Ok m' → mask_le m m'.
Proof.
  intros Hm x' y' Hat.
  pose proof Hat as (row & ? & _ & ? & _)%mask_at_Ok.
  rewrite (mask_at_mark _ _ _ _ _ _ Hm) by done. by case_decide.
Qed.

Lemma mask_mark_set m x y m' : mask_mark m x y = Ok m' → mask_at m' x y = Ok true.
Proof.
  intros Hm. pose proof Hm as (row & ? & _ & ? & _)%mask_mark_Ok.
  rewrite (mask_at_mark _ _ _ _ _ _ Hm) by lia. by rewrite decide_True.
Qed.

#[export] Instance mask_le_preorder : PreOrder mask_le.
Proof. split; [by intros m x y | intros m1 m2 m3 H1 H2 x y ?; auto]. Qed.

Lemma mask_at_ends m x y : mask_at m x y ≠ OutOfFuel.
Proof. apply res_bind_ends; auto using vec_at_ends. Qed.

Lemma mask_mark_ends m x y : mask_mark m x y ≠ OutOfFuel.
Proof.
  apply res_bind_ends; [apply vec_at_ends|]. intros row _.
  apply res_bind_ends; auto using vec_put_ends.
Qed.

(** A write outside the mask is undefined, and stays outside after
    any mark: marks keep the lengths of the rows. *)
Lemma mask_mark_Undefined m x y : ¬ is_Ok (mask_mark m x y) → mask_mark m x y = Undefined.
Proof.
  intros Hn. destruct (mask_mark m x y) eqn:E; [|done|by apply mask_mark_ends in E].
  destruct Hn. by eexists.
Qed.

Lemma mask_mark_outside m x y m' x' y' :
  mask_mark m x y = Ok m' → mask_mark m x' y' = Undefined →
  mask_mark m' x' y' = Undefined.
Proof.
  intros (row & ? & Hrow & ? & ->)%mask_mark_Ok Hu. apply mask_mark_Undefined.
  intros [m'' (row' & ? & Hrow' & ? & _)%mask_mark_Ok].
  enough (is_Ok (mask_mark m x' y')) as [? E] by congruence.
  destruct (decide (Z.to_nat y' = Z.to_nat y)) as [Ey|Ey].
  - rewrite Ey, list_lookup_insert_eq in Hrow' by (by eapply lookup_lt_Some).
    injection Hrow' as <-. rewrite length_insert in *.
    eexists. apply mask_mark_Ok. exists row. by rewrite Ey.
  - rewrite list_lookup_insert_ne in Hrow' by done.
    eexists. apply mask_mark_Ok. by exists row'.
Qed.

#[export] Hint Resolve mask_mark_le mask_mark_dims mask_mark_set : fcpp.

(** ** Lemmas on the grid *)

Lemma checkMapBounds_true x y x_max y_max :
  checkMapBounds x y x_max y_max = true ↔ 0 ≤ x ≤ x_max ∧ 0 ≤ y ≤ y_max.
Proof. unfold checkMapBounds. case_match; [split; [done|lia] | split; [lia|done]]. Qed.

Lemma checkMapBounds_in_grid g x y :
  checkMapBounds x y (size_x g - 1) (size_y g - 1) = true ↔ in_grid g x y.
Proof. rewrite checkMapBounds_true. unfold in_grid. lia. Qed.

Lemma getIndex_bounds g x y :
  in_grid g x y → 0 ≤ getIndex g x y < size_x g * size_y g.
Proof. unfold in_grid, getIndex. nia. Qed.

Lemma indexToCells_getIndex g x y :
  0 ≤ x < size_x g → indexToCells g (getIndex g x y) = mkLoc x y.
Proof.
  intros Hx. unfold indexToCells, getIndex.
  assert ((y * size_x g + x) / size_x g = y) as ->.
  { rewrite Z.div_add_l by lia. rewrite Z.div_small by lia. lia. }
  f_equal. lia.
Qed.

Lemma getIndex_indexToCells g i :
  let c := indexToCells g i in getIndex g (m_x c) (m_y c) = i.
Proof. unfold indexToCells, getIndex. cbn. lia. Qed.

Lemma getIndex_inj g x y x' y' :
  0 ≤ x < size_x g → 0 ≤ x' < size_x g →
  getIndex g x y = getIndex g x' y' → x = x' ∧ y = y'.
Proof.
  intros Hx Hx' Heq.
  pose proof (indexToCells_getIndex g x y Hx) as H1.
  pose proof (indexToCells_getIndex g x' y' Hx') as H2.
  rewrite Heq in H1. rewrite H1 in H2. by simplify_eq.
Qed.

#[export] Instance mapToWorld_proper g :
  Proper (eq ==> eq ==> prod_relation Qeq Qeq) (mapToWorld g).
Proof. by intros ? ? -> ? ? ->. Qed.

#[export] Instance worldToMapNoBounds_proper g :
  Proper (Qeq ==> Qeq ==> eq) (worldToMapNoBounds g).
Proof.
  intros x x' Hx y y' Hy. unfold worldToMapNoBounds.
  f_equal; apply Qfloor_comp; by rewrite ?Hx, ?Hy.
Qed.

(** The cell of a point that is off a cell centre by less than half a
    cell is that cell. *)
Lemma Qfloor_cell (o r e : Q) (n : Z) :
  (0 < r)%Q → (- ((1 # 2) * r) <= e)%Q → (e < (1 # 2) * r)%Q →
  Qfloor ((o + (inject_Z n + (1 # 2)) * r + e - o) / r) = n.
Proof.
  intros Hr Hlo Hhi.
  transitivity (Qfloor (inject_Z n + (1 # 2) + e / r)).
  - apply Qfloor_comp. field. lra.
  - apply Qfloor_centre.
    + apply Qle_shift_div_l; [done|]. lra.
    + apply Qlt_shift_div_r; [done|]. lra.
Qed.

(** ** Properties of the grid model *)

(** [checkMapBounds] accepts exactly the cells with
    [0 <= x <= x_max] and [0 <= y <= y_max]: each of the four tests of
    the source rejects one side of the box, and nothing else is
    rejected. *)
Theorem checkMapBounds_correct x y x_max y_max :
  checkMapBounds x y x_max y_max = bool_decide (0 ≤ x ≤ x_max ∧ 0 ≤ y ≤ y_max).
Proof.
  destruct (checkMapBounds x y x_max y_max) eqn:E; symmetry.
  - apply bool_decide_eq_true, checkMapBounds_true, E.
  - apply bool_decide_eq_false. intros H%checkMapBounds_true. congruence.
Qed.

(** The index of a cell determines the cell: [indexToCells] undoes
    [getIndex] on every cell whose column is in the grid, whatever the
    row, so the removal of double corners through indices returns the
    corners it was given. *)
Theorem index_roundtrip g x y :
  0 ≤ x < size_x g →
  indexToCells g (getIndex g x y) = mkLoc x y ∧
  getIndex g (m_x (indexToCells g (getIndex g x y)))
             (m_y (indexToCells g (getIndex g x y))) = getIndex g x y.
Proof.
  intros Hx. split; [by apply indexToCells_getIndex|].
  apply getIndex_indexToCells.
Qed.

Lemma index_roundtrip_witness :
  let g := mkCostmap 4 3 (1 # 2) 0 0 in
  indexToCells g (getIndex g 3 2) = mkLoc 3 2 ∧
  getIndex g (m_x (indexToCells g (getIndex g 3 2)))
             (m_y (indexToCells g (getIndex g 3 2))) = getIndex g 3 2.
Proof. apply (index_roundtrip (mkCostmap 4 3 (1 # 2) 0 0) 3 2). simpl. lia. Defined.
