(* ===== verification/Libm.v ===== *)
(** * Angles and the math library

    The planner calls [std::cos], [std::sin] and [std::atan2] and
    compares angles with the constants [M_PI], [0.5*M_PI] and [2*M_PI].
    Angles are carried as rationals in the unit in which those constants
    are rational, the quarter turn: [M_PI] is [2].  The three functions
    are an interface, [Libm]; what the planner needs of them is their
    value on the four axis directions ([LibmLaws]).  Every theorem of the
    development holds for any implementation with these laws.
    [approx_libm] is one: a rational approximation, exact on the axes
    and the diagonals, that the examples evaluate. *)

From Stdlib Require Import ZArith QArith Qround Qabs Lia Lqa.
From stdpp Require Import base tactics list option numbers.
From S2P Require Import Prelude.

Set Warnings "-clear-no-such-hyp".

(** [M_PI], in quarter turns. *)
Definition M_PI : Q := 2.

(** The functions of [<cmath>] that the source calls.  [atan2] takes the
    two [int]s the source passes. *)
Class Libm : Type := {
  cos : Q → Q;
  sin : Q → Q;
  atan2 : Z → Z → Q
}.

(** A heading of the spiral: a unit step along one axis. *)
Definition is_axis (dx dy : Z) : Prop :=
  (dx = 1 ∧ dy = 0) ∨ (dx = 0 ∧ dy = 1) ∨
  (dx = -1 ∧ dy = 0) ∨ (dx = 0 ∧ dy = -1).

#[global] Instance is_axis_dec dx dy : Decision (is_axis dx dy).
Proof. unfold is_axis. apply _. Defined.

(** What the planner relies on: the functions respect equality of
    rationals and are exact on the axes. *)
Class LibmLaws (L : Libm) : Prop := {
  cos_proper :: Proper (Qeq ==> Qeq) cos;
  sin_proper :: Proper (Qeq ==> Qeq) sin;
  cos_0 : cos 0 == 1;
  sin_0 : sin 0 == 0;
  cos_half_pi : cos ((1 # 2) * M_PI) == 0;
  sin_half_pi : sin ((1 # 2) * M_PI) == 1;
  cos_pi : cos M_PI == - (1);
  sin_pi : sin M_PI == 0;
  cos_neg_half_pi : cos (- (1 # 2) * M_PI) == 0;
  sin_neg_half_pi : sin (- (1 # 2) * M_PI) == - (1);
  atan2_east : atan2 0 1 == 0;
  atan2_north : atan2 1 0 == (1 # 2) * M_PI;
  atan2_west : atan2 0 (-1) == M_PI;
  atan2_south : atan2 (-1) 0 == - (1 # 2) * M_PI
}.

(** ** A rational implementation *)

(** Bhaskara's approximation of the sine on a half turn, in quarter
    turns: exact at 0, 1 and 2. *)
Definition sin_half_turn (u : Q) : Q :=
  (4 * u * (2 - u) / (5 - u * (2 - u)))%Q.

(** The angle brought into [-2, 2) by whole turns. *)
Definition wrap_turn (t : Q) : Q :=
  (t - 4 * inject_Z (Qfloor ((t + 2) / 4)))%Q.

Definition approx_sin (t : Q) : Q :=
  let t' := wrap_turn t in
  if Qle_bool 0 t' then sin_half_turn t' else (- sin_half_turn (- t'))%Q.

Definition approx_cos (t : Q) : Q := approx_sin (t + 1).

(** The arc tangent on [-1, 1], in quarter turns: exact at 0 and ±1. *)
Definition atan_unit (z : Q) : Q :=
  (z / 2 + (869 # 5000) * z * (1 - Qabs z))%Q.

Definition approx_atan2 (dy dx : Z) : Q :=
  let y := inject_Z dy in
  let x := inject_Z dx in
  if (dx =? 0) && (dy =? 0) then 0%Q
  else if Z.abs dy <=? Z.abs dx then
    let a := atan_unit (y / x) in
    if 0 <? dx then a else if 0 <=? dy then (a + 2)%Q else (a - 2)%Q
  else
    let a := atan_unit (x / y) in
    if 0 <? dy then (1 - a)%Q else (- (1) - a)%Q.

Definition approx_libm : Libm :=
  {| cos := approx_cos; sin := approx_sin; atan2 := approx_atan2 |}.

(** ** Consequences of the laws *)

Section laws.
Context {L : Libm} {HL : LibmLaws L}.

(** The yaw of an axis heading has the heading as its cosine and sine. *)
Lemma axis_cos_sin dx dy :
  is_axis dx dy →
  cos (atan2 dy dx) == inject_Z dx ∧ sin (atan2 dy dx) == inject_Z dy.
Proof.
  intros [[-> ->]|[[-> ->]|[[-> ->]|[-> ->]]]].
  - rewrite atan2_east. split; [apply cos_0 | apply sin_0].
  - rewrite atan2_north. split; [apply cos_half_pi | apply sin_half_pi].
  - rewrite atan2_west. split; [apply cos_pi | apply sin_pi].
  - rewrite atan2_south. split; [apply cos_neg_half_pi | apply sin_neg_half_pi].
Qed.

(** The yaw of an axis heading is one of the four quarter turns. *)
Lemma axis_yaw dx dy :
  is_axis dx dy →
  atan2 dy dx == 0 ∨ atan2 dy dx == (1 # 2) * M_PI ∨
  atan2 dy dx == M_PI ∨ atan2 dy dx == - (1 # 2) * M_PI.
Proof.
  intros [[-> ->]|[[-> ->]|[[-> ->]|[-> ->]]]];
    eauto using atan2_east, atan2_north, atan2_west, atan2_south.
Qed.

End laws.

(** ** The rational implementation has the laws *)

#[export] Instance wrap_turn_proper : Proper (Qeq ==> Qeq) wrap_turn.
Proof.
  intros t t' Ht. unfold wrap_turn.
  assert (Qfloor ((t + 2) / 4) = Qfloor ((t' + 2) / 4)) as ->
    by (apply Qfloor_comp; by rewrite Ht).
  by rewrite Ht.
Qed.

#[export] Instance sin_half_turn_proper : Proper (Qeq ==> Qeq) sin_half_turn.
Proof. intros u u' Hu. unfold sin_half_turn. by rewrite Hu. Qed.

#[export] Instance approx_sin_proper : Proper (Qeq ==> Qeq) approx_sin.
Proof.
  intros t t' Ht. unfold approx_sin.
  assert (wrap_turn t == wrap_turn t') as Hw by (by rewrite Ht).
  rewrite (Qleb_comp 0%Q 0%Q (reflexivity _) _ _ Hw).
  destruct (Qle_bool 0 (wrap_turn t')); by rewrite Hw.
Qed.

#[export] Instance approx_cos_proper : Proper (Qeq ==> Qeq) approx_cos.
Proof. intros t t' Ht. unfold approx_cos. by rewrite Ht. Qed.

#[export] Instance approx_libm_laws : LibmLaws approx_libm.
Proof.
  split; try apply _; by vm_compute.
Qed.
