(* ===== verification/State.v ===== *)
(** * The planner object

    [SpiralSTC] is a class of the source; its methods share the fields below by
    mutation.  The record [SpiralSTC] holds the fields that the modelled methods read or
    write, under the names they have in the source, and one [set_]
    function per field that a method assigns.  A method that changes
    fields takes the object and returns the new one.

    Two of the fields matter for what the methods compute:
    [computeManoeuvreFootprint] names its output parameter [man_grids]
    but appends its result to [man_cells], which is not a local of that
    method and so is the field of the object; and [spiral] declares a
    local [man_cells] but hands the field [man_grids] to the collision
    check.  The model keeps both fields and follows the names as the
    compiler resolves them. *)

From Stdlib Require Import ZArith QArith Lia.
From stdpp Require Import base tactics list option strings.
From S2P Require Import Prelude Grid.

(** [eRotateDirection] *)
Inductive eRotateDirection : Type :=
| eClockwise
| eAnyDirection
| eCounterClockwise.

#[global] Instance eRotateDirection_eq_dec : EqDecision eRotateDirection.
Proof. solve_decision. Defined.

(** [SpiralSTC::checkManoeuvreCollision] has no [return] statement on
    the path where no cell collides.  The language does not define
    what its caller then reads; a given build of the planner reads a
    fixed value, [flow_off_end].  The theorems hold for both values
    unless they say otherwise. *)
Class Platform : Type := {
  flow_off_end : bool
}.

(** The fields of a [SpiralSTC] object. *)
Record SpiralSTC : Type := mkSpiralSTC {
  planner_grid : Costmap2D;  (* the coverage grid *)
  robot_footprint : list (Q * Q);  (* planner_grid_ros->getRobotFootprint(), in the robot frame *)
  manoeuvre_resolution_ : Z;  (* number of footprints per manoeuvre *)
  max_overlap : Z;  (* bound on the overlap of the direction under test *)
  max_overlap_turn : Z;
  max_overlap_forward : Z;
  man_cells : list MapLocation;  (* written by computeManoeuvreFootprint *)
  man_grids : list MapLocation;  (* read by the collision check of spiral *)
  left_turn : list MapLocation;
  forward : list MapLocation;
  right_turn : list MapLocation;
  turn_around_left : list MapLocation;
  turn_around_right : list MapLocation;
  left_turn_rel : list Point_t;
  forward_rel : list Point_t;
  right_turn_rel : list Point_t;
  turn_around_left_rel : list Point_t;
  turn_around_right_rel : list Point_t;
  visited_copy : Mask;  (* cells marked by the spirals, for display *)
  spiral_counter : Z;  (* spirals planned so far *)
  multiple_pass_counter : Z;  (* spiral_cpp_metrics_.multiple_pass_counter *)
  visited_counter : Z;  (* spiral_cpp_metrics_.visited_counter *)
  accessible_counter : Z  (* spiral_cpp_metrics_.accessible_counter *)
}.

Definition set_planner_grid (v : Costmap2D) (o : SpiralSTC) : SpiralSTC :=
  mkSpiralSTC v (o.(robot_footprint)) (o.(manoeuvre_resolution_)) (o.(max_overlap))
    (o.(max_overlap_turn)) (o.(max_overlap_forward)) (o.(man_cells)) (o.(man_grids))
    (o.(left_turn)) (o.(forward)) (o.(right_turn)) (o.(turn_around_left))
    (o.(turn_around_right)) (o.(left_turn_rel)) (o.(forward_rel)) (o.(right_turn_rel))
    (o.(turn_around_left_rel)) (o.(turn_around_right_rel)) (o.(visited_copy)) (o.(spiral_counter))
    (o.(multiple_pass_counter)) (o.(visited_counter)) (o.(accessible_counter)).

Definition set_robot_footprint (v : list (Q * Q)) (o : SpiralSTC) : SpiralSTC :=
  mkSpiralSTC (o.(planner_grid)) v (o.(manoeuvre_resolution_)) (o.(max_overlap))
    (o.(max_overlap_turn)) (o.(max_overlap_forward)) (o.(man_cells)) (o.(man_grids))
    (o.(left_turn)) (o.(forward)) (o.(right_turn)) (o.(turn_around_left))
    (o.(turn_around_right)) (o.(left_turn_rel)) (o.(forward_rel)) (o.(right_turn_rel))
    (o.(turn_around_left_rel)) (o.(turn_around_right_rel)) (o.(visited_copy)) (o.(spiral_counter))
    (o.(multiple_pass_counter)) (o.(visited_counter)) (o.(accessible_counter)).

Definition set_manoeuvre_resolution_ (v : Z) (o : SpiralSTC) : SpiralSTC :=
  mkSpiralSTC (o.(planner_grid)) (o.(robot_footprint)) v (o.(max_overlap))
    (o.(max_overlap_turn)) (o.(max_overlap_forward)) (o.(man_cells)) (o.(man_grids))
    (o.(left_turn)) (o.(forward)) (o.(right_turn)) (o.(turn_around_left))
    (o.(turn_around_right)) (o.(left_turn_rel)) (o.(forward_rel)) (o.(right_turn_rel))
    (o.(turn_around_left_rel)) (o.(turn_around_right_rel)) (o.(visited_copy)) (o.(spiral_counter))
    (o.(multiple_pass_counter)) (o.(visited_counter)) (o.(accessible_counter)).

Definition set_max_overlap (v : Z) (o : SpiralSTC) : SpiralSTC :=
  mkSpiralSTC (o.(planner_grid)) (o.(robot_footprint)) (o.(manoeuvre_resolution_)) v
    (o.(max_overlap_turn)) (o.(max_overlap_forward)) (o.(man_cells)) (o.(man_grids))
    (o.(left_turn)) (o.(forward)) (o.(right_turn)) (o.(turn_around_left))
    (o.(turn_around_right)) (o.(left_turn_rel)) (o.(forward_rel)) (o.(right_turn_rel))
    (o.(turn_around_left_rel)) (o.(turn_around_right_rel)) (o.(visited_copy)) (o.(spiral_counter))
    (o.(multiple_pass_counter)) (o.(visited_counter)) (o.(accessible_counter)).

Definition set_man_cells (v : list MapLocation) (o : SpiralSTC) : SpiralSTC :=
  mkSpiralSTC (o.(planner_grid)) (o.(robot_footprint)) (o.(manoeuvre_resolution_)) (o.(max_overlap))
    (o.(max_overlap_turn)) (o.(max_overlap_forward)) v (o.(man_grids))
    (o.(left_turn)) (o.(forward)) (o.(right_turn)) (o.(turn_around_left))
    (o.(turn_around_right)) (o.(left_turn_rel)) (o.(forward_rel)) (o.(right_turn_rel))
    (o.(turn_around_left_rel)) (o.(turn_around_right_rel)) (o.(visited_copy)) (o.(spiral_counter))
    (o.(multiple_pass_counter)) (o.(visited_counter)) (o.(accessible_counter)).

Definition set_left_turn_rel (v : list Point_t) (o : SpiralSTC) : SpiralSTC :=
  mkSpiralSTC (o.(planner_grid)) (o.(robot_footprint)) (o.(manoeuvre_resolution_)) (o.(max_overlap))
    (o.(max_overlap_turn)) (o.(max_overlap_forward)) (o.(man_cells)) (o.(man_grids))
    (o.(left_turn)) (o.(forward)) (o.(right_turn)) (o.(turn_around_left))
    (o.(turn_around_right)) v (o.(forward_rel)) (o.(right_turn_rel))
    (o.(turn_around_left_rel)) (o.(turn_around_right_rel)) (o.(visited_copy)) (o.(spiral_counter))
    (o.(multiple_pass_counter)) (o.(visited_counter)) (o.(accessible_counter)).

Definition set_forward_rel (v : list Point_t) (o : SpiralSTC) : SpiralSTC :=
  mkSpiralSTC (o.(planner_grid)) (o.(robot_footprint)) (o.(manoeuvre_resolution_)) (o.(max_overlap))
    (o.(max_overlap_turn)) (o.(max_overlap_forward)) (o.(man_cells)) (o.(man_grids))
    (o.(left_turn)) (o.(forward)) (o.(right_turn)) (o.(turn_around_left))
    (o.(turn_around_right)) (o.(left_turn_rel)) v (o.(right_turn_rel))
    (o.(turn_around_left_rel)) (o.(turn_around_right_rel)) (o.(visited_copy)) (o.(spiral_counter))
    (o.(multiple_pass_counter)) (o.(visited_counter)) (o.(accessible_counter)).

Definition set_right_turn_rel (v : list Point_t) (o : SpiralSTC) : SpiralSTC :=
  mkSpiralSTC (o.(planner_grid)) (o.(robot_footprint)) (o.(manoeuvre_resolution_)) (o.(max_overlap))
    (o.(max_overlap_turn)) (o.(max_overlap_forward)) (o.(man_cells)) (o.(man_grids))
    (o.(left_turn)) (o.(forward)) (o.(right_turn)) (o.(turn_around_left))
    (o.(turn_around_right)) (o.(left_turn_rel)) (o.(forward_rel)) v
    (o.(turn_around_left_rel)) (o.(turn_around_right_rel)) (o.(visited_copy)) (o.(spiral_counter))
    (o.(multiple_pass_counter)) (o.(visited_counter)) (o.(accessible_counter)).

Definition set_turn_around_left_rel (v : list Point_t) (o : SpiralSTC) : SpiralSTC :=
  mkSpiralSTC (o.(planner_grid)) (o.(robot_footprint)) (o.(manoeuvre_resolution_)) (o.(max_overlap))
    (o.(max_overlap_turn)) (o.(max_overlap_forward)) (o.(man_cells)) (o.(man_grids))
    (o.(left_turn)) (o.(forward)) (o.(right_turn)) (o.(turn_around_left))
    (o.(turn_around_right)) (o.(left_turn_rel)) (o.(forward_rel)) (o.(right_turn_rel))
    v (o.(turn_around_right_rel)) (o.(visited_copy)) (o.(spiral_counter))
    (o.(multiple_pass_counter)) (o.(visited_counter)) (o.(accessible_counter)).

Definition set_turn_around_right_rel (v : list Point_t) (o : SpiralSTC) : SpiralSTC :=
  mkSpiralSTC (o.(planner_grid)) (o.(robot_footprint)) (o.(manoeuvre_resolution_)) (o.(max_overlap))
    (o.(max_overlap_turn)) (o.(max_overlap_forward)) (o.(man_cells)) (o.(man_grids))
    (o.(left_turn)) (o.(forward)) (o.(right_turn)) (o.(turn_around_left))
    (o.(turn_around_right)) (o.(left_turn_rel)) (o.(forward_rel)) (o.(right_turn_rel))
    (o.(turn_around_left_rel)) v (o.(visited_copy)) (o.(spiral_counter))
    (o.(multiple_pass_counter)) (o.(visited_counter)) (o.(accessible_counter)).

Definition set_visited_copy (v : Mask) (o : SpiralSTC) : SpiralSTC :=
  mkSpiralSTC (o.(planner_grid)) (o.(robot_footprint)) (o.(manoeuvre_resolution_)) (o.(max_overlap))
    (o.(max_overlap_turn)) (o.(max_overlap_forward)) (o.(man_cells)) (o.(man_grids))
    (o.(left_turn)) (o.(forward)) (o.(right_turn)) (o.(turn_around_left))
    (o.(turn_around_right)) (o.(left_turn_rel)) (o.(forward_rel)) (o.(right_turn_rel))
    (o.(turn_around_left_rel)) (o.(turn_around_right_rel)) v (o.(spiral_counter))
    (o.(multiple_pass_counter)) (o.(visited_counter)) (o.(accessible_counter)).

Definition set_spiral_counter (v : Z) (o : SpiralSTC) : SpiralSTC :=
  mkSpiralSTC (o.(planner_grid)) (o.(robot_footprint)) (o.(manoeuvre_resolution_)) (o.(max_overlap))
    (o.(max_overlap_turn)) (o.(max_overlap_forward)) (o.(man_cells)) (o.(man_grids))
    (o.(left_turn)) (o.(forward)) (o.(right_turn)) (o.(turn_around_left))
    (o.(turn_around_right)) (o.(left_turn_rel)) (o.(forward_rel)) (o.(right_turn_rel))
    (o.(turn_around_left_rel)) (o.(turn_around_right_rel)) (o.(visited_copy)) v
    (o.(multiple_pass_counter)) (o.(visited_counter)) (o.(accessible_counter)).

Definition set_multiple_pass_counter (v : Z) (o : SpiralSTC) : SpiralSTC :=
  mkSpiralSTC (o.(planner_grid)) (o.(robot_footprint)) (o.(manoeuvre_resolution_)) (o.(max_overlap))
    (o.(max_overlap_turn)) (o.(max_overlap_forward)) (o.(man_cells)) (o.(man_grids))
    (o.(left_turn)) (o.(forward)) (o.(right_turn)) (o.(turn_around_left))
    (o.(turn_around_right)) (o.(left_turn_rel)) (o.(forward_rel)) (o.(right_turn_rel))
    (o.(turn_around_left_rel)) (o.(turn_around_right_rel)) (o.(visited_copy)) (o.(spiral_counter))
    v (o.(visited_counter)) (o.(accessible_counter)).

Definition set_visited_counter (v : Z) (o : SpiralSTC) : SpiralSTC :=
  mkSpiralSTC (o.(planner_grid)) (o.(robot_footprint)) (o.(manoeuvre_resolution_)) (o.(max_overlap))
    (o.(max_overlap_turn)) (o.(max_overlap_forward)) (o.(man_cells)) (o.(man_grids))
    (o.(left_turn)) (o.(forward)) (o.(right_turn)) (o.(turn_around_left))
    (o.(turn_around_right)) (o.(left_turn_rel)) (o.(forward_rel)) (o.(right_turn_rel))
    (o.(turn_around_left_rel)) (o.(turn_around_right_rel)) (o.(visited_copy)) (o.(spiral_counter))
    (o.(multiple_pass_counter)) v (o.(accessible_counter)).

Definition set_accessible_counter (v : Z) (o : SpiralSTC) : SpiralSTC :=
  mkSpiralSTC (o.(planner_grid)) (o.(robot_footprint)) (o.(manoeuvre_resolution_)) (o.(max_overlap))
    (o.(max_overlap_turn)) (o.(max_overlap_forward)) (o.(man_cells)) (o.(man_grids))
    (o.(left_turn)) (o.(forward)) (o.(right_turn)) (o.(turn_around_left))
    (o.(turn_around_right)) (o.(left_turn_rel)) (o.(forward_rel)) (o.(right_turn_rel))
    (o.(turn_around_left_rel)) (o.(turn_around_right_rel)) (o.(visited_copy)) (o.(spiral_counter))
    (o.(multiple_pass_counter)) (o.(visited_counter)) v.

Definition set_left_turn (v : list MapLocation) (o : SpiralSTC) : SpiralSTC :=
  mkSpiralSTC (o.(planner_grid)) (o.(robot_footprint)) (o.(manoeuvre_resolution_))
    (o.(max_overlap)) (o.(max_overlap_turn)) (o.(max_overlap_forward)) (o.(man_cells))
    (o.(man_grids)) v (o.(forward)) (o.(right_turn)) (o.(turn_around_left))
    (o.(turn_around_right)) (o.(left_turn_rel)) (o.(forward_rel)) (o.(right_turn_rel))
    (o.(turn_around_left_rel)) (o.(turn_around_right_rel)) (o.(visited_copy))
    (o.(spiral_counter)) (o.(multiple_pass_counter)) (o.(visited_counter))
    (o.(accessible_counter)).

Definition set_forward (v : list MapLocation) (o : SpiralSTC) : SpiralSTC :=
  mkSpiralSTC (o.(planner_grid)) (o.(robot_footprint)) (o.(manoeuvre_resolution_))
    (o.(max_overlap)) (o.(max_overlap_turn)) (o.(max_overlap_forward)) (o.(man_cells))
    (o.(man_grids)) (o.(left_turn)) v (o.(right_turn)) (o.(turn_around_left))
    (o.(turn_around_right)) (o.(left_turn_rel)) (o.(forward_rel)) (o.(right_turn_rel))
    (o.(turn_around_left_rel)) (o.(turn_around_right_rel)) (o.(visited_copy))
    (o.(spiral_counter)) (o.(multiple_pass_counter)) (o.(visited_counter))
    (o.(accessible_counter)).

Definition set_right_turn (v : list MapLocation) (o : SpiralSTC) : SpiralSTC :=
  mkSpiralSTC (o.(planner_grid)) (o.(robot_footprint)) (o.(manoeuvre_resolution_))
    (o.(max_overlap)) (o.(max_overlap_turn)) (o.(max_overlap_forward)) (o.(man_cells))
    (o.(man_grids)) (o.(left_turn)) (o.(forward)) v (o.(turn_around_left))
    (o.(turn_around_right)) (o.(left_turn_rel)) (o.(forward_rel)) (o.(right_turn_rel))
    (o.(turn_around_left_rel)) (o.(turn_around_right_rel)) (o.(visited_copy))
    (o.(spiral_counter)) (o.(multiple_pass_counter)) (o.(visited_counter))
    (o.(accessible_counter)).

Definition set_turn_around_left (v : list MapLocation) (o : SpiralSTC) : SpiralSTC :=
  mkSpiralSTC (o.(planner_grid)) (o.(robot_footprint)) (o.(manoeuvre_resolution_))
    (o.(max_overlap)) (o.(max_overlap_turn)) (o.(max_overlap_forward)) (o.(man_cells))
    (o.(man_grids)) (o.(left_turn)) (o.(forward)) (o.(right_turn)) v (o.(turn_around_right))
    (o.(left_turn_rel)) (o.(forward_rel)) (o.(right_turn_rel)) (o.(turn_around_left_rel))
    (o.(turn_around_right_rel)) (o.(visited_copy)) (o.(spiral_counter))
    (o.(multiple_pass_counter)) (o.(visited_counter)) (o.(accessible_counter)).

Definition set_turn_around_right (v : list MapLocation) (o : SpiralSTC) : SpiralSTC :=
  mkSpiralSTC (o.(planner_grid)) (o.(robot_footprint)) (o.(manoeuvre_resolution_))
    (o.(max_overlap)) (o.(max_overlap_turn)) (o.(max_overlap_forward)) (o.(man_cells))
    (o.(man_grids)) (o.(left_turn)) (o.(forward)) (o.(right_turn)) (o.(turn_around_left)) v
    (o.(left_turn_rel)) (o.(forward_rel)) (o.(right_turn_rel)) (o.(turn_around_left_rel))
    (o.(turn_around_right_rel)) (o.(visited_copy)) (o.(spiral_counter))
    (o.(multiple_pass_counter)) (o.(visited_counter)) (o.(accessible_counter)).

(** ** An object for the examples *)

(** A grid of 10 by 10 cells of 11/30 m (a vehicle width of 1.1 m
    divided by 3) with its origin at the world's. *)
Definition example_grid : Costmap2D := mkCostmap 10 10 (11 # 30) 0 0.

(** A vehicle of 1.0 m by 1.1 m around its centre. *)
Definition example_vehicle : list (Q * Q) :=
  [((- (1 # 2))%Q, (11 # 20)%Q); ((1 # 2)%Q, (11 # 20)%Q);
   ((1 # 2)%Q, (- (11 # 20))%Q); ((- (1 # 2))%Q, (- (11 # 20))%Q)].

(** A freshly constructed planner on that grid: empty vectors, counters
    at zero, 100 footprints per manoeuvre, no overlap allowed. *)
Definition example_obj : SpiralSTC :=
  mkSpiralSTC example_grid example_vehicle 100 0 0 0 [] [] [] [] [] [] []
    [] [] [] [] [] [] 0 0 0 0.

(** The mask of that grid with no cell set. *)
Definition example_free : Mask := replicate 10 (replicate 10 false).

(** A grid of 2 by 2 cells and a planner on it whose catalog holds the
    neighbour on the left, ahead and on the right, with one footprint
    per manoeuvre. *)
Definition small_grid : Costmap2D := mkCostmap 2 2 (11 # 30) 0 0.

Definition small_free : Mask := [[false; false]; [false; false]].

Definition small_obj : SpiralSTC :=
  mkSpiralSTC small_grid example_vehicle 1 0 0 0 [] [] [] [] [] [] []
    [mkPoint 0 1] [mkPoint 1 0] [mkPoint 0 (-1)] [] [] small_free 0 0 0 0.

(** A grid of ten by ten cells of 0.1 m, on which the tool covers four
    columns of cells, and a planner on it that an earlier call on the
    grid of 2 by 2 cells has left its [visited_copy]. *)
Definition fine_grid : Costmap2D := mkCostmap 10 10 (1 # 10) 0 0.

Definition stale_obj : SpiralSTC :=
  mkSpiralSTC fine_grid example_vehicle 1 0 0 0 [] [] [] [] [] [] []
    [] [] [] [] [] small_free 2 0 0 0.

(** The same grid with the cell (0, 1) blocked. *)
Definition small_blocked : Mask := [[false; false]; [true; false]].

(** The two builds of the planner. *)
Definition returns_true : Platform := {| flow_off_end := true |}.
Definition returns_false : Platform := {| flow_off_end := false |}.

(** The catalog of relative manoeuvres is empty. *)
Definition catalog_empty (o : SpiralSTC) : Prop :=
  left_turn_rel o = [] ∧ forward_rel o = [] ∧ right_turn_rel o = [].

(** ** The configuration of an object *)

(** The fields that a spiral reads and never writes: the grid, the
    footprint, the parameters, the manoeuvres and the counters, which
    is every field but [max_overlap], [man_cells] and [visited_copy]. *)
Record same_config (o o' : SpiralSTC) : Prop := mkSameConfig {
  sc_planner_grid : planner_grid o' = planner_grid o;
  sc_robot_footprint : robot_footprint o' = robot_footprint o;
  sc_manoeuvre_resolution : manoeuvre_resolution_ o' = manoeuvre_resolution_ o;
  sc_max_overlap_turn : max_overlap_turn o' = max_overlap_turn o;
  sc_max_overlap_forward : max_overlap_forward o' = max_overlap_forward o;
  sc_man_grids : man_grids o' = man_grids o;
  sc_left_turn : left_turn o' = left_turn o;
  sc_forward : forward o' = forward o;
  sc_right_turn : right_turn o' = right_turn o;
  sc_turn_around_left : turn_around_left o' = turn_around_left o;
  sc_turn_around_right : turn_around_right o' = turn_around_right o;
  sc_left_turn_rel : left_turn_rel o' = left_turn_rel o;
  sc_forward_rel : forward_rel o' = forward_rel o;
  sc_right_turn_rel : right_turn_rel o' = right_turn_rel o;
  sc_turn_around_left_rel : turn_around_left_rel o' = turn_around_left_rel o;
  sc_turn_around_right_rel : turn_around_right_rel o' = turn_around_right_rel o;
  sc_spiral_counter : spiral_counter o' = spiral_counter o;
  sc_multiple_pass_counter : multiple_pass_counter o' = multiple_pass_counter o;
  sc_visited_counter : visited_counter o' = visited_counter o;
  sc_accessible_counter : accessible_counter o' = accessible_counter o
}.

(** ** The setup of an object *)

(** The object with its four counters at zero. *)
Definition counters_reset (o : SpiralSTC) : SpiralSTC :=
  set_spiral_counter 0 (set_multiple_pass_counter 0
    (set_visited_counter 0 (set_accessible_counter 0 o))).

(** The fields that a planning call reads and never writes: those of
    [same_config] without the counters. *)
Definition same_setup (o o' : SpiralSTC) : Prop :=
  same_config (counters_reset o) (counters_reset o').

(** ** Lemmas on the configuration *)

#[export] Instance same_config_equiv : Equivalence same_config.
Proof.
  split.
  - by intros o.
  - intros o o' []. by split.
  - intros o1 o2 o3 [] []. split; congruence.
Qed.

Lemma set_max_overlap_config v o : same_config o (set_max_overlap v o).
Proof. by split. Qed.

Lemma set_man_cells_config v o : same_config o (set_man_cells v o).
Proof. by split. Qed.

Lemma set_visited_copy_config v o : same_config o (set_visited_copy v o).
Proof. by split. Qed.

#[export] Hint Resolve set_max_overlap_config set_man_cells_config
  set_visited_copy_config : fcpp.

(** ** Lemmas on the setup *)

#[export] Instance same_setup_equiv : Equivalence same_setup.
Proof.
  split.
  - intros o. by unfold same_setup.
  - intros o o' H. unfold same_setup in *. by symmetry.
  - intros o1 o2 o3 H1 H2. unfold same_setup in *. by etrans.
Qed.

Lemma same_config_setup o o' : same_config o o' → same_setup o o'.
Proof. intros []. by split. Qed.

Lemma set_spiral_counter_setup v o : same_setup o (set_spiral_counter v o).
Proof. by split. Qed.

Lemma set_multiple_pass_counter_setup v o :
  same_setup o (set_multiple_pass_counter v o).
Proof. by split. Qed.

Lemma set_visited_counter_setup v o : same_setup o (set_visited_counter v o).
Proof. by split. Qed.

Lemma set_accessible_counter_setup v o :
  same_setup o (set_accessible_counter v o).
Proof. by split. Qed.

Lemma set_visited_copy_setup v o : same_setup o (set_visited_copy v o).
Proof. by split. Qed.

(** The fields of the setup that the theorems on planning read. *)
Lemma same_setup_fields o o' :
  same_setup o o' →
  planner_grid o' = planner_grid o ∧ man_grids o' = man_grids o ∧
  left_turn_rel o' = left_turn_rel o ∧ right_turn_rel o' = right_turn_rel o ∧
  max_overlap_turn o' = max_overlap_turn o.
Proof. intros []. by repeat split. Qed.

#[export] Hint Resolve same_config_setup set_spiral_counter_setup
  set_multiple_pass_counter_setup set_visited_counter_setup
  set_accessible_counter_setup set_visited_copy_setup : fcpp.
