(* ===== verification/Raster.v ===== *)
(** * PolygonRasterizer: the cells of a convex polygon

    [Costmap2D::convexFillCells] belongs to the costmap library, which
    the source only calls.  The planner sees it through the interface
    [ConvexFill]; the law it relies on is that the cells returned lie in
    the bounding box of the polygon's corners ([ConvexFillLaws]), which
    keeps every footprint inside the grid when its corners are.

    [hull_fill] is an implementation after the specification: the cells
    of the bounding box that no edge of the convex hull separates from
    the corners, edges included, nothing for fewer than three corners.
    It reads the corners as a set ([hull_fill_cells_perm]): the planner
    passes them sorted by index and not in the order of the outline, a
    difference that this fill does not see and that a fill which
    follows the outline from corner to corner would. *)

From Stdlib Require Import ZArith Lia.
From stdpp Require Import base tactics list option numbers list_numbers.
From S2P Require Import Prelude Grid.

Set Warnings "-clear-no-such-hyp".

(** ** The rasteriser interface *)

(** [Costmap2D::convexFillCells(polygon, polygon_cells)]: the cells it
    appends to [polygon_cells]. *)
Class ConvexFill : Type := {
  convexFillCells : list MapLocation → list MapLocation
}.

(** The cell lies in the bounding box of the polygon's corners. *)
Definition in_box (poly : list MapLocation) (c : MapLocation) : Prop :=
  (∃ p, p ∈ poly ∧ m_x p ≤ m_x c) ∧ (∃ p, p ∈ poly ∧ m_x c ≤ m_x p) ∧
  (∃ p, p ∈ poly ∧ m_y p ≤ m_y c) ∧ (∃ p, p ∈ poly ∧ m_y c ≤ m_y p).

Class ConvexFillLaws (F : ConvexFill) : Prop := {
  fill_in_box : ∀ poly c, c ∈ convexFillCells poly → in_box poly c
}.

(** ** An implementation *)

(** Twice the signed area of the triangle [p q r]: positive when [r] is
    on the left of the line from [p] to [q]. *)
Definition cross (p q r : MapLocation) : Z :=
  (m_x q - m_x p) * (m_y r - m_y p) - (m_y q - m_y p) * (m_x r - m_x p).

(** No corner is on the right of the line from [p] to [q]. *)
Definition hull_edge (poly : list MapLocation) (p q : MapLocation) : bool :=
  forallb (λ r, 0 <=? cross p q r) poly.

(** No such line has [c] on its right. *)
Definition in_hull (poly : list MapLocation) (c : MapLocation) : bool :=
  forallb (λ p,
    forallb (λ q, implb (hull_edge poly p q) (0 <=? cross p q c)) poly) poly.

Definition list_min (x : Z) (l : list Z) : Z := foldr Z.min x l.
Definition list_max (x : Z) (l : list Z) : Z := foldr Z.max x l.

(** The cells of the bounding box of the corners, column by column. *)
Definition box_cells (poly : list MapLocation) : list MapLocation :=
  match poly with
  | [] => []
  | p :: ps =>
      let x0 := list_min (m_x p) (m_x <$> ps) in
      let x1 := list_max (m_x p) (m_x <$> ps) in
      let y0 := list_min (m_y p) (m_y <$> ps) in
      let y1 := list_max (m_y p) (m_y <$> ps) in
      seqZ x0 (x1 - x0 + 1) ≫= λ x, seqZ y0 (y1 - y0 + 1) ≫= λ y, [mkLoc x y]
  end.

Definition hull_fill_cells (poly : list MapLocation) : list MapLocation :=
  if decide (length poly < 3)%nat then []
  else filter (λ c, in_hull poly c = true) (box_cells poly).

Definition hull_fill : ConvexFill := {| convexFillCells := hull_fill_cells |}.

(** ** The implementation has the law *)

Lemma list_min_le x l y : y ∈ x :: l → list_min x l ≤ y.
Proof.
  induction l as [|z l IH]; simpl.
  - intros ->%list_elem_of_singleton. lia.
  - rewrite !elem_of_cons. intros [E|[E|H]]; [|lia|].
    + assert (list_min x l ≤ y) by (apply IH; subst; by left). lia.
    + assert (list_min x l ≤ y) by (apply IH; by right). lia.
Qed.

Lemma list_max_ge x l y : y ∈ x :: l → y ≤ list_max x l.
Proof.
  induction l as [|z l IH]; simpl.
  - intros ->%list_elem_of_singleton. lia.
  - rewrite !elem_of_cons. intros [E|[E|H]]; [|lia|].
    + assert (y ≤ list_max x l) by (apply IH; subst; by left). lia.
    + assert (y ≤ list_max x l) by (apply IH; by right). lia.
Qed.

Lemma list_min_elem_of x l : list_min x l ∈ x :: l.
Proof.
  induction l as [|z l IH]; simpl; [by left|].
  destruct (Z.min_spec z (list_min x l)) as [[_ ->]|[_ ->]].
  - right. by left.
  - apply elem_of_cons in IH as [->|?]; [by left|]. right. by right.
Qed.

Lemma list_max_elem_of x l : list_max x l ∈ x :: l.
Proof.
  induction l as [|z l IH]; simpl; [by left|].
  destruct (Z.max_spec z (list_max x l)) as [[_ ->]|[_ ->]].
  - apply elem_of_cons in IH as [->|?]; [by left|]. right. by right.
  - right. by left.
Qed.

Lemma box_cells_in_box poly c : c ∈ box_cells poly → in_box poly c.
Proof.
  destruct poly as [|p ps]; simpl; [by intros ?%elem_of_nil|].
  intros (x & (y & ->%list_elem_of_singleton & Hy%elem_of_seqZ)%list_elem_of_bind
            & Hx%elem_of_seqZ)%list_elem_of_bind.
  pose proof (list_min_elem_of (m_x p) (m_x <$> ps)) as H1.
  pose proof (list_max_elem_of (m_x p) (m_x <$> ps)) as H2.
  pose proof (list_min_elem_of (m_y p) (m_y <$> ps)) as H3.
  pose proof (list_max_elem_of (m_y p) (m_y <$> ps)) as H4.
  change (?f p :: (?f <$> ps)) with (f <$> (p :: ps)) in *.
  apply list_elem_of_fmap in H1 as (p1 & E1 & ?), H2 as (p2 & E2 & ?),
    H3 as (p3 & E3 & ?), H4 as (p4 & E4 & ?).
  repeat split; [exists p1 | exists p2 | exists p3 | exists p4];
    (split; [done|]); simpl; lia.
Qed.

Lemma box_cells_NoDup poly : NoDup (box_cells poly).
Proof.
  destruct poly as [|p ps]; simpl; [constructor|].
  apply NoDup_bind; [| |apply NoDup_seqZ].
  - intros x1 x2 c _ _ (y1 & ->%list_elem_of_singleton & _)%list_elem_of_bind
      (y2 & [= -> _]%list_elem_of_singleton & _)%list_elem_of_bind. done.
  - intros x _. apply NoDup_bind; [| |apply NoDup_seqZ].
    + by intros y1 y2 c _ _ ->%list_elem_of_singleton [= ->]%list_elem_of_singleton.
    + intros. apply NoDup_singleton.
Qed.

Lemma hull_fill_cells_NoDup poly : NoDup (hull_fill_cells poly).
Proof.
  unfold hull_fill_cells. case_decide; [constructor|].
  apply NoDup_filter, box_cells_NoDup.
Qed.

(** ** The implementation reads the corners as a set *)

(** The least and the greatest of the values are those of the list in
    any order. *)
Lemma list_min_perm x l x' l' : x :: l ≡ₚ x' :: l' → list_min x l = list_min x' l'.
Proof.
  intros Hp. apply Z.le_antisymm; apply list_min_le.
  - rewrite Hp. apply list_min_elem_of.
  - rewrite <- Hp. apply list_min_elem_of.
Qed.

Lemma list_max_perm x l x' l' : x :: l ≡ₚ x' :: l' → list_max x l = list_max x' l'.
Proof.
  intros Hp. apply Z.le_antisymm; apply list_max_ge.
  - rewrite <- Hp. apply list_max_elem_of.
  - rewrite Hp. apply list_max_elem_of.
Qed.

#[export] Instance box_cells_perm : Proper ((≡ₚ) ==> (=)) box_cells.
Proof.
  intros [|p ps] [|p' ps'] Hp; [done|by apply Permutation_nil_cons in Hp|
    by symmetry in Hp; apply Permutation_nil_cons in Hp|]. simpl.
  assert (m_x p :: (m_x <$> ps) ≡ₚ m_x p' :: (m_x <$> ps')) as Hx
    by apply (fmap_Permutation m_x _ _ Hp).
  assert (m_y p :: (m_y <$> ps) ≡ₚ m_y p' :: (m_y <$> ps')) as Hy
    by apply (fmap_Permutation m_y _ _ Hp).
  by rewrite (list_min_perm _ _ _ _ Hx), (list_max_perm _ _ _ _ Hx),
    (list_min_perm _ _ _ _ Hy), (list_max_perm _ _ _ _ Hy).
Qed.

Lemma forallb_perm {A} (f g : A → bool) l l' :
  (∀ a, f a = g a) → l ≡ₚ l' → forallb f l = forallb g l'.
Proof.
  intros Hfg Hp. transitivity (forallb g l).
  { clear Hp. induction l as [|a l IH]; simpl; [done|]. by rewrite Hfg, IH. }
  induction Hp as [|a l l' _ IH|a b l|l l' l'' _ IH1 _ IH2]; simpl;
    [done|by rewrite IH| |by etrans].
  by rewrite !andb_assoc, (andb_comm (g b)).
Qed.

#[export] Instance hull_edge_perm : Proper ((≡ₚ) ==> (=) ==> (=) ==> (=)) hull_edge.
Proof. intros l l' Hp p ? <- q ? <-. by apply forallb_perm. Qed.

#[export] Instance in_hull_perm : Proper ((≡ₚ) ==> (=) ==> (=)) in_hull.
Proof.
  intros l l' Hp c ? <-. apply forallb_perm; [|done]. intros p.
  apply forallb_perm; [|done]. intros q. by rewrite Hp.
Qed.

(** The fill is a function of the set of corners: the order in which
    the planner passes them does not matter to it. *)
#[export] Instance hull_fill_cells_perm : Proper ((≡ₚ) ==> (=)) hull_fill_cells.
Proof.
  intros l l' Hp. unfold hull_fill_cells.
  rewrite (Permutation_length Hp), (box_cells_perm _ _ Hp).
  case_decide; [done|]. apply list_filter_iff. intros c. by rewrite Hp.
Qed.

(** The edges count as inside: every corner is among the cells. *)
Lemma hull_fill_cells_corner poly p :
  (3 ≤ length poly)%nat → p ∈ poly → p ∈ hull_fill_cells poly.
Proof.
  intros Hlen Hp. unfold hull_fill_cells. rewrite decide_False by lia.
  apply list_elem_of_filter. split.
  - apply forallb_forall. intros a _. apply forallb_forall. intros b _.
    destruct (hull_edge poly a b) eqn:E; [|done]. simpl.
    unfold hull_edge in E. rewrite forallb_forall in E. apply E.
    by apply list_elem_of_In.
  - destruct poly as [|q qs]; [by apply elem_of_nil in Hp|]. simpl.
    apply list_elem_of_bind. exists (m_x p). split.
    + apply list_elem_of_bind. exists (m_y p). split; [by destruct p; left|].
      apply elem_of_seqZ.
      assert (m_y p ∈ m_y q :: (m_y <$> qs)) as Hin
        by apply (list_elem_of_fmap_2 m_y (q :: qs) p Hp).
      pose proof (list_min_le _ _ _ Hin). pose proof (list_max_ge _ _ _ Hin). lia.
    + apply elem_of_seqZ.
      assert (m_x p ∈ m_x q :: (m_x <$> qs)) as Hin
        by apply (list_elem_of_fmap_2 m_x (q :: qs) p Hp).
      pose proof (list_min_le _ _ _ Hin). pose proof (list_max_ge _ _ _ Hin). lia.
Qed.

#[export] Instance hull_fill_laws : ConvexFillLaws hull_fill.
Proof.
  split. intros poly c. simpl. unfold hull_fill_cells.
  case_decide; [by intros ?%elem_of_nil|].
  intros [_ Hc]%list_elem_of_filter. by apply box_cells_in_box.
Qed.
