(* ===== verification/Footprint.v ===== *)
(** * FootprintEngine: the cells under a footprint and under a manoeuvre

    [SpiralSTC::computeFootprintCells] places the polygon of a part
    (the vehicle's, from the host, or the tool's, four constants) at a
    pose, turns its corners into cells, removes double corners by
    sorting their indices, and asks the costmap library for the cells
    of the convex polygon.  [SpiralSTC::computeManoeuvreFootprint]
    unions the footprints of the rotation from one pose to the next and
    removes the cells of the first pose.

    The rasteriser [Costmap2D::convexFillCells] is not part of the
    source: it is the interface [ConvexFill] of [Raster], with the one
    law the planner relies on, that the cells lie in the bounding box of
    the corners ([ConvexFillLaws]). *)

From Stdlib Require Import ZArith QArith Qround Lia Lqa.
From stdpp Require Import base tactics list option strings numbers sorting.
From S2P Require Import Prelude Grid Libm State Raster.

Set Warnings "-clear-no-such-hyp".

(** ** Footprints *)

(** The corners of the tool in the robot frame, in metres. *)
Definition tool_footprint : list (Q * Q) :=
  [((1 # 5)%Q, (2 # 5)%Q); ((109 # 200)%Q, (2 # 5)%Q);
   ((109 # 200)%Q, (- (2 # 5))%Q); ((1 # 5)%Q, (- (2 # 5))%Q)].

(** [nav2_costmap_2d::transformFootprint]: the polygon turned by
    [theta] and moved to [(x, y)]. *)
Definition transformFootprint {L : Libm} (x y theta : Q)
    (footprint_spec : list (Q * Q)) : list (Q * Q) :=
  let cos_th := cos theta in
  let sin_th := sin theta in
  map (λ p, ((x + (p.1 * cos_th - p.2 * sin_th))%Q,
             (y + (p.1 * sin_th + p.2 * cos_th))%Q)) footprint_spec.

(** The loop that converts the corners to cells: [None] when a corner
    is outside the grid, where the method returns [false]. *)
Fixpoint footprint_to_ML (g : Costmap2D) (x_max y_max : Z)
    (footprint : list (Q * Q)) : option (list MapLocation) :=
  match footprint with
  | [] => Some []
  | point :: footprint =>
      let '(map_x, map_y) := worldToMapNoBounds g point.1 point.2 in
      if negb (checkMapBounds map_x map_y x_max y_max) then None
      else
        footprint_ML ← footprint_to_ML g x_max y_max footprint;
        Some (mkLoc map_x map_y :: footprint_ML)
  end.

Definition cell_index (g : Costmap2D) (c : MapLocation) : Z :=
  getIndex g (m_x c) (m_y c).

(** Double corners are removed through the sorted indices. *)
Definition unique_cells (g : Costmap2D) (cells : list MapLocation)
    : list MapLocation :=
  map (indexToCells g) (sort_unique (map (cell_index g) cells)).

(** The polygon of a part at a pose, in world coordinates. *)
Definition part_polygon {L : Libm} (st : SpiralSTC) (x_w y_w yaw : Q)
    (part : string) : list (Q * Q) :=
  if String.eqb part "vehicle" then
    transformFootprint x_w y_w yaw (robot_footprint st)
  else if String.eqb part "tool" then
    transformFootprint x_w y_w yaw tool_footprint
  else [].

(** [SpiralSTC::computeFootprintCells]: the returned flag and the
    output vector [footprint_cells] after the call. *)
Definition computeFootprintCells {L : Libm} {F : ConvexFill} (st : SpiralSTC)
    (x_m y_m : Z) (yaw : Q) (part : string)
    (footprint_cells : list MapLocation) : bool * list MapLocation :=
  let g := planner_grid st in
  let '(x_w, y_w) := mapToWorld g x_m y_m in
  let footprint := part_polygon st x_w y_w yaw part in
  let x_max := getSizeInCellsX g - 1 in
  let y_max := getSizeInCellsY g - 1 in
  match footprint_to_ML g x_max y_max footprint with
  | None => (false, footprint_cells)
  | Some footprint_ML =>
      (true, footprint_cells ++ convexFillCells (unique_cells g footprint_ML))
  end.

(** ** Manoeuvres *)

(** "Manually compute the difference in special cases". *)
Definition yaw_diff_special (yaw_current yaw_next : Q) : Q :=
  if (yaw_current ==q - (1 # 2) * M_PI)%fcpp && (yaw_next ==q M_PI)%fcpp
  then (- (1 # 2) * M_PI)%Q
  else if (yaw_current ==q M_PI)%fcpp && (yaw_next ==q - (1 # 2) * M_PI)%fcpp
  then ((1 # 2) * M_PI)%Q
  else (yaw_next - yaw_current)%Q.

(** The angle to turn through: the difference above, then "dictate the
    rotation direction, unless direction = any". *)
Definition yaw_diff_of (yaw_current yaw_next : Q)
    (direction : eRotateDirection) : Q :=
  let yaw_diff := yaw_diff_special yaw_current yaw_next in
  if (yaw_diff <q 0)%fcpp && bool_decide (direction = eCounterClockwise)
  then (yaw_diff + 2 * M_PI)%Q
  else if (yaw_diff >q 0)%fcpp && bool_decide (direction = eClockwise)
  then (yaw_diff - 2 * M_PI)%Q
  else yaw_diff.

(** "Wrap angle back to (-PI, PI]". *)
Definition wrap_yaw (yaw_inter : Q) : Q :=
  if (yaw_inter >q M_PI)%fcpp then (yaw_inter - 2 * M_PI)%Q
  else if (yaw_inter <q - M_PI)%fcpp then (yaw_inter + 2 * M_PI)%Q
  else yaw_inter.

(** The [i]-th intermediate orientation. *)
Definition yaw_inter_of (st : SpiralSTC) (yaw_current yaw_diff : Q) (i : Z) : Q :=
  wrap_yaw (yaw_current +
            (inject_Z i * yaw_diff) / inject_Z (manoeuvre_resolution_ st - 2))%Q.

(** The footprint of the part named by [part]: the pattern
    [if (part == "vehicle" && !computeFootprintCells(..., "vehicle", cells))
       return false;
     else if (part == "tool" && !computeFootprintCells(..., "tool", cells))
       return false;]. *)
Definition footprint_of_part {L : Libm} {F : ConvexFill} (st : SpiralSTC)
    (x_m y_m : Z) (yaw : Q) (part : string) (cells : list MapLocation)
    : bool * list MapLocation :=
  if String.eqb part "vehicle" then
    computeFootprintCells st x_m y_m yaw "vehicle" cells
  else if String.eqb part "tool" then
    computeFootprintCells st x_m y_m yaw "tool" cells
  else (true, cells).

(** The loop over the intermediate orientations, all at the starting
    cell: [None] when one of them leaves the grid. *)
Fixpoint intermediate_footprints {L : Libm} {F : ConvexFill} (st : SpiralSTC)
    (x_current y_current : Z) (yaw_current yaw_diff : Q) (part : string)
    (steps : list Z) (intermediate_cells : list MapLocation)
    : option (list MapLocation) :=
  match steps with
  | [] => Some intermediate_cells
  | i :: steps =>
      let yaw_inter := yaw_inter_of st yaw_current yaw_diff i in
      match footprint_of_part st x_current y_current yaw_inter part [] with
      | (false, _) => None
      | (true, cells) =>
          intermediate_footprints st x_current y_current yaw_current yaw_diff
            part steps (intermediate_cells ++ cells)
      end
  end.

(** The cells of [footprint2_cells] that are no cell of
    [footprint1_cells], without duplicates, by index. *)
Definition new_cells (g : Costmap2D)
    (footprint1_cells footprint2_cells : list MapLocation) : list MapLocation :=
  let footprint1_inds := map (cell_index g) footprint1_cells in
  let man_inds :=
    filter (λ footprint2_ind, footprint2_ind ∉ footprint1_inds)
           (map (cell_index g) footprint2_cells) in
  map (indexToCells g) (sort_unique man_inds).

(** What a manoeuvre newly covers: [None] where the method returns
    [false]. *)
Definition manoeuvre_cells {L : Libm} {F : ConvexFill} (st : SpiralSTC)
    (x_current y_current : Z) (yaw_current : Q) (x_next y_next : Z)
    (yaw_next : Q) (direction : eRotateDirection) (part : string)
    : option (list MapLocation) :=
  match footprint_of_part st x_current y_current yaw_current part [] with
  | (false, _) => None
  | (true, footprint1_cells) =>
      let yaw_diff := yaw_diff_of yaw_current yaw_next direction in
      intermediate_cells ←
        intermediate_footprints st x_current y_current yaw_current yaw_diff
          part (seqZ 1 (manoeuvre_resolution_ st - 2)) [];
      match footprint_of_part st x_next y_next yaw_next part [] with
      | (false, _) => None
      | (true, footprint2_cells) =>
          Some (new_cells (planner_grid st) footprint1_cells
                  (footprint2_cells ++ intermediate_cells))
      end
  end.

(** [SpiralSTC::computeManoeuvreFootprint]: the returned flag, the
    output parameter [man_grids] after the call, and the object after
    the call.  The result is appended to the field [man_cells]; the
    output parameter is not assigned. *)
Definition computeManoeuvreFootprint {L : Libm} {F : ConvexFill} (st : SpiralSTC)
    (x_current y_current : Z) (yaw_current : Q) (x_next y_next : Z)
    (yaw_next : Q) (direction : eRotateDirection) (part : string)
    (man_grids : list MapLocation) : bool * list MapLocation * SpiralSTC :=
  match manoeuvre_cells st x_current y_current yaw_current x_next y_next
          yaw_next direction part with
  | None => (false, man_grids, st)
  | Some cells => (true, man_grids, set_man_cells (man_cells st ++ cells) st)
  end.

(** All cells of the list lie in the grid. *)
Definition cells_in_grid (g : Costmap2D) (cells : list MapLocation) : Prop :=
  Forall (λ c, in_grid g (m_x c) (m_y c)) cells.

(** The cell of a world point. *)
Definition cell_of (g : Costmap2D) (p : Q * Q) : MapLocation :=
  mkLoc (worldToMapNoBounds g p.1 p.2).1 (worldToMapNoBounds g p.1 p.2).2.

(** The cells of the polygon's corners. *)
Definition corner_cells {L : Libm} (st : SpiralSTC) (x_m y_m : Z) (yaw : Q)
    (part : string) : list MapLocation :=
  let g := planner_grid st in
  map (cell_of g)
    (part_polygon st (mapToWorld g x_m y_m).1 (mapToWorld g x_m y_m).2 yaw part).

(** The yaws of the four axis headings. *)
Definition axis_angle (yaw : Q) : Prop :=
  yaw == 0 ∨ yaw == (1 # 2) * M_PI ∨ yaw == M_PI ∨ yaw == - (1 # 2) * M_PI.

(** ** Lemmas on the corner loop *)

Lemma footprint_to_ML_Some g footprint cells :
  footprint_to_ML g (size_x g - 1) (size_y g - 1) footprint = Some cells ↔
  cells = map (cell_of g) footprint ∧ cells_in_grid g cells.
Proof.
  unfold cells_in_grid. revert cells.
  induction footprint as [|p fp IH]; intros cells; cbn [footprint_to_ML map].
  { split; [intros [= <-]; by split | by intros [-> _]]. }
  unfold cell_of at 1. destruct (worldToMapNoBounds g p.1 p.2) as [mx my].
  cbn [fst snd].
  destruct (checkMapBounds mx my (size_x g - 1) (size_y g - 1)) eqn:Hb;
    cbn [negb].
  - apply (checkMapBounds_in_grid g) in Hb.
    destruct (footprint_to_ML g _ _ fp) as [cells'|] eqn:Hfp; cbn.
    + pose proof (proj1 (IH cells') eq_refl) as [-> Hin]. split.
      * intros [= <-]. split; [done|]. by constructor.
      * by intros [-> _].
    + split; [done|]. intros [-> [_ Hin]%Forall_cons_1].
      by pose proof (proj2 (IH _) (conj eq_refl Hin)).
  - split; [done|]. intros [-> [Hin _]%Forall_cons_1]. cbn in Hin.
    apply (checkMapBounds_in_grid g) in Hin. congruence.
Qed.

Lemma footprint_to_ML_None g footprint :
  footprint_to_ML g (size_x g - 1) (size_y g - 1) footprint = None ↔
  ¬ cells_in_grid g (map (cell_of g) footprint).
Proof.
  destruct (footprint_to_ML _ _ _ _) as [cells|] eqn:E.
  - apply footprint_to_ML_Some in E as [-> Hin]. naive_solver.
  - split; [|done]. intros _ Hin.
    pose proof (proj2 (footprint_to_ML_Some _ _ _) (conj eq_refl Hin)).
    congruence.
Qed.

(** ** Lemmas on the removal of double corners *)

Lemma indexToCells_cell_index g c :
  0 ≤ m_x c < size_x g → indexToCells g (cell_index g c) = c.
Proof.
  intros Hx. unfold cell_index. rewrite indexToCells_getIndex by done.
  by destruct c.
Qed.

Lemma cell_index_indexToCells g i : cell_index g (indexToCells g i) = i.
Proof. apply getIndex_indexToCells. Qed.

#[export] Instance indexToCells_inj g : Inj (=) (=) (indexToCells g).
Proof.
  intros i j Hij. by rewrite <- (cell_index_indexToCells g i), Hij,
    cell_index_indexToCells.
Qed.

Lemma unique_cells_elem_of g cells c :
  cells_in_grid g cells → c ∈ unique_cells g cells ↔ c ∈ cells.
Proof.
  intros Hin. unfold unique_cells. rewrite list_elem_of_fmap.
  setoid_rewrite sort_unique_elem_of. setoid_rewrite list_elem_of_fmap.
  unfold cells_in_grid in Hin. rewrite list.Forall_forall in Hin. split.
  - intros (i & -> & c' & -> & Hc').
    rewrite indexToCells_cell_index; [done|]. by apply Hin.
  - intros Hc. exists (cell_index g c). split; [|by eauto].
    rewrite indexToCells_cell_index; [done|]. by apply Hin.
Qed.

Lemma unique_cells_NoDup g cells : NoDup (unique_cells g cells).
Proof. apply (NoDup_fmap_2 _), sort_unique_NoDup. Qed.

Lemma unique_cells_sorted g cells :
  StronglySorted Z.lt (map (cell_index g) (unique_cells g cells)).
Proof.
  unfold unique_cells. rewrite map_map.
  rewrite (map_ext _ id) by (intros; apply cell_index_indexToCells).
  rewrite map_id. apply sort_unique_sorted.
Qed.

Lemma unique_cells_in_grid g cells :
  cells_in_grid g cells → cells_in_grid g (unique_cells g cells).
Proof.
  intros Hin. unfold cells_in_grid. rewrite list.Forall_forall.
  intros c Hc%unique_cells_elem_of; [|done].
  unfold cells_in_grid in Hin. rewrite list.Forall_forall in Hin. by apply Hin.
Qed.

(** ** Lemmas on [computeFootprintCells] *)

Section footprint.
Context {L : Libm} {F : ConvexFill}.

Lemma computeFootprintCells_true st x_m y_m yaw part out out' :
  computeFootprintCells st x_m y_m yaw part out = (true, out') ↔
  cells_in_grid (planner_grid st) (corner_cells st x_m y_m yaw part) ∧
  out' = out ++ convexFillCells
                  (unique_cells (planner_grid st) (corner_cells st x_m y_m yaw part)).
Proof.
  unfold computeFootprintCells, corner_cells, getSizeInCellsX, getSizeInCellsY.
  destruct (mapToWorld _ _ _) as [x_w y_w]. simpl.
  destruct (footprint_to_ML _ _ _ _) as [cells|] eqn:E.
  - apply footprint_to_ML_Some in E as [-> Hin]. naive_solver.
  - split; [done|]. intros [Hin _].
    pose proof (proj2 (footprint_to_ML_Some _ _ _) (conj eq_refl Hin)).
    congruence.
Qed.

Lemma computeFootprintCells_false st x_m y_m yaw part out out' :
  computeFootprintCells st x_m y_m yaw part out = (false, out') ↔
  ¬ cells_in_grid (planner_grid st) (corner_cells st x_m y_m yaw part) ∧
  out' = out.
Proof.
  destruct (computeFootprintCells st x_m y_m yaw part out) as [[] o] eqn:E.
  - apply computeFootprintCells_true in E as [Hin ->]. naive_solver.
  - assert (o = out) as ->.
    { unfold computeFootprintCells in E. destruct (mapToWorld _ _ _).
      destruct (footprint_to_ML _ _ _ _); by simplify_eq. }
    assert (¬ cells_in_grid (planner_grid st) (corner_cells st x_m y_m yaw part)).
    { intros Hin.
      pose proof (proj2 (computeFootprintCells_true st x_m y_m yaw part out _)
                    (conj Hin eq_refl)). congruence. }
    naive_solver.
Qed.

Context {FL : ConvexFillLaws F}.

(** The rasteriser stays in the grid when the corners are in it. *)
Lemma convexFillCells_in_grid g poly :
  cells_in_grid g poly → cells_in_grid g (convexFillCells poly).
Proof.
  unfold cells_in_grid. rewrite !list.Forall_forall. intros Hin c Hc.
  destruct (fill_in_box _ _ Hc)
    as ((p1 & Hp1 & ?) & (p2 & Hp2 & ?) & (p3 & Hp3 & ?) & (p4 & Hp4 & ?)).
  pose proof (Hin _ Hp1). pose proof (Hin _ Hp2).
  pose proof (Hin _ Hp3). pose proof (Hin _ Hp4).
  unfold in_grid in *. lia.
Qed.

Lemma computeFootprintCells_in_grid st x_m y_m yaw part out out' :
  computeFootprintCells st x_m y_m yaw part out = (true, out') →
  cells_in_grid (planner_grid st) out →
  cells_in_grid (planner_grid st) out'.
Proof.
  intros [Hin ->]%computeFootprintCells_true Hout.
  apply Forall_app. split; [done|].
  by apply convexFillCells_in_grid, unique_cells_in_grid.
Qed.

(** Whatever the call returns, the cells it leaves in its output lie in
    the grid when those passed in do. *)
Lemma computeFootprintCells_cells_in_grid st x_m y_m yaw part out :
  cells_in_grid (planner_grid st) out →
  cells_in_grid (planner_grid st) (computeFootprintCells st x_m y_m yaw part out).2.
Proof.
  destruct (computeFootprintCells st x_m y_m yaw part out) as [[] out'] eqn:E.
  - intros Hout. by apply (computeFootprintCells_in_grid _ _ _ _ _ _ _ E).
  - by apply computeFootprintCells_false in E as [_ ->].
Qed.

End footprint.

(** ** With the rasteriser of the specification *)

(** The sorted corners are the corners, each once, in another
    order. *)
Lemma unique_cells_remove_dups g cells :
  cells_in_grid g cells → unique_cells g cells ≡ₚ remove_dups cells.
Proof.
  intros Hin. apply NoDup_Permutation;
    [apply unique_cells_NoDup|apply NoDup_remove_dups|].
  intros c. rewrite elem_of_remove_dups. by apply unique_cells_elem_of.
Qed.

(** A rasteriser that reads the corners as a set does not see what
    the sort did to their order: the footprint is the fill of the
    corner cells in the order of the outline, each once. *)
Lemma computeFootprintCells_hull_fill {L : Libm} st x_m y_m yaw part out out' :
  computeFootprintCells (F := hull_fill) st x_m y_m yaw part out = (true, out') →
  out' = out ++ hull_fill_cells (remove_dups (corner_cells st x_m y_m yaw part)).
Proof.
  intros [Hin ->]%computeFootprintCells_true. f_equal. simpl.
  by apply hull_fill_cells_perm, unique_cells_remove_dups.
Qed.

(** The corner cells are part of such a footprint when three of them
    are distinct. *)
Lemma computeFootprintCells_corners {L : Libm} st x_m y_m yaw part out out' c :
  computeFootprintCells (F := hull_fill) st x_m y_m yaw part out = (true, out') →
  (3 ≤ length (remove_dups (corner_cells st x_m y_m yaw part)))%nat →
  c ∈ corner_cells st x_m y_m yaw part → c ∈ out'.
Proof.
  intros ->%computeFootprintCells_hull_fill Hlen Hc. apply elem_of_app. right.
  apply hull_fill_cells_corner; [done|]. by apply elem_of_remove_dups.
Qed.

(** ** Lemmas on angles *)

Lemma wrap_yaw_range y :
  (- (3 * M_PI) <= y)%Q → (y <= 3 * M_PI)%Q →
  (- M_PI <= wrap_yaw y)%Q ∧ (wrap_yaw y <= M_PI)%Q.
Proof.
  unfold wrap_yaw, M_PI. intros. repeat q_case; simpl; split; lra.
Qed.

Lemma wrap_yaw_id y : (- M_PI <= y)%Q → (y <= M_PI)%Q → wrap_yaw y = y.
Proof.
  unfold wrap_yaw, M_PI. intros. repeat q_case; simpl; try done; lra.
Qed.

#[export] Instance wrap_yaw_proper : Proper (Qeq ==> Qeq) wrap_yaw.
Proof.
  intros y y' Hy. unfold wrap_yaw.
  assert (Qlt_bool M_PI y = Qlt_bool M_PI y') as -> by (by rewrite Hy).
  assert (Qlt_bool y (- M_PI) = Qlt_bool y' (- M_PI)) as -> by (by rewrite Hy).
  repeat case_match; by rewrite Hy.
Qed.

#[export] Instance yaw_diff_special_proper :
  Proper (Qeq ==> Qeq ==> Qeq) yaw_diff_special.
Proof.
  intros a a' Ha b b' Hb. unfold yaw_diff_special.
  assert (∀ c, Qeq_bool a c = Qeq_bool a' c) as Ea by (intros; by rewrite Ha).
  assert (∀ c, Qeq_bool b c = Qeq_bool b' c) as Eb by (intros; by rewrite Hb).
  rewrite !Ea, !Eb. repeat case_match; by rewrite ?Ha, ?Hb.
Qed.

#[export] Instance yaw_diff_of_proper :
  Proper (Qeq ==> Qeq ==> eq ==> Qeq) yaw_diff_of.
Proof.
  intros a a' Ha b b' Hb d d' <-. unfold yaw_diff_of.
  pose proof (yaw_diff_special_proper _ _ Ha _ _ Hb) as Hd.
  assert (Qlt_bool (yaw_diff_special a b) 0 = Qlt_bool (yaw_diff_special a' b') 0)
    as -> by (by rewrite Hd).
  assert (Qlt_bool 0 (yaw_diff_special a b) = Qlt_bool 0 (yaw_diff_special a' b'))
    as -> by (by rewrite Hd).
  repeat case_match; by rewrite Hd.
Qed.

Lemma yaw_diff_special_bounds yaw_current yaw_next :
  (- M_PI <= yaw_current)%Q → (yaw_current <= M_PI)%Q →
  (- M_PI <= yaw_next)%Q → (yaw_next <= M_PI)%Q →
  (- (2 * M_PI) <= yaw_diff_special yaw_current yaw_next)%Q ∧
  (yaw_diff_special yaw_current yaw_next <= 2 * M_PI)%Q.
Proof.
  unfold yaw_diff_special, M_PI. intros.
  repeat (q_case; simpl); split; lra.
Qed.

(** The angle turned through is at most a full turn, and has the sign
    of a forced rotation sense. *)
Lemma yaw_diff_of_bounds yaw_current yaw_next direction :
  (- M_PI <= yaw_current)%Q → (yaw_current <= M_PI)%Q →
  (- M_PI <= yaw_next)%Q → (yaw_next <= M_PI)%Q →
  let d := yaw_diff_of yaw_current yaw_next direction in
  (- (2 * M_PI) <= d)%Q ∧ (d <= 2 * M_PI)%Q ∧
  (direction = eCounterClockwise → (0 <= d)%Q) ∧
  (direction = eClockwise → (d <= 0)%Q).
Proof.
  intros H1 H2 H3 H4.
  destruct (yaw_diff_special_bounds _ _ H1 H2 H3 H4) as [Hlo Hhi].
  unfold yaw_diff_of. generalize dependent (yaw_diff_special yaw_current yaw_next).
  unfold M_PI. intros d0 ? ?.
  destruct direction; simpl; rewrite ?andb_false_r, ?andb_true_r;
    repeat (q_case; simpl); repeat split; intros; try done; lra.
Qed.

(** Between two axis headings the planner turns through the short arc. *)
Lemma yaw_diff_of_axis yaw_current yaw_next :
  axis_angle yaw_current → axis_angle yaw_next →
  (- M_PI <= yaw_diff_of yaw_current yaw_next eAnyDirection)%Q ∧
  (yaw_diff_of yaw_current yaw_next eAnyDirection <= M_PI)%Q.
Proof.
  intros [Ha|[Ha|[Ha|Ha]]] [Hb|[Hb|[Hb|Hb]]];
    rewrite (yaw_diff_of_proper _ _ Ha _ _ Hb _ _ eq_refl); by vm_compute.
Qed.

(** ** Lemmas on the cells of a manoeuvre *)

Lemma cell_index_inj g c c' :
  0 ≤ m_x c < size_x g → 0 ≤ m_x c' < size_x g →
  cell_index g c = cell_index g c' → c = c'.
Proof.
  intros Hc Hc' E. rewrite <- (indexToCells_cell_index g c Hc), E.
  by apply indexToCells_cell_index.
Qed.

Lemma new_cells_elem_of g fp1 fp2 c :
  cells_in_grid g fp1 → cells_in_grid g fp2 →
  c ∈ new_cells g fp1 fp2 ↔ c ∈ fp2 ∧ c ∉ fp1.
Proof.
  unfold new_cells, cells_in_grid. rewrite !list.Forall_forall. intros H1 H2.
  rewrite list_elem_of_fmap. setoid_rewrite sort_unique_elem_of.
  setoid_rewrite list_elem_of_filter. setoid_rewrite list_elem_of_fmap. split.
  - intros (i & -> & Hn & c2 & -> & Hc2).
    rewrite indexToCells_cell_index by (by apply H2). split; [done|].
    intros Hc1. apply Hn. eauto.
  - intros [Hc2 Hn]. exists (cell_index g c).
    rewrite indexToCells_cell_index by (by apply H2).
    split; [done|]. split; [|by eauto]. intros (c1 & E & Hc1).
    apply cell_index_inj in E; [by subst|by apply H2|by apply H1].
Qed.

Lemma new_cells_NoDup g fp1 fp2 : NoDup (new_cells g fp1 fp2).
Proof. apply (NoDup_fmap_2 _), sort_unique_NoDup. Qed.

Lemma new_cells_sorted g fp1 fp2 :
  StronglySorted Z.lt (map (cell_index g) (new_cells g fp1 fp2)).
Proof.
  unfold new_cells. rewrite map_map.
  rewrite (map_ext _ id) by (intros; apply cell_index_indexToCells).
  rewrite map_id. apply sort_unique_sorted.
Qed.

Section manoeuvre.
Context {L : Libm} {F : ConvexFill}.

Lemma footprint_of_part_false st x y yaw part out out' :
  footprint_of_part st x y yaw part out = (false, out') → out' = out.
Proof.
  unfold footprint_of_part.
  repeat case_match; try (by intros [_ ->]%computeFootprintCells_false); done.
Qed.

Lemma intermediate_footprints_app st x y yaw_current yaw_diff part steps acc :
  intermediate_footprints st x y yaw_current yaw_diff part steps acc =
  (acc ++.) <$> intermediate_footprints st x y yaw_current yaw_diff part steps [].
Proof.
  revert acc. induction steps as [|i steps IH]; intros acc; simpl.
  { by rewrite app_nil_r. }
  destruct (footprint_of_part _ _ _ _ _ _) as [[] cs]; [|done].
  rewrite (IH (acc ++ cs)), (IH cs).
  destruct (intermediate_footprints _ _ _ _ _ _ _ []); simpl; [|done].
  by rewrite app_assoc.
Qed.

(** What a call of [computeManoeuvreFootprint] leaves as it was: its
    output parameter, the configuration of the object and the fields
    other than [man_cells]. *)
Lemma computeManoeuvreFootprint_frame st xc yc yawc xn yn yawn direction part
    out b out' st' :
  computeManoeuvreFootprint st xc yc yawc xn yn yawn direction part out
    = (b, out', st') →
  out' = out ∧ same_config st st' ∧ visited_copy st' = visited_copy st ∧
  max_overlap st' = max_overlap st.
Proof.
  unfold computeManoeuvreFootprint.
  destruct (manoeuvre_cells st xc yc yawc xn yn yawn direction part);
    intros [= <- <- <-]; by auto with fcpp.
Qed.

Context {FL : ConvexFillLaws F}.

Lemma footprint_of_part_in_grid st x y yaw part out out' :
  footprint_of_part st x y yaw part out = (true, out') →
  cells_in_grid (planner_grid st) out → cells_in_grid (planner_grid st) out'.
Proof.
  unfold footprint_of_part.
  repeat case_match; eauto using computeFootprintCells_in_grid.
  by intros [= <-].
Qed.

Lemma intermediate_footprints_in_grid st x y yaw_current yaw_diff part steps acc cells :
  intermediate_footprints st x y yaw_current yaw_diff part steps acc = Some cells →
  cells_in_grid (planner_grid st) acc → cells_in_grid (planner_grid st) cells.
Proof.
  revert acc. induction steps as [|i steps IH]; intros acc; simpl.
  { by intros [= <-]. }
  destruct (footprint_of_part _ _ _ _ _ _) as [[] cs] eqn:E; [|done].
  intros H Hacc. apply (IH _ H). apply Forall_app. split; [done|].
  eapply footprint_of_part_in_grid; [exact E|]. constructor.
Qed.

End manoeuvre.

(** ** Properties of the footprint engine *)

Section properties.
Context {L : Libm} {F : ConvexFill}.

Lemma manoeuvre_cells_Some st xc yc yawc xn yn yawn direction part cells :
  manoeuvre_cells st xc yc yawc xn yn yawn direction part = Some cells ↔
  ∃ fp1 inter fp2,
    footprint_of_part st xc yc yawc part [] = (true, fp1) ∧
    intermediate_footprints st xc yc yawc (yaw_diff_of yawc yawn direction)
      part (seqZ 1 (manoeuvre_resolution_ st - 2)) [] = Some inter ∧
    footprint_of_part st xn yn yawn part [] = (true, fp2) ∧
    cells = new_cells (planner_grid st) fp1 (fp2 ++ inter).
Proof.
  unfold manoeuvre_cells.
  destruct (footprint_of_part st xc yc yawc part []) as [[] fp1]; [|naive_solver].
  destruct (intermediate_footprints _ _ _ _ _ _ _ _) as [inter|]; simpl;
    [|naive_solver].
  destruct (footprint_of_part st xn yn yawn part []) as [[] fp2]; naive_solver.
Qed.

(** C35. [computeFootprintCells] returns [false] exactly when the cell of
    a corner of the placed polygon is outside the grid, and then leaves
    the output vector as it was; otherwise it returns [true] and appends
    the fill of the corners' cells without doubles.  Fewer than three
    distinct corners are no error: the call still returns [true]. *)
Theorem computeFootprintCells_cases st x_m y_m yaw part out :
  computeFootprintCells st x_m y_m yaw part out =
  if decide (cells_in_grid (planner_grid st) (corner_cells st x_m y_m yaw part))
  then (true, out ++ convexFillCells
                       (unique_cells (planner_grid st)
                          (corner_cells st x_m y_m yaw part)))
  else (false, out).
Proof.
  case_decide as Hin.
  - by apply computeFootprintCells_true.
  - by apply computeFootprintCells_false.
Qed.

(** C36. The removal of double corners keeps the set of corner cells,
    leaves no cell twice and orders the cells by index: the polygon
    handed to the rasteriser has each corner cell once. *)
Theorem unique_cells_spec g cells :
  cells_in_grid g cells →
  (∀ c, c ∈ unique_cells g cells ↔ c ∈ cells) ∧
  NoDup (unique_cells g cells) ∧
  StronglySorted Z.lt (map (cell_index g) (unique_cells g cells)).
Proof.
  intros Hin. split; [|split].
  - intros c. by apply unique_cells_elem_of.
  - apply unique_cells_NoDup.
  - apply unique_cells_sorted.
Qed.

(** [computeManoeuvreFootprint] stores the cells of the manoeuvre in
    the field [man_cells] of the object, after the cells that field
    already holds, and never assigns its output parameter: whatever the
    caller passes comes back unchanged, also when the call returns
    [true]. *)
Theorem computeManoeuvreFootprint_fields st xc yc yawc xn yn yawn direction
    part out :
  let r := computeManoeuvreFootprint st xc yc yawc xn yn yawn direction part out in
  r.1.2 = out ∧
  match manoeuvre_cells st xc yc yawc xn yn yawn direction part with
  | Some cells =>
      r.1.1 = true ∧ man_cells r.2 = man_cells st ++ cells ∧
      man_grids r.2 = man_grids st
  | None => r.1.1 = false ∧ r.2 = st
  end.
Proof.
  unfold computeManoeuvreFootprint.
  by destruct (manoeuvre_cells st xc yc yawc xn yn yawn direction part).
Qed.

Context {FL : ConvexFillLaws F}.

(** C22. Every cell that [computeFootprintCells] appends lies in the
    grid, so the masks can be indexed with it. *)
Theorem computeFootprintCells_safe st x_m y_m yaw part cells :
  computeFootprintCells st x_m y_m yaw part [] = (true, cells) →
  cells_in_grid (planner_grid st) cells.
Proof.
  intros H. eapply computeFootprintCells_in_grid; [exact H|]. constructor.
Qed.

Lemma manoeuvre_cells_in_grid st xc yc yawc xn yn yawn direction part cells :
  manoeuvre_cells st xc yc yawc xn yn yawn direction part = Some cells →
  cells_in_grid (planner_grid st) cells.
Proof.
  intros (fp1 & inter & fp2 & H1 & Hi & H2 & ->)%manoeuvre_cells_Some.
  assert (cells_in_grid (planner_grid st) fp1) as G1
    by (eapply footprint_of_part_in_grid; [exact H1|constructor]).
  assert (cells_in_grid (planner_grid st) (fp2 ++ inter)) as G2.
  { apply Forall_app. split.
    - eapply footprint_of_part_in_grid; [exact H2|constructor].
    - eapply intermediate_footprints_in_grid; [exact Hi|constructor]. }
  unfold cells_in_grid. rewrite list.Forall_forall.
  intros c [Hc _]%new_cells_elem_of; [|done..].
  unfold cells_in_grid in G2. rewrite list.Forall_forall in G2. by apply G2.
Qed.

(** C10. The cells of a manoeuvre are the cells of the final footprint
    and of the intermediate footprints that the footprint of the
    starting pose does not cover, each once, all in the grid. *)
Theorem manoeuvre_cells_spec st xc yc yawc xn yn yawn direction part cells :
  manoeuvre_cells st xc yc yawc xn yn yawn direction part = Some cells →
  ∃ fp1 inter fp2,
    footprint_of_part st xc yc yawc part [] = (true, fp1) ∧
    intermediate_footprints st xc yc yawc (yaw_diff_of yawc yawn direction)
      part (seqZ 1 (manoeuvre_resolution_ st - 2)) [] = Some inter ∧
    footprint_of_part st xn yn yawn part [] = (true, fp2) ∧
    (∀ c, c ∈ cells ↔ (c ∈ fp2 ∨ c ∈ inter) ∧ c ∉ fp1) ∧
    NoDup cells ∧ cells_in_grid (planner_grid st) cells.
Proof.
  intros H. pose proof (manoeuvre_cells_in_grid _ _ _ _ _ _ _ _ _ _ H) as Hg.
  apply manoeuvre_cells_Some in H as (fp1 & inter & fp2 & H1 & Hi & H2 & ->).
  assert (cells_in_grid (planner_grid st) fp1) as G1
    by (eapply footprint_of_part_in_grid; [exact H1|constructor]).
  assert (cells_in_grid (planner_grid st) (fp2 ++ inter)) as G2.
  { apply Forall_app. split.
    - eapply footprint_of_part_in_grid; [exact H2|constructor].
    - eapply intermediate_footprints_in_grid; [exact Hi|constructor]. }
  exists fp1, inter, fp2. split_and!; try done; [|apply new_cells_NoDup].
  intros c. rewrite (new_cells_elem_of _ _ _ _ G1 G2). by rewrite elem_of_app.
Qed.

End properties.

(** Between two headings of the spiral the rotation takes the short
    arc: for the yaws of two axis headings the angle turned through
    with [eAnyDirection] lies in [[-pi, pi]].  The two special cases of
    the source are what brings the turns between [-pi/2] and [pi] into
    that range. *)
Theorem yaw_diff_short_arc {L : Libm} {HL : LibmLaws L} dx dy dx' dy' :
  is_axis dx dy → is_axis dx' dy' →
  (- M_PI <= yaw_diff_of (atan2 dy dx) (atan2 dy' dx') eAnyDirection)%Q ∧
  (yaw_diff_of (atan2 dy dx) (atan2 dy' dx') eAnyDirection <= M_PI)%Q.
Proof.
  intros Ha Hb. apply yaw_diff_of_axis; unfold axis_angle; by apply axis_yaw.
Qed.

Lemma yaw_diff_short_arc_witness :
  (- M_PI <= yaw_diff_of (atan2 (Libm := approx_libm) (-1) 0)
               (atan2 (Libm := approx_libm) 0 (-1)) eAnyDirection)%Q ∧
  (yaw_diff_of (atan2 (Libm := approx_libm) (-1) 0)
     (atan2 (Libm := approx_libm) 0 (-1)) eAnyDirection <= M_PI)%Q.
Proof.
  apply (yaw_diff_short_arc (L := approx_libm) 0 (-1) (-1) 0);
    unfold is_axis; lia.
Defined.

(** Outside the axis headings the difference of the yaws is not
    reduced: from a start yaw of [-3/4 pi] to the first heading of the
    spiral, [pi/2], the planner turns through [5/4 pi], the long way
    round, where the short arc is [-3/4 pi]. *)
Theorem yaw_diff_long_arc :
  yaw_diff_of (- (3 # 4) * M_PI) ((1 # 2) * M_PI) eAnyDirection == (5 # 4) * M_PI ∧
  (M_PI < yaw_diff_of (- (3 # 4) * M_PI) ((1 # 2) * M_PI) eAnyDirection)%Q.
Proof. by vm_compute. Qed.

(** Every intermediate orientation of a manoeuvre lies in
    [[-pi, pi]] when the two yaws of the manoeuvre do: the angle turned
    through is at most a full turn in either sense, and the wrap of the
    source brings the sum back.  The lower end [-pi] itself is not
    wrapped. *)
Theorem yaw_inter_in_range st yaw_current yaw_next direction i :
  (- M_PI <= yaw_current)%Q → (yaw_current <= M_PI)%Q →
  (- M_PI <= yaw_next)%Q → (yaw_next <= M_PI)%Q →
  1 ≤ i ≤ manoeuvre_resolution_ st - 2 →
  let yaw_inter :=
    yaw_inter_of st yaw_current (yaw_diff_of yaw_current yaw_next direction) i in
  (- M_PI <= yaw_inter)%Q ∧ (yaw_inter <= M_PI)%Q.
Proof.
  intros H1 H2 H3 H4 Hi.
  destruct (yaw_diff_of_bounds _ _ direction H1 H2 H3 H4) as (Hlo & Hhi & _).
  unfold yaw_inter_of. generalize dependent (yaw_diff_of yaw_current yaw_next direction).
  intros d Hlo Hhi. simpl. apply wrap_yaw_range.
  all: set (n := manoeuvre_resolution_ st - 2) in *.
  all: assert (0 < inject_Z n)%Q as Hn by (apply inject_Z_pos; lia).
  all: assert (1 <= inject_Z i)%Q as Hi1 by (apply inject_Z_ge_1; lia).
  all: assert (inject_Z i <= inject_Z n)%Q as Hi2 by (apply inject_Z_le; lia).
  all: unfold M_PI in *.
  - apply Qle_trans with (yaw_current + - (4))%Q; [lra|].
    apply Qplus_le_r. apply Qle_shift_div_l; [done|]. nra.
  - apply Qle_trans with (yaw_current + 4)%Q; [|lra].
    apply Qplus_le_r. apply Qle_shift_div_r; [done|]. nra.
Qed.

Lemma yaw_inter_in_range_witness :
  let yaw_inter :=
    yaw_inter_of example_obj M_PI
      (yaw_diff_of M_PI (- (1 # 2) * M_PI) eClockwise) 98 in
  (- M_PI <= yaw_inter)%Q ∧ (yaw_inter <= M_PI)%Q.
Proof.
  apply (yaw_inter_in_range example_obj M_PI (- (1 # 2) * M_PI) eClockwise 98);
    by vm_compute.
Defined.

Lemma unique_cells_spec_witness :
  let cells := [mkLoc 6 6; mkLoc 6 6; mkLoc 6 4; mkLoc 6 4] in
  (∀ c, c ∈ unique_cells example_grid cells ↔ c ∈ cells) ∧
  NoDup (unique_cells example_grid cells) ∧
  StronglySorted Z.lt (map (cell_index example_grid) (unique_cells example_grid cells)).
Proof.
  apply (unique_cells_spec example_grid [mkLoc 6 6; mkLoc 6 6; mkLoc 6 4; mkLoc 6 4]).
  unfold cells_in_grid, in_grid. repeat constructor; simpl; lia.
Defined.

Lemma computeFootprintCells_safe_witness :
  cells_in_grid (planner_grid example_obj)
    [mkLoc 4 4; mkLoc 4 5; mkLoc 4 6; mkLoc 4 7; mkLoc 5 4; mkLoc 5 5;
     mkLoc 5 6; mkLoc 5 7; mkLoc 6 4; mkLoc 6 5; mkLoc 6 6; mkLoc 6 7].
Proof.
  apply (computeFootprintCells_safe (L := approx_libm) (F := hull_fill)
           example_obj 5 5 0 "vehicle").
  vm_compute. reflexivity.
Defined.

Lemma manoeuvre_cells_spec_witness :
  let cells := [mkLoc 7 4; mkLoc 7 5; mkLoc 7 6; mkLoc 7 7] in
  ∃ fp1 inter fp2,
    footprint_of_part (L := approx_libm) (F := hull_fill)
      example_obj 5 5 0 "vehicle" [] = (true, fp1) ∧
    intermediate_footprints (L := approx_libm) (F := hull_fill)
      example_obj 5 5 0 (yaw_diff_of 0 0 eAnyDirection)
      "vehicle" (seqZ 1 (manoeuvre_resolution_ example_obj - 2)) [] = Some inter ∧
    footprint_of_part (L := approx_libm) (F := hull_fill)
      example_obj 6 5 0 "vehicle" [] = (true, fp2) ∧
    (∀ c, c ∈ cells ↔ (c ∈ fp2 ∨ c ∈ inter) ∧ c ∉ fp1) ∧
    NoDup cells ∧ cells_in_grid (planner_grid example_obj) cells.
Proof.
  apply (manoeuvre_cells_spec (L := approx_libm) (F := hull_fill)
           example_obj 5 5 0 6 5 0 eAnyDirection "vehicle").
  vm_compute. reflexivity.
Defined.
