(* ===== verification/Catalog.v ===== *)
(** * ManoeuvreCatalog: relative manoeuvres and their rotation

    [makePlan] stores the cells of the standard manoeuvres relative to
    a reference cell ([to_rel]); [spiral] turns them into the current
    heading with [SpiralSTC::rotatePoint], which rotates cell centres in
    world coordinates and takes the cell of the result.

    On the headings of the spiral the rotation is the integer rotation
    by quarter turns ([rotatePoint_axis]).  The source computes it in
    floating point, where the cosine of a quarter turn is not zero:
    [rotatePoint_robust] shows that the cell is the same for every
    cosine and sine that are off by less than half a cell over the
    distance rotated, which is why the source goes through the cell
    centres. *)

From Stdlib Require Import ZArith QArith Qround Lia Lqa.
From stdpp Require Import base tactics list option numbers strings.
From S2P Require Import Prelude Grid Libm State Raster Footprint.

Set Warnings "-clear-no-such-hyp".

(** [SpiralSTC::rotatePoint]: the cell [(poi_x, poi_y)] rotated by [yaw]
    about the cell [(icr_x, icr_y)]. *)
Definition rotatePoint {L : Libm} (st : SpiralSTC)
    (poi_x poi_y icr_x icr_y : Z) (yaw : Q) : Point_t :=
  let g := planner_grid st in
  let '(poi_x_w, poi_y_w) := mapToWorld g poi_x poi_y in
  let '(icr_x_w, icr_y_w) := mapToWorld g icr_x icr_y in
  let rotated_x_w :=
    (icr_x_w + (poi_x_w - icr_x_w) * cos yaw - (poi_y_w - icr_y_w) * sin yaw)%Q in
  let rotated_y_w :=
    (icr_y_w + (poi_x_w - icr_x_w) * sin yaw + (poi_y_w - icr_y_w) * cos yaw)%Q in
  let '(x, y) := worldToMapNoBounds g rotated_x_w rotated_y_w in
  mkPoint x y.

(** The loops of [makePlan] that store a manoeuvre relative to the
    reference cell [(mid_x, mid_y)]. *)
Definition to_rel (cells : list MapLocation) (mid_x mid_y : Z) : list Point_t :=
  map (λ c, mkPoint (m_x c - mid_x) (m_y c - mid_y)) cells.

(** One of the calls of lines 506-510 of [makePlan]: the vector handed
    to [computeManoeuvreFootprint] as its output parameter is a field of
    the object, read by [get] and written by [set]. *)
Definition standard_manoeuvre {L : Libm} {F : ConvexFill}
    (get : SpiralSTC → list MapLocation)
    (set : list MapLocation → SpiralSTC → SpiralSTC) (st : SpiralSTC)
    (x_current y_current : Z) (yaw_current : Q) (x_next y_next : Z)
    (yaw_next : Q) (direction : eRotateDirection) : SpiralSTC :=
  let '(_, out, st) :=
    computeManoeuvreFootprint st x_current y_current yaw_current x_next y_next
      yaw_next direction "vehicle" (get st) in
  set out st.

(** Lines 497-510 of [makePlan]: the five standard manoeuvres at the
    middle of the grid. *)
Definition makePlan_manoeuvres {L : Libm} {F : ConvexFill} (st : SpiralSTC)
    : SpiralSTC :=
  let mid_x := getSizeInCellsX (planner_grid st) / 2 in
  let mid_y := getSizeInCellsY (planner_grid st) / 2 in
  let mid_x_plus_one := mid_x + 1 in
  let mid_y_plus_one := mid_y + 1 in
  let mid_y_minus_one := mid_y - 1 in
  let yaw := 0%Q in
  let st := standard_manoeuvre left_turn set_left_turn st mid_x mid_y yaw
              mid_x mid_y_plus_one
              (atan2 (mid_y_plus_one - mid_y) (mid_x - mid_x)) eAnyDirection in
  let st := standard_manoeuvre forward set_forward st mid_x mid_y yaw
              mid_x_plus_one mid_y
              (atan2 (mid_y - mid_y) (mid_x_plus_one - mid_x)) eAnyDirection in
  let st := standard_manoeuvre right_turn set_right_turn st mid_x mid_y yaw
              mid_x mid_y_minus_one
              (atan2 (mid_y_minus_one - mid_y) (mid_x - mid_x)) eAnyDirection in
  let st := standard_manoeuvre turn_around_left set_turn_around_left st
              mid_x mid_y yaw mid_x mid_y (yaw + M_PI)%Q eCounterClockwise in
  standard_manoeuvre turn_around_right set_turn_around_right st
    mid_x mid_y yaw mid_x mid_y (yaw + M_PI)%Q eClockwise.

(** Lines 512-547 of [makePlan]: the five vectors of cells stored
    relative to the middle of the grid. *)
Definition makePlan_relative (st : SpiralSTC) : SpiralSTC :=
  let mid_x := getSizeInCellsX (planner_grid st) / 2 in
  let mid_y := getSizeInCellsY (planner_grid st) / 2 in
  let st := set_left_turn_rel (to_rel (left_turn st) mid_x mid_y) st in
  let st := set_forward_rel (to_rel (forward st) mid_x mid_y) st in
  let st := set_right_turn_rel (to_rel (right_turn st) mid_x mid_y) st in
  let st := set_turn_around_left_rel
              (to_rel (turn_around_left st) mid_x mid_y) st in
  set_turn_around_right_rel (to_rel (turn_around_right st) mid_x mid_y) st.

(** Lines 497-547: the catalog as [makePlan] leaves it. *)
Definition makePlan_catalog {L : Libm} {F : ConvexFill} (st : SpiralSTC)
    : SpiralSTC :=
  makePlan_relative (makePlan_manoeuvres st).

(** The object [st'] is [st] with cells appended to [man_cells]. *)
Definition man_cells_grown (st st' : SpiralSTC) : Prop :=
  ∃ cells, st' = set_man_cells (man_cells st ++ cells) st.

(** The rotation of an offset by the quarter turn of a heading. *)
Definition rotate_axis (dx dy : Z) (v : Point_t) : Point_t :=
  mkPoint (p_x v * dx - p_y v * dy) (p_x v * dy + p_y v * dx).

(** ** Lemmas *)

Section rotate.
Context {L : Libm}.

(** The rotation in terms of the cosine and sine it uses. *)
Lemma rotatePoint_cells st px py cx cy yaw (nx ny : Z) (ex ey : Q) :
  let g := planner_grid st in
  let r := resolution g in
  let vx := inject_Z (px - cx) in
  let vy := inject_Z (py - cy) in
  (0 < r)%Q →
  (r * (vx * cos yaw - vy * sin yaw) == r * inject_Z (nx - cx) + ex)%Q →
  (r * (vx * sin yaw + vy * cos yaw) == r * inject_Z (ny - cy) + ey)%Q →
  (- ((1 # 2) * r) <= ex)%Q → (ex < (1 # 2) * r)%Q →
  (- ((1 # 2) * r) <= ey)%Q → (ey < (1 # 2) * r)%Q →
  rotatePoint st px py cx cy yaw = mkPoint nx ny.
Proof.
  intros g r vx vy Hr Hx Hy Hx1 Hx2 Hy1 Hy2.
  unfold rotatePoint, mapToWorld, worldToMapNoBounds. fold g. fold r.
  f_equal.
  - rewrite <- (Qfloor_cell (origin_x g) r ex nx Hr Hx1 Hx2).
    apply Qfloor_comp. apply Qdiv_comp; [|reflexivity].
    transitivity (origin_x g + (inject_Z cx + (1 # 2)) * r +
                  r * (vx * cos yaw - vy * sin yaw) - origin_x g)%Q.
    { subst vx vy. autorewrite with fcpp_inject. ring. }
    rewrite Hx. autorewrite with fcpp_inject. ring.
  - rewrite <- (Qfloor_cell (origin_y g) r ey ny Hr Hy1 Hy2).
    apply Qfloor_comp. apply Qdiv_comp; [|reflexivity].
    transitivity (origin_y g + (inject_Z cy + (1 # 2)) * r +
                  r * (vx * sin yaw + vy * cos yaw) - origin_y g)%Q.
    { subst vx vy. autorewrite with fcpp_inject. ring. }
    rewrite Hy. autorewrite with fcpp_inject. ring.
Qed.

(** The centre of rotation is a fixed point, whatever the angle. *)
Lemma rotatePoint_centre st cx cy yaw :
  (0 < resolution (planner_grid st))%Q →
  rotatePoint st cx cy cx cy yaw = mkPoint cx cy.
Proof.
  intros Hr. apply (rotatePoint_cells st cx cy cx cy yaw cx cy 0 0 Hr);
    rewrite ?Z.sub_diag; try lra; change (inject_Z 0) with 0%Q; ring.
Qed.

Context {HL : LibmLaws L}.

(** On a heading of the spiral the rotation is the integer one. *)
Lemma rotatePoint_axis_eq st px py cx cy dx dy :
  (0 < resolution (planner_grid st))%Q → is_axis dx dy →
  rotatePoint st px py cx cy (atan2 dy dx) =
  mkPoint (cx + ((px - cx) * dx - (py - cy) * dy))
          (cy + ((px - cx) * dy + (py - cy) * dx)).
Proof.
  intros Hr [Hc Hs]%axis_cos_sin.
  apply (rotatePoint_cells st px py cx cy _ _ _ 0 0 Hr); try lra.
  - rewrite Hc, Hs.
    replace (cx + ((px - cx) * dx - (py - cy) * dy) - cx)
      with ((px - cx) * dx - (py - cy) * dy) by lia.
    autorewrite with fcpp_inject. ring.
  - rewrite Hc, Hs.
    replace (cy + ((px - cx) * dy + (py - cy) * dx) - cy)
      with ((px - cx) * dy + (py - cy) * dx) by lia.
    autorewrite with fcpp_inject. ring.
Qed.

End rotate.

(** ** The standard manoeuvres *)

#[export] Instance man_cells_grown_preorder : PreOrder man_cells_grown.
Proof.
  split.
  - intros st. exists []. rewrite app_nil_r. by destruct st.
  - intros st1 st2 st3 [c1 ->] [c2 ->]. exists (c1 ++ c2). simpl.
    by rewrite app_assoc.
Qed.

Section manoeuvres.
Context {L : Libm} {F : ConvexFill}.

(** A call of [computeManoeuvreFootprint] on a field other than
    [man_cells] leaves that field as it was and appends to
    [man_cells]. *)
Lemma standard_manoeuvre_grown get set st xc yc yawc xn yn yawn direction :
  (∀ o, set (get o) o = o) → (∀ o c, get (set_man_cells c o) = get o) →
  man_cells_grown st
    (standard_manoeuvre get set st xc yc yawc xn yn yawn direction).
Proof.
  intros Hset Hget. unfold standard_manoeuvre, computeManoeuvreFootprint.
  destruct (manoeuvre_cells _ _ _ _ _ _ _ _ _) as [cells|].
  - exists cells. by rewrite <- (Hget st (man_cells st ++ cells)), Hset.
  - rewrite Hset. reflexivity.
Qed.

Lemma makePlan_manoeuvres_grown st : man_cells_grown st (makePlan_manoeuvres st).
Proof.
  unfold makePlan_manoeuvres.
  repeat (etrans; [|apply standard_manoeuvre_grown; by intros []]).
  reflexivity.
Qed.

End manoeuvres.

(** ** Properties of the catalog *)

(** C13. On the headings of the spiral [rotatePoint] is the rotation of
    the offset by quarter turns: a relative cell [v] of the catalog,
    placed at the current cell and rotated by the yaw of the heading
    [(dx, dy)], is the current cell plus [v] turned into the heading.
    No rounding is lost although the rotation goes through world
    coordinates. *)
Theorem rotatePoint_axis {L : Libm} {HL : LibmLaws L} st cx cy dx dy v :
  (0 < resolution (planner_grid st))%Q → is_axis dx dy →
  rotatePoint st (cx + p_x v) (cy + p_y v) cx cy (atan2 dy dx) =
  mkPoint (cx + p_x (rotate_axis dx dy v)) (cy + p_y (rotate_axis dx dy v)).
Proof.
  intros Hr Hax. rewrite (rotatePoint_axis_eq st _ _ cx cy dx dy Hr Hax).
  unfold rotate_axis. simpl. f_equal; lia.
Qed.

Lemma rotatePoint_axis_witness :
  rotatePoint (L := approx_libm) example_obj (5 + 2) (5 + (-1)) 5 5
    (atan2 (Libm := approx_libm) 1 0) =
  mkPoint (5 + p_x (rotate_axis 0 1 (mkPoint 2 (-1))))
          (5 + p_y (rotate_axis 0 1 (mkPoint 2 (-1)))).
Proof.
  apply (rotatePoint_axis (L := approx_libm) example_obj 5 5 0 1 (mkPoint 2 (-1))).
  - by vm_compute.
  - unfold is_axis. lia.
Defined.

(** C37. The rotation does not depend on the exact values of the cosine
    and the sine: whenever they are within [e] of the heading
    [(dx, dy)] and [e] times the distance rotated, in cells along the
    axes, is less than half a cell, [rotatePoint] returns the cell of
    the integer rotation.  This holds for any implementation of the
    math library, with rounding errors, because the rotated points are
    cell centres. *)
Theorem rotatePoint_robust {L : Libm} st px py cx cy yaw dx dy (e : Q) :
  (0 < resolution (planner_grid st))%Q →
  (- e <= cos yaw - inject_Z dx)%Q → (cos yaw - inject_Z dx <= e)%Q →
  (- e <= sin yaw - inject_Z dy)%Q → (sin yaw - inject_Z dy <= e)%Q →
  (inject_Z (Z.abs (px - cx) + Z.abs (py - cy)) * e < 1 # 2)%Q →
  rotatePoint st px py cx cy yaw =
  mkPoint (cx + ((px - cx) * dx - (py - cy) * dy))
          (cy + ((px - cx) * dy + (py - cy) * dx)).
Proof.
  intros Hr Hc1 Hc2 Hs1 Hs2 He.
  set (r := resolution (planner_grid st)) in *.
  set (vx := inject_Z (px - cx)). set (vy := inject_Z (py - cy)).
  set (X := inject_Z (Z.abs (px - cx))). set (Y := inject_Z (Z.abs (py - cy))).
  assert (- X <= vx)%Q as ? by (unfold X; rewrite <- inject_Z_opp; apply inject_Z_le; lia).
  assert (vx <= X)%Q as ? by (apply inject_Z_le; lia).
  assert (- Y <= vy)%Q as ? by (unfold Y; rewrite <- inject_Z_opp; apply inject_Z_le; lia).
  assert (vy <= Y)%Q as ? by (apply inject_Z_le; lia).
  rewrite inject_Z_plus in He. fold X Y in He.
  destruct (Qmult_bounded vx (cos yaw - inject_Z dx) X e) as [? ?]; [done..|].
  destruct (Qmult_bounded vy (sin yaw - inject_Z dy) Y e) as [? ?]; [done..|].
  destruct (Qmult_bounded vx (sin yaw - inject_Z dy) X e) as [? ?]; [done..|].
  destruct (Qmult_bounded vy (cos yaw - inject_Z dx) Y e) as [? ?]; [done..|].
  apply (rotatePoint_cells st px py cx cy yaw _ _
    (r * (vx * (cos yaw - inject_Z dx) - vy * (sin yaw - inject_Z dy)))
    (r * (vx * (sin yaw - inject_Z dy) + vy * (cos yaw - inject_Z dx))) Hr).
  - replace (cx + ((px - cx) * dx - (py - cy) * dy) - cx)
      with ((px - cx) * dx - (py - cy) * dy) by lia.
    subst r vx vy. autorewrite with fcpp_inject. ring.
  - replace (cy + ((px - cx) * dy + (py - cy) * dx) - cy)
      with ((px - cx) * dy + (py - cy) * dx) by lia.
    subst r vx vy. autorewrite with fcpp_inject. ring.
  - fold r. nra.
  - fold r. nra.
  - fold r. nra.
  - fold r. nra.
Qed.

Lemma rotatePoint_robust_witness :
  rotatePoint (L := approx_libm) example_obj 7 4 5 5 (101 # 100) =
  mkPoint (5 + ((7 - 5) * 0 - (4 - 5) * 1)) (5 + ((7 - 5) * 1 + (4 - 5) * 0)).
Proof.
  apply (rotatePoint_robust (L := approx_libm) example_obj 7 4 5 5
           (101 # 100) 0 1 (1 # 50)); by vm_compute.
Defined.

(** C40. The catalog is stored relative to the reference cell and read
    back through [rotatePoint]: at the reference heading, yaw [0], the
    cells that the spiral reconstructs from the relative manoeuvre at
    the reference cell are the cells the manoeuvre was computed with. *)
Theorem to_rel_rotate_back {L : Libm} {HL : LibmLaws L} st cells mid_x mid_y :
  (0 < resolution (planner_grid st))%Q →
  map (λ v, rotatePoint st (mid_x + p_x v) (mid_y + p_y v) mid_x mid_y
              (atan2 0 1))
      (to_rel cells mid_x mid_y) =
  map (λ c, mkPoint (m_x c) (m_y c)) cells.
Proof.
  intros Hr. unfold to_rel. rewrite map_map. apply map_ext. intros c.
  rewrite (rotatePoint_axis_eq st _ _ mid_x mid_y 1 0 Hr); [|unfold is_axis; lia].
  simpl. f_equal; lia.
Qed.

Lemma to_rel_rotate_back_witness :
  let cells := [mkLoc 7 4; mkLoc 7 5; mkLoc 7 6; mkLoc 7 7] in
  map (λ v, rotatePoint (L := approx_libm) example_obj (5 + p_x v) (5 + p_y v)
              5 5 (atan2 (Libm := approx_libm) 0 1))
      (to_rel cells 5 5) =
  map (λ c, mkPoint (m_x c) (m_y c)) cells.
Proof.
  apply (to_rel_rotate_back (L := approx_libm) example_obj
           [mkLoc 7 4; mkLoc 7 5; mkLoc 7 6; mkLoc 7 7] 5 5).
  by vm_compute.
Defined.

(** C25. The catalog that [makePlan] computes does not depend on the
    manoeuvres it has just computed: [computeManoeuvreFootprint] leaves
    the vectors [left_turn], [forward], [right_turn] and the two
    turn-around vectors as they were and appends all five results to
    [man_cells], so the relative manoeuvres are those of the vectors
    before the call, and [man_grids] is not written either. *)
Theorem makePlan_catalog_stale {L : Libm} {F : ConvexFill} st :
  let st' := makePlan_catalog st in
  let mid_x := getSizeInCellsX (planner_grid st) / 2 in
  let mid_y := getSizeInCellsY (planner_grid st) / 2 in
  left_turn_rel st' = to_rel (left_turn st) mid_x mid_y ∧
  forward_rel st' = to_rel (forward st) mid_x mid_y ∧
  right_turn_rel st' = to_rel (right_turn st) mid_x mid_y ∧
  turn_around_left_rel st' = to_rel (turn_around_left st) mid_x mid_y ∧
  turn_around_right_rel st' = to_rel (turn_around_right st) mid_x mid_y ∧
  man_grids st' = man_grids st ∧
  ∃ cells, man_cells st' = man_cells st ++ cells.
Proof.
  unfold makePlan_catalog.
  destruct (makePlan_manoeuvres_grown st) as [cells ->].
  repeat split. by exists cells.
Qed.
