(* ===== verification/Spiral.v ===== *)
(** * Spiral: one spiral of the planner

    [SpiralSTC::spiral] (src/src/spiral_stc.cpp, lines 105-304) and
    [SpiralSTC::checkManoeuvreCollision] (lines 800-809).

    The local variables of [spiral] that live across iterations of its
    [while] loop are the fields of [spiral_state]; the list iterator
    [it] is the position it points at.  The body of the loop is
    [spiral_turn] (lines 140-149) followed by [spiral_directions], the
    [for] loop over left, forward and right, whose body is
    [spiral_direction] (lines 155-300).  [spiral_loop] is the [while]
    loop, bounded by a fuel argument: one unit of fuel is one
    iteration, and every iteration but the last appends one node.  The
    same loop is the transition system [spiral_step] with its last
    pass [spiral_last]; [spiral_loop_steps] relates the two.  What the
    loop computes, without its iterator and its masks, is the abstract
    spiral of [Walk].

    Names resolve as in the source: the collision check of line 228
    reads the field [man_grids] of the object, not the local
    [man_cells] that the lines above it fill, and the cells that
    [computeManoeuvreFootprint] computes go to the field [man_cells],
    so the local [visited_cells] is what was passed in. *)

From Stdlib Require Import ZArith QArith Lia.
From stdpp Require Import base tactics list option numbers list_numbers strings sorting
  relations.
From S2P Require Import Prelude Grid Libm State Raster Footprint Catalog.

Set Warnings "-clear-no-such-hyp".

#[local] Open Scope fcpp_scope.

(** ** State of the loop *)

(** The variables of [spiral] (lines 108-120) and, as [this], the
    object whose fields the loop writes. *)
Record spiral_state : Type := mkSpiral {
  path_nodes : list gridNode_t;
  it : nat;
  prev : gridNode_t;
  dx : Z;
  dy : Z;
  yaw_current : Q;
  visited : Mask;
  this : SpiralSTC
}.

(** How one pass of the [for] loop of lines 153-301 ends: the node was
    appended ([break] with [done = false]), the collision check failed
    ([break] with [done = true]), or the heading turned clockwise for
    the next pass. *)
Inductive attempt : Type :=
| Accepted (s : spiral_state)
| Collision (s : spiral_state)
| Rejected (s : spiral_state).

(** ** Operations *)

(** [path_nodes.back()] *)
Definition back (path_nodes : list gridNode_t) : res gridNode_t :=
  match last path_nodes with
  | Some n => Ok n
  | None => Undefined
  end.

(** Lines 802-809.  Without a collision the function flows off its
    end. *)
Fixpoint checkManoeuvreCollision {P : Platform}
    (man_grids : list MapLocation) (grid : Mask) : res bool :=
  match man_grids with
  | [] => Ok flow_off_end
  | man_grid :: man_grids' =>
      c ← mask_at grid (m_x man_grid) (m_y man_grid);
      if Bool.eqb c eNodeVisited then Ok false
      else checkManoeuvreCollision man_grids' grid
  end.

(** Lines 128-132 and 289-293: the cells set in [visited] and in the
    field [visited_copy]. *)
Definition mark_cells (visited visited_copy : Mask)
    (cells : list MapLocation) : res (Mask * Mask) :=
  res_foldl (λ '(v, vc) cell,
    v' ← mask_mark v (m_x cell) (m_y cell);
    vc' ← mask_mark vc (m_x cell) (m_y cell);
    Ok (v', vc')) (visited, visited_copy) cells.

(** Lines 108-132. *)
Definition spiral_init {L : Libm} {F : ConvexFill} (st : SpiralSTC)
    (init : list gridNode_t) (yaw_start : Q) (visited : Mask)
    : res spiral_state :=
  let path_nodes := init in
  last_node ← back path_nodes;
  let it := (length path_nodes - 1)%nat in
  let it := if decide (1 < length path_nodes)%nat then (it - 1)%nat else it in
  prev ← vec_at path_nodes (Z.of_nat it);
  let yaw_current := yaw_start in
  let '(_, init_cells) :=
    computeFootprintCells st (p_x (pos last_node)) (p_y (pos last_node))
      yaw_current "tool" [] in
  '(visited, visited_copy) ← mark_cells visited (visited_copy st) init_cells;
  Ok (mkSpiral path_nodes it prev 0 1 yaw_current visited
        (set_visited_copy visited_copy st)).

(** Lines 140-149. *)
Definition spiral_turn {L : Libm} (s : spiral_state) : res spiral_state :=
  if decide (it s ≠ 0%nat) then
    last_node ← back (path_nodes s);
    let dx := p_x (pos last_node) - p_x (pos (prev s)) in
    let dy := p_y (pos last_node) - p_y (pos (prev s)) in
    let yaw_current := atan2 dy dx in
    let dx_prev := dx in
    let dx := - dy in
    let dy := dx_prev in
    Ok (mkSpiral (path_nodes s) (it s) (prev s) dx dy yaw_current
          (visited s) (this s))
  else Ok s.

(** Lines 171-185, and the same loop at 190-204 and 209-223: the
    relative cells turned to the heading, up to the first one outside
    the grid.  The entries of the resized vector that the loop does not
    reach stay zero. *)
Fixpoint rotate_rel {L : Libm} (st : SpiralSTC) (rel : list Point_t)
    (x_current y_current : Z) (yaw_current : Q) (x_max y_max : Z)
    : bool * list MapLocation :=
  match rel with
  | [] => (true, [])
  | r :: rel' =>
      let p := rotatePoint st (x_current + p_x r) (y_current + p_y r)
                 x_current y_current yaw_current in
      if negb (checkMapBounds (p_x p) (p_y p) x_max y_max) then
        (false, replicate (length rel) (mkLoc 0 0))
      else
        let '(man_is_free, man_cells) :=
          rotate_rel st rel' x_current y_current yaw_current x_max y_max in
        (man_is_free, mkLoc (p_x p) (p_y p) :: man_cells)
  end.

(** The relative manoeuvre and the overlap bound of the branches of
    lines 169, 188 and 207. *)
Definition direction_rel (st : SpiralSTC) (i : Z) : option (list Point_t * Z) :=
  if i =? 0 then Some (left_turn_rel st, max_overlap_turn st)
  else if i =? 1 then Some (forward_rel st, max_overlap_forward st)
  else if i =? 2 then Some (right_turn_rel st, max_overlap_turn st)
  else None.

(** Lines 168-225: [man_is_free], the local [man_cells] and the object
    with [max_overlap] assigned. *)
Definition rotate_manoeuvre {L : Libm} (st : SpiralSTC) (i : Z)
    (x_current y_current : Z) (yaw_current : Q) (x_max y_max : Z)
    : bool * list MapLocation * SpiralSTC :=
  match direction_rel st i with
  | Some (rel, overlap) =>
      let '(man_is_free, man_cells) :=
        rotate_rel st rel x_current y_current yaw_current x_max y_max in
      (man_is_free, man_cells, set_max_overlap overlap st)
  | None => (true, [], st)
  end.

(** Lines 235-245. *)
Definition count_overlap (grid visited : Mask)
    (visited_cells : list MapLocation) : res Z :=
  res_foldl (λ overlap visited_cell,
    c ← mask_at grid (m_x visited_cell) (m_y visited_cell);
    if Bool.eqb c eNodeOpen then
      v ← mask_at visited (m_x visited_cell) (m_y visited_cell);
      Ok (if Bool.eqb v eNodeVisited then overlap + 1 else overlap)
    else Ok overlap) 0 visited_cells.

(** Lines 250-261: the relative cells of a turn, at the next node. *)
Definition future_cells {L : Libm} (st : SpiralSTC) (rel : list Point_t)
    (x_next y_next : Z) (yaw_next : Q) : list Point_t :=
  map (λ r, rotatePoint st (x_next + p_x r) (y_next + p_y r)
              x_next y_next yaw_next) rel.

(** The test of lines 266 and 270 on one cell. *)
Definition cell_blocked (grid : Mask) (p : Point_t) (x_max y_max : Z)
    : res bool :=
  if negb (checkMapBounds (p_x p) (p_y p) x_max y_max) then Ok true
  else c ← mask_at grid (p_x p) (p_y p); Ok (Bool.eqb c eNodeVisited).

(** Lines 266-273: the body of the loop, on the two flags. *)
Definition future_check (grid : Mask) (future_left future_right : list Point_t)
    (x_max y_max : Z) (rejected : bool * bool) (i : Z) : res (bool * bool) :=
  let '(future_left_rejected, future_right_rejected) := rejected in
  fl ← vec_at future_left i;
  bl ← cell_blocked grid fl x_max y_max;
  fr ← vec_at future_right i;
  br ← cell_blocked grid fr x_max y_max;
  Ok (future_left_rejected || bl, future_right_rejected || br).

(** Lines 262-274: both vectors are indexed up to the size of
    [future_left]. *)
Definition future_rejected (grid : Mask) (future_left future_right : list Point_t)
    (x_max y_max : Z) : res (bool * bool) :=
  res_foldl (future_check grid future_left future_right x_max y_max)
    (false, false) (seqZ 0 (Z.of_nat (length future_left))).

(** Lines 155-300: one pass of the [for] loop, for direction [i]. *)
Definition spiral_direction {L : Libm} {F : ConvexFill} {P : Platform}
    (grid : Mask) (i : Z) (s : spiral_state) : res attempt :=
  last_node ← back (path_nodes s);
  let x_current := p_x (pos last_node) in
  let y_current := p_y (pos last_node) in
  let x_next := p_x (pos last_node) + dx s in
  let y_next := p_y (pos last_node) + dy s in
  let yaw_next := atan2 (y_next - y_current) (x_next - x_current) in
  let x_max := getSizeInCellsX (planner_grid (this s)) - 1 in
  let y_max := getSizeInCellsY (planner_grid (this s)) - 1 in
  let '(man_is_free, _, st) :=
    rotate_manoeuvre (this s) i x_current y_current (yaw_current s) x_max y_max in
  free ← checkManoeuvreCollision (man_grids st) grid;
  if negb free then
    Ok (Collision (mkSpiral (path_nodes s) (it s) (prev s) (dx s) (dy s)
                     (yaw_current s) (visited s) st))
  else
    let '(_, visited_cells, st) :=
      computeManoeuvreFootprint st x_current y_current (yaw_current s)
        x_next y_next (atan2 (y_next - y_current) (x_next - x_current))
        eAnyDirection "tool" [] in
    overlap ← count_overlap grid (visited s) visited_cells;
    let future_left := future_cells st (left_turn_rel st) x_next y_next yaw_next in
    let future_right := future_cells st (right_turn_rel st) x_next y_next yaw_next in
    '(future_left_rejected, future_right_rejected) ←
      future_rejected grid future_left future_right x_max y_max;
    let man_is_free :=
      if future_left_rejected && future_right_rejected then false
      else man_is_free in
    if man_is_free && (overlap <=? max_overlap st) then
      let new_node := mkNode (mkPoint x_next y_next) 0 0 in
      '(visited, visited_copy) ←
        mark_cells (visited s) (visited_copy st) visited_cells;
      Ok (Accepted (mkSpiral (path_nodes s ++ [new_node])
                      (length (path_nodes s)) last_node (dx s) (dy s)
                      (yaw_current s) visited
                      (set_visited_copy visited_copy st)))
    else
      Ok (Rejected (mkSpiral (path_nodes s) (it s) (prev s) (dy s) (- dx s)
                      (yaw_current s) (visited s) st)).

(** Lines 152-301: the directions [i], [i+1], ... of the [for] loop;
    the flag is [done]. *)
Fixpoint spiral_directions {L : Libm} {F : ConvexFill} {P : Platform}
    (grid : Mask) (directions : list Z) (s : spiral_state)
    : res (bool * spiral_state) :=
  match directions with
  | [] => Ok (true, s)
  | i :: directions' =>
      a ← spiral_direction grid i s;
      match a with
      | Accepted s' => Ok (false, s')
      | Collision s' => Ok (true, s')
      | Rejected s' => spiral_directions grid directions' s'
      end
  end.

(** Lines 140-301: the body of the [while] loop. *)
Definition spiral_iteration {L : Libm} {F : ConvexFill} {P : Platform}
    (grid : Mask) (s : spiral_state) : res (bool * spiral_state) :=
  s1 ← spiral_turn s;
  spiral_directions grid [0; 1; 2] s1.

(** Lines 138-302: the [while] loop, [fuel] iterations of it at most. *)
Fixpoint spiral_loop {L : Libm} {F : ConvexFill} {P : Platform}
    (fuel : nat) (grid : Mask) (s : spiral_state) : res spiral_state :=
  match fuel with
  | O => OutOfFuel
  | S fuel' =>
      '(done, s') ← spiral_iteration grid s;
      if done : bool then Ok s' else spiral_loop fuel' grid s'
  end.

(** What a call of [spiral] leaves: the path returned, [visited] and
    the object. *)
Definition spiral_result (s : spiral_state) : list gridNode_t * Mask * SpiralSTC :=
  (path_nodes s, visited s, this s).

(** Lines 105-304. *)
Definition spiral {L : Libm} {F : ConvexFill} {P : Platform} (fuel : nat)
    (st : SpiralSTC) (grid : Mask) (init : list gridNode_t) (yaw_start : Q)
    (visited : Mask) : res (list gridNode_t * Mask * SpiralSTC) :=
  s0 ← spiral_init st init yaw_start visited;
  s ← spiral_loop fuel grid s0;
  Ok (spiral_result s).

(** ** Predicates of the theorems *)

(** The heading after a clockwise quarter turn (lines 298-300). *)
Definition clockwise (d : Z * Z) : Z * Z := (d.2, - d.1).

(** Two nodes are neighbours along an axis of the grid. *)
Definition adjacent (a b : gridNode_t) : Prop :=
  is_axis (p_x (pos b) - p_x (pos a)) (p_y (pos b) - p_y (pos a)).

(** The node one step from [n] along [d], as line 285 builds it. *)
Definition node_after (n : gridNode_t) (d : Z * Z) : gridNode_t :=
  mkNode (mkPoint (p_x (pos n) + d.1) (p_y (pos n) + d.2)) 0 0.

(** What no iteration of the loop changes: the masks and the
    configuration of the object. *)
Record frame (s s' : spiral_state) : Prop := mkFrame {
  fr_visited : visited s' = visited s;
  fr_config : same_config (this s) (this s');
  fr_visited_copy : visited_copy (this s') = visited_copy (this s)
}.

(** The loop invariant behind the shape of the path: the path is a
    chain of neighbours, and the heading of the next pass is a unit
    step, read from the last two nodes once a node was appended. *)
Definition heading_ok (s : spiral_state) : Prop :=
  if decide (it s = 0%nat) then is_axis (dx s) (dy s)
  else ∃ n, back (path_nodes s) = Ok n ∧ adjacent (prev s) n.

Definition spiral_inv (s : spiral_state) : Prop :=
  Sorted adjacent (path_nodes s) ∧ heading_ok s.

(** The grid mask has the size of the coverage grid, the cells of the
    field [man_grids] lie in it, and the catalog has a right turn cell
    for every left turn cell: what the reads of one pass need. *)
Record fits (grid : Mask) (st : SpiralSTC) : Prop := mkFits {
  fits_grid : mask_dims grid (size_x (planner_grid st)) (size_y (planner_grid st));
  fits_man_grids : cells_in_grid (planner_grid st) (man_grids st);
  fits_future : (length (left_turn_rel st) ≤ length (right_turn_rel st))%nat
}.

(** The [while] loop as a transition system.  A pass of the loop body
    that accepts a manoeuvre leaves [done] false (line 294): it is a
    step.  A pass after which [done] is true is the last one: the
    condition of line 138 fails and [spiral] returns. *)
Inductive spiral_step {L : Libm} {F : ConvexFill} {P : Platform}
    (grid : Mask) : spiral_state → spiral_state → Prop :=
  | spiral_step_accept s s' :
      spiral_iteration grid s = Ok (false, s') → spiral_step grid s s'.

Definition spiral_last {L : Libm} {F : ConvexFill} {P : Platform}
    (grid : Mask) (s s' : spiral_state) : Prop :=
  spiral_iteration grid s = Ok (true, s').

(** ** Lemmas on the operations *)

#[export] Instance fits_proper grid : Proper (same_config ==> iff) (fits grid).
Proof.
  assert (∀ st st', same_config st st' → fits grid st → fits grid st') as H.
  { intros st st' [] []. split; congruence. }
  intros st st' Hc. split; apply H; [done|by symmetry].
Qed.

#[export] Instance frame_preorder : PreOrder frame.
Proof.
  split.
  - by intros s.
  - intros s1 s2 s3 [] []. split; [congruence| |congruence].
    by etrans.
Qed.

Lemma back_Ok path n : back path = Ok n ↔ last path = Some n.
Proof. unfold back. destruct (last path); naive_solver. Qed.

Lemma back_ends path : back path ≠ OutOfFuel.
Proof. unfold back. by destruct (last path). Qed.

Lemma back_snoc path n : back (path ++ [n]) = Ok n.
Proof. unfold back. by rewrite last_snoc. Qed.

Lemma back_is_Ok path : path ≠ [] → is_Ok (back path).
Proof.
  unfold back. destruct (last path) eqn:E; [by eexists|].
  by apply last_None in E.
Qed.

Lemma back_nonempty path n : back path = Ok n → path ≠ [].
Proof. by intros ?%back_Ok ->. Qed.

Lemma clockwise_axis d : is_axis d.1 d.2 → is_axis (clockwise d).1 (clockwise d).2.
Proof. destruct d as [x y]. unfold is_axis. simpl. lia. Qed.

Lemma clockwise_iter_axis k d :
  is_axis d.1 d.2 → is_axis (Nat.iter k clockwise d).1 (Nat.iter k clockwise d).2.
Proof. intros H. induction k; simpl; [done|by apply clockwise_axis]. Qed.

Lemma adjacent_node_after n d : is_axis d.1 d.2 → adjacent n (node_after n d).
Proof.
  unfold adjacent, node_after. simpl. intros H.
  by replace (_ + d.1 - _) with d.1 by lia; replace (_ + d.2 - _) with d.2 by lia.
Qed.

Section spiral.
Context {L : Libm} {F : ConvexFill} {P : Platform}.

Lemma rotate_manoeuvre_frame st i x y yaw x_max y_max free cells st' :
  rotate_manoeuvre st i x y yaw x_max y_max = (free, cells, st') →
  same_config st st' ∧ visited_copy st' = visited_copy st.
Proof.
  unfold rotate_manoeuvre. destruct (direction_rel st i) as [[rel o]|].
  - destruct (rotate_rel _ _ _ _ _ _ _). intros [= <- <- <-].
    auto with fcpp.
  - by intros [= <- <- <-].
Qed.

(** One pass of the [for] loop: what it leaves of the state in each of
    its three outcomes. *)
Lemma spiral_direction_cases grid i s a :
  spiral_direction grid i s = Ok a →
  ∃ n, back (path_nodes s) = Ok n ∧
  match a with
  | Accepted s' =>
      frame s s' ∧ path_nodes s' = path_nodes s ++ [node_after n (dx s, dy s)] ∧
      it s' = length (path_nodes s) ∧ prev s' = n
  | Collision s' =>
      frame s s' ∧ path_nodes s' = path_nodes s ∧ it s' = it s ∧
      prev s' = prev s ∧
      checkManoeuvreCollision (man_grids (this s)) grid = Ok false
  | Rejected s' =>
      frame s s' ∧ path_nodes s' = path_nodes s ∧ it s' = it s ∧
      prev s' = prev s ∧ (dx s', dy s') = clockwise (dx s, dy s) ∧
      yaw_current s' = yaw_current s
  end.
Proof.
  unfold spiral_direction. intros H.
  apply res_bind_Ok in H as (n & Hn & H). exists n. split; [done|].
  destruct (rotate_manoeuvre _ _ _ _ _ _ _) as [[free cells] st1] eqn:E1.
  apply rotate_manoeuvre_frame in E1 as [Hc1 Hv1].
  apply res_bind_Ok in H as (ok & Hok & H). rewrite (sc_man_grids _ _ Hc1) in Hok.
  destruct ok; simpl in H; [|by simplify_eq].
  destruct (computeManoeuvreFootprint _ _ _ _ _ _ _ _ _ _) as [[b vc] st2] eqn:E2.
  apply computeManoeuvreFootprint_frame in E2 as (-> & Hc2 & Hv2 & _).
  assert (same_config (this s) st2) as Hc by (by etrans).
  simpl in H. apply res_bind_Ok in H as ([fl fr] & _ & H).
  assert (visited_copy st2 = visited_copy (this s)) as Hv by congruence.
  destruct (_ && _); simpl in H; simplify_eq; simpl.
  all: split; [constructor; simpl; try done|by repeat split].
  by etrans; [|apply set_visited_copy_config].
Qed.

(** The [for] loop: either a node was appended, one step from the
    last node along the heading after fewer clockwise turns than there
    are directions, or the path is as it was. *)
Lemma spiral_directions_cases grid ds s done s' :
  spiral_directions grid ds s = Ok (done, s') →
  frame s s' ∧
  if done then path_nodes s' = path_nodes s ∧ it s' = it s ∧ prev s' = prev s
  else ∃ n k, back (path_nodes s) = Ok n ∧ (k < length ds)%nat ∧
    path_nodes s' =
      path_nodes s ++ [node_after n (Nat.iter k clockwise (dx s, dy s))] ∧
    it s' = length (path_nodes s) ∧ prev s' = n.
Proof.
  revert s. induction ds as [|i ds IH]; intros s H; simpl in H.
  { by simplify_eq. }
  apply res_bind_Ok in H as (a & Ha & H).
  apply spiral_direction_cases in Ha as (n & Hn & Ha).
  destruct a as [s1|s1|s1]; simplify_eq.
  - destruct Ha as (? & ? & ? & ?). split; [done|].
    exists n, 0%nat. simpl. repeat split; [done|lia|done..].
  - naive_solver.
  - destruct Ha as (Hf & Hp & Hi & Hv & Hd & _).
    apply IH in H as [Hf' H]. split; [by etrans|].
    destruct done; [naive_solver congruence|].
    destruct H as (n' & k & Hn' & Hk & Hp' & Hi' & Hv').
    exists n', (S k). rewrite Nat.iter_succ_r, <- Hd, <- Hp.
    repeat split; [done|simpl; lia|done..].
Qed.

(** The turn at the head of the [while] loop writes the heading and
    the orientation only, and only once the iterator has left the
    first node. *)
Lemma spiral_turn_cases s s1 :
  spiral_turn s = Ok s1 →
  path_nodes s1 = path_nodes s ∧ it s1 = it s ∧ prev s1 = prev s ∧ frame s s1 ∧
  if decide (it s = 0%nat) then s1 = s
  else ∃ n, back (path_nodes s) = Ok n ∧
    let mx := p_x (pos n) - p_x (pos (prev s)) in
    let my := p_y (pos n) - p_y (pos (prev s)) in
    dx s1 = - my ∧ dy s1 = mx ∧ yaw_current s1 = atan2 my mx.
Proof.
  unfold spiral_turn. destruct (decide (it s ≠ 0%nat)) as [Hi|Hi].
  - intros (n & Hn & [= <-])%res_bind_Ok. simpl.
    destruct (decide (it s = 0%nat)); [done|].
    do 4 (split; [done|]). by exists n.
  - intros [= <-]. destruct (decide (it s = 0%nat)); [done|lia].
Qed.

Lemma spiral_turn_heading s s1 :
  spiral_turn s = Ok s1 → heading_ok s → is_axis (dx s1) (dy s1).
Proof.
  intros (_ & _ & _ & _ & H)%spiral_turn_cases. unfold heading_ok.
  destruct (decide (it s = 0%nat)) as [Hz|Hz]; [by subst|].
  destruct H as (n & Hn & -> & -> & _). intros (n' & Hn' & H).
  rewrite Hn in Hn'. injection Hn' as <-. revert H. unfold adjacent, is_axis. lia.
Qed.

(** One iteration of the [while] loop: the path is as it was and the
    loop ends, or one node was appended, a unit step from the last one
    when the heading was in order. *)
Lemma spiral_iteration_cases grid s done s' :
  spiral_iteration grid s = Ok (done, s') →
  frame s s' ∧
  if done then path_nodes s' = path_nodes s
  else ∃ n d, back (path_nodes s) = Ok n ∧
    path_nodes s' = path_nodes s ++ [node_after n d] ∧
    it s' = length (path_nodes s) ∧ prev s' = n ∧
    (heading_ok s → is_axis d.1 d.2).
Proof.
  unfold spiral_iteration. intros (s1 & H1 & H)%res_bind_Ok.
  pose proof (spiral_turn_heading _ _ H1) as Hax.
  apply spiral_turn_cases in H1 as (Hp & _ & _ & Hf & _).
  apply spiral_directions_cases in H as [Hf' H]. split; [by etrans|].
  destruct done; [naive_solver congruence|]. rewrite Hp in H.
  destruct H as (n & k & ? & _ & ? & ? & ?). exists n, (Nat.iter k clockwise (dx s1, dy s1)).
  repeat split; try done. intros ?. apply clockwise_iter_axis; auto.
Qed.

Lemma spiral_iteration_inv grid s s' :
  spiral_iteration grid s = Ok (false, s') → spiral_inv s → spiral_inv s'.
Proof.
  intros (_ & n & d & Hn & Hp & Hi & Hv & Hd)%spiral_iteration_cases [Hs Hh].
  specialize (Hd Hh). split.
  - rewrite Hp. apply Sorted_snoc; [done|].
    intros y Hy%back_Ok. rewrite Hy in Hn. injection Hn as ->.
    by apply adjacent_node_after.
  - unfold heading_ok. rewrite Hi, Hp, Hv.
    apply back_nonempty in Hn. destruct (path_nodes s); [done|].
    rewrite decide_False by done. eexists. split; [apply back_snoc|].
    by apply adjacent_node_after.
Qed.

(** The loop appends to the path: fewer nodes than it has fuel, each
    with cost and heuristic zero. *)
Lemma spiral_loop_extends fuel grid s s' :
  spiral_loop fuel grid s = Ok s' →
  frame s s' ∧
  ∃ added, path_nodes s' = path_nodes s ++ added ∧ (length added < fuel)%nat ∧
    Forall (λ n, cost n = 0 ∧ he n = 0) added.
Proof.
  revert s. induction fuel as [|fuel IH]; intros s H; simpl in H; [done|].
  apply res_bind_Ok in H as ([done s1] & H1 & H).
  apply spiral_iteration_cases in H1 as [Hf H1]. destruct done.
  - simplify_eq. split; [done|]. exists []. rewrite app_nil_r. simpl.
    repeat split; [done|lia|constructor].
  - destruct H1 as (n & d & _ & Hp & _).
    apply IH in H as (Hf' & added & Hp' & Hlen & Hall). split; [by etrans|].
    exists (node_after n d :: added). rewrite Hp', Hp, <- app_assoc. simpl.
    repeat split; [lia|]. by constructor.
Qed.

Lemma spiral_loop_inv fuel grid s s' :
  spiral_loop fuel grid s = Ok s' → spiral_inv s → Sorted adjacent (path_nodes s').
Proof.
  revert s. induction fuel as [|fuel IH]; intros s H Hs; simpl in H; [done|].
  apply res_bind_Ok in H as ([done s1] & H1 & H). destruct done.
  - simplify_eq. apply spiral_iteration_cases in H1 as [_ ->]. apply Hs.
  - eauto using spiral_iteration_inv.
Qed.

(** The state in which the loop is entered. *)
Lemma spiral_init_Ok st init yaw_start visited0 s0 :
  spiral_init st init yaw_start visited0 = Ok s0 →
  path_nodes s0 = init ∧ dx s0 = 0 ∧ dy s0 = 1 ∧ yaw_current s0 = yaw_start ∧
  it s0 = (if decide (1 < length init)%nat then length init - 2 else 0)%nat ∧
  init !! it s0 = Some (prev s0) ∧ same_config st (this s0) ∧
  ∃ n, back init = Ok n ∧
    mark_cells visited0 (visited_copy st)
      (computeFootprintCells st (p_x (pos n)) (p_y (pos n)) yaw_start "tool" []).2
    = Ok (visited s0, visited_copy (this s0)).
Proof.
  unfold spiral_init. intros (n & Hn & H)%res_bind_Ok.
  apply res_bind_Ok in H as (pr & Hpr & H).
  destruct (computeFootprintCells _ _ _ _ _ _) as [ok init_cells] eqn:E.
  apply res_bind_Ok in H as ([v vc] & Hm & [= <-]). simpl.
  apply vec_at_Ok in Hpr as [_ Hpr]. rewrite Nat2Z.id in Hpr.
  apply back_nonempty in Hn as Hne.
  assert (0 < length init)%nat by (destruct init; [done|simpl; lia]).
  repeat split; [case_decide; lia|done|].
  exists n. by rewrite E.
Qed.

Lemma spiral_init_inv st init yaw_start visited0 s0 :
  spiral_init st init yaw_start visited0 = Ok s0 →
  Sorted adjacent init → spiral_inv s0.
Proof.
  intros (Hp & Hdx & Hdy & _ & Hi & Hpr & _ & n & Hn & _)%spiral_init_Ok Hs.
  split; [by rewrite Hp|]. unfold heading_ok. rewrite Hdx, Hdy, Hp.
  destruct (decide (it s0 = 0%nat)) as [Hz|Hz]; [unfold is_axis; lia|].
  exists n. split; [done|].
  apply back_Ok in Hn. rewrite last_lookup_pred in Hn.
  rewrite Hi in Hz, Hpr. destruct (decide (1 < length init)%nat); [|done].
  apply (Sorted_lookup_succ _ init (length init - 2)); [done..|].
  rewrite <- Hn. f_equal. lia.
Qed.

(** *** No read or write outside a vector *)

Lemma mark_cells_Ok g v vc cells r :
  mask_dims v (size_x g) (size_y g) → mask_dims vc (size_x g) (size_y g) →
  mark_cells v vc cells = Ok r →
  mask_dims r.1 (size_x g) (size_y g) ∧ mask_dims r.2 (size_x g) (size_y g) ∧
  mask_le v r.1 ∧ mask_le vc r.2.
Proof.
  intros Hv Hvc. unfold mark_cells.
  apply (res_foldl_invariant (λ r, mask_dims r.1 (size_x g) (size_y g) ∧
    mask_dims r.2 (size_x g) (size_y g) ∧ mask_le v r.1 ∧ mask_le vc r.2));
    [|done].
  intros [v1 vc1] c [v2 vc2] _ (? & ? & ? & ?) Hm. simpl in *.
  apply res_bind_Ok in Hm as (v' & Hv' & Hm).
  apply res_bind_Ok in Hm as (vc' & Hvc' & [= <- <-]).
  split; [eauto with fcpp|]. split; [eauto with fcpp|].
  split; etrans; eauto with fcpp.
Qed.

Lemma mark_cells_le v vc cells r :
  mark_cells v vc cells = Ok r → mask_le v r.1 ∧ mask_le vc r.2.
Proof.
  unfold mark_cells.
  apply (res_foldl_invariant (λ r, mask_le v r.1 ∧ mask_le vc r.2)); [|done].
  intros [v1 vc1] c [v2 vc2] _ [? ?] Hm. simpl in *.
  apply res_bind_Ok in Hm as (v' & Hv' & Hm).
  apply res_bind_Ok in Hm as (vc' & Hvc' & [= <- <-]).
  split; etrans; eauto with fcpp.
Qed.

Lemma mark_cells_is_Ok g v vc cells :
  mask_dims v (size_x g) (size_y g) → mask_dims vc (size_x g) (size_y g) →
  cells_in_grid g cells → is_Ok (mark_cells v vc cells).
Proof.
  intros Hv Hvc Hc. unfold mark_cells.
  destruct (res_foldl_is_Ok (λ r, mask_dims r.1 (size_x g) (size_y g) ∧
    mask_dims r.2 (size_x g) (size_y g))
    (λ '(v, vc) cell, v' ← mask_mark v (m_x cell) (m_y cell);
       vc' ← mask_mark vc (m_x cell) (m_y cell); Ok (v', vc'))
    cells (v, vc)) as (r & -> & _); [|done|by exists r].
  intros [v1 vc1] c Hin [H1 H2]. simpl in *.
  apply (proj1 (list.Forall_forall _ _) Hc) in Hin.
  destruct (proj2 (mask_mark_is_Ok _ _ _ (m_x c) (m_y c) H1) Hin) as [v' Hv'].
  destruct (proj2 (mask_mark_is_Ok _ _ _ (m_x c) (m_y c) H2) Hin) as [vc' Hvc'].
  exists (v', vc'). rewrite Hv'. simpl. rewrite Hvc'. simpl.
  eauto with fcpp.
Qed.

(** A cell outside [visited_copy] makes the marking undefined, wherever
    it stands among the cells. *)
Lemma mark_cells_Undefined v vc cells c :
  c ∈ cells → mask_mark vc (m_x c) (m_y c) = Undefined →
  mark_cells v vc cells = Undefined.
Proof.
  unfold mark_cells. revert v vc.
  induction cells as [|a cells IH]; intros v vc Hc Hu; [by apply elem_of_nil in Hc|].
  simpl.
  destruct (mask_mark v (m_x a) (m_y a)) as [v'| |] eqn:Ev; simpl;
    [|done|by apply mask_mark_ends in Ev].
  destruct (mask_mark vc (m_x a) (m_y a)) as [vc'| |] eqn:Evc; simpl;
    [|done|by apply mask_mark_ends in Evc].
  apply elem_of_cons in Hc as [->|Hc]; [congruence|].
  apply IH; [done|]. by eapply mask_mark_outside.
Qed.

Lemma checkManoeuvreCollision_is_Ok g grid cells :
  mask_dims grid (size_x g) (size_y g) → cells_in_grid g cells →
  is_Ok (checkManoeuvreCollision cells grid).
Proof.
  intros Hd. induction 1 as [|c cells Hc _ IH]; simpl; [by eexists|].
  destruct (proj2 (mask_at_is_Ok _ _ _ (m_x c) (m_y c) Hd) Hc) as [b ->].
  simpl. destruct b; simpl; [by eexists|done].
Qed.

Lemma cell_blocked_is_Ok g grid p :
  mask_dims grid (size_x g) (size_y g) →
  is_Ok (cell_blocked grid p (getSizeInCellsX g - 1) (getSizeInCellsY g - 1)).
Proof.
  intros Hd. unfold cell_blocked, getSizeInCellsX, getSizeInCellsY.
  destruct (checkMapBounds _ _ _ _) eqn:E; simpl; [|by eexists].
  apply checkMapBounds_in_grid in E.
  destruct (proj2 (mask_at_is_Ok _ _ _ (p_x p) (p_y p) Hd) E) as [b ->].
  by eexists.
Qed.

Lemma future_check_is_Ok g grid future_left future_right rejected i :
  mask_dims grid (size_x g) (size_y g) →
  0 ≤ i < Z.of_nat (length future_left) →
  i < Z.of_nat (length future_right) →
  is_Ok (future_check grid future_left future_right
           (getSizeInCellsX g - 1) (getSizeInCellsY g - 1) rejected i).
Proof.
  intros Hd ? ?. unfold future_check. destruct rejected as [l r].
  destruct (vec_at_inrange future_left i) as [fl ->]; [lia|]. simpl.
  destruct (cell_blocked_is_Ok g grid fl Hd) as [bl ->]. simpl.
  destruct (vec_at_inrange future_right i) as [fr ->]; [lia|]. simpl.
  destruct (cell_blocked_is_Ok g grid fr Hd) as [br ->]. simpl. by eexists.
Qed.

(** The read of line 270 beyond the end of [future_right]. *)
Lemma future_check_Undefined g grid future_left future_right rejected i :
  mask_dims grid (size_x g) (size_y g) →
  0 ≤ i < Z.of_nat (length future_left) →
  Z.of_nat (length future_right) ≤ i →
  future_check grid future_left future_right
    (getSizeInCellsX g - 1) (getSizeInCellsY g - 1) rejected i = Undefined.
Proof.
  intros Hd ? ?. unfold future_check. destruct rejected as [l r].
  destruct (vec_at_inrange future_left i) as [fl ->]; [lia|]. simpl.
  destruct (cell_blocked_is_Ok g grid fl Hd) as [bl ->]. simpl.
  by rewrite vec_at_Undefined by lia.
Qed.

Lemma future_checks_is_Ok g grid future_left future_right rejected l :
  mask_dims grid (size_x g) (size_y g) →
  Forall (λ i, 0 ≤ i < Z.of_nat (length future_left) ∧
               i < Z.of_nat (length future_right)) l →
  is_Ok (res_foldl (future_check grid future_left future_right
           (getSizeInCellsX g - 1) (getSizeInCellsY g - 1)) rejected l).
Proof.
  intros Hd Hl.
  match goal with |- is_Ok (res_foldl ?f ?a ?l) =>
    destruct (res_foldl_is_Ok (λ _, True) f l a) as (r & -> & _);
      [|done|by exists r] end.
  intros a i Hi%(proj1 (list.Forall_forall _ _) Hl) _.
  destruct (future_check_is_Ok g grid future_left future_right a i)
    as [a' ->]; [done|lia..|eauto].
Qed.

Lemma future_rejected_is_Ok g grid future_left future_right :
  mask_dims grid (size_x g) (size_y g) →
  (length future_left ≤ length future_right)%nat →
  is_Ok (future_rejected grid future_left future_right
           (getSizeInCellsX g - 1) (getSizeInCellsY g - 1)).
Proof.
  intros Hd Hlen. apply future_checks_is_Ok; [done|].
  apply list.Forall_forall. intros i [? ?]%elem_of_seqZ. lia.
Qed.

Lemma frame_fits grid s s' : frame s s' → fits grid (this s) → fits grid (this s').
Proof. intros [_ Hc _]. by rewrite Hc. Qed.

Lemma spiral_direction_is_Ok grid i s :
  path_nodes s ≠ [] → fits grid (this s) → is_Ok (spiral_direction grid i s).
Proof.
  intros [n Hn]%back_is_Ok Hfit. unfold spiral_direction. rewrite Hn. simpl.
  destruct (rotate_manoeuvre _ _ _ _ _ _ _) as [[free cells] st1] eqn:E1.
  apply rotate_manoeuvre_frame in E1 as [Hc1 _].
  assert (fits grid st1) as Hfit1 by (by rewrite <- Hc1).
  destruct (checkManoeuvreCollision_is_Ok (planner_grid st1) grid (man_grids st1))
    as [ok ->]; [apply Hfit1..|].
  simpl. destruct ok; simpl; [|by eexists].
  destruct (computeManoeuvreFootprint _ _ _ _ _ _ _ _ _ _) as [[b vc] st2] eqn:E2.
  apply computeManoeuvreFootprint_frame in E2 as (-> & Hc2 & _). simpl.
  assert (fits grid st2) as [Hd _ Hlen] by (by rewrite <- Hc2).
  rewrite <- (sc_planner_grid _ _ Hc1), <- (sc_planner_grid _ _ Hc2).
  match goal with |- context [future_rejected ?g ?l ?r _ _] =>
    destruct (future_rejected_is_Ok (planner_grid st2) g l r) as [[fl fr] ->] end;
    [done|by unfold future_cells; rewrite !length_map|].
  simpl. destruct (_ && _); by eexists.
Qed.

Lemma spiral_directions_is_Ok grid ds s :
  path_nodes s ≠ [] → fits grid (this s) → is_Ok (spiral_directions grid ds s).
Proof.
  revert s. induction ds as [|i ds IH]; intros s Hp Hfit; simpl; [by eexists|].
  destruct (spiral_direction_is_Ok grid i s Hp Hfit) as [a Ha]. rewrite Ha.
  apply spiral_direction_cases in Ha as (n & _ & Ha). simpl.
  destruct a as [s1|s1|s1]; [by eexists..|].
  destruct Ha as (Hf & Hp' & _). apply IH; [congruence|by eapply frame_fits].
Qed.

Lemma spiral_turn_is_Ok s : path_nodes s ≠ [] → is_Ok (spiral_turn s).
Proof.
  intros [n Hn]%back_is_Ok. unfold spiral_turn. rewrite Hn.
  case_decide; by eexists.
Qed.

Lemma spiral_iteration_is_Ok grid s :
  path_nodes s ≠ [] → fits grid (this s) → is_Ok (spiral_iteration grid s).
Proof.
  intros Hp Hfit. unfold spiral_iteration.
  destruct (spiral_turn_is_Ok s Hp) as [s1 E]. rewrite E.
  apply spiral_turn_cases in E as (Hp' & _ & _ & Hf & _).
  change (is_Ok (spiral_directions grid [0; 1; 2] s1)).
  apply spiral_directions_is_Ok; [congruence|by eapply frame_fits].
Qed.

(** The loop runs into no undefined behaviour, whatever its fuel. *)
Lemma spiral_loop_defined fuel grid s :
  path_nodes s ≠ [] → fits grid (this s) → spiral_loop fuel grid s ≠ Undefined.
Proof.
  revert s. induction fuel as [|fuel IH]; intros s Hp Hfit; simpl; [done|].
  destruct (spiral_iteration_is_Ok grid s Hp Hfit) as [[done s'] E]. rewrite E.
  apply spiral_iteration_cases in E as [Hf E]. simpl.
  destruct done; [done|]. destruct E as (n & d & _ & Hp' & _).
  apply IH; [|by eapply frame_fits]. rewrite Hp'. by destruct (path_nodes s).
Qed.

End spiral.

(** *** Passes with a known outcome *)

Section outcomes.
Context {L : Libm} {F : ConvexFill} {P : Platform}.

(** A blocked cell of [man_grids] ends the pass at line 231. *)
Lemma spiral_direction_collision grid i s :
  path_nodes s ≠ [] →
  checkManoeuvreCollision (man_grids (this s)) grid = Ok false →
  ∃ s', spiral_direction grid i s = Ok (Collision s').
Proof.
  intros [n Hn]%back_is_Ok Hc. unfold spiral_direction. rewrite Hn. simpl.
  destruct (rotate_manoeuvre _ _ _ _ _ _ _) as [[free cells] st1] eqn:E1.
  apply rotate_manoeuvre_frame in E1 as [Hc1 _].
  rewrite (sc_man_grids _ _ Hc1), Hc. simpl. by eexists.
Qed.

(** With no left turn cell in the catalog, no cell in [man_grids] and a
    collision check that returns [true], the first pass accepts. *)
Lemma spiral_direction_unchecked grid s :
  path_nodes s ≠ [] → left_turn_rel (this s) = [] → man_grids (this s) = [] →
  flow_off_end = true → 0 ≤ max_overlap_turn (this s) →
  ∃ s', spiral_direction grid 0 s = Ok (Accepted s').
Proof.
  intros [n Hn]%back_is_Ok Hl Hg Hflow Ho. unfold spiral_direction.
  rewrite Hn. simpl. unfold rotate_manoeuvre, direction_rel. simpl.
  rewrite Hl. simpl. rewrite Hg. simpl. rewrite Hflow. simpl.
  destruct (computeManoeuvreFootprint _ _ _ _ _ _ _ _ _ _) as [[b vc] st2] eqn:E2.
  apply computeManoeuvreFootprint_frame in E2 as (-> & Hc2 & _ & Hm).
  rewrite (sc_left_turn_rel _ _ Hc2). simpl. rewrite Hl. simpl.
  rewrite Hm. simpl. rewrite (proj2 (Z.leb_le _ _) Ho). by eexists.
Qed.

(** The relative cells that the loop of lines 172-185 accepts all turn
    to cells in the bounds it is given. *)
Lemma rotate_rel_true st rel x y yaw x_max y_max cells :
  rotate_rel st rel x y yaw x_max y_max = (true, cells) →
  Forall (λ r, let p := rotatePoint st (x + p_x r) (y + p_y r) x y yaw in
               checkMapBounds (p_x p) (p_y p) x_max y_max = true) rel.
Proof.
  revert cells. induction rel as [|r rel IH]; intros cells H; [constructor|].
  simpl in H. destruct (checkMapBounds _ _ _ _) eqn:E; [|done]. simpl in H.
  destruct (rotate_rel st rel x y yaw x_max y_max) as [free cells'].
  injection H as -> _. constructor; eauto.
Qed.

(** An accepted pass had all the cells of its manoeuvre in the grid. *)
Lemma spiral_direction_accepted grid i s s' rel o :
  direction_rel (this s) i = Some (rel, o) →
  spiral_direction grid i s = Ok (Accepted s') →
  ∃ n, back (path_nodes s) = Ok n ∧
    Forall (λ r,
      let p := rotatePoint (this s) (p_x (pos n) + p_x r) (p_y (pos n) + p_y r)
                 (p_x (pos n)) (p_y (pos n)) (yaw_current s) in
      in_grid (planner_grid (this s)) (p_x p) (p_y p)) rel.
Proof.
  unfold spiral_direction, rotate_manoeuvre. intros -> H.
  apply res_bind_Ok in H as (n & Hn & H). exists n. split; [done|].
  destruct (rotate_rel _ _ _ _ _ _ _) as [free cells] eqn:E1.
  apply res_bind_Ok in H as (ok & _ & H). destruct ok; [|done]. simpl in H.
  destruct (computeManoeuvreFootprint _ _ _ _ _ _ _ _ _ _) as [[b vc] st2] eqn:E2.
  apply res_bind_Ok in H as (ov & _ & H).
  apply res_bind_Ok in H as ([fl fr] & _ & H).
  destruct free; [|by destruct (fl && fr)].
  apply rotate_rel_true in E1. eapply Forall_impl; [apply E1|].
  intros r Hr. by apply checkMapBounds_in_grid.
Qed.

(** A blocked cell of [man_grids] ends the iteration and the loop. *)
Lemma spiral_iteration_collision grid s :
  path_nodes s ≠ [] →
  checkManoeuvreCollision (man_grids (this s)) grid = Ok false →
  ∃ s', spiral_iteration grid s = Ok (true, s').
Proof.
  intros Hp Hc. unfold spiral_iteration.
  destruct (spiral_turn_is_Ok s Hp) as [s1 E]. rewrite E.
  apply spiral_turn_cases in E as (Hp' & _ & _ & [_ Hcf _] & _).
  destruct (spiral_direction_collision grid 0 s1) as [s' Hs'];
    [congruence|by rewrite (sc_man_grids _ _ Hcf)|].
  exists s'. simpl. by rewrite Hs'.
Qed.

Lemma spiral_loop_collision fuel grid s s' :
  path_nodes s ≠ [] →
  checkManoeuvreCollision (man_grids (this s)) grid = Ok false →
  spiral_loop fuel grid s = Ok s' → path_nodes s' = path_nodes s.
Proof.
  intros Hp Hc. destruct fuel as [|fuel]; [done|]. simpl.
  destruct (spiral_iteration_collision grid s Hp Hc) as [s1 E]. rewrite E.
  apply spiral_iteration_cases in E as [_ Hp']. simpl. congruence.
Qed.

(** What a call of [spiral] that returns leaves: the configuration of
    the object, the entries set in [visited], and the initial path at
    the front of the result. *)
Lemma spiral_Ok fuel st grid init yaw_start visited0 path visited' st' :
  spiral fuel st grid init yaw_start visited0 = Ok (path, visited', st') →
  same_config st st' ∧ mask_le visited0 visited' ∧ init ≠ [] ∧
  ∃ added, path = init ++ added.
Proof.
  unfold spiral. intros (s0 & H0 & H)%res_bind_Ok.
  apply res_bind_Ok in H as (s & Hl & [= <- <- <-]).
  apply spiral_init_Ok in H0 as (<- & _ & _ & _ & _ & _ & Hc & n & Hn & Hm).
  apply spiral_loop_extends in Hl as [[Hv Hc' _] (added & ? & _)].
  apply mark_cells_le in Hm as [Hle _]. rewrite Hv.
  split; [by etrans|]. split; [done|]. split; [by eapply back_nonempty|].
  by exists added.
Qed.

(** With a blocked cell among [man_grids] a spiral returns the path it
    was given. *)
Lemma spiral_blocked fuel st grid init yaw_start visited0 path visited' st' :
  checkManoeuvreCollision (man_grids st) grid = Ok false →
  spiral fuel st grid init yaw_start visited0 = Ok (path, visited', st') →
  path = init.
Proof.
  unfold spiral. intros Hc (s0 & H0 & H)%res_bind_Ok.
  apply res_bind_Ok in H as (s & Hl & [= <- <- <-]).
  apply spiral_init_Ok in H0 as (<- & _ & _ & _ & _ & _ & Hcf & n & Hn & _).
  apply spiral_loop_collision in Hl; [done|by eapply back_nonempty|].
  by rewrite (sc_man_grids _ _ Hcf).
Qed.

(** The planner in which no pass checks anything. *)
Lemma unchecked_config st st' :
  same_config st st' →
  left_turn_rel st = [] ∧ man_grids st = [] ∧ 0 ≤ max_overlap_turn st →
  left_turn_rel st' = [] ∧ man_grids st' = [] ∧ 0 ≤ max_overlap_turn st'.
Proof. intros []. intuition congruence. Qed.

Lemma spiral_iteration_unchecked grid s :
  path_nodes s ≠ [] → flow_off_end = true →
  left_turn_rel (this s) = [] ∧ man_grids (this s) = [] ∧
    0 ≤ max_overlap_turn (this s) →
  ∃ s', spiral_iteration grid s = Ok (false, s').
Proof.
  intros Hp Hflow Hu. unfold spiral_iteration.
  destruct (spiral_turn_is_Ok s Hp) as [s1 E]. rewrite E.
  apply spiral_turn_cases in E as (Hp' & _ & _ & [_ Hcf _] & _).
  destruct (unchecked_config _ _ Hcf Hu) as (? & ? & ?).
  destruct (spiral_direction_unchecked grid s1) as [s' Hs']; [congruence|done..|].
  exists s'. simpl. by rewrite Hs'.
Qed.

Lemma spiral_loop_unchecked fuel grid s :
  path_nodes s ≠ [] → flow_off_end = true →
  left_turn_rel (this s) = [] ∧ man_grids (this s) = [] ∧
    0 ≤ max_overlap_turn (this s) →
  spiral_loop fuel grid s = OutOfFuel.
Proof.
  revert s. induction fuel as [|fuel IH]; intros s Hp Hflow Hu; [done|]. simpl.
  destruct (spiral_iteration_unchecked grid s Hp Hflow Hu) as [s' E]. rewrite E.
  apply spiral_iteration_cases in E as [[_ Hcf _] (n & d & _ & Hp' & _)]. simpl.
  apply IH; [|done|by apply (unchecked_config _ _ Hcf)].
  rewrite Hp'. by destruct (path_nodes s).
Qed.

(** Such a planner returns from no spiral. *)
Lemma spiral_unchecked fuel st grid init yaw_start visited0 :
  flow_off_end = true →
  left_turn_rel st = [] ∧ man_grids st = [] ∧ 0 ≤ max_overlap_turn st →
  ¬ is_Ok (spiral fuel st grid init yaw_start visited0).
Proof.
  intros Hflow Hu [r Hr]. revert Hr. unfold spiral.
  destruct (spiral_init st init yaw_start visited0) as [s0| |] eqn:E0; [|done..].
  apply spiral_init_Ok in E0 as (Hp & _ & _ & _ & _ & _ & Hcf & n & Hn & _).
  simpl. rewrite (spiral_loop_unchecked fuel grid s0); [done| |done|].
  - rewrite Hp. by eapply back_nonempty.
  - by apply (unchecked_config _ _ Hcf).
Qed.

End outcomes.

(** ** Properties of a spiral *)

Section spiral_properties.
Context {L : Libm} {F : ConvexFill} {P : Platform}.
Implicit Types (st : SpiralSTC) (grid : Mask) (init path : list gridNode_t).

(** C1. The path that [spiral] returns is connected: when every node of
    the initial path is a unit step along an axis from the one before
    it, so is every node of the result.  The heading of the first
    iteration is the fixed unit step of line 118, later headings are
    read from the last two nodes. *)
Theorem spiral_connected fuel st grid init yaw_start visited0 path visited' st' :
  Sorted adjacent init →
  spiral fuel st grid init yaw_start visited0 = Ok (path, visited', st') →
  Sorted adjacent path.
Proof.
  unfold spiral. intros Hs (s0 & H0 & H)%res_bind_Ok.
  apply res_bind_Ok in H as (s & Hl & [= <- _ _]).
  eauto using spiral_loop_inv, spiral_init_inv.
Qed.

(** C18. [spiral] extends the path it is given: the result is the initial
    path followed by the nodes of the accepted steps, each with cost and
    heuristic 0, fewer than the iterations of the loop; the
    configuration of the planner is as before. *)
Theorem spiral_extends_init fuel st grid init yaw_start visited0 path visited' st' :
  spiral fuel st grid init yaw_start visited0 = Ok (path, visited', st') →
  same_config st st' ∧
  ∃ added, path = init ++ added ∧ (length added < fuel)%nat ∧
    Forall (λ n, cost n = 0 ∧ he n = 0) added.
Proof.
  unfold spiral. intros (s0 & H0 & H)%res_bind_Ok.
  apply res_bind_Ok in H as (s & Hl & [= <- <- <-]).
  apply spiral_init_Ok in H0 as (<- & _ & _ & _ & _ & _ & Hc & _).
  apply spiral_loop_extends in Hl as [[_ Hc' _] Hl]. split; [by etrans|done].
Qed.

(** C2. The only cells a call of [spiral] marks, in [visited] and in
    [visited_copy], are those of the tool footprint at the last node of
    the initial path: the cells of a step are computed into the field
    [man_cells], the vector that lines 239 and 289 iterate over is
    empty, so no accepted step marks a cell or counts an overlap. *)
Theorem spiral_marks_start_only fuel st grid init yaw_start visited0 path visited' st' :
  spiral fuel st grid init yaw_start visited0 = Ok (path, visited', st') →
  ∃ n, back init = Ok n ∧
    mark_cells visited0 (visited_copy st)
      (computeFootprintCells st (p_x (pos n)) (p_y (pos n)) yaw_start "tool" []).2
    = Ok (visited', visited_copy st').
Proof.
  unfold spiral. intros (s0 & H0 & H)%res_bind_Ok.
  apply res_bind_Ok in H as (s & Hl & [= <- <- <-]).
  apply spiral_init_Ok in H0 as (_ & _ & _ & _ & _ & _ & _ & n & Hn & Hm).
  apply spiral_loop_extends in Hl as [[Hv _ Hvc] _].
  exists n. by rewrite Hv, Hvc.
Qed.

(** C4. [spiral] indexes no vector outside its range when the initial
    path is not empty, the three masks have the size of the coverage
    grid, the cells of [man_grids] lie in the grid and the catalog has
    at least as many right turn cells as left turn cells. *)
Theorem spiral_defined {FL : ConvexFillLaws F} fuel st grid init yaw_start visited0 :
  init ≠ [] → fits grid st →
  mask_dims visited0 (size_x (planner_grid st)) (size_y (planner_grid st)) →
  mask_dims (visited_copy st) (size_x (planner_grid st)) (size_y (planner_grid st)) →
  spiral fuel st grid init yaw_start visited0 ≠ Undefined.
Proof.
  intros Hne Hfit Hv Hvc. unfold spiral.
  destruct (spiral_init st init yaw_start visited0) as [s0| |] eqn:E0; [|exfalso|done].
  - apply spiral_init_Ok in E0 as (Hp & _ & _ & _ & _ & _ & Hc & _). simpl.
    destruct (spiral_loop fuel grid s0) eqn:El; [done| |done].
    apply spiral_loop_defined in El; [done|by rewrite Hp|by rewrite <- Hc].
  - revert E0. unfold spiral_init.
    destruct (back_is_Ok init Hne) as [n ->]. simpl.
    destruct (vec_at_inrange init (Z.of_nat (if decide (1 < length init)%nat
      then length init - 1 - 1 else length init - 1)%nat)) as [pr ->].
    { destruct init; [done|]. simpl. case_decide; lia. }
    simpl. pose proof (computeFootprintCells_cells_in_grid st (p_x (pos n))
      (p_y (pos n)) yaw_start "tool" [] (Forall_nil_2 _)) as Hin.
    destruct (computeFootprintCells _ _ _ _ _ _) as [ok cells]. simpl in Hin.
    by destruct (mark_cells_is_Ok _ _ _ _ Hv Hvc Hin) as [[v vc] ->].
Qed.

(** C23. A blocked cell among [man_grids] ends the spiral: the first
    pass of the first iteration leaves the [for] loop at line 231 with
    [done] still set, so the call returns the initial path without
    trying the forward or the right manoeuvre. *)
Theorem spiral_collision_ends fuel st grid init yaw_start visited0 s0 :
  spiral_init st init yaw_start visited0 = Ok s0 →
  checkManoeuvreCollision (man_grids st) grid = Ok false →
  ∃ st', spiral (S fuel) st grid init yaw_start visited0
         = Ok (init, visited s0, st').
Proof.
  intros H0 Hc. unfold spiral. rewrite H0. simpl.
  apply spiral_init_Ok in H0 as (Hp & _ & _ & _ & _ & _ & Hcf & n & Hn & _).
  destruct (spiral_iteration_collision grid s0) as [s' E].
  { rewrite Hp. by eapply back_nonempty. }
  { by rewrite (sc_man_grids _ _ Hcf). }
  rewrite E. apply spiral_iteration_cases in E as [[Hv _ _] Hp']. simpl.
  exists (this s'). unfold spiral_result. by rewrite Hp', Hp, Hv.
Qed.

(** For an initial path of one or of two nodes the first iteration
    does not turn: the iterator is at the first node, the test of line
    140 fails, and the first candidate is the cell above the last node,
    [(x, y + 1)], at the orientation [yaw_start], whatever the direction
    from the first node to the second. *)
Theorem spiral_first_heading st init yaw_start visited0 s0 :
  (length init ≤ 2)%nat →
  spiral_init st init yaw_start visited0 = Ok s0 →
  spiral_turn s0 = Ok s0 ∧ dx s0 = 0 ∧ dy s0 = 1 ∧ yaw_current s0 = yaw_start.
Proof.
  intros Hlen (_ & ? & ? & ? & Hi & _)%spiral_init_Ok.
  repeat split; try done. unfold spiral_turn.
  rewrite decide_False; [done|]. rewrite Hi. case_decide; lia.
Qed.

(** More fuel does not change the result of the loop: the fuel
    bounds the iterations of the [while] loop and nothing else. *)
Theorem spiral_loop_fuel_mono n m grid s s' :
  spiral_loop n grid s = Ok s' → (n ≤ m)%nat → spiral_loop m grid s = Ok s'.
Proof.
  revert m s. induction n as [|n IH]; intros m s H Hle; [done|].
  destruct m as [|m]; [lia|]. simpl in *.
  destruct (spiral_iteration grid s) as [[[] s1]| |]; simpl in *; try done.
  apply IH; [done|lia].
Qed.

(** The loop with fuel refines the transition system of its
    passes: it returns [s'] exactly when some number of accepting
    passes, fewer than the fuel, leads to a state whose pass is the
    last one and leaves [s']. *)
Theorem spiral_loop_steps fuel grid s s' :
  spiral_loop fuel grid s = Ok s' ↔
  ∃ n s1, (n < fuel)%nat ∧ nsteps (spiral_step grid) n s s1 ∧ spiral_last grid s1 s'.
Proof.
  split.
  - revert s. induction fuel as [|fuel IH]; intros s H; simpl in H; [done|].
    apply res_bind_Ok in H as ([[] s1] & H1 & H).
    + simplify_eq. exists 0%nat, s. split; [lia|]. split; [constructor|done].
    + apply IH in H as (n & s2 & ? & ? & ?). exists (S n), s2.
      split; [lia|]. split; [|done]. eapply nsteps_l; [by constructor|done].
  - intros (n & s1 & Hlt & Hsteps & Hlast). revert fuel Hlt.
    induction Hsteps as [s|n s s2 s1 Hstep _ IH]; intros [|fuel] ?;
      try lia; simpl.
    + by rewrite Hlast.
    + destruct Hstep as [s s2 Hstep]. rewrite Hstep. simpl. apply IH; [done|lia].
Qed.

(** The fuel that the loop needs is the number of its passes: after
    [n] accepting passes and a last one the loop returns for every fuel
    above [n] and runs out of fuel for every other, and the path has
    grown by exactly [n] nodes. *)
Theorem spiral_loop_fuel_exact n fuel grid s s1 s' :
  nsteps (spiral_step grid) n s s1 → spiral_last grid s1 s' →
  spiral_loop fuel grid s = (if decide (n < fuel)%nat then Ok s' else OutOfFuel) ∧
  length (path_nodes s') = (length (path_nodes s) + n)%nat.
Proof.
  intros Hsteps Hlast. revert fuel.
  induction Hsteps as [s|n s s2 s1 Hstep _ IH]; intros fuel.
  - apply spiral_iteration_cases in Hlast as Hc. destruct Hc as [_ ->].
    split; [|lia]. destruct fuel as [|fuel]; simpl; [done|].
    rewrite Hlast. simpl. repeat case_decide; done || lia.
  - destruct Hstep as [s s2 Hstep]. apply spiral_iteration_cases in Hstep as Hc.
    destruct Hc as (_ & m & d & _ & Hp & _).
    destruct (IH Hlast (pred fuel)) as [Hrun ->]. rewrite Hp, length_app. simpl.
    split; [|lia]. destruct fuel as [|fuel]; simpl; [done|].
    rewrite Hstep. simpl in *. rewrite Hrun. repeat case_decide; done || lia.
Qed.

(** C14. A planner whose catalog has no left turn cell and whose
    [man_grids] is empty never leaves the loop when the collision check
    returns [true]: every iteration accepts the left manoeuvre, so no
    amount of fuel is enough.  This is the planner as [makePlan] leaves
    it, its catalog vectors never written. *)
Theorem spiral_never_returns fuel st grid init yaw_start visited0 s0 :
  spiral_init st init yaw_start visited0 = Ok s0 →
  left_turn_rel st = [] → man_grids st = [] → 0 ≤ max_overlap_turn st →
  flow_off_end = true →
  spiral fuel st grid init yaw_start visited0 = OutOfFuel.
Proof.
  intros H0 Hl Hg Ho Hflow. unfold spiral. rewrite H0. simpl.
  apply spiral_init_Ok in H0 as (Hp & _ & _ & _ & _ & _ & Hcf & n & Hn & _).
  rewrite (spiral_loop_unchecked fuel grid s0); [done| |done|].
  - rewrite Hp. by eapply back_nonempty.
  - by apply (unchecked_config _ _ Hcf).
Qed.

(** C29. An accepted step stays in the grid when the catalog holds it:
    if the orientation is that of a unit step [(mx, my)], the heading
    is the relative cell [u] turned by it, and [u] is among the relative
    cells of the direction tried, then the node appended lies in the
    grid.  The cell of the step itself is checked nowhere else. *)
Theorem spiral_step_in_grid {HL : LibmLaws L} grid i s s' rel o mx my u :
  (0 < resolution (planner_grid (this s)))%Q →
  is_axis mx my → yaw_current s = atan2 my mx →
  direction_rel (this s) i = Some (rel, o) → u ∈ rel →
  mkPoint (dx s) (dy s) = rotate_axis mx my u →
  spiral_direction grid i s = Ok (Accepted s') →
  ∃ n, back (path_nodes s') = Ok n ∧
       in_grid (planner_grid (this s)) (p_x (pos n)) (p_y (pos n)).
Proof.
  intros Hr Hax Hyaw Hrel Hu Hd H.
  destruct (spiral_direction_accepted _ _ _ _ _ _ Hrel H) as (n & Hn & Hall).
  apply spiral_direction_cases in H as (n' & Hn' & _ & -> & _).
  rewrite Hn in Hn'. injection Hn' as <-.
  eexists. split; [apply back_snoc|].
  apply (proj1 (list.Forall_forall _ _) Hall) in Hu. cbv zeta in Hu.
  rewrite Hyaw, (rotatePoint_axis_eq _ _ _ _ _ _ _ Hr Hax) in Hu.
  injection Hd as -> ->. simpl in *.
  by replace (_ + p_x u - _) with (p_x u) in Hu by lia;
     replace (_ + p_y u - _) with (p_y u) in Hu by lia.
Qed.

(** C33. [checkManoeuvreCollision] returns [false] exactly when one of
    the cells is set in the grid mask; when none is, it returns the
    value a function without a [return] statement leaves, since the
    [return true] of the intended contract is missing. *)
Theorem checkManoeuvreCollision_spec g grid cells :
  mask_dims grid (size_x g) (size_y g) → cells_in_grid g cells →
  checkManoeuvreCollision cells grid =
    Ok (if decide (Exists (λ c, mask_at grid (m_x c) (m_y c) = Ok true) cells)
        then false else flow_off_end).
Proof.
  intros Hd. induction 1 as [|c cells Hc _ IH]; simpl; [done|].
  destruct (proj2 (mask_at_is_Ok _ _ _ (m_x c) (m_y c) Hd) Hc) as [b Hb].
  rewrite Hb. destruct b.
  - by rewrite decide_True by (by left).
  - transitivity (checkManoeuvreCollision cells grid); [done|].
    rewrite IH. apply f_equal, decide_ext. rewrite Exists_cons, Hb. naive_solver.
Qed.

(** C39. The loop of lines 264-274 runs over the left turn cells and
    reads the right turn cell of the same index: with fewer right turn
    cells than left turn cells it reads beyond the end of
    [future_right]. *)
Theorem future_rejected_short_right g grid future_left future_right :
  mask_dims grid (size_x g) (size_y g) →
  (length future_right < length future_left)%nat →
  future_rejected grid future_left future_right
    (getSizeInCellsX g - 1) (getSizeInCellsY g - 1) = Undefined.
Proof.
  intros Hd Hlen. unfold future_rejected.
  set (k := Z.of_nat (length future_right)).
  replace (Z.of_nat (length future_left))
    with (k + (Z.of_nat (length future_left) - k)) by lia.
  rewrite seqZ_app, res_foldl_app by lia.
  destruct (future_checks_is_Ok g grid future_left future_right (false, false)
    (seqZ 0 k)) as [a ->]; [done| |].
  { apply list.Forall_forall. intros i [? ?]%elem_of_seqZ. lia. }
  simpl. rewrite seqZ_cons by lia. simpl.
  by rewrite (future_check_Undefined g) by (done || lia).
Qed.

End spiral_properties.

(** ** The theorems at concrete inputs *)

(** On the grid of 2 by 2 cells with (0, 1) blocked, from (0, 0): the
    spiral goes up onto the blocked cell, right, down, and stops. *)
Lemma spiral_connected_witness :
  Sorted adjacent
    [mkNode (mkPoint 0 0) 0 0; mkNode (mkPoint 0 1) 0 0;
     mkNode (mkPoint 1 1) 0 0; mkNode (mkPoint 1 0) 0 0].
Proof.
  apply (spiral_connected (L := approx_libm) (F := hull_fill) (P := returns_true)
           4 small_obj small_blocked [mkNode (mkPoint 0 0) 0 0] 0 small_free
           _ small_free small_obj).
  - repeat constructor.
  - vm_compute. reflexivity.
Defined.

Lemma spiral_extends_init_witness :
  same_config small_obj small_obj ∧
  ∃ added,
    [mkNode (mkPoint 0 0) 0 0; mkNode (mkPoint 0 1) 0 0;
     mkNode (mkPoint 1 1) 0 0; mkNode (mkPoint 1 0) 0 0]
      = [mkNode (mkPoint 0 0) 0 0] ++ added ∧
    (length added < 4)%nat ∧ Forall (λ n, cost n = 0 ∧ he n = 0) added.
Proof.
  apply (spiral_extends_init (L := approx_libm) (F := hull_fill)
           (P := returns_true) 4 small_obj small_blocked
           [mkNode (mkPoint 0 0) 0 0] 0 small_free _ small_free small_obj).
  vm_compute. reflexivity.
Defined.

Lemma spiral_marks_start_only_witness :
  ∃ n, back [mkNode (mkPoint 0 0) 0 0] = Ok n ∧
    mark_cells small_free (visited_copy small_obj)
      (computeFootprintCells (L := approx_libm) (F := hull_fill) small_obj
         (p_x (pos n)) (p_y (pos n)) 0 "tool" []).2
    = Ok (small_free, visited_copy small_obj).
Proof.
  apply (spiral_marks_start_only (L := approx_libm) (F := hull_fill)
           (P := returns_true) 4 small_obj small_blocked
           [mkNode (mkPoint 0 0) 0 0] 0 small_free
           [mkNode (mkPoint 0 0) 0 0; mkNode (mkPoint 0 1) 0 0;
            mkNode (mkPoint 1 1) 0 0; mkNode (mkPoint 1 0) 0 0]).
  vm_compute. reflexivity.
Defined.

Lemma spiral_defined_witness :
  spiral (L := approx_libm) (F := hull_fill) (P := returns_true) 3 small_obj
    small_blocked [mkNode (mkPoint 0 0) 0 0] 0 small_free ≠ Undefined.
Proof.
  apply (spiral_defined (L := approx_libm) (F := hull_fill) (P := returns_true)).
  - done.
  - split; [|constructor|simpl; lia]. split; [done|]. by repeat constructor.
  - split; [done|]. by repeat constructor.
  - split; [done|]. by repeat constructor.
Defined.

Lemma spiral_collision_ends_witness :
  let st := set_planner_grid small_grid
              (mkSpiralSTC small_grid example_vehicle 1 0 0 0 [] [mkLoc 0 1]
                 [] [] [] [] [] [mkPoint 0 1] [mkPoint 1 0] [mkPoint 0 (-1)]
                 [] [] small_free 0 0 0 0) in
  ∃ st', spiral (L := approx_libm) (F := hull_fill) (P := returns_true) 1 st
           small_blocked [mkNode (mkPoint 0 0) 0 0] 0 small_free
         = Ok ([mkNode (mkPoint 0 0) 0 0], small_free, st').
Proof.
  intros st.
  apply (spiral_collision_ends (L := approx_libm) (F := hull_fill)
           (P := returns_true) 0 st small_blocked [mkNode (mkPoint 0 0) 0 0] 0
           small_free
           (mkSpiral [mkNode (mkPoint 0 0) 0 0] 0 (mkNode (mkPoint 0 0) 0 0)
              0 1 0 small_free st)).
  - vm_compute. reflexivity.
  - vm_compute. reflexivity.
Defined.

(** An initial path of two nodes going up: the first candidate is the
    cell above the last node again, not the cell on its left. *)
Lemma spiral_first_heading_witness :
  let s0 := mkSpiral [mkNode (mkPoint 0 0) 0 0; mkNode (mkPoint 0 1) 0 0] 0
              (mkNode (mkPoint 0 0) 0 0) 0 1 0 small_free small_obj in
  spiral_turn (L := approx_libm) s0 = Ok s0 ∧
  dx s0 = 0 ∧ dy s0 = 1 ∧ yaw_current s0 = 0%Q.
Proof.
  intros s0.
  apply (spiral_first_heading (L := approx_libm) (F := hull_fill) small_obj
           [mkNode (mkPoint 0 0) 0 0; mkNode (mkPoint 0 1) 0 0] 0 small_free s0).
  - simpl. lia.
  - vm_compute. reflexivity.
Defined.

Lemma spiral_loop_fuel_mono_witness :
  let s0 := mkSpiral [mkNode (mkPoint 0 0) 0 0] 0 (mkNode (mkPoint 0 0) 0 0)
              0 1 0 small_free small_obj in
  ∃ s', spiral_loop (L := approx_libm) (F := hull_fill) (P := returns_true)
          4 small_blocked s0 = Ok s' ∧
        spiral_loop (L := approx_libm) (F := hull_fill) (P := returns_true)
          7 small_blocked s0 = Ok s'.
Proof.
  intros s0.
  destruct (spiral_loop (L := approx_libm) (F := hull_fill) (P := returns_true)
              4 small_blocked s0) as [s'| |] eqn:E; [|by vm_compute in E..].
  exists s'. split; [done|].
  apply (spiral_loop_fuel_mono (L := approx_libm) (F := hull_fill)
           (P := returns_true) 4 7 small_blocked s0 s' E). lia.
Defined.

(** On the blocked grid of 2 by 2 cells the loop makes three accepting
    passes and a last one: four units of fuel, three nodes appended. *)
Lemma spiral_loop_fuel_exact_witness :
  let s0 := mkSpiral [mkNode (mkPoint 0 0) 0 0] 0 (mkNode (mkPoint 0 0) 0 0)
              0 1 0 small_free small_obj in
  ∃ s', spiral_loop (L := approx_libm) (F := hull_fill) (P := returns_true)
          4 small_blocked s0 = Ok s' ∧
        length (path_nodes s') = 4%nat.
Proof.
  intros s0.
  assert (∃ s1 s', nsteps (spiral_step (L := approx_libm) (F := hull_fill)
                             (P := returns_true) small_blocked) 3 s0 s1 ∧
                   spiral_last (L := approx_libm) (F := hull_fill)
                     (P := returns_true) small_blocked s1 s') as (s1 & s' & Hs & Hl).
  { eexists _, _. split.
    - do 3 (eapply nsteps_l; [constructor; vm_compute; reflexivity|]). constructor.
    - vm_compute. reflexivity. }
  exists s'.
  apply (spiral_loop_fuel_exact (L := approx_libm) (F := hull_fill)
           (P := returns_true) 3 4 small_blocked s0 s1 s' Hs Hl).
Defined.

(** The planner as constructed, on any grid mask: the spiral does not
    return. *)
Lemma spiral_never_returns_witness :
  spiral (L := approx_libm) (F := hull_fill) (P := returns_true) 1000
    example_obj [] [mkNode (mkPoint 5 5) 0 0] 0 [] = OutOfFuel.
Proof.
  apply (spiral_never_returns (L := approx_libm) (F := hull_fill)
           (P := returns_true) 1000 example_obj [] [mkNode (mkPoint 5 5) 0 0] 0 []
           (mkSpiral [mkNode (mkPoint 5 5) 0 0] 0 (mkNode (mkPoint 5 5) 0 0)
              0 1 0 [] example_obj)).
  - vm_compute. reflexivity.
  - reflexivity.
  - reflexivity.
  - simpl. lia.
  - reflexivity.
Defined.

(** From (1, 0) up to (1, 1), then the left turn to (0, 1). *)
Lemma spiral_step_in_grid_witness :
  ∃ n, back [mkNode (mkPoint 1 0) 0 0; mkNode (mkPoint 1 1) 0 0;
             mkNode (mkPoint 0 1) 0 0] = Ok n ∧
       in_grid small_grid (p_x (pos n)) (p_y (pos n)).
Proof.
  apply (spiral_step_in_grid (L := approx_libm) (F := hull_fill)
           (P := returns_true) small_free 0
           (mkSpiral [mkNode (mkPoint 1 0) 0 0; mkNode (mkPoint 1 1) 0 0] 1
              (mkNode (mkPoint 1 0) 0 0) (-1) 0 (@atan2 approx_libm 1 0)
              small_free small_obj)
           (mkSpiral [mkNode (mkPoint 1 0) 0 0; mkNode (mkPoint 1 1) 0 0;
                      mkNode (mkPoint 0 1) 0 0] 2
              (mkNode (mkPoint 1 1) 0 0) (-1) 0 (@atan2 approx_libm 1 0)
              small_free small_obj)
           [mkPoint 0 1] 0 0 1 (mkPoint 0 1)).
  - done.
  - right. by left.
  - reflexivity.
  - reflexivity.
  - by left.
  - reflexivity.
  - vm_compute. reflexivity.
Defined.

Lemma checkManoeuvreCollision_spec_witness :
  checkManoeuvreCollision (P := returns_true) [mkLoc 0 0; mkLoc 0 1] small_blocked
  = Ok (if decide (Exists (λ c, mask_at small_blocked (m_x c) (m_y c) = Ok true)
                     [mkLoc 0 0; mkLoc 0 1])
        then false else @flow_off_end returns_true).
Proof.
  apply (checkManoeuvreCollision_spec (P := returns_true) small_grid).
  - split; [done|]. by repeat constructor.
  - repeat constructor; simpl; lia.
Defined.

Lemma future_rejected_short_right_witness :
  future_rejected small_free [mkPoint 0 0; mkPoint 1 1] [mkPoint 1 0]
    (getSizeInCellsX small_grid - 1) (getSizeInCellsY small_grid - 1)
  = Undefined.
Proof.
  apply (future_rejected_short_right small_grid).
  - split; [done|]. by repeat constructor.
  - simpl. lia.
Defined.
