(* ===== verification/Walk.v ===== *)
(** * SpiralWalk: what a spiral promises

    An abstract spiral, after section 4.5 of the specification and the
    text of [SpiralSTC::spiral] (src/src/spiral_stc.cpp, lines
    105-304), and the theorem that [Spiral.spiral] implements it.

    The abstract spiral is a [walk]: the cells of the path, the heading
    that the next pass tries first, and the orientation that the
    catalog is carried to.  It has no iterator, no copy of the previous
    node, no masks and no object: [walk_pass] reads the configuration
    of the planner and the grid mask and writes nothing.  One pass
    looks at the cells of [man_grids] ([clear]), then tries the
    manoeuvres left, forward and right, each with the heading turned
    clockwise once more, and takes the first that is [admissible]: its
    cells of the catalog, carried to the last cell of the path, lie in
    the grid; the turn cells to the left and to the right of the next
    cell are not both [barred]; and its overlap bound is not negative.
    [walk_run] repeats the pass until none is taken.

    The loops of the source are closed forms here: [forallb] for the
    loop of lines 172-185, [existsb] for the loop of lines 264-274 and
    for [checkManoeuvreCollision].  What the closed forms show of the
    code: the cells of [man_grids] are the same in every direction of
    every pass, so the collision check ends the spiral or never
    rejects; the overlap counted is zero, since the cells of the
    manoeuvre go to a field and the vector counted stays empty, so the
    overlap test is a test of the sign of the bound; and of the right
    turn cells only as many are probed as there are left turn cells. *)

From Stdlib Require Import ZArith QArith Lia.
From stdpp Require Import base tactics list option numbers list_numbers strings.
From S2P Require Import Prelude Grid Libm State Raster Footprint Catalog Spiral.

Set Warnings "-clear-no-such-hyp".

#[local] Open Scope fcpp_scope.

(** ** The abstract spiral *)

#[global] Instance in_grid_dec g x y : Decision (in_grid g x y).
Proof. unfold in_grid. apply _. Defined.

(** The state of the abstract spiral. *)
Record walk : Type := mkWalk {
  w_path : list Point_t;
  w_heading : Z * Z;
  w_yaw : Q
}.

(** A cell of the coverage grid. *)
Definition inside (g : Costmap2D) (p : Point_t) : bool :=
  bool_decide (in_grid g (p_x p) (p_y p)).

(** An entry of a mask that is there and is set. *)
Definition set_at (m : Mask) (x y : Z) : bool :=
  bool_decide (mask_at m x y = Ok eNodeVisited).

(** A cell that a turn cannot enter: outside the grid, or set in the
    grid mask. *)
Definition barred (g : Costmap2D) (grid : Mask) (p : Point_t) : bool :=
  negb (inside g p) || set_at grid (p_x p) (p_y p).

(** The cell one step from [c] along [d]. *)
Definition cell_after (c : Point_t) (d : Z * Z) : Point_t :=
  mkPoint (p_x c + d.1) (p_y c + d.2).

(** The heading after a counter-clockwise quarter turn. *)
Definition counter_clockwise (d : Z * Z) : Z * Z := (- d.2, d.1).

Section walk.
Context {L : Libm} {P : Platform}.

(** The relative cell [r] of the catalog at the cell [c], turned to
    the orientation [yaw]. *)
Definition carried (st : SpiralSTC) (c : Point_t) (yaw : Q) (r : Point_t)
    : Point_t :=
  rotatePoint st (p_x c + p_x r) (p_y c + p_y r) (p_x c) (p_y c) yaw.

(** No cell of [man_grids] is set in the grid mask, and the collision
    check that finds none reads [true]. *)
Definition clear (st : SpiralSTC) (grid : Mask) : bool :=
  negb (existsb (λ c, set_at grid (m_x c) (m_y c)) (man_grids st)) &&
  flow_off_end.

(** The manoeuvres of a pass in the order tried, each with its
    relative cells and its overlap bound. *)
Definition manoeuvres (st : SpiralSTC) : list (list Point_t * Z) :=
  [(left_turn_rel st, max_overlap_turn st);
   (forward_rel st, max_overlap_forward st);
   (right_turn_rel st, max_overlap_turn st)].

(** The manoeuvre [m] can be taken from the cell [c] along [d]. *)
Definition admissible (st : SpiralSTC) (grid : Mask) (c : Point_t) (yaw : Q)
    (d : Z * Z) (m : list Point_t * Z) : bool :=
  let g := planner_grid st in
  let next := cell_after c d in
  let left := map (carried st next (atan2 d.2 d.1)) (left_turn_rel st) in
  let right := map (carried st next (atan2 d.2 d.1)) (right_turn_rel st) in
  forallb (λ r, inside g (carried st c yaw r)) m.1 &&
  negb (existsb (barred g grid) left &&
        existsb (barred g grid) (take (length left) right)) &&
  (0 <=? m.2).

(** The heading of the first manoeuvre that can be taken; the heading
    turns clockwise from one manoeuvre to the next. *)
Fixpoint first_admissible (st : SpiralSTC) (grid : Mask) (c : Point_t)
    (yaw : Q) (d : Z * Z) (ms : list (list Point_t * Z)) : option (Z * Z) :=
  match ms with
  | [] => None
  | m :: ms' =>
      if admissible st grid c yaw d m then Some d
      else first_admissible st grid c yaw (clockwise d) ms'
  end.

(** The heading that a pass takes from the cell [c], if it takes
    one. *)
Definition chosen (st : SpiralSTC) (grid : Mask) (c : Point_t) (yaw : Q)
    (d : Z * Z) (ms : list (list Point_t * Z)) : option (Z * Z) :=
  if clear st grid then first_admissible st grid c yaw d ms else None.

(** One pass: the walk with the cell appended, or nothing when the
    spiral ends here. *)
Definition walk_pass (st : SpiralSTC) (grid : Mask) (w : walk) : option walk :=
  c ← last (w_path w);
  d ← chosen st grid c (w_yaw w) (w_heading w) (manoeuvres st);
  Some (mkWalk (w_path w ++ [cell_after c d]) (counter_clockwise d)
          (atan2 d.2 d.1)).

(** The spiral: passes until none is taken, [fuel] of them at most. *)
Fixpoint walk_run (fuel : nat) (st : SpiralSTC) (grid : Mask) (w : walk)
    : option (list Point_t) :=
  match fuel with
  | O => None
  | S fuel' =>
      match walk_pass st grid w with
      | Some w' => walk_run fuel' st grid w'
      | None => Some (w_path w)
      end
  end.

(** The walk that a spiral starts with: along y at the orientation
    given, or, on a path of three nodes or more, to the left of its
    last step at the orientation of that step. *)
Definition walk_start (init : list gridNode_t) (yaw_start : Q) : walk :=
  match decide (2 < length init)%nat, init !! (length init - 2)%nat,
        last init with
  | left _, Some p, Some n =>
      let mx := p_x (pos n) - p_x (pos p) in
      let my := p_y (pos n) - p_y (pos p) in
      mkWalk (pos <$> init) (counter_clockwise (mx, my)) (atan2 my mx)
  | _, _, _ => mkWalk (pos <$> init) (0, 1) yaw_start
  end.

(** The walk that a state of the loop of [spiral] stands for. *)
Definition walk_of (s : spiral_state) : walk :=
  match decide (it s = 0%nat), last (path_nodes s) with
  | right _, Some n =>
      let mx := p_x (pos n) - p_x (pos (prev s)) in
      let my := p_y (pos n) - p_y (pos (prev s)) in
      mkWalk (pos <$> path_nodes s) (counter_clockwise (mx, my)) (atan2 my mx)
  | _, _ => mkWalk (pos <$> path_nodes s) (dx s, dy s) (yaw_current s)
  end.

End walk.

#[global] Arguments manoeuvres : simpl never.

(** ** The loops of a pass in closed form *)

Lemma checkMapBounds_inside g x y :
  checkMapBounds x y (size_x g - 1) (size_y g - 1) = inside g (mkPoint x y).
Proof.
  unfold inside. simpl. destruct (checkMapBounds _ _ _ _) eqn:E; symmetry.
  - by apply bool_decide_eq_true, checkMapBounds_in_grid.
  - apply bool_decide_eq_false. intros H%checkMapBounds_in_grid. congruence.
Qed.

Lemma inside_point g p : inside g (mkPoint (p_x p) (p_y p)) = inside g p.
Proof. done. Qed.

Section closed_forms.
Context {L : Libm} {P : Platform}.
Context (g : Costmap2D) (grid : Mask).
Context (Hdims : mask_dims grid (size_x g) (size_y g)).

Lemma set_at_in_grid x y b :
  mask_at grid x y = Ok b → set_at grid x y = b.
Proof.
  intros H. unfold set_at. rewrite H. by destruct b.
Qed.

(** Lines 266 and 270: the test of one cell. *)
Lemma cell_blocked_barred p :
  cell_blocked grid p (getSizeInCellsX g - 1) (getSizeInCellsY g - 1)
    = Ok (barred g grid p).
Proof.
  unfold cell_blocked, barred, getSizeInCellsX, getSizeInCellsY.
  rewrite checkMapBounds_inside, inside_point.
  destruct (inside g p) eqn:E; simpl; [|done].
  apply bool_decide_eq_true in E.
  destruct (proj2 (mask_at_is_Ok _ _ _ (p_x p) (p_y p) Hdims) E) as [b Hb].
  rewrite Hb. simpl. rewrite (set_at_in_grid _ _ _ Hb). by destruct b.
Qed.

(** Lines 264-274 after [n] passes of the loop. *)
Lemma future_checks_take future_left future_right (n : nat) :
  (n ≤ length future_left)%nat → (n ≤ length future_right)%nat →
  res_foldl (future_check grid future_left future_right
               (getSizeInCellsX g - 1) (getSizeInCellsY g - 1))
    (false, false) (seqZ 0 (Z.of_nat n))
  = Ok (existsb (barred g grid) (take n future_left),
        existsb (barred g grid) (take n future_right)).
Proof.
  induction n as [|n IH]; intros Hl Hr; [done|].
  rewrite seqZ_snoc, res_foldl_app, IH by lia. simpl.
  destruct (lookup_lt_is_Some_2 future_left n) as [fl Hfl]; [lia|].
  destruct (lookup_lt_is_Some_2 future_right n) as [fr Hfr]; [lia|].
  unfold future_check.
  rewrite (proj2 (vec_at_Ok _ _ _)) by (by rewrite Nat2Z.id; split; [lia|]).
  simpl. rewrite cell_blocked_barred. simpl.
  rewrite (proj2 (vec_at_Ok _ _ _)) by (by rewrite Nat2Z.id; split; [lia|]).
  simpl. rewrite cell_blocked_barred. simpl.
  rewrite (take_S_r _ _ _ Hfl), (take_S_r _ _ _ Hfr), !existsb_app. simpl.
  by rewrite !orb_false_r.
Qed.

(** Lines 262-274: the two flags. *)
Lemma future_rejected_barred future_left future_right :
  (length future_left ≤ length future_right)%nat →
  future_rejected grid future_left future_right
    (getSizeInCellsX g - 1) (getSizeInCellsY g - 1)
  = Ok (existsb (barred g grid) future_left,
        existsb (barred g grid) (take (length future_left) future_right)).
Proof.
  intros Hlen. unfold future_rejected.
  rewrite future_checks_take by lia. by rewrite firstn_all.
Qed.

(** Lines 802-809. *)
Lemma checkManoeuvreCollision_clear cells :
  cells_in_grid g cells →
  checkManoeuvreCollision cells grid
    = Ok (negb (existsb (λ c, set_at grid (m_x c) (m_y c)) cells) &&
          flow_off_end).
Proof.
  induction 1 as [|c cells Hc _ IH]; simpl; [done|].
  destruct (proj2 (mask_at_is_Ok _ _ _ (m_x c) (m_y c) Hdims) Hc) as [b Hb].
  rewrite Hb, (set_at_in_grid _ _ _ Hb). simpl. by destruct b.
Qed.

End closed_forms.

(** ** The configuration *)

Section configuration.
Context {L : Libm} {P : Platform}.

Lemma carried_config st st' :
  planner_grid st' = planner_grid st → carried st' = carried st.
Proof. intros H. unfold carried, rotatePoint. by rewrite H. Qed.

Lemma admissible_config st st' grid :
  same_config st st' → admissible st' grid = admissible st grid.
Proof.
  intros Hc. unfold admissible.
  by rewrite (carried_config st st'), (sc_planner_grid _ _ Hc),
    (sc_left_turn_rel _ _ Hc), (sc_right_turn_rel _ _ Hc)
    by apply (sc_planner_grid _ _ Hc).
Qed.

Lemma first_admissible_config st st' grid c yaw d ms :
  same_config st st' →
  first_admissible st' grid c yaw d ms = first_admissible st grid c yaw d ms.
Proof.
  intros Hc. revert d. induction ms as [|m ms IH]; intros d; simpl; [done|].
  by rewrite (admissible_config st st'), IH.
Qed.

Lemma manoeuvres_config st st' :
  same_config st st' → manoeuvres st' = manoeuvres st.
Proof.
  intros Hc. unfold manoeuvres.
  by rewrite (sc_left_turn_rel _ _ Hc), (sc_forward_rel _ _ Hc),
    (sc_right_turn_rel _ _ Hc), (sc_max_overlap_turn _ _ Hc),
    (sc_max_overlap_forward _ _ Hc).
Qed.

Lemma clear_config st st' grid :
  same_config st st' → clear st' grid = clear st grid.
Proof. intros Hc. unfold clear. by rewrite (sc_man_grids _ _ Hc). Qed.

Lemma chosen_config st st' grid c yaw d ms :
  same_config st st' → chosen st' grid c yaw d ms = chosen st grid c yaw d ms.
Proof.
  intros Hc. unfold chosen.
  by rewrite (clear_config st st'), (first_admissible_config st st').
Qed.

Lemma walk_pass_config st st' grid w :
  same_config st st' → walk_pass st' grid w = walk_pass st grid w.
Proof.
  intros Hc. unfold walk_pass. rewrite (manoeuvres_config st st') by done.
  destruct (last (w_path w)) as [c|]; [|done].
  cbn [mbind option_bind]. by rewrite (chosen_config st st').
Qed.

Lemma walk_run_config fuel st st' grid w :
  same_config st st' → walk_run fuel st' grid w = walk_run fuel st grid w.
Proof.
  intros Hc. revert w. induction fuel as [|fuel IH]; intros w; simpl; [done|].
  rewrite (walk_pass_config st st') by done.
  by destruct (walk_pass st grid w).
Qed.

#[export] Instance walk_pass_proper :
  Proper (same_config ==> (=) ==> (=) ==> (=)) walk_pass.
Proof. intros st st' Hc ? grid -> ? w ->. symmetry. by apply walk_pass_config. Qed.

#[export] Instance walk_run_proper fuel :
  Proper (same_config ==> (=) ==> (=) ==> (=)) (walk_run fuel).
Proof. intros st st' Hc ? grid -> ? w ->. symmetry. by apply walk_run_config. Qed.

End configuration.

(** ** One pass of [spiral] against one pass of the walk *)

Section passes.
Context {L : Libm} {F : ConvexFill} {P : Platform}.

(** Lines 172-185: the flag [man_is_free]. *)
Lemma rotate_rel_inside st g rel c yaw :
  (rotate_rel st rel (p_x c) (p_y c) yaw
     (getSizeInCellsX g - 1) (getSizeInCellsY g - 1)).1
  = forallb (λ r, inside g (carried st c yaw r)) rel.
Proof.
  unfold getSizeInCellsX, getSizeInCellsY.
  induction rel as [|r rel IH]; [done|]. cbn [rotate_rel forallb].
  fold (carried st c yaw r). rewrite checkMapBounds_inside, inside_point.
  destruct (inside g (carried st c yaw r)); [|done].
  by destruct (rotate_rel st rel _ _ _ _ _).
Qed.

(** Lines 155-300: what decides between the three ways in which a pass
    of the [for] loop ends. *)
Lemma spiral_direction_walk grid i s a n m :
  fits grid (this s) → back (path_nodes s) = Ok n →
  direction_rel (this s) i = Some m → spiral_direction grid i s = Ok a →
  match a with
  | Collision _ => clear (this s) grid = false
  | Accepted _ =>
      clear (this s) grid = true ∧
      admissible (this s) grid (pos n) (yaw_current s) (dx s, dy s) m = true
  | Rejected _ =>
      clear (this s) grid = true ∧
      admissible (this s) grid (pos n) (yaw_current s) (dx s, dy s) m = false
  end.
Proof.
  intros [Hd Hg Hlen] Hn Hm. unfold spiral_direction, rotate_manoeuvre.
  rewrite Hn, Hm. destruct m as [rel o]. simpl.
  pose proof (rotate_rel_inside (this s) (planner_grid (this s)) rel (pos n)
                (yaw_current s)) as Hfree.
  destruct (rotate_rel _ _ _ _ _ _ _) as [free cells]. simpl in Hfree.
  rewrite (checkManoeuvreCollision_clear (planner_grid (this s))) by done.
  unfold clear. simpl.
  destruct (negb (existsb _ _) && flow_off_end); simpl; [|by intros [= <-]].
  destruct (computeManoeuvreFootprint _ _ _ _ _ _ _ _ _ _) as [[b vc] st2] eqn:E2.
  apply computeManoeuvreFootprint_frame in E2 as (-> & Hc2 & _ & Hm2).
  assert (same_config (this s) st2) as Hc
    by (etrans; [apply set_max_overlap_config|done]).
  unfold count_overlap, mark_cells. simpl.
  replace (p_y (pos n) + dy s - p_y (pos n)) with (dy s) by lia.
  replace (p_x (pos n) + dx s - p_x (pos n)) with (dx s) by lia.
  change (future_cells st2 ?rel (p_x (pos n) + dx s) (p_y (pos n) + dy s) ?yaw)
    with (map (carried st2 (cell_after (pos n) (dx s, dy s)) yaw) rel).
  rewrite (carried_config (this s) st2), (sc_left_turn_rel _ _ Hc),
    (sc_right_turn_rel _ _ Hc) by apply Hc.
  rewrite (future_rejected_barred (planner_grid (this s)))
    by (done || by rewrite !length_map).
  simpl. rewrite Hm2. simpl. unfold admissible. simpl. rewrite <- Hfree.
  destruct free, (existsb _ _), (existsb _ _), (0 <=? o); simpl;
    by intros [= <-].
Qed.

Lemma direction_rel_config st st' i :
  same_config st st' → direction_rel st' i = direction_rel st i.
Proof.
  intros Hc. unfold direction_rel.
  by rewrite (sc_left_turn_rel _ _ Hc), (sc_forward_rel _ _ Hc),
    (sc_right_turn_rel _ _ Hc), (sc_max_overlap_turn _ _ Hc),
    (sc_max_overlap_forward _ _ Hc).
Qed.

(** Lines 152-301: the [for] loop takes the first manoeuvre that can
    be taken. *)
Lemma spiral_directions_walk grid ds : ∀ ms s done s' n,
  fits grid (this s) → back (path_nodes s) = Ok n →
  Forall2 (λ i m, direction_rel (this s) i = Some m) ds ms →
  spiral_directions grid ds s = Ok (done, s') →
  match chosen (this s) grid (pos n) (yaw_current s) (dx s, dy s) ms with
  | Some d =>
      done = false ∧ path_nodes s' = path_nodes s ++ [node_after n d] ∧
      it s' = length (path_nodes s) ∧ prev s' = n
  | None => done = true ∧ path_nodes s' = path_nodes s
  end.
Proof.
  unfold chosen.
  induction ds as [|i ds IH]; intros ms s done s' n Hfit Hn Hms H; simpl in H.
  { apply Forall2_nil_inv_l in Hms as ->. simplify_eq. simpl.
    by destruct (clear _ _). }
  apply Forall2_cons_inv_l in Hms as (m & ms' & Hm & Hms & ->).
  apply res_bind_Ok in H as (a & Ha & H).
  pose proof (spiral_direction_walk _ _ _ _ _ _ Hfit Hn Hm Ha) as Hw.
  apply spiral_direction_cases in Ha as (n' & Hn' & Ha).
  rewrite Hn in Hn'. injection Hn' as <-. simpl.
  destruct a as [s1|s1|s1]; simplify_eq.
  - destruct Hw as [-> ->]. by destruct Ha as (_ & ? & ? & ?).
  - rewrite Hw. by destruct Ha as (_ & ? & _).
  - destruct Hw as [Hcl ->], Ha as ([_ Hc _] & Hp & _ & _ & Hd & Hy).
    specialize (IH ms' s1 done s' n). rewrite Hp, Hy, Hd in IH.
    rewrite (clear_config _ _ _ Hc),
      (first_admissible_config _ _ _ _ _ _ _ Hc) in IH.
    rewrite Hcl in *. apply IH; [by rewrite <- Hc|done| |done].
    eapply Forall2_impl; [done|]. intros j mj Hj. simpl in Hj.
    by rewrite (direction_rel_config _ _ _ Hc).
Qed.

(** Lines 140-149: the heading and the orientation after the turn are
    those of the walk. *)
Lemma walk_of_turn s s1 n :
  spiral_turn s = Ok s1 → back (path_nodes s) = Ok n →
  walk_of s = mkWalk (pos <$> path_nodes s) (dx s1, dy s1) (yaw_current s1).
Proof.
  intros (_ & _ & _ & _ & H)%spiral_turn_cases Hn. unfold walk_of.
  rewrite (proj1 (back_Ok _ _) Hn).
  destruct (decide (it s = 0%nat)); [by subst|].
  destruct H as (n' & Hn' & H). rewrite Hn in Hn'. injection Hn' as <-.
  simpl in H. by destruct H as (-> & -> & ->).
Qed.

(** Lines 284-287: the state after a node was appended. *)
Lemma walk_of_accepted s' path n d :
  path ≠ [] → path_nodes s' = path ++ [node_after n d] →
  it s' = length path → prev s' = n →
  walk_of s' = mkWalk ((pos <$> path) ++ [cell_after (pos n) d])
                 (counter_clockwise d) (atan2 d.2 d.1).
Proof.
  intros Hp Hpath Hit Hprev. unfold walk_of.
  rewrite Hpath, Hprev, last_snoc, fmap_app, decide_False
    by (rewrite Hit; by destruct path).
  simpl. unfold counter_clockwise. simpl.
  by replace (p_x (pos n) + d.1 - p_x (pos n)) with d.1 by lia;
     replace (p_y (pos n) + d.2 - p_y (pos n)) with d.2 by lia.
Qed.

Lemma walk_of_path s : w_path (walk_of s) = pos <$> path_nodes s.
Proof. unfold walk_of. by repeat case_match. Qed.

(** Lines 140-301: one iteration of the [while] loop is one pass of
    the walk, and the last iteration is the pass that is not taken. *)
Lemma spiral_iteration_walk grid s done s' :
  fits grid (this s) → spiral_iteration grid s = Ok (done, s') →
  walk_pass (this s) grid (walk_of s)
    = (if done then None else Some (walk_of s')) ∧
  (done = true → path_nodes s' = path_nodes s).
Proof.
  intros Hfit (s1 & H1 & H)%res_bind_Ok.
  destruct (back (path_nodes s)) as [n| |] eqn:Hn.
  2,3: apply spiral_turn_cases in H1 as (Hp & _); simpl in H;
    unfold spiral_direction in H; by rewrite Hp, Hn in H.
  rewrite (walk_of_turn _ _ _ H1 Hn).
  apply spiral_turn_cases in H1 as (Hp & _ & _ & [_ Hc _] & _).
  apply (spiral_directions_walk _ _ (manoeuvres (this s1)) _ _ _ n) in H;
    [|by rewrite <- Hc|by rewrite Hp|by repeat constructor].
  unfold walk_pass. cbn [w_path w_yaw w_heading].
  rewrite fmap_last, (proj1 (back_Ok _ _) Hn).
  cbn [fmap option_fmap option_map mbind option_bind].
  rewrite (chosen_config _ _ _ _ _ _ _ Hc), (manoeuvres_config _ _ Hc), Hp in H.
  destruct (chosen _ _ _ _ _ _) as [d|]; [|by destruct H as [-> ?]].
  destruct H as (-> & Hpath & Hit & Hprev). simpl. split; [|done].
  by rewrite (walk_of_accepted s' (path_nodes s) n d) by
    (done || by eapply back_nonempty).
Qed.

(** Lines 138-302: the [while] loop is the run of the walk, on every
    fuel. *)
Lemma spiral_loop_walk fuel grid : ∀ s,
  path_nodes s ≠ [] → fits grid (this s) →
  match spiral_loop fuel grid s with
  | Ok s' =>
      walk_run fuel (this s) grid (walk_of s) = Some (pos <$> path_nodes s')
  | OutOfFuel => walk_run fuel (this s) grid (walk_of s) = None
  | Undefined => False
  end.
Proof.
  induction fuel as [|fuel IH]; intros s Hp Hfit; simpl; [done|].
  destruct (spiral_iteration_is_Ok grid s Hp Hfit) as [[done s1] E]. rewrite E.
  pose proof (spiral_iteration_walk _ _ _ _ Hfit E) as [-> Hd].
  apply spiral_iteration_cases in E as [Hf E]. simpl.
  destruct done; [by rewrite walk_of_path, Hd|].
  destruct E as (n & d & _ & Hp' & _). destruct Hf as [_ Hc _].
  rewrite <- (walk_run_config _ _ _ _ _ Hc).
  apply IH; [|by rewrite <- Hc]. rewrite Hp'. by destruct (path_nodes s).
Qed.

(** Lines 108-120: the state before the first pass. *)
Lemma walk_of_init st init yaw_start visited0 s0 :
  spiral_init st init yaw_start visited0 = Ok s0 →
  walk_of s0 = walk_start init yaw_start.
Proof.
  intros (Hp & Hdx & Hdy & Hy & Hi & Hpr & _ & n & Hn & _)%spiral_init_Ok.
  unfold walk_of, walk_start. rewrite Hp, Hdx, Hdy, Hy.
  apply back_Ok in Hn. rewrite Hn. rewrite Hi in Hpr |- *.
  repeat case_decide; try lia; try done.
  by rewrite Hpr.
Qed.

(** A spiral that returns has walked the walk. *)
Lemma spiral_returns_walk fuel st grid init yaw_start visited0 path visited' st' :
  fits grid st →
  spiral fuel st grid init yaw_start visited0 = Ok (path, visited', st') →
  walk_run fuel st grid (walk_start init yaw_start) = Some (pos <$> path).
Proof.
  intros Hfit (s0 & H0 & H)%res_bind_Ok.
  apply res_bind_Ok in H as (s & Hl & [= <- _ _]).
  rewrite <- (walk_of_init _ _ _ _ _ H0).
  apply spiral_init_Ok in H0 as (Hp & _ & _ & _ & _ & _ & Hc & n & Hn & _).
  rewrite Hc. pose proof (spiral_loop_walk fuel grid s0) as H.
  rewrite Hp, <- Hc, Hl in H. by apply H; [eapply back_nonempty|].
Qed.

(** The cells of the path of a spiral do not depend on [visited]. *)
Lemma spiral_path_any_visited fuel st grid init yaw_start v1 v2 r1 r2 :
  fits grid st →
  spiral fuel st grid init yaw_start v1 = Ok r1 →
  spiral fuel st grid init yaw_start v2 = Ok r2 →
  pos <$> r1.1.1 = pos <$> r2.1.1.
Proof.
  destruct r1 as [[p1 ?] ?], r2 as [[p2 ?] ?].
  intros Hfit H1%spiral_returns_walk H2%spiral_returns_walk; [|done..].
  simpl. congruence.
Qed.

End passes.

(** ** The refinement *)

Section refinement.
Context {L : Libm} {F : ConvexFill} {P : Platform}.

(** C19. [spiral] implements the abstract spiral: on a planner whose grid
    mask has the size of the coverage grid, whose cells of [man_grids]
    lie in it and whose catalog has a right turn cell for every left
    turn cell, and from an initial path whose first footprint can be
    marked, the walk decides what [spiral] does.  When the walk ends
    within the fuel, [spiral] returns, and the cells of its path are
    those of the walk; when it does not, [spiral] runs out of fuel as
    well.  So the path of a spiral is decided by the grid mask, the
    catalog and the three overlap bounds alone: in every pass the
    first of left, forward and right whose cells of the catalog lie in
    the grid, whose next cell has a turn to the left or to the right
    that is not barred, and whose overlap bound is not negative. *)
Theorem spiral_walk_refinement fuel st grid init yaw_start visited0 :
  fits grid st → is_Ok (spiral_init st init yaw_start visited0) →
  match walk_run fuel st grid (walk_start init yaw_start) with
  | Some cells =>
      ∃ path visited' st',
        spiral fuel st grid init yaw_start visited0 = Ok (path, visited', st') ∧
        pos <$> path = cells
  | None => spiral fuel st grid init yaw_start visited0 = OutOfFuel
  end.
Proof.
  intros Hfit [s0 H0]. unfold spiral. rewrite H0. simpl.
  rewrite <- (walk_of_init _ _ _ _ _ H0).
  apply spiral_init_Ok in H0 as (Hp & _ & _ & _ & _ & _ & Hc & n & Hn & _).
  rewrite <- (walk_run_config _ _ _ _ _ Hc).
  pose proof (spiral_loop_walk fuel grid s0) as H.
  rewrite Hp, <- Hc in H. specialize (H (back_nonempty _ _ Hn) Hfit).
  destruct (spiral_loop fuel grid s0) as [s'| |]; [|done|]; rewrite H; [|done].
  by eexists _, _, _.
Qed.

End refinement.

(** ** The theorem at a concrete input *)

(** On the grid of 2 by 2 cells with (0, 1) blocked, from (0, 0): the
    walk goes up, right and down in three passes and ends in the
    fourth, and so does the spiral. *)
Lemma spiral_walk_refinement_witness :
  ∃ path visited' st',
    spiral (L := approx_libm) (F := hull_fill) (P := returns_true) 4 small_obj
      small_blocked [mkNode (mkPoint 0 0) 0 0] 0 small_free
      = Ok (path, visited', st') ∧
    pos <$> path = [mkPoint 0 0; mkPoint 0 1; mkPoint 1 1; mkPoint 1 0].
Proof.
  pose proof (spiral_walk_refinement (L := approx_libm) (F := hull_fill)
                (P := returns_true) 4 small_obj small_blocked
                [mkNode (mkPoint 0 0) 0 0] 0 small_free) as H.
  assert (walk_run (L := approx_libm) (P := returns_true) 4 small_obj
            small_blocked
            (walk_start (L := approx_libm) [mkNode (mkPoint 0 0) 0 0] 0)
          = Some [mkPoint 0 0; mkPoint 0 1; mkPoint 1 1; mkPoint 1 0]) as E
    by (vm_compute; reflexivity).
  rewrite E in H. apply H.
  - split; [|constructor|simpl; lia]. split; [done|]. by repeat constructor.
  - eexists. vm_compute. reflexivity.
Defined.
