(* ===== verification/Planner.v ===== *)
(** * CoveragePlanner: spirals and relocations

    [SpiralSTC::spiral_stc] (src/src/spiral_stc.cpp, lines 306-464) and
    the part of [SpiralSTC::makePlan] that calls it (lines 497-561).

    [spiral_stc] runs a first spiral from the start cell and then, as
    long as open cells remain, relocates to one of them and spirals
    again.  The relocation [a_star_to_open_space] and the list of open
    cells [map_2_goals] are functions of the base class, which is not
    part of the source: they are the interface [Relocator], and the
    theorems hold for every implementation with the laws
    [RelocatorLaws].  [Search] has the search of the specification as
    an instance.

    The state that lives across the iterations of the outer loop is
    the record [coverage].  The counters [multiple_pass_counter] and
    [visited_counter] are reference parameters that [makePlan] binds to
    the metrics of the object, so they are fields of the object here.
    The two [while] loops take fuel: [relocate] one unit per search,
    [spiral_stc_loop] one unit per iteration of the outer loop, and the
    spirals inside get the fuel of the call.

    [spiral_stc] shows its progress through [visualizeSpiral] and
    [visualizeGrid].  These read and write nothing that planning
    touches, so the calls are collected, in order and with their
    arguments, in the list [cov_shown] of values of [display]; [Host]
    has the publishers and [Lifecycle] hands the list to them. *)

From Stdlib Require Import ZArith QArith Lia.
From stdpp Require Import base tactics list option numbers list_numbers strings sorting
  pretty.
From S2P Require Import Prelude Grid Libm State Raster Footprint Catalog Spiral.

Set Warnings "-clear-no-such-hyp".

(** ** The base class *)

(** [map_2_goals(grid, value)]: the cells of the mask that hold
    [value]; [a_star_to_open_space(grid, init, cost, visited, goals,
    pathNodes)]: whether the search resigned, and [visited] and
    [pathNodes] after the call. *)
Class Relocator : Type := {
  map_2_goals : Mask → bool → list Point_t;
  a_star_to_open_space :
    Mask → gridNode_t → Z → Mask → list Point_t → list gridNode_t →
    bool * Mask * list gridNode_t
}.

(** What [spiral_stc] relies on: the search only appends to the path
    and only sets entries of [visited]. *)
Class RelocatorLaws (R : Relocator) : Prop := {
  a_star_extends : ∀ grid init cost visited goals path_nodes resign visited' path_nodes',
    a_star_to_open_space grid init cost visited goals path_nodes
      = (resign, visited', path_nodes') →
    ∃ added, path_nodes' = path_nodes ++ added;
  a_star_visited : ∀ grid init cost visited goals path_nodes resign visited' path_nodes',
    a_star_to_open_space grid init cost visited goals path_nodes
      = (resign, visited', path_nodes') →
    mask_le visited visited'
}.

(** ** State of the outer loop *)

(** A call of [visualizeSpiral] or of [visualizeGrid], with its
    arguments. *)
Inductive display : Type :=
| ShowSpiral (spiral_nodes : list gridNode_t) (name_space : string)
    (w a r g b : Q)
| ShowGrid (grid : Mask) (name_space : string) (a r g b : Q).

(** The variables of [spiral_stc] that live across its loop, and the
    object. *)
Record coverage : Type := mkCoverage {
  cov_visited : Mask;
  cov_path_nodes : list gridNode_t;
  cov_full_path : list Point_t;
  cov_goals : list Point_t;
  cov_shown : list display;
  cov_this : SpiralSTC
}.

(** ** Operations *)

(** Line 317: [visited_copy.resize(visited[0].size(),
    std::vector<bool>(visited.size()))]. *)
Definition resize_visited_copy (visited visited_copy : Mask) : res Mask :=
  row ← vec_at visited 0;
  let n := length row in
  Ok (take n visited_copy ++
      replicate (n - length visited_copy) (replicate (length visited) false)).

(** Lines 333-338 and 452-457: the nodes of a stage appended to the
    full path, each counted. *)
Definition push_path (path_nodes : list gridNode_t) (full_path : list Point_t)
    (st : SpiralSTC) : list Point_t * SpiralSTC :=
  foldl (λ '(full_path, st) path_node,
    let new_point := mkPoint (p_x (pos path_node)) (p_y (pos path_node)) in
    (full_path ++ [new_point], set_visited_counter (visited_counter st + 1) st))
    (full_path, st) path_nodes.

(** Lines 312-338: the first spiral. *)
Definition spiral_stc_first {L : Libm} {F : ConvexFill} {P : Platform}
    {R : Relocator} (fuel : nat) (st : SpiralSTC) (grid : Mask) (init : Point_t)
    (yaw_start : Q) : res coverage :=
  let st := set_multiple_pass_counter 0 st in
  let st := set_visited_counter 0 st in
  let visited := grid in
  visited_copy ← resize_visited_copy visited (visited_copy st);
  let st := set_visited_copy visited_copy st in
  let new_point := mkPoint (p_x init) (p_y init) in
  let new_node := mkNode new_point 0 0 in
  let path_nodes := [new_node] in
  '(path_nodes, visited, st) ← spiral fuel st grid path_nodes yaw_start visited;
  let shown := [ShowSpiral path_nodes "first_spiral" (2 # 10) (5 # 10) 0 (6 # 10) 0] in
  let goals := map_2_goals visited eNodeOpen in
  let '(full_path, st) := push_path path_nodes [] st in
  Ok (mkCoverage visited path_nodes full_path goals shown st).

(** Lines 381-393: the footprint at the end of a relocation against
    the grid and the visited cells. *)
Fixpoint end_footprint_check (grid visited : Mask)
    (a_star_end_footprint : list MapLocation) (accept_a_star : bool)
    (visit_count : Z) : res (bool * Z) :=
  match a_star_end_footprint with
  | [] => Ok (accept_a_star, visit_count)
  | a_star_end_cell :: cells =>
      c ← mask_at grid (m_x a_star_end_cell) (m_y a_star_end_cell);
      if Bool.eqb c eNodeVisited then Ok (false, visit_count)
      else
        v ← mask_at visited (m_x a_star_end_cell) (m_y a_star_end_cell);
        if Bool.eqb v eNodeVisited then
          end_footprint_check grid visited cells accept_a_star (visit_count + 1)
        else end_footprint_check grid visited cells accept_a_star visit_count
  end.

(** Lines 357-401: the searches for a place to start the next spiral,
    [fuel] of them at most: whether the search resigned, and [visited]
    and [path_nodes] when the loop is left. *)
Fixpoint relocate {L : Libm} {F : ConvexFill} {R : Relocator} (fuel : nat)
    (st : SpiralSTC) (grid : Mask) (goals : list Point_t) (visited : Mask)
    (path_nodes : list gridNode_t) : res (bool * Mask * list gridNode_t) :=
  match fuel with
  | O => OutOfFuel
  | S fuel' =>
      last_node ← back path_nodes;
      let '(resign, visited, path_nodes) :=
        a_star_to_open_space grid last_node 1 visited goals path_nodes in
      if resign : bool then Ok (true, visited, path_nodes)
      else
        last_node ← back path_nodes;
        let x_n := p_x (pos last_node) in
        let y_n := p_y (pos last_node) in
        if decide (1 < length path_nodes)%nat then
          prev ← vec_at path_nodes (Z.of_nat (length path_nodes - 1 - 1));
          let yaw := atan2 (y_n - p_y (pos prev)) (x_n - p_x (pos prev)) in
          let '(accept_a_star, a_star_end_footprint) :=
            computeFootprintCells st x_n y_n yaw "vehicle" [] in
          '(accept_a_star, visit_count) ←
            end_footprint_check grid visited a_star_end_footprint accept_a_star 0;
          if negb accept_a_star || (visit_count >? max_overlap st) then
            visited ← mask_mark visited x_n y_n;
            let path_nodes := take 1 path_nodes in
            relocate fuel' st grid goals visited path_nodes
          else Ok (false, visited, path_nodes)
        else Ok (false, visited, path_nodes)
  end.

(** Lines 410-421: the nodes of the relocation marked, those already
    visited counted. *)
Definition update_visited (visited : Mask) (path_nodes : list gridNode_t)
    (st : SpiralSTC) : res (Mask * SpiralSTC) :=
  '(visited, st) ← res_foldl (λ '(visited, st) path_node,
    v ← mask_at visited (p_x (pos path_node)) (p_y (pos path_node));
    let st := if v : bool
              then set_multiple_pass_counter (multiple_pass_counter st + 1) st
              else st in
    visited ← mask_mark visited (p_x (pos path_node)) (p_y (pos path_node));
    Ok (visited, st)) (visited, st) path_nodes;
  let st := if decide (0 < length path_nodes)%nat
            then set_multiple_pass_counter (multiple_pass_counter st - 1) st
            else st in
  Ok (visited, st).

(** Lines 430-444: the path from its first node at the cell of
    [last_node_a_star] on. *)
Fixpoint spiral_part (path_nodes_spiral : list gridNode_t)
    (last_node_a_star : gridNode_t) : list gridNode_t :=
  match path_nodes_spiral with
  | [] => []
  | path_node_spiral :: rest =>
      if decide (p_x (pos path_node_spiral) = p_x (pos last_node_a_star) ∧
                 p_y (pos path_node_spiral) = p_y (pos last_node_a_star))
      then path_nodes_spiral
      else spiral_part rest last_node_a_star
  end.

(** Lines 445-448: the spiral shown when it has more than one node,
    under a name that counts the goals. *)
Definition show_spiral (path_nodes_spiral : list gridNode_t)
    (goals : list Point_t) : list display :=
  if decide (1 < length path_nodes_spiral)%nat then
    [ShowSpiral path_nodes_spiral ("spiral" +:+ pretty (length goals + 1)%nat)
       (2 # 10) (5 # 10) 0 (6 # 10) 0]
  else [].

(** How one iteration of the outer loop ends: the loop is left (the
    cap on the spirals or a relocation that resigned), or the next
    iteration tests the goals again. *)
Inductive stage : Type :=
| Stop (c : coverage)
| Continue (c : coverage).

(** Lines 342-457: the body of the outer loop. *)
Definition spiral_stc_iteration {L : Libm} {F : ConvexFill} {P : Platform}
    {R : Relocator} (fuel : nat) (grid : Mask) (yaw_start : Q) (c : coverage)
    : res stage :=
  let st := set_spiral_counter (spiral_counter (cov_this c) + 1) (cov_this c) in
  if spiral_counter st =? 2 then
    Ok (Stop (mkCoverage (cov_visited c) (cov_path_nodes c) (cov_full_path c)
                (cov_goals c) (cov_shown c) st))
  else
    _ ← back (cov_path_nodes c);
    let path_nodes := drop (length (cov_path_nodes c) - 1) (cov_path_nodes c) in
    let st := set_visited_counter (visited_counter st - 1) st in
    '(resign, visited, path_nodes) ←
      relocate fuel st grid (cov_goals c) (cov_visited c) path_nodes;
    if resign : bool then
      Ok (Stop (mkCoverage visited path_nodes (cov_full_path c) (cov_goals c)
                  (cov_shown c) st))
    else
      '(visited, st) ← update_visited visited path_nodes st;
      last_node_a_star ← back path_nodes;
      '(path_nodes, visited, st) ←
        spiral fuel st grid path_nodes yaw_start visited;
      let path_nodes_spiral := spiral_part path_nodes last_node_a_star in
      let shown := cov_shown c ++ show_spiral path_nodes_spiral (cov_goals c) in
      let goals := map_2_goals visited eNodeOpen in
      let '(full_path, st) := push_path path_nodes (cov_full_path c) st in
      Ok (Continue (mkCoverage visited path_nodes full_path goals shown st)).

(** Lines 340-458: the outer loop, [n] iterations of it at most. *)
Fixpoint spiral_stc_loop {L : Libm} {F : ConvexFill} {P : Platform}
    {R : Relocator} (n fuel : nat) (grid : Mask) (yaw_start : Q) (c : coverage)
    : res coverage :=
  match n with
  | O => OutOfFuel
  | S n' =>
      if decide (length (cov_goals c) ≠ 0)%nat then
        r ← spiral_stc_iteration fuel grid yaw_start c;
        match r with
        | Stop c' => Ok c'
        | Continue c' => spiral_stc_loop n' fuel grid yaw_start c'
        end
      else Ok c
  end.

(** Lines 460-461: the two masks shown at the end. *)
Definition show_masks (c : coverage) : list display :=
  [ShowGrid (cov_visited c) "visited_cubes" (3 # 10) 0 0 (8 # 10);
   ShowGrid (visited_copy (cov_this c)) "visited_cubes_copy" (3 # 10) 0 (8 # 10) 0].

(** Lines 306-464: the full path, what was shown, and the object with
    its counters. *)
Definition spiral_stc {L : Libm} {F : ConvexFill} {P : Platform}
    {R : Relocator} (fuel : nat) (st : SpiralSTC) (grid : Mask) (init : Point_t)
    (yaw_start : Q) : res (list Point_t * list display * SpiralSTC) :=
  c ← spiral_stc_first fuel st grid init yaw_start;
  c ← spiral_stc_loop fuel fuel grid yaw_start c;
  Ok (cov_full_path c, cov_shown c ++ show_masks c, cov_this c).

(** Lines 497-561 of [makePlan]: the catalog, the coverage path and the
    metrics, for the grid mask, the start cell and the start orientation
    that [parseGrid] returns and the object after [resizeMap]. *)
Definition makePlan {L : Libm} {F : ConvexFill} {P : Platform}
    {R : Relocator} (fuel : nat) (st : SpiralSTC) (grid : Mask)
    (start_point : Point_t) (yaw_start : Q)
    : res (list Point_t * list display * SpiralSTC) :=
  let st := makePlan_catalog st in
  '(goal_points, shown, st) ← spiral_stc fuel st grid start_point yaw_start;
  let st := set_accessible_counter
              (visited_counter st - multiple_pass_counter st) st in
  Ok (goal_points, shown, st).

(** ** Predicates of the theorems *)

(** The point of a node, as lines 335 and 454 build it. *)
Definition point_of (n : gridNode_t) : Point_t :=
  mkPoint (p_x (pos n)) (p_y (pos n)).

(** The coverage of a stage. *)
Definition stage_coverage (r : stage) : coverage :=
  match r with Stop c | Continue c => c end.

(** The nodes pushed on the full path that the counter does not
    count. *)
Definition uncounted (c : coverage) : Z :=
  Z.of_nat (length (cov_full_path c)) - visited_counter (cov_this c).

(** The open cells of a mask, row by row; a relocator that always
    resigns and one that steps to the next cell along x, for the
    examples. *)
Definition open_cells (m : Mask) (value : bool) : list Point_t :=
  imap (λ y row, imap (λ x v, (mkPoint (Z.of_nat x) (Z.of_nat y), v)) row) m
    ≫= λ row, (filter (λ pv, pv.2 = value) row).*1.

(** The cells of row [y] that hold [value]. *)
Definition row_cells (y : nat) (row : list bool) (value : bool) : list Point_t :=
  (filter (λ pv, pv.2 = value)
     (imap (λ x v, (mkPoint (Z.of_nat x) (Z.of_nat y), v)) row)).*1.

Definition resigning : Relocator :=
  {| map_2_goals := open_cells;
     a_star_to_open_space := λ grid init cost visited goals path_nodes,
       (true, visited, path_nodes) |}.

Definition stepping : Relocator :=
  {| map_2_goals := open_cells;
     a_star_to_open_space := λ grid init cost visited goals path_nodes,
       (false, visited,
        path_nodes ++ [mkNode (mkPoint (p_x (pos init) + 1) (p_y (pos init))) 0 0]) |}.

(** ** Lemmas on the operations *)

(** The loop that pushes a stage, in closed form. *)
Lemma push_path_eq path_nodes full_path st :
  push_path path_nodes full_path st =
  (full_path ++ map point_of path_nodes,
   set_visited_counter (visited_counter st + Z.of_nat (length path_nodes)) st).
Proof.
  unfold push_path. revert full_path st.
  induction path_nodes as [|n p IH]; intros full_path st.
  - simpl. rewrite app_nil_r, Z.add_0_r. by destruct st.
  - cbn [foldl]. rewrite IH. f_equal; [by rewrite <- app_assoc|].
    destruct st. unfold set_visited_counter. simpl. f_equal. lia.
Qed.

(** The vector that line 317 leaves: as many rows as the grid has
    columns. *)
Lemma resize_visited_copy_Ok visited visited_copy vc :
  resize_visited_copy visited visited_copy = Ok vc →
  ∃ row, visited !! 0%nat = Some row ∧ length vc = length row ∧
    vc = take (length row) visited_copy ++
         replicate (length row - length visited_copy)
           (replicate (length visited) false).
Proof.
  unfold resize_visited_copy. intros (row & [_ Hrow]%vec_at_Ok & [= <-])%res_bind_Ok.
  exists row. split; [done|]. split; [|done].
  rewrite length_app, length_take, length_replicate. lia.
Qed.

(** The check of the end footprint: it accepts when no cell is set in
    the grid mask, and counts the cells set in [visited]. *)
Lemma end_footprint_check_ends grid visited cells accept visit_count :
  end_footprint_check grid visited cells accept visit_count ≠ OutOfFuel.
Proof.
  revert visit_count. induction cells as [|c cells IH]; intros k; simpl; [done|].
  apply res_bind_ends; [apply mask_at_ends|]. intros b _.
  destruct (Bool.eqb b _); [done|].
  apply res_bind_ends; [apply mask_at_ends|]. intros v _.
  by destruct (Bool.eqb v _).
Qed.

Lemma end_footprint_check_Ok grid visited cells accept visit_count accept' k :
  end_footprint_check grid visited cells accept visit_count = Ok (accept', k) →
  visit_count ≤ k ∧
  (accept' = true →
   accept = true ∧
   Forall (λ c, mask_at grid (m_x c) (m_y c) = Ok eNodeOpen) cells ∧
   k = visit_count +
       Z.of_nat (length (filter (λ c, mask_at visited (m_x c) (m_y c)
                                        = Ok eNodeVisited) cells))).
Proof.
  revert visit_count. induction cells as [|c cells IH]; intros visit_count H.
  { simpl in H. simplify_eq. split; [lia|]. intros ->. simpl.
    repeat split; [constructor|lia]. }
  simpl in H. apply res_bind_Ok in H as (g & Hg & H).
  destruct g; simpl in H; [simplify_eq; split; [lia|done]|].
  apply res_bind_Ok in H as (v & Hv & H).
  destruct v; simpl in H; apply IH in H as [Hle H]; (split; [lia|]);
    intros (-> & Hall & ->)%H; (split; [done|]); (split; [by constructor|]).
  - rewrite filter_cons_True by done. simpl. lia.
  - rewrite filter_cons_False by (by rewrite Hv). lia.
Qed.

(** The cells that hold a value, a row and an entry at a time. *)
Lemma row_cells_snoc y row b value :
  row_cells y (row ++ [b]) value =
  row_cells y row value ++
  (if decide (b = value) then [mkPoint (Z.of_nat (length row)) (Z.of_nat y)]
   else []).
Proof.
  unfold row_cells. rewrite imap_app, filter_app, fmap_app. f_equal. simpl.
  rewrite Nat.add_0_r. unfold filter. simpl. by case_decide.
Qed.

Lemma open_cells_snoc m row value :
  open_cells (m ++ [row]) value =
  open_cells m value ++ row_cells (length m) row value.
Proof.
  unfold open_cells. rewrite imap_app, bind_app. f_equal. simpl.
  by rewrite Nat.add_0_r, app_nil_r.
Qed.

Lemma elem_of_row_cells y row value c :
  c ∈ row_cells y row value ↔
  p_y c = Z.of_nat y ∧ 0 ≤ p_x c ∧ row !! Z.to_nat (p_x c) = Some value.
Proof.
  induction row as [|b row IH] using rev_ind.
  { unfold row_cells. simpl. rewrite elem_of_nil. naive_solver. }
  rewrite row_cells_snoc, elem_of_app, IH. clear IH. split.
  - intros [(? & ? & Hl)|Hc].
    + repeat split; try done. by apply lookup_app_l_Some.
    + case_decide; [|by apply elem_of_nil in Hc].
      apply list_elem_of_singleton in Hc as ->. simpl. subst.
      repeat split; [lia|]. rewrite Nat2Z.id. by rewrite list_lookup_middle.
  - intros (Hy & Hx & Hl).
    apply lookup_snoc_Some in Hl as [[? Hl]|[Hlen ->]]; [by left|].
    right. rewrite decide_True by done. apply list_elem_of_singleton.
    destruct c; simpl in *. f_equal; lia.
Qed.

(** [open_cells] lists the cells that hold the value. *)
Lemma elem_of_open_cells m value c :
  c ∈ open_cells m value ↔ mask_at m (p_x c) (p_y c) = Ok value.
Proof.
  rewrite mask_at_Ok. induction m as [|row m IH] using rev_ind.
  { unfold open_cells. simpl. rewrite elem_of_nil. naive_solver. }
  rewrite open_cells_snoc, elem_of_app, IH, elem_of_row_cells. clear IH. split.
  - intros [(r & ? & Hr & ? & ?)|(Hy & ? & ?)].
    + exists r. repeat split; try done. by apply lookup_app_l_Some.
    + exists row. rewrite Hy, Nat2Z.id, list_lookup_middle by done.
      repeat split; try done; lia.
  - intros (r & ? & Hr & ? & ?).
    apply lookup_snoc_Some in Hr as [[? Hr]|[Hlen ->]]; [left; by exists r|].
    right. repeat split; try done; lia.
Qed.

#[export] Instance resigning_laws : RelocatorLaws resigning.
Proof.
  split; simpl; intros; simplify_eq; [by exists []; rewrite app_nil_r|done].
Qed.

#[export] Instance stepping_laws : RelocatorLaws stepping.
Proof. split; simpl; intros; simplify_eq; [by eexists|done]. Qed.

Section planner.
Context {L : Libm} {F : ConvexFill} {P : Platform} {R : Relocator}.

(** A relocation that starts from a single node keeps that node at the
    front of the path. *)
Lemma relocate_extends {RL : RelocatorLaws R} fuel st grid goals visited
    node resign visited' path_nodes' :
  relocate fuel st grid goals visited [node] = Ok (resign, visited', path_nodes') →
  mask_le visited visited' ∧ ∃ added, path_nodes' = node :: added.
Proof.
  revert visited. induction fuel as [|fuel IH]; intros visited H; [done|].
  simpl in H.
  destruct (a_star_to_open_space _ _ _ _ _ _) as [[r v1] p1] eqn:E.
  pose proof (a_star_visited _ _ _ _ _ _ _ _ _ E) as Hle.
  apply a_star_extends in E as [added ->].
  destruct r; [simplify_eq; eauto|].
  apply res_bind_Ok in H as (last_node & _ & H).
  case_decide; [|simplify_eq; eauto].
  apply res_bind_Ok in H as (prev & _ & H).
  destruct (computeFootprintCells _ _ _ _ _ _) as [accept fp].
  apply res_bind_Ok in H as ([accept' k] & _ & H).
  destruct (_ || _); [|simplify_eq; eauto].
  apply res_bind_Ok in H as (v2 & Hv2%mask_mark_le & H).
  apply IH in H as [Hle' H]. split; [|done]. by do 2 (etrans; [|done]).
Qed.

Lemma drop_to_back (l : list gridNode_t) n :
  back l = Ok n → drop (length l - 1) l = [n].
Proof.
  intros Hn%back_Ok. destruct (decide (l = [])) as [->|Hne]; [done|].
  apply last_Some in Hn as [l' ->].
  rewrite length_app. simpl. replace (length l' + 1 - 1)%nat with (length l') by lia.
  by rewrite drop_app_length.
Qed.

(** The update of [visited] after a relocation writes the mask and the
    counter of repeated passes only. *)
Lemma update_visited_Ok visited path_nodes st visited' st' :
  update_visited visited path_nodes st = Ok (visited', st') →
  mask_le visited visited' ∧ ∃ m, st' = set_multiple_pass_counter m st.
Proof.
  unfold update_visited. intros ([v1 st1] & H & H')%res_bind_Ok.
  assert (mask_le visited v1 ∧ ∃ m, st1 = set_multiple_pass_counter m st)
    as [Hle [m ->]].
  { revert H. apply (res_foldl_invariant (λ r, mask_le visited r.1 ∧
      ∃ m, r.2 = set_multiple_pass_counter m st)).
    - intros [v2 st2] n [v3 st3] _ [Hle [m Hm]] H. simpl in *.
      apply res_bind_Ok in H as (b & _ & H).
      apply res_bind_Ok in H as (v4 & Hv4%mask_mark_le & [= <- <-]).
      split; [by etrans|]. subst st2. destruct b; eauto.
    - split; [done|]. exists (multiple_pass_counter st). by destruct st. }
  case_decide; simplify_eq; eauto.
Qed.

(** The first stage: the start node at the front of the path, every
    node of the path pushed and counted. *)
Lemma spiral_stc_first_Ok fuel st grid init yaw_start c :
  spiral_stc_first fuel st grid init yaw_start = Ok c →
  same_setup st (cov_this c) ∧
  spiral_counter (cov_this c) = spiral_counter st ∧
  mask_le grid (cov_visited c) ∧ uncounted c = 0 ∧
  cov_full_path c = map point_of (cov_path_nodes c) ∧
  ∃ added, cov_path_nodes c = mkNode (mkPoint (p_x init) (p_y init)) 0 0 :: added.
Proof.
  unfold spiral_stc_first. intros (vc & _ & H)%res_bind_Ok.
  apply res_bind_Ok in H as ([[p v] st1] & Hs & H).
  apply spiral_Ok in Hs as (Hc & Hle & _ & added & ->).
  rewrite push_path_eq in H. injection H as <-. unfold uncounted. simpl.
  pose proof (sc_spiral_counter _ _ Hc) as Hsc.
  pose proof (sc_visited_counter _ _ Hc) as Hvc. simpl in Hsc, Hvc.
  apply same_config_setup in Hc.
  split; [etrans; [|apply Hc]; by split|].
  split; [done|]. split; [done|]. rewrite Hvc, length_map.
  split; [lia|]. split; [done|by exists added].
Qed.

Lemma spiral_stc_iteration_cases fuel grid yaw_start c r :
  spiral_stc_iteration fuel grid yaw_start c = Ok r →
  same_setup (cov_this c) (cov_this (stage_coverage r)) ∧
  spiral_counter (cov_this (stage_coverage r)) = spiral_counter (cov_this c) + 1 ∧
  (RelocatorLaws R → mask_le (cov_visited c) (cov_visited (stage_coverage r))) ∧
  (∃ added, cov_full_path (stage_coverage r) = cov_full_path c ++ added) ∧
  uncounted c ≤ uncounted (stage_coverage r) ≤ uncounted c + 1 ∧
  (if r is Continue _ then spiral_counter (cov_this c) + 1 ≠ 2 else True).
Proof.
  unfold spiral_stc_iteration, uncounted. simpl.
  destruct (_ =? 2) eqn:E2.
  { intros [= <-]. simpl. repeat split; [done|by exists []; rewrite app_nil_r|lia..]. }
  apply Z.eqb_neq in E2.
  intros (n & Hn & H)%res_bind_Ok. rewrite (drop_to_back _ _ Hn) in H.
  apply res_bind_Ok in H as ([[resign v1] p1] & Hr & H).
  destruct resign.
  { injection H as <-. simpl. split; [done|]. split; [done|].
    split; [intros RL; by apply relocate_extends in Hr as [? _]|].
    split; [by exists []; rewrite app_nil_r|lia]. }
  apply res_bind_Ok in H as ([v2 st2] & Hu & H).
  apply update_visited_Ok in Hu as [Hle2 [m ->]].
  apply res_bind_Ok in H as (last & _ & H).
  apply res_bind_Ok in H as ([[p3 v3] st3] & Hs & H).
  apply spiral_Ok in Hs as (Hc & Hle3 & _ & added3 & ->).
  rewrite push_path_eq in H. injection H as <-. simpl.
  pose proof (sc_spiral_counter _ _ Hc) as Hsc.
  pose proof (sc_visited_counter _ _ Hc) as Hvc. simpl in Hsc, Hvc.
  apply same_config_setup in Hc.
  split; [etrans; [|apply Hc]; by split|]. split; [done|].
  split; [intros RL; apply relocate_extends in Hr as [? _];
          by do 2 (etrans; [|done])|].
  split; [by eexists|]. rewrite Hvc, length_app, length_map.
  split; [lia|done].
Qed.

(** The outer loop: it appends to the full path, sets entries of
    [visited], and leaves one node uncounted per spiral at most. *)
Lemma spiral_stc_loop_cases n fuel grid yaw_start c c' :
  spiral_stc_loop n fuel grid yaw_start c = Ok c' →
  same_setup (cov_this c) (cov_this c') ∧
  (RelocatorLaws R → mask_le (cov_visited c) (cov_visited c')) ∧
  (∃ added, cov_full_path c' = cov_full_path c ++ added) ∧
  spiral_counter (cov_this c) ≤ spiral_counter (cov_this c') ∧
  uncounted c ≤ uncounted c'
    ≤ uncounted c + (spiral_counter (cov_this c') - spiral_counter (cov_this c)).
Proof.
  revert c. induction n as [|n IH]; intros c H; [done|]. simpl in H.
  case_decide; [|simplify_eq; repeat split; [done|by exists []; rewrite app_nil_r|lia..]].
  apply res_bind_Ok in H as (r & Hr & H).
  apply spiral_stc_iteration_cases in Hr as (Hs & Hc & Hle & [a Ha] & Hu & _).
  destruct r as [c1|c1]; simpl in *.
  { simplify_eq. split; [done|]. split; [done|]. split; [by exists a|lia]. }
  apply IH in H as (Hs' & Hle' & [a' Ha'] & Hc' & Hu').
  split; [by etrans|]. split; [intros RL; by etrans; [apply Hle|apply Hle']|].
  split; [exists (a ++ a'); by rewrite Ha', Ha, app_assoc|lia].
Qed.

(** Once the counter of spirals is at 1 the next iteration leaves the
    loop at line 346. *)
Lemma spiral_stc_iteration_cap fuel grid yaw_start c :
  spiral_counter (cov_this c) = 1 →
  ∃ c', spiral_stc_iteration fuel grid yaw_start c = Ok (Stop c') ∧
        cov_full_path c' = cov_full_path c.
Proof.
  intros H. unfold spiral_stc_iteration. simpl. rewrite H. simpl. by eexists.
Qed.

(** When every collision check fails no spiral adds a node: an
    iteration appends the relocation, from the node it starts at, or
    nothing. *)
Lemma spiral_stc_iteration_blocked {RL : RelocatorLaws R} fuel grid yaw_start c r :
  flow_off_end = false → man_grids (cov_this c) = [] →
  spiral_stc_iteration fuel grid yaw_start c = Ok r →
  cov_full_path (stage_coverage r) = cov_full_path c ∨
  ∃ n added, back (cov_path_nodes c) = Ok n ∧
    cov_full_path (stage_coverage r)
    = cov_full_path c ++ point_of n :: map point_of added.
Proof.
  intros Hflow Hg. unfold spiral_stc_iteration.
  destruct (_ =? 2); [intros [= <-]; by left|].
  intros (n & Hn & H)%res_bind_Ok. rewrite (drop_to_back _ _ Hn) in H.
  apply res_bind_Ok in H as ([[resign v1] p1] & Hr & H).
  apply relocate_extends in Hr as [_ [added ->]].
  destruct resign; [injection H as <-; by left|].
  apply res_bind_Ok in H as ([v2 st2] & Hu & H).
  apply update_visited_Ok in Hu as [_ [m ->]].
  apply res_bind_Ok in H as (last & _ & H).
  apply res_bind_Ok in H as ([[p3 v3] st3] & Hs & H).
  apply spiral_blocked in Hs as ->;
    [|simpl; rewrite Hg; simpl; by rewrite Hflow].
  rewrite push_path_eq in H. injection H as <-. right. by exists n, added.
Qed.

Lemma spiral_stc_first_blocked fuel st grid init yaw_start c :
  flow_off_end = false → man_grids st = [] →
  spiral_stc_first fuel st grid init yaw_start = Ok c →
  cov_path_nodes c = [mkNode (mkPoint (p_x init) (p_y init)) 0 0].
Proof.
  intros Hflow Hg. unfold spiral_stc_first. intros (vc & _ & H)%res_bind_Ok.
  apply res_bind_Ok in H as ([[p v] st1] & Hsp & H).
  apply spiral_blocked in Hsp as ->;
    [|simpl; rewrite Hg; simpl; by rewrite Hflow].
  rewrite push_path_eq in H. by injection H as <-.
Qed.

(** With the counter of spirals at 0 the loop then appends one
    relocation at most. *)
Lemma spiral_stc_loop_blocked {RL : RelocatorLaws R} n fuel grid yaw_start c c' :
  flow_off_end = false → man_grids (cov_this c) = [] →
  spiral_counter (cov_this c) = 0 →
  spiral_stc_loop n fuel grid yaw_start c = Ok c' →
  cov_full_path c' = cov_full_path c ∨
  ∃ n0 added, back (cov_path_nodes c) = Ok n0 ∧
    cov_full_path c' = cov_full_path c ++ point_of n0 :: map point_of added.
Proof.
  intros Hflow Hg H0 H. destruct n as [|n]; [done|]. simpl in H.
  case_decide; [|simplify_eq; by left].
  apply res_bind_Ok in H as (r & Hr & H).
  pose proof Hr as (_ & Hc1 & _)%spiral_stc_iteration_cases.
  assert (cov_full_path c' = cov_full_path (stage_coverage r)) as ->.
  { destruct r as [c1|c1]; simpl in *; [by simplify_eq|].
    destruct n as [|n]; [done|]. simpl in H. case_decide; [|by simplify_eq].
    destruct (spiral_stc_iteration_cap fuel grid yaw_start c1) as (c2 & E & Hc2);
      [lia|]. rewrite E in H. by simplify_eq/=. }
  destruct (spiral_stc_iteration_blocked _ _ _ _ _ Hflow Hg Hr)
    as [?|(n0 & added & ? & ?)]; [by left|right; by exists n0, added].
Qed.

(** Line 317 keeps the rows that an earlier call left in
    [visited_copy], with the length they have. *)
Lemma resize_visited_copy_keeps visited visited_copy vc j row row0 :
  resize_visited_copy visited visited_copy = Ok vc →
  visited !! 0%nat = Some row0 → visited_copy !! j = Some row →
  (j < length row0)%nat → vc !! j = Some row.
Proof.
  intros (r & Hr & _ & ->)%resize_visited_copy_Ok Hrow0 Hrow Hj.
  simplify_eq. apply lookup_app_l_Some. by rewrite lookup_take_lt.
Qed.

(** On the catalog that [makePlan] computes from empty vectors the
    first spiral of [spiral_stc] never leaves its loop when the
    collision check reads [true]. *)
Lemma spiral_stc_catalog_unchecked fuel st grid init yaw_start :
  flow_off_end = true →
  left_turn st = [] → man_grids st = [] → 0 ≤ max_overlap_turn st →
  ¬ is_Ok (spiral_stc fuel (makePlan_catalog st) grid init yaw_start).
Proof.
  intros Hflow Hl Hg Ho [r Hr]. revert Hr.
  unfold spiral_stc, spiral_stc_first, makePlan_catalog.
  destruct (makePlan_manoeuvres_grown st) as [cells ->].
  intros (c & (vc & _ & H)%res_bind_Ok & _)%res_bind_Ok.
  apply res_bind_Ok in H as (r2 & Hs & _).
  eapply spiral_unchecked; [done| |by eexists]. simpl. by rewrite Hl.
Qed.

End planner.

(** ** Properties of the planner *)

Section planner_properties.
Context {L : Libm} {F : ConvexFill} {P : Platform} {R : Relocator}.

(** C3. A planner whose catalog vectors and [man_grids] are empty, as
    they are when [makePlan] runs on a new object, returns no plan when
    the collision check reads [true]: [makePlan] leaves the catalog
    empty, and the first spiral never leaves its loop, whatever the
    fuel. *)
Theorem makePlan_never_returns fuel st grid start_point yaw_start :
  flow_off_end = true →
  left_turn st = [] → man_grids st = [] → 0 ≤ max_overlap_turn st →
  ¬ is_Ok (makePlan fuel st grid start_point yaw_start).
Proof.
  intros Hflow Hl Hg Ho [r Hr]. revert Hr. unfold makePlan.
  intros ([[path shown] st1] & Hs & _)%res_bind_Ok.
  eapply spiral_stc_catalog_unchecked; [done..|by eexists].
Qed.

(** C28. On a planner whose counter of spirals is 0 the outer loop of
    [spiral_stc] runs at most twice, and the second iteration can only
    leave the loop: the counter, which the call never resets, reaches
    2 at line 343.  Two units of fuel for the outer loop are enough. *)
Theorem spiral_stc_loop_two n fuel grid yaw_start c :
  spiral_counter (cov_this c) = 0 →
  spiral_stc_loop (S (S n)) fuel grid yaw_start c
  = spiral_stc_loop 2 fuel grid yaw_start c.
Proof.
  intros H0. cbn [spiral_stc_loop]. case_decide; [|done].
  destruct (spiral_stc_iteration fuel grid yaw_start c) as [r| |] eqn:E; [|done..].
  apply spiral_stc_iteration_cases in E as (_ & Hc & _).
  destruct r as [c1|c1]; [done|]. simpl in *. case_decide; [|done].
  by destruct (spiral_stc_iteration_cap fuel grid yaw_start c1) as (c2 & -> & _);
    [lia|].
Qed.

(** C30. The counter [visited_counter] that [spiral_stc] returns is the
    length of the full path less the nodes at which a stage starts:
    it is at most the length of the path, and short of it by at most
    one for every spiral counted. *)
Theorem spiral_stc_counts fuel st grid init yaw_start full_path shown st' :
  spiral_stc fuel st grid init yaw_start = Ok (full_path, shown, st') →
  visited_counter st' ≤ Z.of_nat (length full_path)
    ≤ visited_counter st' + (spiral_counter st' - spiral_counter st).
Proof.
  unfold spiral_stc. intros (c & Hf & H)%res_bind_Ok.
  apply res_bind_Ok in H as (c' & Hl & [= <- _ <-]).
  apply spiral_stc_first_Ok in Hf as (_ & Hc & _ & Hu & _).
  apply spiral_stc_loop_cases in Hl as (_ & _ & _ & _ & Hu').
  unfold uncounted in *. lia.
Qed.

(** C21. No cell goes from visited back to open: every entry that is
    set in the grid mask, or in [visited] at some point of the call, is
    set in [visited] when the outer loop ends. *)
Theorem spiral_stc_visited_monotone {RL : RelocatorLaws R} n fuel st grid init
    yaw_start c c' :
  spiral_stc_first fuel st grid init yaw_start = Ok c →
  spiral_stc_loop n fuel grid yaw_start c = Ok c' →
  mask_le grid (cov_visited c) ∧ mask_le (cov_visited c) (cov_visited c').
Proof.
  intros (_ & _ & Hle & _)%spiral_stc_first_Ok (_ & Hle' & _)%spiral_stc_loop_cases.
  auto.
Qed.

(** C11. A relocation that [relocate] accepts ends at a pose whose
    vehicle footprint lies in the grid, touches no cell that is set in
    the grid mask, and touches at most [max_overlap] visited cells; the
    yaw of the pose is that of the last step of the relocation. *)
Theorem relocate_accepts fuel st grid goals visited path_nodes visited' path_nodes' :
  relocate fuel st grid goals visited path_nodes = Ok (false, visited', path_nodes') →
  (1 < length path_nodes')%nat →
  ∃ last_node prev a_star_end_footprint,
    back path_nodes' = Ok last_node ∧
    path_nodes' !! (length path_nodes' - 2)%nat = Some prev ∧
    computeFootprintCells st (p_x (pos last_node)) (p_y (pos last_node))
      (atan2 (p_y (pos last_node) - p_y (pos prev))
             (p_x (pos last_node) - p_x (pos prev))) "vehicle" []
      = (true, a_star_end_footprint) ∧
    Forall (λ c, mask_at grid (m_x c) (m_y c) = Ok eNodeOpen)
      a_star_end_footprint ∧
    Z.of_nat (length (filter (λ c, mask_at visited' (m_x c) (m_y c)
                                     = Ok eNodeVisited) a_star_end_footprint))
      ≤ max_overlap st.
Proof.
  revert visited path_nodes.
  induction fuel as [|fuel IH]; intros visited path_nodes H Hlen; [done|].
  simpl in H. apply res_bind_Ok in H as (n0 & _ & H).
  destruct (a_star_to_open_space _ _ _ _ _ _) as [[r v1] p1].
  destruct r; [done|]. apply res_bind_Ok in H as (last_node & Hlast & H).
  case_decide; [|simplify_eq; lia].
  apply res_bind_Ok in H as (prev & [_ Hprev]%vec_at_Ok & H).
  rewrite Nat2Z.id in Hprev.
  destruct (computeFootprintCells _ _ _ _ _ _) as [accept fp] eqn:Efp.
  apply res_bind_Ok in H as ([accept' k] & Hk & H).
  destruct (negb accept' || (k >? max_overlap st)) eqn:E.
  { apply res_bind_Ok in H as (v2 & _ & H). eauto. }
  simplify_eq. apply orb_false_elim in E as [->%negb_false_iff Ek].
  apply end_footprint_check_Ok in Hk as [_ Hk].
  destruct (Hk eq_refl) as (-> & Hall & ->).
  exists last_node, prev, fp.
  replace (length path_nodes' - 2)%nat with (length path_nodes' - 1 - 1)%nat by lia.
  repeat split; [done..|lia].
Qed.

(** C34. Line 317 sizes [visited_copy] with the two sizes of the grid
    swapped: on a new planner it gets as many rows as the grid has
    columns, each as long as the grid has rows, so a cell of the grid
    can be marked in it only if it also lies in the transposed grid. *)
Theorem resize_visited_copy_transposed grid w h :
  mask_dims grid w h → 0 < h →
  ∃ vc, resize_visited_copy grid [] = Ok vc ∧ mask_dims vc h w ∧
    ∀ x y, is_Ok (mask_mark vc x y) ↔ 0 ≤ x < h ∧ 0 ≤ y < w.
Proof.
  intros Hd Hh. destruct (vec_at_inrange grid 0) as [row Hrow].
  { destruct Hd. lia. }
  unfold resize_visited_copy. rewrite Hrow. simpl. eexists. split; [done|].
  apply vec_at_Ok in Hrow as [_ Hrow].
  pose proof (mask_dims_row _ _ _ _ _ Hd Hrow) as Hw. destruct Hd as [Hlen _].
  assert (mask_dims (replicate (length row - 0) (replicate (length grid) false)) h w)
    as Hd'.
  { split; [rewrite length_replicate; lia|].
    apply Forall_replicate. by rewrite length_replicate. }
  rewrite take_nil. split; [done|]. intros x y. by apply mask_mark_is_Ok.
Qed.

(** C24. [visited_copy] is a field that no call clears, and line 317
    keeps the rows it holds: in a call on a grid with longer rows than
    the call before, a cell under the tool at the start that falls
    behind the end of a row that was kept is written outside that row,
    and the call is undefined. *)
Theorem spiral_stc_stale_visited_copy fuel st grid init yaw_start row0 row c :
  grid !! 0%nat = Some row0 →
  c ∈ (computeFootprintCells st (p_x init) (p_y init) yaw_start "tool" []).2 →
  0 ≤ m_y c → visited_copy st !! Z.to_nat (m_y c) = Some row →
  (Z.to_nat (m_y c) < length row0)%nat → Z.of_nat (length row) ≤ m_x c →
  spiral_stc fuel st grid init yaw_start = Undefined.
Proof.
  intros Hrow0 Hc Hy Hrow Hlt Hx. unfold spiral_stc, spiral_stc_first.
  destruct (resize_visited_copy grid _) as [vc| |] eqn:Evc; [|done|].
  2: { unfold resize_visited_copy in Evc. by destruct (vec_at grid 0) eqn:E;
         [|..|apply vec_at_ends in E]. }
  pose proof (resize_visited_copy_keeps _ _ _ _ _ _ Evc Hrow0 Hrow Hlt) as Hkept.
  simpl. unfold spiral, spiral_init. simpl.
  change (computeFootprintCells (set_visited_copy vc _) ?x ?y ?yaw ?part ?out)
    with (computeFootprintCells st x y yaw part out).
  destruct (computeFootprintCells st _ _ _ _ _) as [ok cells]. simpl in Hc.
  rewrite (mark_cells_Undefined _ _ _ c); [done|done|].
  unfold mask_mark. rewrite (proj2 (vec_at_Ok _ _ _) (conj Hy Hkept)). simpl.
  unfold vec_put. by rewrite decide_False by lia.
Qed.

(** C17. When the collision check reads [false], as it does on an empty
    [man_grids] if the missing return leaves [false], no spiral takes a
    step: the plan of a planner whose counter of spirals is 0 is the
    start cell alone, or the start cell followed by one relocation,
    which begins with the start cell again. *)
Theorem makePlan_without_spirals {RL : RelocatorLaws R} fuel st grid start_point
    yaw_start goal_points shown st' :
  flow_off_end = false → man_grids st = [] → spiral_counter st = 0 →
  makePlan fuel st grid start_point yaw_start = Ok (goal_points, shown, st') →
  goal_points = [start_point] ∨
  ∃ added, goal_points = start_point :: start_point :: map point_of added.
Proof.
  intros Hflow Hg H0. unfold makePlan, spiral_stc, makePlan_catalog.
  destruct (makePlan_manoeuvres_grown st) as [cells ->].
  intros ([[path sh] st2] & (c & Hf & H)%res_bind_Ok & [= <- _ _])%res_bind_Ok.
  apply res_bind_Ok in H as (c' & Hl & [= <- _ _]).
  pose proof Hf as (Hs & Hc & _ & _ & Hfull & _)%spiral_stc_first_Ok.
  apply same_setup_fields in Hs as (_ & Hg' & _). simpl in Hg', Hc.
  apply spiral_stc_first_blocked in Hf; [|done|by simpl].
  rewrite Hf in Hfull.
  apply spiral_stc_loop_blocked in Hl as [Hl|(n0 & added & Hn0 & Hl)];
    [| |done|congruence|lia].
  - left. rewrite Hl, Hfull. by destruct start_point.
  - right. exists added. rewrite Hf in Hn0. injection Hn0 as <-.
    rewrite Hl, Hfull. by destruct start_point.
Qed.

End planner_properties.

(** ** The theorems at concrete inputs *)

(** The planner as constructed, on the free grid of 10 by 10 cells. *)
Lemma makePlan_never_returns_witness :
  ¬ is_Ok (makePlan (L := approx_libm) (F := hull_fill) (P := returns_true)
             (R := resigning) 50 example_obj example_free (mkPoint 5 5) 0).
Proof.
  apply (makePlan_never_returns (L := approx_libm) (F := hull_fill)
           (P := returns_true) (R := resigning)); [reflexivity..|simpl; lia].
Defined.

Lemma spiral_stc_loop_two_witness :
  let c := mkCoverage small_free [mkNode (mkPoint 0 0) 0 0] [mkPoint 0 0]
             [mkPoint 1 0] [] small_obj in
  spiral_stc_loop (L := approx_libm) (F := hull_fill) (P := returns_false)
    (R := resigning) 5 4 small_blocked 0 c
  = spiral_stc_loop (L := approx_libm) (F := hull_fill) (P := returns_false)
      (R := resigning) 2 4 small_blocked 0 c.
Proof.
  intros c.
  apply (spiral_stc_loop_two (L := approx_libm) (F := hull_fill)
           (P := returns_false) (R := resigning) 3 4 small_blocked 0 c).
  reflexivity.
Defined.

(** One relocation from (5, 5) to (6, 5) between two spirals that take
    no step: three nodes on the path, two of them counted. *)
Lemma spiral_stc_counts_witness :
  ∃ st', visited_counter st' = 2 ∧ spiral_counter st' = 2 ∧
    visited_counter st' ≤ Z.of_nat (length [mkPoint 5 5; mkPoint 5 5; mkPoint 6 5])
      ≤ visited_counter st' + (spiral_counter st' - spiral_counter example_obj).
Proof.
  eexists. split; [|split]; [| |
    eapply (spiral_stc_counts (L := approx_libm) (F := hull_fill)
              (P := returns_false) (R := stepping) 3 example_obj example_free
              (mkPoint 5 5) 0)]; [| |vm_compute; reflexivity]; reflexivity.
Defined.

Lemma spiral_stc_visited_monotone_witness :
  ∃ c c',
    spiral_stc_first (L := approx_libm) (F := hull_fill) (P := returns_false)
      (R := stepping) 3 example_obj example_free (mkPoint 5 5) 0 = Ok c ∧
    spiral_stc_loop (L := approx_libm) (F := hull_fill) (P := returns_false)
      (R := stepping) 3 3 example_free 0 c = Ok c' ∧
    mask_le example_free (cov_visited c) ∧
    mask_le (cov_visited c) (cov_visited c').
Proof.
  eexists _, _. split; [vm_compute; reflexivity|].
  split; [vm_compute; reflexivity|].
  apply (spiral_stc_visited_monotone (L := approx_libm) (F := hull_fill)
           (P := returns_false) (R := stepping) 3 3 example_obj example_free
           (mkPoint 5 5) 0); vm_compute; reflexivity.
Defined.

Lemma relocate_accepts_witness :
  ∃ last_node prev a_star_end_footprint,
    back [mkNode (mkPoint 5 5) 0 0; mkNode (mkPoint 6 5) 0 0] = Ok last_node ∧
    [mkNode (mkPoint 5 5) 0 0; mkNode (mkPoint 6 5) 0 0] !! 0%nat = Some prev ∧
    computeFootprintCells (L := approx_libm) (F := hull_fill) example_obj
      (p_x (pos last_node)) (p_y (pos last_node))
      (@atan2 approx_libm (p_y (pos last_node) - p_y (pos prev))
         (p_x (pos last_node) - p_x (pos prev))) "vehicle" []
      = (true, a_star_end_footprint) ∧
    Forall (λ c, mask_at example_free (m_x c) (m_y c) = Ok eNodeOpen)
      a_star_end_footprint ∧
    Z.of_nat (length (filter (λ c, mask_at example_free (m_x c) (m_y c)
                                     = Ok eNodeVisited) a_star_end_footprint))
      ≤ max_overlap example_obj.
Proof.
  apply (relocate_accepts (L := approx_libm) (F := hull_fill) (R := stepping)
           1 example_obj example_free [] example_free
           [mkNode (mkPoint 5 5) 0 0] example_free
           [mkNode (mkPoint 5 5) 0 0; mkNode (mkPoint 6 5) 0 0]).
  - vm_compute. reflexivity.
  - simpl. lia.
Defined.

(** A grid of three columns and two rows: [visited_copy] gets three
    rows of two entries. *)
Lemma resize_visited_copy_transposed_witness :
  ∃ vc, resize_visited_copy [[false; false; false]; [false; false; false]] []
        = Ok vc ∧ mask_dims vc 2 3 ∧
    ∀ x y, is_Ok (mask_mark vc x y) ↔ 0 ≤ x < 2 ∧ 0 ≤ y < 3.
Proof.
  apply (resize_visited_copy_transposed
           [[false; false; false]; [false; false; false]] 3 2).
  - split; [done|]. by repeat constructor.
  - lia.
Defined.

Lemma makePlan_without_spirals_witness :
  [mkPoint 5 5; mkPoint 5 5; mkPoint 6 5] = [mkPoint 5 5] ∨
  ∃ added, [mkPoint 5 5; mkPoint 5 5; mkPoint 6 5]
           = mkPoint 5 5 :: mkPoint 5 5 :: map point_of added.
Proof.
  eapply (makePlan_without_spirals (L := approx_libm) (F := hull_fill)
            (P := returns_false) (R := stepping) 3 example_obj example_free
            (mkPoint 5 5) 0); [reflexivity..|].
  vm_compute. reflexivity.
Defined.

(** The planner that a call on the grid of 2 by 2 cells has left, on
    the grid of ten by ten cells: the tool at the cell (3, 5) covers
    the cell (5, 1), which is behind the end of the second row. *)
Lemma spiral_stc_stale_visited_copy_witness :
  spiral_stc (L := approx_libm) (F := hull_fill) (P := returns_false)
    (R := resigning) 3 stale_obj example_free (mkPoint 3 5) 0 = Undefined.
Proof.
  apply (spiral_stc_stale_visited_copy (L := approx_libm) (F := hull_fill)
           (P := returns_false) (R := resigning) 3 stale_obj example_free
           (mkPoint 3 5) 0 (replicate 10 false) [false; false] (mkLoc 5 1));
    [reflexivity|apply list_elem_of_In; vm_compute; tauto|simpl; lia|reflexivity|
     simpl; lia|simpl; lia].
Defined.
