(* ===== verification/Search.v ===== *)
(** * Search: the relocation as a shortest-path search

    [a_star_to_open_space] is code of the base class and not in
    [src/]; [spiral_stc] calls it at line 361.  This file gives the
    search that section 4.6 of the specification describes, as
    instances of the interface [Relocator] of [Planner]: a search on
    the 4-connected grid with uniform step cost, layer by layer from
    the last cell of the spiral, to the nearest cell that is free and
    not visited, with ties broken by the row-major order of the cells.
    The search is the same for every choice of the cells it may enter
    ([search]); the specification names two, and both are instances:
    [a_star_strict] enters no blocked and no visited cell (section 4.6
    as it is written), [a_star_obstacle_aware] enters no blocked cell
    (the graph of section 8).

    The acceptance of the goal and the marking of a goal that is
    refused are code of [spiral_stc] ([Planner.relocate], lines
    357-401); the theorems are about that loop with the search.  A
    relocation that is accepted is a shortest walk to a nearest goal,
    the first of the nearest in row-major order ([relocate_shortest]);
    when it resigns no goal can be reached ([relocate_resigns]); with
    visited cells impassable it is one step long at most
    ([relocate_strict_one_step]); with a search that ends at an open
    cell the loop ends after at most as many refused goals as
    [visited] has open cells ([relocate_is_Ok]); and the full path of
    [spiral_stc] moves by one cell along an axis or stays, from each
    point to the next ([spiral_stc_path_connected]).

    The search runs [layers] with a fuel of the number of free cells
    plus three, which [search_fuel] shows to be enough: every layer but
    the last closes a cell that was not closed before. *)

From Stdlib Require Import ZArith QArith Lia.
From stdpp Require Import base tactics list option numbers list_numbers strings relations sorting.
From S2P Require Import Prelude Grid Libm State Raster Footprint Catalog Spiral.
From S2P Require Import Planner.

Set Warnings "-clear-no-such-hyp".

#[local] Open Scope fcpp_scope.

(** ** The search *)

(** A cell the search has reached, with the cells it came by, the
    origin first. *)
Definition entry : Type := Point_t * list Point_t.

(** The walk of an entry, from the origin to its cell. *)
Definition walk (e : entry) : list Point_t := e.2 ++ [e.1].

(** The four cells next to a cell. *)
Definition neighbours (p : Point_t) : list Point_t :=
  [mkPoint (p_x p + 1) (p_y p); mkPoint (p_x p) (p_y p + 1);
   mkPoint (p_x p - 1) (p_y p); mkPoint (p_x p) (p_y p - 1)].

(** The tie-break between goals at the same distance: the row-major
    order of the cells. *)
Definition row_major_le (p q : Point_t) : bool :=
  (p_y p <? p_y q) || ((p_y p =? p_y q) && (p_x p <=? p_x q)).

Section search.
Context (passable goal : Point_t → bool).

(** The neighbour [nb] of the cell of [e]: entered when it is passable
    and not reached before. *)
Definition visit (e : entry) (acc : list Point_t * list entry) (nb : Point_t)
    : list Point_t * list entry :=
  if passable nb && bool_decide (nb ∉ acc.1)
  then (nb :: acc.1, acc.2 ++ [(nb, walk e)])
  else acc.

Definition expand (acc : list Point_t * list entry) (e : entry)
    : list Point_t * list entry :=
  foldl (visit e) acc (neighbours e.1).

(** The cells one step beyond the frontier. *)
Definition next_layer (closed : list Point_t) (frontier : list entry)
    : list Point_t * list entry :=
  foldl expand (closed, []) frontier.

Definition nearer (e : entry) (best : option entry) : option entry :=
  match best with
  | Some b => if row_major_le e.1 b.1 then Some e else Some b
  | None => Some e
  end.

(** The goal of the frontier that comes first in row-major order. *)
Definition first_goal (frontier : list entry) : option entry :=
  foldr nearer None (filter (λ e, goal e.1) frontier).

(** The layers of the search, [fuel] of them at most: [Some None] when
    the frontier is empty and no goal was found. *)
Fixpoint layers (fuel : nat) (closed : list Point_t) (frontier : list entry)
    : option (option entry) :=
  match fuel with
  | O => None
  | S fuel' =>
      match frontier with
      | [] => Some None
      | _ =>
          match first_goal frontier with
          | Some e => Some (Some e)
          | None =>
              let '(closed, next) := next_layer closed frontier in
              layers fuel' closed next
          end
      end
  end.

Definition search (fuel : nat) (init : Point_t) : option (option entry) :=
  layers fuel [init] [(init, [])].

(** ** What the search is to compute *)

(** One step of the search graph. *)
Definition step (p q : Point_t) : Prop := q ∈ neighbours p ∧ passable q.

(** An entry of layer [k]: a walk of [k] steps from the origin. *)
Record walk_to (init : Point_t) (k : nat) (e : entry) : Prop := mkWalkTo {
  wt_length : length e.2 = k;
  wt_head : head (walk e) = Some init;
  wt_sorted : Sorted step (walk e);
  wt_steps : nsteps step k init e.1
}.

(** The state of the search before layer [k]: [closed] holds the cells
    within [k] steps, the frontier those at [k] steps and no fewer, and
    no cell nearer than [k] steps is a goal. *)
Record layer (init : Point_t) (k : nat) (closed : list Point_t)
    (frontier : list entry) : Prop := mkLayer {
  l_nodup : NoDup closed;
  l_sound : ∀ q, q ∈ closed → ∃ j, (j ≤ k)%nat ∧ nsteps step j init q;
  l_complete : ∀ j q, (j ≤ k)%nat → nsteps step j init q → q ∈ closed;
  l_older : ∀ q, q ∈ closed →
    q ∈ frontier.*1 ∨ ∃ j, (j < k)%nat ∧ nsteps step j init q;
  l_front : ∀ e, e ∈ frontier → walk_to init k e;
  l_min : ∀ e j, e ∈ frontier → nsteps step j init e.1 → (k ≤ j)%nat;
  l_goal : ∀ j q, (j < k)%nat → nsteps step j init q → goal q = false
}.

End search.

(** What one stretch of a layer adds to the closed cells and to the
    next frontier: the candidates [P] that were not reached before. *)
Record grows (P : entry → Prop) (acc acc' : list Point_t * list entry)
    : Prop := mkGrows {
  g_nodup : NoDup acc.1 → NoDup acc'.1;
  g_closed : ∀ q, q ∈ acc'.1 ↔ q ∈ acc.1 ∨ ∃ e, P e ∧ e.1 = q;
  g_next : ∀ e, e ∈ acc'.2 → e ∈ acc.2 ∨ (P e ∧ e.1 ∉ acc.1);
  g_heads : ∀ e, P e → e.1 ∉ acc.1 → e.1 ∈ acc'.2.*1;
  g_keep : ∀ e, e ∈ acc.2 → e ∈ acc'.2;
  g_length : (length acc'.1 + length acc.2 = length acc.1 + length acc'.2)%nat
}.

(** ** The search on the masks of the planner *)

(** The entry of the mask at the cell is in range and open. *)
Definition is_open (m : Mask) (q : Point_t) : bool :=
  match mask_at m (p_x q) (p_y q) with
  | Ok false => true
  | _ => false
  end.

(** Section 4.6: [goals = { free ∧ ¬visited }]. *)
Definition goal_cell (grid visited : Mask) (q : Point_t) : bool :=
  is_open grid q && is_open visited q.

(** The cells the search may enter: the free cells, and of those the
    cells not visited unless the search goes [through_visited]. *)
Definition passable_cell (through_visited : bool) (grid visited : Mask)
    (q : Point_t) : bool :=
  is_open grid q && (through_visited || is_open visited q).

(** One step of the search on the masks. *)
Definition cell_step (through_visited : bool) (grid visited : Mask)
    : relation Point_t :=
  step (passable_cell through_visited grid visited).

(** [a_star_to_open_space(grid, init, cost, visited, goals, pathNodes)]:
    the cells of the walk after the origin are appended to the path,
    each as a node; [visited] is left as it is.  The heuristic is zero,
    so [goals] is not read; the frontier can grow once for each free
    cell. *)
Definition a_star (through_visited : bool) (grid : Mask) (init : gridNode_t)
    (cost : Z) (visited : Mask) (goals : list Point_t)
    (pathNodes : list gridNode_t) : bool * Mask * list gridNode_t :=
  match search (passable_cell through_visited grid visited)
          (goal_cell grid visited)
          (length (open_cells grid eNodeOpen) + 3) (pos init) with
  | Some (Some e) =>
      (false, visited, pathNodes ++ ((λ p, mkNode p 0 0) <$> tail (walk e)))
  | _ => (true, visited, pathNodes)
  end.

Definition a_star_relocator (through_visited : bool) : Relocator :=
  {| map_2_goals := open_cells;
     a_star_to_open_space := a_star through_visited |}.

(** Section 4.6 as it is written, and the graph of section 8. *)
Definition a_star_strict : Relocator := a_star_relocator false.
Definition a_star_obstacle_aware : Relocator := a_star_relocator true.

(** The number of open entries of a mask. *)
Definition open_count (m : Mask) : nat :=
  sum_list_with (λ row, length (filter (λ b, b = eNodeOpen) row)) m.

(** What the loops of [spiral_stc] need of a search from the last node
    of the path: it keeps the size of [visited] and opens no entry of
    it, the nodes it appends are free cells of the grid, a path it
    returns ends at an open cell, and it extends a connected path to a
    connected path. *)
Class SearchLaws (R : Relocator) : Prop := {
  search_relocator :: RelocatorLaws R;
  a_star_free : ∀ grid init cost visited goals path_nodes resign visited' path_nodes',
    a_star_to_open_space grid init cost visited goals path_nodes
      = (resign, visited', path_nodes') →
    Forall (λ n, mask_at grid (p_x (pos n)) (p_y (pos n)) = Ok eNodeOpen)
      (drop (length path_nodes) path_nodes');
  a_star_dims : ∀ grid init cost visited goals path_nodes resign visited' path_nodes' w h,
    a_star_to_open_space grid init cost visited goals path_nodes
      = (resign, visited', path_nodes') →
    mask_dims visited w h → mask_dims visited' w h;
  a_star_closes : ∀ grid init cost visited goals path_nodes resign visited' path_nodes',
    a_star_to_open_space grid init cost visited goals path_nodes
      = (resign, visited', path_nodes') →
    (open_count visited' ≤ open_count visited)%nat;
  a_star_open_end : ∀ grid init cost visited goals path_nodes visited' path_nodes',
    back path_nodes = Ok init →
    a_star_to_open_space grid init cost visited goals path_nodes
      = (false, visited', path_nodes') →
    ∃ n, back path_nodes' = Ok n ∧
      mask_at visited' (p_x (pos n)) (p_y (pos n)) = Ok eNodeOpen;
  a_star_connected : ∀ grid init cost visited goals path_nodes resign visited' path_nodes',
    back path_nodes = Ok init →
    a_star_to_open_space grid init cost visited goals path_nodes
      = (resign, visited', path_nodes') →
    Sorted adjacent path_nodes → Sorted adjacent path_nodes'
}.

(** Two points of the full path that follow each other: the same cell,
    or one step along an axis. *)
Definition near (a b : Point_t) : Prop :=
  a = b ∨ is_axis (p_x b - p_x a) (p_y b - p_y a).

(** The state of the outer loop between two iterations: the path of
    the last stage and the full path are connected, and the full path
    ends where the path of the last stage ends. *)
Record joined (c : coverage) : Prop := mkJoined {
  j_nodes : Sorted adjacent (cov_path_nodes c);
  j_full : Sorted near (cov_full_path c);
  j_last : last (cov_full_path c) = point_of <$> last (cov_path_nodes c)
}.

(** A grid of three rows with a wall between the cells at the left and
    the cell at the right of the middle row, and the mask after a
    spiral over the upper row. *)
Definition walled_grid : Mask :=
  [[false; false; false]; [false; true; false]; [true; true; true]].

Definition walled_visited : Mask :=
  [[true; true; true]; [false; true; false]; [true; true; true]].

(** A planner on a grid of ten by ten cells of one third of a metre
    that accepts an overlap of nine cells, and the free grid with the
    cell (5, 5) blocked. *)
Definition roomy_obj : SpiralSTC :=
  mkSpiralSTC example_grid example_vehicle 1 0 9 9 [] [] [] [] [] [] []
    [] [] [] [] [] [] 0 0 0 0.

Definition blocked_centre : Mask :=
  <[5%nat := <[5%nat := true]> (replicate 10 false)]> example_free.

(** ** Lemmas on the search *)

Section search_lemmas.
Context (passable goal : Point_t → bool).

Lemma grows_refl acc : grows (λ _, False) acc acc.
Proof. split; naive_solver. Qed.

Lemma grows_iff P P' acc acc' :
  (∀ e, P e ↔ P' e) → grows P acc acc' → grows P' acc acc'.
Proof.
  intros HP []. split; try done.
  - intros q. rewrite g_closed0. naive_solver.
  - intros e He. destruct (g_next0 e He); naive_solver.
  - intros e He. apply g_heads0. by apply HP.
Qed.

Lemma grows_trans P P' a b c :
  grows P a b → grows P' b c → grows (λ e, P e ∨ P' e) a c.
Proof.
  intros [] []. split.
  - auto.
  - intros q. rewrite g_closed1, g_closed0. naive_solver.
  - intros e [He|[He Hn]]%g_next1.
    + destruct (g_next0 e He); naive_solver.
    + right. split; [by right|]. intros Ha. apply Hn, g_closed0. by left.
  - intros e He Hn. destruct (decide (e.1 ∈ b.1)) as [Hb|Hb].
    + apply g_closed0 in Hb as [?|(e' & He' & Heq)]; [done|].
      rewrite <-Heq in Hn |- *. apply g_heads0 in He'; [|done].
      apply list_elem_of_fmap in He' as (e2 & -> & He2).
      apply list_elem_of_fmap. eauto.
    + destruct He as [He|He]; [|by apply g_heads1].
      apply g_heads0 in He; [|done].
      apply list_elem_of_fmap in He as (e2 & -> & He2).
      apply list_elem_of_fmap. eauto.
  - auto.
  - lia.
Qed.

(** A loop grows by what its passes grow by. *)
Lemma foldl_grows {A} (f : list Point_t * list entry → A → list Point_t * list entry)
    (P : A → entry → Prop) l acc :
  (∀ acc a, grows (P a) acc (f acc a)) →
  grows (λ e, ∃ a, a ∈ l ∧ P a e) acc (foldl f acc l).
Proof.
  intros Hf. revert acc. induction l as [|a l IH]; intros acc; simpl.
  - eapply grows_iff, grows_refl. intros e. set_solver.
  - eapply grows_iff, grows_trans; [|apply Hf|apply IH]. intros e. set_solver.
Qed.

Lemma visit_grows e acc nb :
  grows (λ e', e' = (nb, walk e) ∧ passable nb) acc (visit passable e acc nb).
Proof.
  unfold visit. destruct (passable nb) eqn:Hp; simpl; [case_bool_decide|]; simpl.
  - split; simpl.
    + by constructor.
    + intros q. rewrite elem_of_cons. naive_solver.
    + intros e' [?|He'%list_elem_of_singleton]%elem_of_app; naive_solver.
    + intros e' [-> _] _. simpl. rewrite fmap_app. set_solver.
    + intros e' ?. set_solver.
    + rewrite length_app. simpl. lia.
  - split; naive_solver.
  - eapply grows_iff, grows_refl. naive_solver.
Qed.

Lemma expand_grows acc e :
  grows (λ e', e'.2 = walk e ∧ step passable e.1 e'.1) acc (expand passable acc e).
Proof.
  eapply grows_iff, (foldl_grows _ (λ nb e', e' = (nb, walk e) ∧ passable nb)).
  - intros [q w]. unfold step. simpl. naive_solver.
  - intros. apply visit_grows.
Qed.

Lemma next_layer_grows closed frontier :
  grows (λ e', ∃ e, e ∈ frontier ∧ e'.2 = walk e ∧ step passable e.1 e'.1)
    (closed, []) (next_layer passable closed frontier).
Proof.
  apply (foldl_grows _ (λ e e', e'.2 = walk e ∧ step passable e.1 e'.1)).
  intros. apply expand_grows.
Qed.

Lemma nearer_Some e best : is_Some (nearer e best).
Proof. destruct best as [b|]; simpl; [destruct (row_major_le _ _)|]; eauto. Qed.

(** The tie-break is a total preorder. *)
Lemma row_major_le_spec p q :
  row_major_le p q ↔ p_y p < p_y q ∨ (p_y p = p_y q ∧ p_x p ≤ p_x q).
Proof.
  unfold row_major_le.
  rewrite orb_True, andb_True, !Is_true_true, Z.ltb_lt, Z.eqb_eq, Z.leb_le. done.
Qed.

Lemma foldr_nearer_Some l e :
  foldr nearer None l = Some e →
  e ∈ l ∧ ∀ e', e' ∈ l → row_major_le e.1 e'.1.
Proof.
  revert e. induction l as [|a l IH]; intros e; simpl; [done|].
  destruct (foldr nearer None l) as [b|] eqn:E; simpl.
  - destruct (IH b eq_refl) as [Hb Hmin].
    destruct (row_major_le a.1 b.1) eqn:Hab; intros [= <-].
    + split; [set_solver|]. intros e' [->|He']%elem_of_cons.
      * apply row_major_le_spec. lia.
      * apply Hmin in He'. apply Is_true_true in Hab.
        rewrite row_major_le_spec in *. lia.
    + split; [set_solver|]. intros e' [->|He']%elem_of_cons; [|by apply Hmin].
      apply Is_true_false in Hab. rewrite row_major_le_spec in *. lia.
  - intros [= <-]. destruct l as [|b l].
    2: { simpl in E. by destruct (nearer_Some b (foldr nearer None l)) as [? ?]; simplify_eq. }
    split; [set_solver|]. intros e' ->%list_elem_of_singleton.
    apply row_major_le_spec. lia.
Qed.

Lemma first_goal_Some frontier e :
  first_goal goal frontier = Some e →
  e ∈ frontier ∧ goal e.1 ∧
  ∀ e', e' ∈ frontier → goal e'.1 → row_major_le e.1 e'.1.
Proof.
  intros [[Hg He]%list_elem_of_filter Hmin]%foldr_nearer_Some.
  split_and!; [done..|]. intros e' He' Hg'. apply Hmin.
  by apply list_elem_of_filter.
Qed.

Lemma first_goal_None frontier e :
  first_goal goal frontier = None → e ∈ frontier → goal e.1 = false.
Proof.
  unfold first_goal. intros H He. destruct (goal e.1) eqn:Hg; [|done].
  assert (e ∈ filter (λ e, goal e.1) frontier) as Hf.
  { apply list_elem_of_filter. by rewrite Hg. }
  destruct (filter _ _) as [|a l]; [set_solver|].
  simpl in H. destruct (nearer_Some a (foldr nearer None l)) as [? ?]. congruence.
Qed.

Section layers.
Context (init : Point_t).

Lemma walk_to_init : walk_to passable init 0 (init, []).
Proof. split; simpl; [done..|repeat constructor|constructor]. Qed.

(** A step from the cell of an entry of layer [k] is an entry of layer
    [k + 1]. *)
Lemma walk_to_step k e q :
  walk_to passable init k e → step passable e.1 q →
  walk_to passable init (S k) (q, walk e).
Proof.
  intros [Hk Hh Hs Hn] Hq. split; simpl.
  - unfold walk. rewrite length_app. simpl. lia.
  - unfold walk at 1. simpl. destruct (walk e); by simplify_eq/=.
  - unfold walk at 1. simpl. apply Sorted_snoc; [done|].
    unfold walk. rewrite last_snoc. by intros ? [= <-].
  - by eapply nsteps_r.
Qed.

Lemma layer_init : layer passable goal init 0 [init] [(init, [])].
Proof.
  split.
  - apply NoDup_singleton.
  - intros q ->%list_elem_of_singleton. exists 0%nat. split; [done|constructor].
  - intros j q Hj Hq. assert (j = 0)%nat as -> by lia.
    inversion Hq. set_solver.
  - intros q ->%list_elem_of_singleton. left. set_solver.
  - intros e ->%list_elem_of_singleton. apply walk_to_init.
  - intros. lia.
  - intros. lia.
Qed.

(** The cells reached in at most [k + 1] steps are closed after layer
    [k]. *)
Lemma layer_next_complete k closed frontier acc j q :
  layer passable goal init k closed frontier →
  grows (λ e', ∃ e, e ∈ frontier ∧ e'.2 = walk e ∧ step passable e.1 e'.1)
    (closed, []) acc →
  (j ≤ S k)%nat → nsteps (step passable) j init q → q ∈ acc.1.
Proof.
  intros Hl G Hj Hq. apply (g_closed _ _ _ G). simpl.
  destruct (decide (j ≤ k)%nat); [left; by eapply l_complete|].
  assert (j = S k) as -> by lia.
  apply nsteps_inv_r in Hq as (p & Hp & Hpq).
  assert (p ∈ closed) as Hc by (by eapply l_complete).
  destruct (l_older _ _ _ _ _ _ Hl p Hc) as [(e & -> & He)%list_elem_of_fmap|(i & Hi & Hip)].
  - right. exists (q, walk e). simpl. eauto.
  - left. eapply (l_complete _ _ _ _ _ _ Hl (S i)); [lia|]. by eapply nsteps_r.
Qed.

(** One layer of the search keeps the state of the search. *)
Lemma layer_next k closed frontier acc :
  layer passable goal init k closed frontier →
  first_goal goal frontier = None →
  next_layer passable closed frontier = acc →
  layer passable goal init (S k) acc.1 acc.2.
Proof.
  intros Hl Hg <-. pose proof (next_layer_grows closed frontier) as G.
  pose proof (λ j q, layer_next_complete _ _ _ _ j q Hl G) as Hcomplete.
  destruct Hl as [Hnd Hsound Hcomp Hold Hfront Hmin Hgoal].
  assert (∀ q, q ∈ closed → ∃ j, (j < S k)%nat ∧ nsteps (step passable) j init q)
    as Hsound'.
  { intros q (j & ? & ?)%Hsound. exists j. split; [lia|done]. }
  split.
  - by apply (g_nodup _ _ _ G).
  - intros q [Hq|(e' & (e & He & _ & Hs) & <-)]%(g_closed _ _ _ G); simpl in *.
    + destruct (Hsound q Hq) as (j & ? & ?). exists j. split; [lia|done].
    + exists (S k). split; [done|]. eapply nsteps_r; [|done].
      by apply Hfront.
  - intros j q. apply Hcomplete.
  - intros q Hq. destruct (decide (q ∈ closed)) as [|Hn]; [right; auto|].
    apply (g_closed _ _ _ G) in Hq as [?|(e' & He' & <-)]; [done|].
    left. by apply (g_heads _ _ _ G).
  - intros e' [?|[(e & He & Hw & Hs) _]]%(g_next _ _ _ G); [set_solver|].
    destruct e' as [q w]. simpl in *. subst w. apply walk_to_step; auto.
  - intros e' j [?|[_ Hn]]%(g_next _ _ _ G) Hj; [set_solver|]. simpl in Hn.
    destruct (decide (j ≤ k)%nat); [|lia]. destruct Hn. by eapply Hcomp.
  - intros j q Hj Hq. destruct (decide (j < k)%nat); [by eapply Hgoal|].
    assert (q ∈ closed) as Hc by (eapply Hcomp; [|done]; lia).
    destruct (Hold q Hc) as [(e & -> & He)%list_elem_of_fmap|(i & ? & ?)].
    + by eapply first_goal_None.
    + by eapply Hgoal.
Qed.

(** Where the search ends: at a layer with a goal in its frontier, or
    at an empty one. *)
Lemma layers_end fuel k closed frontier r :
  layer passable goal init k closed frontier →
  layers passable goal fuel closed frontier = Some r →
  ∃ k' closed' frontier', layer passable goal init k' closed' frontier' ∧
    match r with
    | Some e => first_goal goal frontier' = Some e
    | None => frontier' = []
    end.
Proof.
  revert k closed frontier.
  induction fuel as [|fuel IH]; intros k closed frontier Hl H; [done|].
  simpl in H. destruct frontier as [|a frontier]; [simplify_eq; eauto|].
  destruct (first_goal goal (a :: frontier)) as [e|] eqn:Hg; [simplify_eq; eauto|].
  destruct (next_layer _ _ _) as [closed' next] eqn:Hn.
  eapply IH, H. apply (layer_next _ _ _ _ Hl Hg Hn).
Qed.

(** The goal chosen in the frontier of a layer is a nearest goal, and
    the first of them in row-major order. *)
Lemma found_shortest k closed frontier e :
  layer passable goal init k closed frontier →
  first_goal goal frontier = Some e →
  walk_to passable init k e ∧ goal e.1 ∧
  ∀ j q, nsteps (step passable) j init q → goal q →
    (k ≤ j)%nat ∧ (j = k → row_major_le e.1 q).
Proof.
  intros Hl (He & Hg & Hmin)%first_goal_Some.
  split_and!; [by eapply l_front|done|]. intros j q Hq Hgq.
  assert (k ≤ j)%nat as Hkj.
  { destruct (decide (k ≤ j)%nat); [done|].
    rewrite (l_goal _ _ _ _ _ _ Hl j q) in Hgq; [done|lia|done]. }
  split; [done|]. intros ->.
  assert (q ∈ closed) as Hc by (by eapply l_complete).
  destruct (l_older _ _ _ _ _ _ Hl q Hc) as [(e' & -> & He')%list_elem_of_fmap|(i & ? & Hi)].
  - by apply Hmin.
  - by rewrite (l_goal _ _ _ _ _ _ Hl i q) in Hgq.
Qed.

(** With an empty frontier every cell that can be reached was in an
    earlier layer, and none of those is a goal. *)
Lemma resigned_unreachable k closed q :
  layer passable goal init k closed [] →
  rtc (step passable) init q → goal q = false.
Proof.
  intros Hl [j Hq]%rtc_nsteps.
  cut (∃ i, (i < k)%nat ∧ nsteps (step passable) i init q).
  { intros (i & ? & ?). by eapply l_goal. }
  revert q Hq. induction j as [|j IH]; intros q Hq.
  - assert (q ∈ closed) as Hc.
    { eapply (l_complete _ _ _ _ _ _ Hl 0%nat); [lia|done]. }
    destruct (l_older _ _ _ _ _ _ Hl q Hc) as [?|?]; [set_solver|done].
  - apply nsteps_inv_r in Hq as (p & (i & Hi & Hp)%IH & Hpq).
    assert (q ∈ closed) as Hc.
    { eapply (l_complete _ _ _ _ _ _ Hl (S i)); [lia|]. by eapply nsteps_r. }
    destruct (l_older _ _ _ _ _ _ Hl q Hc) as [?|?]; [set_solver|done].
Qed.

End layers.

(** The search ends: every layer but the last closes a cell that was
    not closed before. *)
Lemma layers_fuel universe fuel closed frontier :
  (∀ q, passable q → q ∈ universe) →
  NoDup closed → (∀ q, q ∈ closed → q ∈ universe) →
  (length universe + 2 ≤ fuel + length closed)%nat →
  is_Some (layers passable goal fuel closed frontier).
Proof.
  intros Hu. revert closed frontier.
  induction fuel as [|fuel IH]; intros closed frontier Hnd Hc Hf.
  { apply NoDup_submseteq, submseteq_length in Hc; [lia|done]. }
  simpl. destruct frontier as [|a frontier]; [eauto|].
  destruct (first_goal goal (a :: frontier)); [eauto|].
  pose proof (next_layer_grows closed (a :: frontier)) as G.
  destruct (next_layer _ _ _) as [closed' next].
  pose proof (g_length _ _ _ G) as Hlen. simpl in Hlen.
  destruct next as [|b next].
  { destruct fuel; simpl; [|eauto].
    apply NoDup_submseteq, submseteq_length in Hc; [lia|done]. }
  apply IH.
  - by apply (g_nodup _ _ _ G).
  - intros q [?|(e' & (e & _ & _ & _ & Hp) & <-)]%(g_closed _ _ _ G); auto.
  - simpl in Hlen. lia.
Qed.

Lemma search_fuel universe fuel init :
  (∀ q, passable q → q ∈ universe) → (length universe + 2 ≤ fuel)%nat →
  is_Some (search passable goal fuel init).
Proof.
  intros Hu Hf. apply (layers_fuel (init :: universe)).
  - intros q ?. set_solver.
  - apply NoDup_singleton.
  - set_solver.
  - simpl. lia.
Qed.

End search_lemmas.

(** ** Lemmas on paths *)

(** A path followed by the image of a walk that starts where the path
    ends. *)
Lemma Sorted_app_fmap {A B} (R : relation A) (S : relation B) (f : B → A)
    l x y l' :
  last l = Some x → Sorted R l → Sorted S (y :: l') →
  (∀ b, S y b → R x (f b)) → (∀ a b, S a b → R (f a) (f b)) →
  Sorted R (l ++ (f <$> l')).
Proof.
  intros Hlast Hl [Hl' Hy]%Sorted_inv Hx Hf.
  induction l as [|a l IH]; [done|]. apply Sorted_inv in Hl as [Hl Ha].
  destruct l as [|a' l]; simpl.
  - simplify_eq/=. constructor; [by eapply Sorted_fmap|].
    destruct Hy; constructor; auto.
  - constructor; [by apply IH|]. inversion Ha; by constructor.
Qed.

Lemma walk_to_cons passable init k e :
  walk_to passable init k e →
  walk e = init :: tail (walk e) ∧ length (tail (walk e)) = k ∧
  last (init :: tail (walk e)) = Some e.1.
Proof.
  intros [Hk Hh _ _]. assert (walk e = init :: tail (walk e)) as Hw.
  { destruct (walk e); by simplify_eq/=. }
  pose proof (f_equal length Hw) as Hlen. unfold walk in Hlen at 1.
  rewrite length_app in Hlen. simpl in Hlen.
  split; [done|]. split; [lia|]. rewrite <- Hw. apply last_snoc.
Qed.

(** ** Lemmas on masks *)

Lemma is_open_Ok m q : is_open m q ↔ mask_at m (p_x q) (p_y q) = Ok eNodeOpen.
Proof. unfold is_open. destruct (mask_at _ _ _) as [[]| |]; naive_solver. Qed.

Lemma passable_cell_open b grid visited q :
  passable_cell b grid visited q → q ∈ open_cells grid eNodeOpen.
Proof. intros [H _]%andb_True. by apply elem_of_open_cells, is_open_Ok. Qed.

Lemma open_row_mark row j :
  row !! j = Some eNodeOpen →
  (length (filter (λ b, b = eNodeOpen) (<[j:=eNodeVisited]> row))
   < length (filter (λ b, b = eNodeOpen) row))%nat.
Proof.
  intros Hj. rewrite insert_take_drop by (by eapply lookup_lt_Some).
  rewrite <- (take_drop_middle row j _ Hj) at 3.
  rewrite !filter_app, !length_app, filter_cons_False, filter_cons_True by done.
  simpl. lia.
Qed.

(** Marking an open cell leaves one open cell fewer. *)
Lemma open_count_mark m x y m' :
  mask_at m x y = Ok eNodeOpen → mask_mark m x y = Ok m' →
  (open_count m' < open_count m)%nat.
Proof.
  intros (row & _ & Hrow & _ & Hx)%mask_at_Ok (row' & _ & Hrow' & _ & ->)%mask_mark_Ok.
  simplify_eq. unfold open_count.
  rewrite insert_take_drop by (by eapply lookup_lt_Some).
  rewrite <- (take_drop_middle m _ _ Hrow) at 3.
  rewrite !sum_list_with_app. cbn [sum_list_with].
  pose proof (open_row_mark _ _ Hx) as Hlt. unfold eNodeVisited in Hlt. lia.
Qed.

Lemma open_count_mark_le m x y m' :
  mask_mark m x y = Ok m' → (open_count m' ≤ open_count m)%nat.
Proof.
  intros Hm. pose proof Hm as (row & ? & Hrow & ? & ->)%mask_mark_Ok.
  destruct (lookup_lt_is_Some_2 row (Z.to_nat x)) as [[] Hx]; [lia| |].
  - by rewrite (list_insert_id row), (list_insert_id m).
  - apply Nat.lt_le_incl, (open_count_mark m x y); [|done].
    apply mask_at_Ok. exists row. split_and!; [done..|lia|done].
Qed.

(** ** The search of the planner *)

Section a_star_lemmas.
Context (through_visited : bool) (grid visited : Mask).

(** The two ways [a_star] returns. *)
Lemma a_star_cases init cost goals path :
  (a_star through_visited grid init cost visited goals path
     = (true, visited, path) ∧
   ∀ q, rtc (cell_step through_visited grid visited) (pos init) q →
     goal_cell grid visited q = false) ∨
  (∃ e, a_star through_visited grid init cost visited goals path
          = (false, visited, path ++ ((λ p, mkNode p 0 0) <$> tail (walk e))) ∧
     walk_to (passable_cell through_visited grid visited) (pos init)
       (length e.2) e ∧
     goal_cell grid visited e.1 ∧
     ∀ j q, nsteps (cell_step through_visited grid visited) j (pos init) q →
       goal_cell grid visited q →
       (length e.2 ≤ j)%nat ∧ (j = length e.2 → row_major_le e.1 q)).
Proof.
  unfold a_star, cell_step.
  destruct (search_fuel (passable_cell through_visited grid visited)
              (goal_cell grid visited) (open_cells grid eNodeOpen)
              (length (open_cells grid eNodeOpen) + 3) (pos init)) as [r Hr];
    [apply passable_cell_open|lia|].
  rewrite Hr.
  destruct (layers_end _ _ _ _ _ _ _ _ (layer_init _ _ _) Hr)
    as (k & closed & frontier & Hl & Hend).
  destruct r as [e|].
  - right. exists e. split; [done|].
    destruct (found_shortest _ _ _ _ _ _ _ Hl Hend) as (Hw & Hg & Hmin).
    by rewrite (wt_length _ _ _ _ Hw).
  - left. subst frontier. split; [done|]. intros q.
    by eapply resigned_unreachable.
Qed.

(** A path that the search has extended ends at a goal. *)
Lemma a_star_back init e path :
  walk_to (passable_cell through_visited grid visited) (pos init) (length e.2) e →
  back path = Ok init →
  ∃ n, back (path ++ ((λ p, mkNode p 0 0) <$> tail (walk e))) = Ok n ∧ pos n = e.1.
Proof.
  intros (Hw & _ & Hlast)%walk_to_cons Hb.
  destruct (tail (walk e)) as [|c cells] using rev_ind.
  - rewrite app_nil_r. exists init. split; [done|]. by simplify_eq/=.
  - rewrite fmap_app, app_assoc. simpl. rewrite back_snoc. eexists. split; [done|].
    rewrite app_comm_cons, last_snoc in Hlast. by simplify_eq/=.
Qed.

Lemma step_adjacent (a b : gridNode_t) :
  cell_step through_visited grid visited (pos a) (pos b) → adjacent a b.
Proof.
  intros [Hb _]. unfold adjacent, is_axis, neighbours in *.
  rewrite !elem_of_cons, elem_of_nil in Hb.
  destruct Hb as [->|[->|[->|[->|[]]]]]; simpl; lia.
Qed.

Lemma a_star_Sorted init e path :
  walk_to (passable_cell through_visited grid visited) (pos init) (length e.2) e →
  back path = Ok init → Sorted adjacent path →
  Sorted adjacent (path ++ ((λ p, mkNode p 0 0) <$> tail (walk e))).
Proof.
  intros Hw Hb%back_Ok Hs. pose proof (wt_sorted _ _ _ _ Hw) as Hsw.
  apply walk_to_cons in Hw as (Hw & _). rewrite Hw in Hsw.
  eapply (Sorted_app_fmap _ (cell_step through_visited grid visited)); [done..| |].
  - intros b Hb'. by apply step_adjacent.
  - intros a b Hab. by apply step_adjacent.
Qed.

(** The cells of a walk after the origin are free. *)
Lemma Sorted_step_passable passable (x : Point_t) l :
  Sorted (step passable) (x :: l) → Forall (λ q, passable q) l.
Proof.
  revert x. induction l as [|a l IH]; intros x Hs; [constructor|].
  apply Sorted_inv in Hs as [Hs [_ Ha]%HdRel_inv]. constructor; eauto.
Qed.

Lemma a_star_walk_free init e :
  walk_to (passable_cell through_visited grid visited) (pos init) (length e.2) e →
  Forall (λ n, mask_at grid (p_x (pos n)) (p_y (pos n)) = Ok eNodeOpen)
    ((λ p, mkNode p 0 0) <$> tail (walk e)).
Proof.
  intros Hw. pose proof (wt_sorted _ _ _ _ Hw) as Hs.
  apply walk_to_cons in Hw as (Hw & _). rewrite Hw in Hs.
  apply Sorted_step_passable in Hs. apply Forall_fmap.
  eapply Forall_impl; [exact Hs|]. intros q [Hq _]%andb_True. by apply is_open_Ok.
Qed.

End a_star_lemmas.

(** A search that does not resign appends a shortest walk to the
    nearest goal, the first of the nearest goals in row-major order. *)
Lemma a_star_shortest through_visited grid visited init cost goals path_nodes
    visited' path_nodes' :
  a_star through_visited grid init cost visited goals path_nodes
    = (false, visited', path_nodes') →
  ∃ cells g,
    visited' = visited ∧
    path_nodes' = path_nodes ++ ((λ p, mkNode p 0 0) <$> cells) ∧
    Sorted (cell_step through_visited grid visited) (pos init :: cells) ∧
    last (pos init :: cells) = Some g ∧ goal_cell grid visited g ∧
    ∀ j q, nsteps (cell_step through_visited grid visited) j (pos init) q →
      goal_cell grid visited q →
      (length cells ≤ j)%nat ∧ (j = length cells → row_major_le g q).
Proof.
  intros H. destruct (a_star_cases through_visited grid visited init cost goals path_nodes)
    as [[E _]|(e & E & Hw & Hg & Hmin)]; rewrite E in H; simplify_eq.
  pose proof (wt_sorted _ _ _ _ Hw) as Hs.
  apply walk_to_cons in Hw as (Hw & Hlen & Hlast). rewrite Hw in Hs.
  exists (tail (walk e)), e.1. rewrite Hlen. by split_and!.
Qed.

(** The search resigns, and returns the path and [visited] as they
    were, exactly when no goal can be reached. *)
Lemma a_star_resigns through_visited grid visited init cost goals path_nodes :
  a_star through_visited grid init cost visited goals path_nodes
    = (true, visited, path_nodes) ↔
  ∀ q, rtc (cell_step through_visited grid visited) (pos init) q →
    goal_cell grid visited q = false.
Proof.
  destruct (a_star_cases through_visited grid visited init cost goals path_nodes)
    as [[E Hno]|(e & E & Hw & Hg & _)]; rewrite E; [done|].
  split; [done|]. intros Hno. rewrite (Hno e.1) in Hg; [done|].
  apply rtc_nsteps. eexists. apply Hw.
Qed.

(** When visited cells are impassable every cell the search may enter
    is itself a goal, so the search adds one node at most. *)
Lemma a_star_strict_one_step grid init cost visited goals path_nodes resign
    visited' path_nodes' :
  a_star false grid init cost visited goals path_nodes
    = (resign, visited', path_nodes') →
  (length path_nodes' ≤ length path_nodes + 1)%nat.
Proof.
  intros H. destruct (a_star_cases false grid visited init cost goals path_nodes)
    as [[E _]|(e & E & Hw & _ & Hmin)]; rewrite E in H; simplify_eq; [lia|].
  pose proof (wt_sorted _ _ _ _ Hw) as Hs.
  apply walk_to_cons in Hw as (Hw & Hlen & _). rewrite Hw in Hs.
  rewrite length_app, length_fmap, Hlen.
  destruct (tail (walk e)) as [|q cells]; [simpl in Hlen; lia|].
  apply Sorted_inv in Hs as [_ Hq%HdRel_inv]. destruct (Hmin 1%nat q) as [? _].
  - by apply nsteps_once.
  - destruct Hq as [_ Hq]. unfold passable_cell in Hq. by rewrite orb_false_l in Hq.
  - lia.
Qed.

#[export] Instance a_star_relocator_laws b : SearchLaws (a_star_relocator b).
Proof.
  split; [split|..]; simpl.
  - intros grid init cost visited goals path resign visited' path' H.
    destruct (a_star_cases b grid visited init cost goals path)
      as [[E _]|(e & E & _)]; rewrite E in H; simplify_eq; [|by eexists].
    exists []. by rewrite app_nil_r.
  - intros grid init cost visited goals path resign visited' path' H.
    by destruct (a_star_cases b grid visited init cost goals path)
      as [[E _]|(e & E & _)]; rewrite E in H; simplify_eq.
  - intros grid init cost visited goals path resign visited' path' H.
    destruct (a_star_cases b grid visited init cost goals path)
      as [[E _]|(e & E & Hw & _)]; rewrite E in H; simplify_eq.
    { rewrite drop_all. constructor. }
    rewrite drop_app_length. by eapply a_star_walk_free.
  - intros grid init cost visited goals path resign visited' path' w h H.
    by destruct (a_star_cases b grid visited init cost goals path)
      as [[E _]|(e & E & _)]; rewrite E in H; simplify_eq.
  - intros grid init cost visited goals path resign visited' path' H.
    by destruct (a_star_cases b grid visited init cost goals path)
      as [[E _]|(e & E & _)]; rewrite E in H; simplify_eq.
  - intros grid init cost visited goals path visited' path' Hb H.
    destruct (a_star_cases b grid visited init cost goals path)
      as [[E _]|(e & E & Hw & [_ Hg%is_open_Ok]%andb_True & _)];
      rewrite E in H; simplify_eq.
    destruct (a_star_back _ _ _ _ _ _ Hw Hb) as (n & Hn & Hpos).
    exists n. by rewrite Hpos.
  - intros grid init cost visited goals path resign visited' path' Hb H Hs.
    destruct (a_star_cases b grid visited init cost goals path)
      as [[E _]|(e & E & Hw & _)]; rewrite E in H; simplify_eq; [done|].
    by eapply a_star_Sorted.
Qed.

(** ** The loops of [spiral_stc] with a search *)

Section planner_with_search.
Context {L : Libm} {F : ConvexFill} {P : Platform} {R : Relocator}.
Context {SL : SearchLaws R}.

(** What a relocation from a single node returns is what its last
    search returned, on [visited] with the goals refused before
    marked. *)
Lemma relocate_last_search fuel st grid goals visited n resign visited' path_nodes' :
  relocate fuel st grid goals visited [n] = Ok (resign, visited', path_nodes') →
  ∃ v, mask_le visited v ∧ (open_count v ≤ open_count visited)%nat ∧
    (∀ w h, mask_dims visited w h → mask_dims v w h) ∧
    a_star_to_open_space grid n 1 v goals [n] = (resign, visited', path_nodes').
Proof.
  revert visited. induction fuel as [|fuel IH]; intros visited H; [done|].
  simpl in H. destruct (a_star_to_open_space _ _ _ _ _ _) as [[r v1] p1] eqn:E.
  pose proof (a_star_visited _ _ _ _ _ _ _ _ _ E) as Hle.
  pose proof (a_star_closes _ _ _ _ _ _ _ _ _ E) as Hc.
  pose proof (a_star_extends _ _ _ _ _ _ _ _ _ E) as [added ->].
  destruct r; [simplify_eq; by exists visited|].
  apply res_bind_Ok in H as (last_node & _ & H).
  case_decide; [|simplify_eq; by exists visited].
  apply res_bind_Ok in H as (prev & _ & H).
  destruct (computeFootprintCells _ _ _ _ _ _) as [accept fp].
  apply res_bind_Ok in H as ([accept' k] & _ & H).
  destruct (_ || _); [|simplify_eq; by exists visited].
  apply res_bind_Ok in H as (v2 & Hv2 & H).
  apply IH in H as (v & Hv & Hcv & Hd & H). exists v. split_and!; [| | |done].
  - etrans; [done|]. etrans; [|done]. by eapply mask_mark_le.
  - apply open_count_mark_le in Hv2. lia.
  - intros w h Hw. eapply Hd, mask_mark_dims, Hv2.
    by eapply a_star_dims.
Qed.

(** The footprint at the end of a relocation is checked within the
    masks. *)
Lemma end_footprint_check_is_Ok st grid visited cells accept k :
  mask_dims grid (size_x (planner_grid st)) (size_y (planner_grid st)) →
  mask_dims visited (size_x (planner_grid st)) (size_y (planner_grid st)) →
  cells_in_grid (planner_grid st) cells →
  is_Ok (end_footprint_check grid visited cells accept k).
Proof.
  intros Hg Hv Hin. revert k.
  induction Hin as [|c cells Hc _ IH]; intros k; simpl; [by eexists|].
  destruct (proj2 (mask_at_is_Ok _ _ _ (m_x c) (m_y c) Hg) Hc) as [b ->].
  destruct (proj2 (mask_at_is_Ok _ _ _ (m_x c) (m_y c) Hv) Hc) as [v ->].
  simpl. destruct (Bool.eqb b _); [by eexists|]. by destruct (Bool.eqb v _).
Qed.

(** The loop of lines 359-401 ends, whatever the masks: every goal
    that is refused is marked in [visited]. *)
Lemma relocate_ends fuel st grid goals visited path_nodes :
  (open_count visited < fuel)%nat →
  relocate fuel st grid goals visited path_nodes ≠ OutOfFuel.
Proof.
  revert visited path_nodes.
  induction fuel as [|fuel IH]; intros visited path_nodes Hf; [lia|].
  simpl. apply res_bind_ends; [apply back_ends|]. intros init Hinit.
  destruct (a_star_to_open_space _ _ _ _ _ _) as [[resign v1] p1] eqn:E.
  destruct resign; [done|].
  pose proof (a_star_closes _ _ _ _ _ _ _ _ _ E) as Hc.
  destruct (a_star_open_end _ _ _ _ _ _ _ _ Hinit E) as (n & Hn & Hopen).
  rewrite Hn. simpl. case_decide; [|done].
  apply res_bind_ends; [apply vec_at_ends|]. intros prev _.
  destruct (computeFootprintCells _ _ _ _ _ _) as [accept fp].
  apply res_bind_ends; [apply end_footprint_check_ends|]. intros [accept' k] _.
  destruct (_ || _); [|done].
  apply res_bind_ends; [apply mask_mark_ends|]. intros v2 Hv2.
  apply IH. pose proof (open_count_mark _ _ _ _ Hopen Hv2). lia.
Qed.

(** The loop of lines 359-401 returns: on masks of the size of the
    coverage grid and a path that is not empty, it ends after at most
    as many refused goals as [visited] has open cells, with no read or
    write outside a vector. *)
Lemma relocate_is_Ok {FL : ConvexFillLaws F} fuel st grid goals visited path_nodes :
  path_nodes ≠ [] →
  mask_dims grid (size_x (planner_grid st)) (size_y (planner_grid st)) →
  mask_dims visited (size_x (planner_grid st)) (size_y (planner_grid st)) →
  (open_count visited < fuel)%nat →
  is_Ok (relocate fuel st grid goals visited path_nodes).
Proof.
  intros Hne Hg. revert visited path_nodes Hne.
  induction fuel as [|fuel IH]; intros visited path_nodes Hne Hv Hf; [lia|].
  simpl. destruct (back_is_Ok path_nodes Hne) as [init Hinit]. rewrite Hinit. simpl.
  destruct (a_star_to_open_space _ _ _ _ _ _) as [[resign v1] p1] eqn:E.
  destruct resign; [by eexists|].
  pose proof (a_star_closes _ _ _ _ _ _ _ _ _ E) as Hc.
  pose proof (a_star_dims _ _ _ _ _ _ _ _ _ _ _ E Hv) as Hv1.
  destruct (a_star_open_end _ _ _ _ _ _ _ _ Hinit E) as (n & Hn & Hopen).
  rewrite Hn. simpl. case_decide; [|by eexists].
  destruct (vec_at_inrange p1 (Z.of_nat (length p1 - 1 - 1))) as [prev ->]; [lia|].
  simpl. pose proof (computeFootprintCells_cells_in_grid st (p_x (pos n))
    (p_y (pos n)) (atan2 (p_y (pos n) - p_y (pos prev)) (p_x (pos n) - p_x (pos prev)))
    "vehicle" [] (Forall_nil_2 _)) as Hin.
  destruct (computeFootprintCells _ _ _ _ _ _) as [accept fp]. simpl in Hin.
  destruct (end_footprint_check_is_Ok st grid v1 fp accept 0 Hg Hv1 Hin)
    as [[accept' k] ->].
  simpl. destruct (_ || _); [|by eexists].
  assert (is_Ok (mask_at v1 (p_x (pos n)) (p_y (pos n)))) as Hr by (by eexists).
  apply (mask_at_is_Ok _ _ _ _ _ Hv1), (mask_mark_is_Ok _ _ _ _ _ Hv1) in Hr as [v2 Hv2].
  rewrite Hv2. simpl. apply IH.
  - destruct p1; [simpl in *; lia|done].
  - by eapply mask_mark_dims.
  - pose proof (open_count_mark _ _ _ _ Hopen Hv2). lia.
Qed.

(** A relocation keeps a connected path connected: a path that is
    rejected is cut back to its first node. *)
Lemma relocate_connected fuel st grid goals visited path_nodes resign visited'
    path_nodes' :
  relocate fuel st grid goals visited path_nodes = Ok (resign, visited', path_nodes') →
  Sorted adjacent path_nodes → Sorted adjacent path_nodes'.
Proof.
  revert visited path_nodes.
  induction fuel as [|fuel IH]; intros visited path_nodes H Hs; [done|].
  simpl in H. apply res_bind_Ok in H as (init & Hinit & H).
  destruct (a_star_to_open_space _ _ _ _ _ _) as [[r v1] p1] eqn:E.
  pose proof (a_star_connected _ _ _ _ _ _ _ _ _ Hinit E Hs) as Hs1.
  destruct r; [by simplify_eq|].
  apply res_bind_Ok in H as (last_node & _ & H).
  case_decide; [|by simplify_eq].
  apply res_bind_Ok in H as (prev & _ & H).
  destruct (computeFootprintCells _ _ _ _ _ _) as [accept fp].
  apply res_bind_Ok in H as ([accept' k] & _ & H).
  destruct (_ || _); [|by simplify_eq].
  apply res_bind_Ok in H as (v2 & _ & H). eapply IH; [done|].
  destruct p1 as [|a [|a' p1]]; simpl; repeat constructor.
Qed.

(** A spiral keeps a connected path connected. *)
Lemma spiral_Sorted fuel st grid init yaw_start visited0 path visited' st' :
  spiral fuel st grid init yaw_start visited0 = Ok (path, visited', st') →
  Sorted adjacent init → Sorted adjacent path.
Proof.
  unfold spiral. intros (s0 & H0 & H)%res_bind_Ok Hs.
  apply res_bind_Ok in H as (s & Hl & [= <- _ _]).
  eauto using spiral_loop_inv, spiral_init_inv.
Qed.

Lemma adjacent_near a b : adjacent a b → near (point_of a) (point_of b).
Proof. intros H. by right. Qed.

(** The nodes of a stage pushed on the full path, when the stage
    starts at the node the full path ends with. *)
Lemma push_joined full n path :
  Sorted near full → last full = Some (point_of n) → Sorted adjacent (n :: path) →
  Sorted near (full ++ map point_of (n :: path)) ∧
  last (full ++ map point_of (n :: path)) = point_of <$> last (n :: path).
Proof.
  intros Hf Hl Hp. split.
  - simpl. rewrite cons_middle, app_assoc.
    eapply (Sorted_app_fmap _ adjacent point_of);
      [apply last_snoc| |done|auto using adjacent_near..].
    apply Sorted_snoc; [done|]. intros y Hy. left. congruence.
  - rewrite last_app. change (map point_of (n :: path)) with (point_of <$> n :: path).
    rewrite fmap_last. destruct (last (n :: path)) eqn:E; [done|].
    by apply last_None in E.
Qed.

Lemma spiral_stc_first_joined fuel st grid init yaw_start c :
  spiral_stc_first fuel st grid init yaw_start = Ok c → joined c.
Proof.
  unfold spiral_stc_first. intros (vc & _ & H)%res_bind_Ok.
  apply res_bind_Ok in H as ([[p1 v1] st1] & Hs & H).
  rewrite push_path_eq in H. injection H as <-.
  apply spiral_Sorted in Hs; [|repeat constructor].
  split; simpl; [done| |by rewrite <- fmap_last].
  eapply Sorted_fmap, Hs. apply adjacent_near.
Qed.

(** One iteration of the outer loop keeps the full path connected. *)
Lemma spiral_stc_iteration_joined fuel grid yaw_start c r :
  spiral_stc_iteration fuel grid yaw_start c = Ok r → joined c →
  Sorted near (cov_full_path (stage_coverage r)) ∧
  (if r is Continue c' then joined c' else True).
Proof.
  unfold spiral_stc_iteration. intros H [Hn Hf Hl].
  destruct (_ =? 2); [by simplify_eq|].
  apply res_bind_Ok in H as (n & Hb & H). rewrite (drop_to_back _ _ Hb) in H.
  apply back_Ok in Hb. rewrite Hb in Hl.
  apply res_bind_Ok in H as ([[resign v1] p1] & Hr & H).
  destruct resign; [by simplify_eq|].
  pose proof Hr as [_ [added1 ->]]%relocate_extends.
  apply relocate_connected in Hr; [|repeat constructor].
  apply res_bind_Ok in H as ([v2 st2] & _ & H).
  apply res_bind_Ok in H as (last_node & _ & H).
  apply res_bind_Ok in H as ([[p3 v3] st3] & Hs & H).
  pose proof Hs as (_ & _ & _ & added3 & ->)%spiral_Ok.
  apply spiral_Sorted in Hs; [|done].
  rewrite push_path_eq in H. injection H as <-. simpl in *.
  destruct (push_joined _ _ _ Hf Hl Hs) as [Hf' Hl']. by split.
Qed.

Lemma spiral_stc_loop_joined n fuel grid yaw_start c c' :
  spiral_stc_loop n fuel grid yaw_start c = Ok c' → joined c →
  Sorted near (cov_full_path c').
Proof.
  revert c. induction n as [|n IH]; intros c H Hj; [done|]. simpl in H.
  case_decide; [|simplify_eq; apply Hj].
  apply res_bind_Ok in H as (r & Hr & H).
  apply spiral_stc_iteration_joined in Hr as [Hf Hj']; [|done].
  destruct r as [c1|c1]; simpl in *; [by simplify_eq|eauto].
Qed.

End planner_with_search.

(** ** The theorems *)

Section relocate_with_search.
Context {L : Libm} {F : ConvexFill} (through_visited : bool).

(** C16. A relocation that is accepted is a shortest walk to the
    nearest open cell: with the search of the specification the path
    returned starts at the node given, each of its cells is passable
    and next to the one before it, the last is free and not visited, no
    such cell can be reached in fewer steps, and among those at that
    distance the one reached comes first in row-major order.  The
    cells refused before count as visited. *)
Theorem relocate_shortest fuel st grid goals visited n visited' path_nodes' :
  relocate (R := a_star_relocator through_visited) fuel st grid goals visited [n]
    = Ok (false, visited', path_nodes') →
  ∃ cells g,
    path_nodes' = n :: ((λ p, mkNode p 0 0) <$> cells) ∧
    Sorted (cell_step through_visited grid visited') (pos n :: cells) ∧
    last (pos n :: cells) = Some g ∧ goal_cell grid visited' g ∧
    ∀ j q, nsteps (cell_step through_visited grid visited') j (pos n) q →
      goal_cell grid visited' q →
      (length cells ≤ j)%nat ∧ (j = length cells → row_major_le g q).
Proof.
  intros (v & _ & _ & _ & H)%relocate_last_search. simpl in H.
  apply a_star_shortest in H as (cells & g & -> & -> & H). by exists cells, g.
Qed.

(** C15. Resignation is correct: when the relocation resigns, the path
    is the node it was given, and no cell that is free and not visited
    can be reached from it through passable cells.  [visited] has only
    grown on the way, by the goals that were refused. *)
Theorem relocate_resigns fuel st grid goals visited n visited' path_nodes' :
  relocate (R := a_star_relocator through_visited) fuel st grid goals visited [n]
    = Ok (true, visited', path_nodes') →
  path_nodes' = [n] ∧ mask_le visited visited' ∧
  ∀ q, rtc (cell_step through_visited grid visited') (pos n) q →
    goal_cell grid visited' q = false.
Proof.
  intros (v & Hv & _ & _ & H)%relocate_last_search. simpl in H.
  destruct (a_star_cases through_visited grid v n 1 goals [n])
    as [[E Hno]|(e & E & _)]; rewrite E in H; by simplify_eq.
Qed.

End relocate_with_search.

(** C38. When visited cells are impassable, as section 4.6 has it, a
    relocation is one step long at most: every cell the search may
    enter is itself a goal. *)
Theorem relocate_strict_one_step {L : Libm} {F : ConvexFill} fuel st grid goals
    visited n resign visited' path_nodes' :
  relocate (R := a_star_strict) fuel st grid goals visited [n]
    = Ok (resign, visited', path_nodes') →
  (length path_nodes' ≤ 2)%nat.
Proof.
  intros (v & _ & _ & _ & H)%relocate_last_search. simpl in H.
  apply a_star_strict_one_step in H. simpl in H. lia.
Qed.

Section planner_properties.
Context {L : Libm} {F : ConvexFill} {P : Platform} {R : Relocator}.
Context {SL : SearchLaws R}.

(** C9. The full path of [spiral_stc] is connected: each point is the
    cell of the point before it or one step from it along an axis.  A
    cell is repeated where a relocation starts, at the last node of the
    spiral before it. *)
Theorem spiral_stc_path_connected fuel st grid init yaw_start full_path shown st' :
  spiral_stc fuel st grid init yaw_start = Ok (full_path, shown, st') →
  Sorted near full_path.
Proof.
  unfold spiral_stc. intros (c & Hc%spiral_stc_first_joined & H)%res_bind_Ok.
  apply res_bind_Ok in H as (c' & Hl & [= <- _ _]).
  by eapply spiral_stc_loop_joined.
Qed.

End planner_properties.

(** ** The theorems at concrete inputs *)

(** From the blocked cell (5, 5) the cell below is refused, for the
    blocked cell under the vehicle, and the relocation goes two cells
    down, through the cell it was refused at. *)
Lemma relocate_shortest_witness :
  ∃ visited' cells g,
    [mkNode (mkPoint 5 5) 0 0; mkNode (mkPoint 5 4) 0 0; mkNode (mkPoint 5 3) 0 0]
      = mkNode (mkPoint 5 5) 0 0 :: ((λ p, mkNode p 0 0) <$> cells) ∧
    Sorted (cell_step true blocked_centre visited') (mkPoint 5 5 :: cells) ∧
    last (mkPoint 5 5 :: cells) = Some g ∧ goal_cell blocked_centre visited' g ∧
    ∀ j q, nsteps (cell_step true blocked_centre visited') j (mkPoint 5 5) q →
      goal_cell blocked_centre visited' q →
      (length cells ≤ j)%nat ∧ (j = length cells → row_major_le g q).
Proof.
  eexists.
  eapply (relocate_shortest (L := approx_libm) (F := hull_fill) true 9
            (set_max_overlap 9 roomy_obj) blocked_centre [] blocked_centre
            (mkNode (mkPoint 5 5) 0 0)).
  vm_compute. reflexivity.
Defined.

(** With visited cells impassable the same relocation resigns, the
    four cells next to the blocked cell refused and marked. *)
Lemma relocate_resigns_witness :
  ∃ visited',
    [mkNode (mkPoint 5 5) 0 0] = [mkNode (mkPoint 5 5) 0 0] ∧
    mask_le blocked_centre visited' ∧
    ∀ q, rtc (cell_step false blocked_centre visited') (mkPoint 5 5) q →
      goal_cell blocked_centre visited' q = false.
Proof.
  eexists.
  eapply (relocate_resigns (L := approx_libm) (F := hull_fill) false 9
            (set_max_overlap 9 roomy_obj) blocked_centre [] blocked_centre
            (mkNode (mkPoint 5 5) 0 0)).
  vm_compute. reflexivity.
Defined.

Lemma relocate_strict_one_step_witness :
  (length [mkNode (mkPoint 5 5) 0 0; mkNode (mkPoint 5 4) 0 0] ≤ 2)%nat.
Proof.
  eapply (relocate_strict_one_step (L := approx_libm) (F := hull_fill) 9
            (set_max_overlap 9 roomy_obj) example_free [] blocked_centre
            (mkNode (mkPoint 5 5) 0 0) false).
  vm_compute. reflexivity.
Defined.

(** The search alone, from the middle of the upper row of
    [walled_grid]: through visited cells it reaches the open cell at
    the left in two steps; with visited cells impassable it resigns. *)
Example a_star_readings_differ :
  a_star true walled_grid (mkNode (mkPoint 1 0) 0 0) 1 walled_visited []
    [mkNode (mkPoint 1 0) 0 0]
  = (false, walled_visited,
     [mkNode (mkPoint 1 0) 0 0; mkNode (mkPoint 0 0) 0 0; mkNode (mkPoint 0 1) 0 0]) ∧
  a_star false walled_grid (mkNode (mkPoint 1 0) 0 0) 1 walled_visited []
    [mkNode (mkPoint 1 0) 0 0]
  = (true, walled_visited, [mkNode (mkPoint 1 0) 0 0]).
Proof. split; vm_compute; reflexivity. Qed.

(** From the blocked cell (5, 5) the relocation of the second stage
    goes two cells down. *)
Lemma spiral_stc_path_connected_witness :
  Sorted near [mkPoint 5 5; mkPoint 5 5; mkPoint 5 4; mkPoint 5 3].
Proof.
  eapply (spiral_stc_path_connected (L := approx_libm) (F := hull_fill)
            (P := returns_false) (R := a_star_obstacle_aware) 9 roomy_obj
            blocked_centre (mkPoint 5 5) 0%Q).
  vm_compute. reflexivity.
Defined.
