(* ===== verification/Returns.v ===== *)
(** * Returns: when the planner returns a plan

    The collision check [checkManoeuvreCollision] has no [return] on
    the path without a collision, so what [spiral] does depends on the
    value the build leaves there ([flow_off_end] of [Platform]).  With
    [true], [Planner.makePlan_never_returns] shows that a new planner
    returns from no call.  This file is about the other build: with
    [false] every spiral ends in its first pass, and the whole of
    [spiral_stc] (lines 306-464) returns.

    The cap of line 343 ends the outer loop of [spiral_stc] only in a
    call that takes the counter of spirals to 2, and the counter is
    never reset.  The loop needs no cap to end: every stage that does
    not leave the loop marks the cell at the end of its relocation,
    which was open, so the number of open cells of [visited]
    ([open_count]) goes down with every stage.
    The same number bounds the searches of a relocation
    ([Search.relocate_is_Ok]), so a fuel above the number of open cells
    of the grid is enough for all the loops.

    The masks have to fit the coverage grid, and the grid has to be
    square: [spiral_stc] sizes [visited_copy] with the sides of the grid
    swapped ([Planner.resize_visited_copy_transposed]).  The state
    between two stages that the proof carries is [ready].

    The second part is what a call has covered when it returns
    ([spiral_stc_complete]): past the cap the loop is left only when
    no cell of [visited] is open or when the search resigns, and with
    the search of [Search] no cell that is free and open can then be
    reached from the end of the plan.  The state it carries is
    [searching].

    The third part is where the plan goes ([spiral_stc_plan_on_free]):
    with every spiral ending in its first pass the plan is made of
    relocations, and stays on free cells (state [on_free]). *)

From Stdlib Require Import ZArith QArith Lia.
From stdpp Require Import base tactics list option numbers list_numbers strings relations sorting.
From S2P Require Import Prelude Grid Libm State Raster Footprint Catalog Spiral.
From S2P Require Import Planner Search.

Set Warnings "-clear-no-such-hyp".

#[local] Open Scope fcpp_scope.

(** ** Predicates of the theorems *)

(** The cell of a node lies in a mask of [w] by [h] entries. *)
Definition node_in (w h : Z) (n : gridNode_t) : Prop :=
  0 ≤ p_x (pos n) < w ∧ 0 ≤ p_y (pos n) < h.

(** A planner on a square grid of side [w] with nothing in [man_grids],
    which no method writes, and [visited_copy] of the size of the
    grid. *)
Record square (w : Z) (st : SpiralSTC) : Prop := mkSquare {
  sq_size_x : size_x (planner_grid st) = w;
  sq_size_y : size_y (planner_grid st) = w;
  sq_man_grids : man_grids st = [];
  sq_visited_copy : mask_dims (visited_copy st) w w
}.

(** What is shown can be shown: [visualizeGrid] reads a mask within
    the size of the grid. *)
Definition showable (w : Z) (d : display) : Prop :=
  match d with
  | ShowGrid grid _ _ _ _ _ => mask_dims grid w w
  | ShowSpiral _ _ _ _ _ _ _ => True
  end.

(** The masks of [spiral_stc] have the size of the grid. *)
Record fitted (w : Z) (c : coverage) : Prop := mkFitted {
  ft_this : square w (cov_this c);
  ft_visited : mask_dims (cov_visited c) w w;
  ft_shown : Forall (showable w) (cov_shown c)
}.

(** The state of [spiral_stc] between two stages: the masks have the
    size of the grid and the path ends in the grid. *)
Record ready (w : Z) (c : coverage) : Prop := mkReady {
  rd_fitted : fitted w c;
  rd_last : ∃ n, back (cov_path_nodes c) = Ok n ∧ node_in w w n
}.

(** No cell that is free and still open can be reached from the end
    of the full path. *)
Definition covered (through_visited : bool) (grid : Mask) (c : coverage) : Prop :=
  ∀ g q, last (cov_full_path c) = Some g →
    rtc (cell_step through_visited grid (cov_visited c)) g q →
    goal_cell grid (cov_visited c) q = false.

(** The state of the outer loop in a call that the cap of line 343
    cannot end: the counter of spirals has passed 2, the goals are the
    open cells of [visited], and the full path ends where the path of
    the last stage ends. *)
Record searching (c : coverage) : Prop := mkSearching {
  sg_joined : joined c;
  sg_counter : 2 ≤ spiral_counter (cov_this c);
  sg_goals : cov_goals c = open_cells (cov_visited c) eNodeOpen
}.

(** A point of a plan from [init]: the start cell, or a free cell of
    the grid. *)
Definition start_or_free (grid : Mask) (init q : Point_t) : Prop :=
  q = mkPoint (p_x init) (p_y init) ∨ mask_at grid (p_x q) (p_y q) = Ok eNodeOpen.

(** The state of the outer loop in which the plan is on free cells. *)
Record on_free (grid : Mask) (init : Point_t) (c : coverage) : Prop := mkOnFree {
  of_full_path : Forall (start_or_free grid init) (cov_full_path c);
  of_path_nodes :
    Forall (λ n, start_or_free grid init (point_of n)) (cov_path_nodes c);
  of_man_grids : man_grids (cov_this c) = []
}.

(** ** Lemmas on the masks *)

Lemma node_in_mask m w h n :
  mask_dims m w h → is_Ok (mask_at m (p_x (pos n)) (p_y (pos n))) → node_in w h n.
Proof. intros Hm. by apply mask_at_is_Ok. Qed.

Lemma square_dims w st :
  square w st → ∀ m,
  mask_dims m w w ↔ mask_dims m (size_x (planner_grid st)) (size_y (planner_grid st)).
Proof. intros [Hx Hy _ _] m. by rewrite Hx, Hy. Qed.

Lemma show_spiral_showable w path_nodes_spiral goals :
  Forall (showable w) (show_spiral path_nodes_spiral goals).
Proof. unfold show_spiral. case_decide; by repeat constructor. Qed.

(** What keeps a planner [square]: the counters may change, and a
    spiral may write [visited_copy] within its size. *)
Lemma square_setup w st st' :
  same_setup st st' → mask_dims (visited_copy st') w w → square w st → square w st'.
Proof.
  intros (Hg & Hm & _)%same_setup_fields Hvc [Hx Hy Hmg _].
  split; congruence.
Qed.

Lemma square_counters w st st' :
  same_setup st st' → visited_copy st' = visited_copy st → square w st → square w st'.
Proof.
  intros Hs Hvc Hsq. apply (square_setup w st); [done| |done].
  rewrite Hvc. apply Hsq.
Qed.

(** A mask has no more open entries than entries. *)
Lemma open_count_dims m w h : mask_dims m w h → (open_count m ≤ Z.to_nat (w * h))%nat.
Proof.
  intros [<- Hrows]. unfold open_count.
  induction Hrows as [|row m Hrow _ IH]; [simpl; lia|].
  cbn [sum_list_with length]. pose proof (length_filter (λ b, b = eNodeOpen) row).
  nia.
Qed.

Lemma mark_cells_open_count v vc cells r :
  mark_cells v vc cells = Ok r → (open_count r.1 ≤ open_count v)%nat.
Proof.
  unfold mark_cells.
  apply (res_foldl_invariant (λ r, (open_count r.1 ≤ open_count v)%nat)); [|done].
  intros [v1 vc1] c [v2 vc2] _ Hle Hm. simpl in *.
  apply res_bind_Ok in Hm as (v' & Hv'%open_count_mark_le & Hm).
  apply res_bind_Ok in Hm as (vc' & _ & [= <- <-]). lia.
Qed.

(** The rows that [spiral_stc] adds to [visited_copy] make it a mask of
    the size of a square grid. *)
Lemma resize_visited_copy_square visited visited_copy w :
  0 < w → mask_dims visited w w →
  Forall (λ row, Z.of_nat (length row) = w) visited_copy →
  ∃ vc, resize_visited_copy visited visited_copy = Ok vc ∧ mask_dims vc w w.
Proof.
  intros Hw [Hh Hrows] Hvc. unfold resize_visited_copy.
  destruct visited as [|row visited]; [simpl in Hh; lia|].
  apply Forall_cons_1 in Hrows as [Hrow _].
  change (vec_at (row :: visited) 0) with (Ok (A := list bool) row). simpl.
  eexists. split; [done|]. split.
  - rewrite length_app, length_take, length_replicate. lia.
  - apply Forall_app. split; [by apply Forall_take|].
    apply Forall_replicate. simpl. rewrite length_replicate. simpl in Hh. lia.
Qed.

(** ** A spiral that ends in its first pass *)

Section spiral_at_once.
Context {L : Libm} {F : ConvexFill} {P : Platform} {FL : ConvexFillLaws F}.

(** With the collision check reading [false] on an empty [man_grids]
    the first pass of the first iteration leaves the loop: the spiral
    returns the path it was given, with the cells of the tool at its
    last node marked. *)
Lemma spiral_returns_at_once fuel st grid init yaw_start v0 w :
  flow_off_end = false → square w st → mask_dims v0 w w → init ≠ [] →
  (0 < fuel)%nat →
  ∃ v1 st', spiral fuel st grid init yaw_start v0 = Ok (init, v1, st') ∧
    same_setup st st' ∧ square w st' ∧
    mask_dims v1 w w ∧ (open_count v1 ≤ open_count v0)%nat.
Proof.
  intros Hflow Hsq Hv Hne Hfuel. unfold spiral.
  pose proof (square_dims w st Hsq) as Hd. apply Hd in Hv.
  pose proof Hsq as [_ _ Hg Hvc%Hd].
  assert (is_Ok (spiral_init st init yaw_start v0)) as [s0 E0].
  { unfold spiral_init. destruct (back_is_Ok init Hne) as [n ->]. simpl.
    destruct (vec_at_inrange init (Z.of_nat (if decide (1 < length init)%nat
      then length init - 1 - 1 else length init - 1)%nat)) as [pr ->].
    { destruct init; [done|]. simpl. case_decide; lia. }
    simpl. pose proof (computeFootprintCells_cells_in_grid st (p_x (pos n))
      (p_y (pos n)) yaw_start "tool" [] (Forall_nil_2 _)) as Hin.
    destruct (computeFootprintCells _ _ _ _ _ _) as [ok cells]. simpl in Hin.
    destruct (mark_cells_is_Ok _ _ _ _ Hv Hvc Hin) as [[v vc] ->]. by eexists. }
  rewrite E0. simpl.
  apply spiral_init_Ok in E0 as (Hp & _ & _ & _ & _ & _ & Hc & n & Hn & Hm).
  pose proof (mark_cells_Ok _ _ _ _ _ Hv Hvc Hm) as (Hv0 & Hvc0 & _). simpl in *.
  apply mark_cells_open_count in Hm. simpl in Hm.
  destruct fuel as [|fuel]; [lia|]. simpl.
  destruct (spiral_iteration_collision grid s0) as [s1 E1].
  { rewrite Hp. by eapply back_nonempty. }
  { rewrite (sc_man_grids _ _ Hc), Hg. simpl. by rewrite Hflow. }
  rewrite E1. simpl.
  apply spiral_iteration_cases in E1 as [[Hfv Hfc Hfvc] Hp1].
  exists (visited s1), (this s1). unfold spiral_result. rewrite Hp1, Hp, Hfv.
  assert (same_setup st (this s1)) as Hs by (apply same_config_setup; by etrans).
  split_and!; [done|done| |by apply Hd|done].
  apply (square_setup w st); [done|rewrite Hfvc; by apply Hd|done].
Qed.

End spiral_at_once.

(** ** The stages of the outer loop *)

(** Lines 410-421 on a path within the mask: no read or write outside
    it, no entry opened, and one entry closed when a cell of the path
    was open. *)
Lemma update_visited_returns w h path : ∀ v st,
  mask_dims v w h → Forall (node_in w h) path →
  ∃ v' st', update_visited v path st = Ok (v', st') ∧ mask_dims v' w h ∧
    (open_count v' ≤ open_count v)%nat ∧
    (∀ n, n ∈ path → mask_at v (p_x (pos n)) (p_y (pos n)) = Ok eNodeOpen →
       (open_count v' < open_count v)%nat).
Proof.
  induction path as [|a path IH]; intros v st Hv Hin.
  { exists v, st. split_and!; [done..|]. by intros n ?%elem_of_nil. }
  apply Forall_cons_1 in Hin as [Ha Hin].
  destruct (proj2 (mask_at_is_Ok _ _ _ _ _ Hv) Ha) as [b Hb].
  destruct (proj2 (mask_mark_is_Ok _ _ _ _ _ Hv) Ha) as [v1 Hv1].
  destruct (IH v1 (if b then set_multiple_pass_counter (multiple_pass_counter st + 1) st
    else st) (mask_mark_dims _ _ _ _ _ _ Hv Hv1) Hin) as (v' & st' & H & Hd & Hle & Hlt).
  pose proof (open_count_mark_le _ _ _ _ Hv1) as Hle1.
  unfold update_visited in H |- *. cbn [res_foldl].
  apply res_bind_Ok in H as ([v2 st2] & H & [= <- _]).
  rewrite Hb. simpl. rewrite Hv1. simpl. rewrite H. simpl.
  eexists _, _. split_and!; [done|done|lia|]. intros n Hn Hopen.
  destruct (decide (p_x (pos n) = p_x (pos a) ∧ p_y (pos n) = p_y (pos a))) as [[Hx Hy]|Hne].
  { rewrite Hx, Hy in Hopen. pose proof (open_count_mark _ _ _ _ Hopen Hv1). lia. }
  apply elem_of_cons in Hn as [->|Hn]; [naive_solver|].
  pose proof Hopen as (row & ? & _ & ? & _)%mask_at_Ok.
  enough (open_count v2 < open_count v1)%nat by lia. apply (Hlt n Hn).
  rewrite (mask_at_mark _ _ _ _ _ _ Hv1) by done. by rewrite decide_False.
Qed.

Section planner_returns.
Context {L : Libm} {F : ConvexFill} {P : Platform} {R : Relocator}.
Context {FL : ConvexFillLaws F} {SL : SearchLaws R}.

(** Lines 357-401 from the last node of a path within the grid: the
    loop returns, and a path it returns without resigning lies in the
    grid and ends at a cell that is open in [visited]. *)
Lemma relocate_returns_open fuel st grid goals v n w :
  square w st → mask_dims grid w w → mask_dims v w w → node_in w w n →
  (open_count v < fuel)%nat →
  ∃ resign v' p', relocate fuel st grid goals v [n] = Ok (resign, v', p') ∧
    mask_dims v' w w ∧ (open_count v' ≤ open_count v)%nat ∧
    (resign = false → Forall (node_in w w) p' ∧
       ∃ m, back p' = Ok m ∧ mask_at v' (p_x (pos m)) (p_y (pos m)) = Ok eNodeOpen).
Proof.
  intros Hsq Hg Hv Hn Hf. pose proof (square_dims w st Hsq) as Hd.
  destruct (relocate_is_Ok fuel st grid goals v [n]) as [[[r v'] p'] E];
    [done|by apply Hd|by apply Hd|done|].
  exists r, v', p'. split; [done|].
  apply relocate_last_search in E as (v0 & _ & Hc0 & Hd0 & E).
  pose proof (a_star_dims _ _ _ _ _ _ _ _ _ _ _ E (Hd0 _ _ Hv)) as Hv'.
  pose proof (a_star_closes _ _ _ _ _ _ _ _ _ E) as Hc.
  split; [done|]. split; [lia|]. intros ->.
  pose proof (a_star_free _ _ _ _ _ _ _ _ _ E) as Hfree.
  destruct (a_star_extends _ _ _ _ _ _ _ _ _ E) as [added ->].
  split; [|by apply (a_star_open_end grid n 1 v0 goals [n] _ _ eq_refl E)].
  apply Forall_cons. split; [done|]. simpl in Hfree.
  eapply Forall_impl; [exact Hfree|]. intros m Hm. simpl in Hm.
  eapply node_in_mask; [exact Hg|by eexists].
Qed.

(** One stage of the outer loop returns, and leaves fewer open cells
    when the loop goes on. *)
Lemma spiral_stc_iteration_returns fuel grid yaw_start c w :
  flow_off_end = false → mask_dims grid w w → ready w c →
  (open_count (cov_visited c) < fuel)%nat →
  ∃ r, spiral_stc_iteration fuel grid yaw_start c = Ok r ∧
    fitted w (stage_coverage r) ∧
    if r is Continue c' then
      ready w c' ∧ (open_count (cov_visited c') < open_count (cov_visited c))%nat
    else True.
Proof.
  intros Hflow Hg [[Hsq Hv Hsh] (n & Hn & Hin)] Hf. unfold spiral_stc_iteration.
  destruct (_ =? 2).
  { eexists. split; [done|]. split; [|done]. split; [|done..].
    by apply (square_counters w (cov_this c)). }
  rewrite Hn. simpl. rewrite (drop_to_back _ _ Hn).
  set (st1 := set_visited_counter _ _).
  assert (square w st1) as Hsq1 by (by apply (square_counters w (cov_this c))).
  destruct (relocate_returns_open fuel st1 grid (cov_goals c) (cov_visited c) n w)
    as (resign & v1 & p1 & -> & Hv1 & Hc1 & Hp1); [done..|]. simpl.
  destruct resign; [by eexists|].
  destruct (Hp1 eq_refl) as (Hin1 & m & Hm & Hopen).
  destruct (update_visited_returns w w p1 v1 st1 Hv1 Hin1)
    as (v2 & st2 & E2 & Hv2 & _ & Hlt).
  rewrite E2. simpl. rewrite Hm. simpl.
  apply update_visited_Ok in E2 as [_ [k ->]].
  destruct (spiral_returns_at_once fuel (set_multiple_pass_counter k st1) grid p1
    yaw_start v2 w) as (v3 & st3 & -> & _ & Hsq3 & Hv3 & Hle3);
    [done|by apply (square_counters w st1)|done|by eapply back_nonempty|lia|].
  simpl. rewrite push_path_eq. eexists. split; [done|]. simpl.
  assert (fitted w (mkCoverage v3 p1 (cov_full_path c ++ map point_of p1)
    (map_2_goals v3 eNodeOpen) (cov_shown c ++ show_spiral (spiral_part p1 m) (cov_goals c))
    (set_visited_counter (visited_counter st3 + Z.of_nat (length p1)) st3))) as Hft.
  { split; simpl; [by apply (square_counters w st3)|done|].
    apply Forall_app. split; [done|apply show_spiral_showable]. }
  split; [done|]. split.
  - split; [done|]. exists m. split; [done|].
    eapply node_in_mask; [exact Hv1|by eexists].
  - apply back_Ok, last_Some_elem_of in Hm. specialize (Hlt m Hm Hopen). lia.
Qed.

(** The outer loop returns within as many stages as [visited] has open
    cells, and one more. *)
Lemma spiral_stc_loop_returns n fuel grid yaw_start w : ∀ c,
  flow_off_end = false → mask_dims grid w w → ready w c →
  (open_count (cov_visited c) < n)%nat → (open_count (cov_visited c) < fuel)%nat →
  ∃ c', spiral_stc_loop n fuel grid yaw_start c = Ok c' ∧ fitted w c'.
Proof.
  induction n as [|n IH]; intros c Hflow Hg Hr Hn Hf; [lia|]. simpl.
  case_decide; [|exists c; split; [done|apply Hr]].
  destruct (spiral_stc_iteration_returns fuel grid yaw_start c w)
    as (r & -> & Hft & Hc); [done..|]. simpl.
  destruct r as [c'|c']; [by exists c'|]. destruct Hc as [Hr' Hlt].
  apply IH; [done..|lia|lia].
Qed.

(** Lines 312-338 return, with the masks of the size of the grid. *)
Lemma spiral_stc_first_returns fuel st grid init yaw_start w :
  flow_off_end = false → man_grids st = [] →
  size_x (planner_grid st) = w → size_y (planner_grid st) = w → mask_dims grid w w →
  Forall (λ row, Z.of_nat (length row) = w) (visited_copy st) →
  0 ≤ p_x init < w → 0 ≤ p_y init < w → (0 < fuel)%nat →
  ∃ c, spiral_stc_first fuel st grid init yaw_start = Ok c ∧ ready w c ∧
    (open_count (cov_visited c) ≤ open_count grid)%nat.
Proof.
  intros Hflow Hm Hx Hy Hg Hrows Hix Hiy Hf. unfold spiral_stc_first.
  destruct (resize_visited_copy_square grid (visited_copy st) w) as (vc & Hvc & Hd);
    [lia|done..|].
  simpl. rewrite Hvc. simpl.
  set (st1 := set_visited_copy vc _).
  destruct (spiral_returns_at_once fuel st1 grid
    [mkNode (mkPoint (p_x init) (p_y init)) 0 0] yaw_start grid w)
    as (v1 & st2 & -> & _ & Hsq2 & Hv1 & Hle); [done|by split|done..|].
  simpl. eexists. split; [done|]. simpl. split; [|done].
  split; [|eexists; by split].
  split; simpl; [by apply (square_counters w st2)|done|by repeat constructor].
Qed.

End planner_returns.

(** ** The cells of the plan *)

Section planner_on_free.
Context {L : Libm} {F : ConvexFill} {P : Platform} {R : Relocator}.
Context {SL : SearchLaws R}.

(** A relocation goes through free cells. *)
Lemma relocate_free fuel st grid goals visited n resign visited' path_nodes' :
  relocate fuel st grid goals visited [n] = Ok (resign, visited', path_nodes') →
  ∃ added, path_nodes' = n :: added ∧
    Forall (λ m, mask_at grid (p_x (pos m)) (p_y (pos m)) = Ok eNodeOpen) added.
Proof.
  intros (v & _ & _ & _ & E)%relocate_last_search.
  pose proof (a_star_free _ _ _ _ _ _ _ _ _ E) as Hfree.
  destruct (a_star_extends _ _ _ _ _ _ _ _ _ E) as [added ->]. by exists added.
Qed.

(** When every collision check fails a stage appends a relocation and
    nothing else, so the plan stays on free cells. *)
Lemma spiral_stc_iteration_on_free fuel grid init yaw_start c r :
  flow_off_end = false → on_free grid init c →
  spiral_stc_iteration fuel grid yaw_start c = Ok r →
  on_free grid init (stage_coverage r).
Proof.
  intros Hflow [Hfull Hpath Hg] H.
  pose proof (spiral_stc_iteration_cases _ _ _ _ _ H) as (Hs & _).
  apply same_setup_fields in Hs as (_ & Hg' & _). rewrite Hg in Hg'.
  revert H. unfold spiral_stc_iteration. destruct (_ =? 2); [by intros [= <-]|].
  intros (n & Hn & H)%res_bind_Ok. rewrite (drop_to_back _ _ Hn) in H.
  apply res_bind_Ok in H as ([[resign v1] p1] & Hr & H).
  apply relocate_free in Hr as (added & -> & Hadd).
  assert (Forall (λ n, start_or_free grid init (point_of n)) (n :: added)) as Hp1.
  { apply Forall_cons. split.
    - apply back_Ok, last_Some_elem_of in Hn.
      by apply (proj1 (Forall_forall _ _) Hpath).
    - eapply Forall_impl; [exact Hadd|]. intros m Hm. by right. }
  destruct resign; [by injection H as <-|].
  apply res_bind_Ok in H as ([v2 st2] & Hu & H).
  apply update_visited_Ok in Hu as [_ [m ->]].
  apply res_bind_Ok in H as (last_node & _ & H).
  apply res_bind_Ok in H as ([[p3 v3] st3] & Hsp & H).
  apply spiral_blocked in Hsp as ->; [|simpl; rewrite Hg; simpl; by rewrite Hflow].
  rewrite push_path_eq in H. injection H as <-. simpl in Hg'.
  split; simpl; [|done..]. apply Forall_app. split; [done|].
  change (Forall (start_or_free grid init) (point_of <$> n :: added)).
  by rewrite Forall_fmap.
Qed.

Lemma spiral_stc_loop_on_free n fuel grid init yaw_start : ∀ c c',
  flow_off_end = false → on_free grid init c →
  spiral_stc_loop n fuel grid yaw_start c = Ok c' → on_free grid init c'.
Proof.
  induction n as [|n IH]; intros c c' Hflow Hc H; [done|]. simpl in H.
  case_decide; [|by simplify_eq].
  apply res_bind_Ok in H as (r & Hr & H).
  apply (spiral_stc_iteration_on_free _ _ init) in Hr; [|done..].
  destruct r as [c1|c1]; [by simplify_eq|by eapply IH].
Qed.

End planner_on_free.

(** ** What is covered when the loop is left *)

Lemma point_of_pos n : point_of n = pos n.
Proof. by destruct n as [[x y] c h]. Qed.

Lemma no_goals_covered b grid c :
  open_cells (cov_visited c) eNodeOpen = [] → covered b grid c.
Proof.
  intros H g q _ _. unfold goal_cell.
  destruct (is_open (cov_visited c) q) eqn:E; [|by rewrite andb_false_r].
  apply Is_true_true, is_open_Ok, elem_of_open_cells in E.
  rewrite H in E. by apply elem_of_nil in E.
Qed.

Section planner_complete.
Context {L : Libm} {F : ConvexFill} {P : Platform} (through_visited : bool).

#[local] Existing Instance a_star_relocator_laws.

(** Past the cap, a stage leaves the loop only when the search finds
    no goal from the end of the path; a stage that goes on computes the
    goals from [visited] again. *)
Lemma spiral_stc_iteration_complete fuel grid yaw_start c r :
  searching c →
  spiral_stc_iteration (R := a_star_relocator through_visited) fuel grid yaw_start c
    = Ok r →
  match r with
  | Stop c' => covered through_visited grid c'
  | Continue c' => searching c'
  end.
Proof.
  intros [Hj Hc Hg] H.
  pose proof (spiral_stc_iteration_joined _ _ _ _ _ H Hj) as [_ Hj'].
  pose proof (spiral_stc_iteration_cases _ _ _ _ _ H) as (_ & Hsc & _).
  unfold spiral_stc_iteration in H. simpl in H.
  destruct (_ =? 2) eqn:E2; [apply Z.eqb_eq in E2; lia|].
  apply res_bind_Ok in H as (n & Hb & H). rewrite (drop_to_back _ _ Hb) in H.
  apply res_bind_Ok in H as ([[resign v1] p1] & Hr & H). destruct resign.
  - injection H as <-. intros g q Hl Hq. simpl in *.
    rewrite (j_last _ Hj), (proj1 (back_Ok _ _) Hb) in Hl. injection Hl as <-.
    apply relocate_last_search in Hr as (v & _ & _ & _ & Hr). simpl in Hr.
    rewrite point_of_pos in Hq.
    destruct (a_star_cases through_visited grid v n 1 (cov_goals c) [n])
      as [[E Hno]|(e & E & _)]; rewrite E in Hr; simplify_eq. by apply Hno.
  - apply res_bind_Ok in H as ([v2 st2] & _ & H).
    apply res_bind_Ok in H as (last_node & _ & H).
    apply res_bind_Ok in H as ([[p3 v3] st3] & _ & H).
    rewrite push_path_eq in H. injection H as <-. simpl in *.
    split; [done|simpl; lia|done].
Qed.

Lemma spiral_stc_loop_complete n fuel grid yaw_start : ∀ c c',
  searching c →
  spiral_stc_loop (R := a_star_relocator through_visited) n fuel grid yaw_start c
    = Ok c' →
  covered through_visited grid c'.
Proof.
  induction n as [|n IH]; intros c c' Hs H; [done|]. simpl in H.
  case_decide as Hgoals.
  - apply res_bind_Ok in H as (r & Hr & H).
    apply spiral_stc_iteration_complete in Hr; [|done].
    destruct r as [c1|c1]; [by simplify_eq|by eapply IH].
  - injection H as <-. apply no_goals_covered. rewrite <- (sg_goals _ Hs).
    apply length_zero_iff_nil. lia.
Qed.

(** The first stage leaves the loop in the state [searching] when the
    counter of spirals has passed 2 before the call. *)
Lemma spiral_stc_first_searching fuel st grid init yaw_start c :
  2 ≤ spiral_counter st →
  spiral_stc_first (R := a_star_relocator through_visited) fuel st grid init yaw_start
    = Ok c →
  searching c.
Proof.
  intros Hc H. pose proof (spiral_stc_first_joined _ _ _ _ _ _ H) as Hj.
  pose proof (spiral_stc_first_Ok _ _ _ _ _ _ H) as (_ & Hsc & _).
  split; [done|lia|]. revert H. unfold spiral_stc_first.
  intros (vc & _ & H)%res_bind_Ok.
  apply res_bind_Ok in H as ([[p1 v1] st1] & _ & H).
  rewrite push_path_eq in H. by injection H as <-.
Qed.

End planner_complete.

Section planner_total.
Context {L : Libm} {F : ConvexFill} {P : Platform} {R : Relocator}.
Context {FL : ConvexFillLaws F} {SL : SearchLaws R}.

(** Lines 306-464 return when the collision check reads [false], and
    what they show are masks of the size of the grid. *)
Lemma spiral_stc_is_Ok fuel st grid init yaw_start w :
  flow_off_end = false → man_grids st = [] →
  size_x (planner_grid st) = w → size_y (planner_grid st) = w → mask_dims grid w w →
  Forall (λ row, Z.of_nat (length row) = w) (visited_copy st) →
  0 ≤ p_x init < w → 0 ≤ p_y init < w → (open_count grid < fuel)%nat →
  ∃ full_path shown st',
    spiral_stc fuel st grid init yaw_start = Ok (full_path, shown, st') ∧
    Forall (showable w) shown ∧ square w st'.
Proof.
  intros Hflow Hm Hx Hy Hg Hrows Hix Hiy Hf. unfold spiral_stc.
  destruct (spiral_stc_first_returns fuel st grid init yaw_start w)
    as (c & -> & Hr & Hle); [done..|lia|]. simpl.
  destruct (spiral_stc_loop_returns fuel fuel grid yaw_start w c)
    as (c' & -> & [Hsq Hv Hsh]); [done..|lia|lia|].
  eexists _, _, _. split; [done|]. split; [|done]. apply Forall_app. split; [done|].
  apply Forall_cons. split; [done|]. apply Forall_cons. split; [apply Hsq|done].
Qed.

(** The same on the catalog that [makePlan] leaves, which holds what
    the planner had in its vectors. *)
Lemma spiral_stc_catalog_returns fuel st grid init yaw_start w :
  flow_off_end = false → man_grids st = [] →
  size_x (planner_grid st) = w → size_y (planner_grid st) = w → mask_dims grid w w →
  Forall (λ row, Z.of_nat (length row) = w) (visited_copy st) →
  0 ≤ p_x init < w → 0 ≤ p_y init < w → (open_count grid < fuel)%nat →
  ∃ full_path shown st',
    spiral_stc fuel (makePlan_catalog st) grid init yaw_start
      = Ok (full_path, shown, st') ∧
    Forall (showable w) shown ∧ square w st'.
Proof.
  intros. unfold makePlan_catalog.
  destruct (makePlan_manoeuvres_grown st) as [cells ->]. by apply spiral_stc_is_Ok.
Qed.

(** C5. When the collision check reads [false], [makePlan] returns a
    plan on every square grid, from every start cell of the grid and
    whatever the counters of the planner hold: no read or write leaves a
    vector, and every loop ends, the outer loop of [spiral_stc] because
    each stage that does not leave it closes an open cell of [visited].
    A fuel above the number of open cells of the grid is enough. *)
Theorem makePlan_returns fuel st grid start_point yaw_start w :
  flow_off_end = false → man_grids st = [] →
  size_x (planner_grid st) = w → size_y (planner_grid st) = w → mask_dims grid w w →
  Forall (λ row, Z.of_nat (length row) = w) (visited_copy st) →
  0 ≤ p_x start_point < w → 0 ≤ p_y start_point < w →
  (open_count grid < fuel)%nat →
  is_Ok (makePlan fuel st grid start_point yaw_start).
Proof.
  intros Hflow Hm Hx Hy Hg Hrows Hix Hiy Hf. unfold makePlan.
  destruct (spiral_stc_catalog_returns fuel st grid start_point yaw_start w)
    as (path & shown & st' & -> & _); [done..|]. by eexists.
Qed.

End planner_total.

Section planner_covers.
Context {L : Libm} {F : ConvexFill} {P : Platform} (through_visited : bool).

#[local] Existing Instance a_star_relocator_laws.

(** C6. Coverage is complete in every plan after the cap of line 343
    has been passed: when [spiral_stc] returns with the search of the
    specification, no cell that is free and still open in the mask
    [visited], which the call shows last as "visited_cubes", can be
    reached from the end of the plan through cells the search may
    enter.  The loop is left only when no goal is left or when the
    search resigns. *)
Theorem spiral_stc_complete fuel st grid init yaw_start full_path shown st' :
  2 ≤ spiral_counter st →
  spiral_stc (R := a_star_relocator through_visited) fuel st grid init yaw_start
    = Ok (full_path, shown, st') →
  ∃ visited g, last full_path = Some g ∧
    ShowGrid visited "visited_cubes" (3 # 10) 0 0 (8 # 10) ∈ shown ∧
    mask_le grid visited ∧
    ∀ q, rtc (cell_step through_visited grid visited) g q →
      goal_cell grid visited q = false.
Proof.
  intros Hc. unfold spiral_stc. intros (c & Hf & H)%res_bind_Ok.
  apply res_bind_Ok in H as (c' & Hl & [= <- <- <-]).
  pose proof (spiral_stc_first_searching _ _ _ _ _ _ _ Hc Hf) as Hs.
  pose proof (spiral_stc_first_Ok _ _ _ _ _ _ Hf) as (_ & _ & Hle & _ & Hfull & a & Ha).
  pose proof (spiral_stc_loop_cases _ _ _ _ _ _ Hl) as (_ & Hle' & [added Hadd] & _).
  pose proof (spiral_stc_loop_complete _ _ _ _ _ _ _ Hs Hl) as Hcov.
  destruct (last (cov_full_path c')) as [g|] eqn:Hlast.
  - exists (cov_visited c'), g. split_and!; [done| |etrans; [done|apply Hle'; apply _]|].
    + apply elem_of_app. right. unfold show_masks. apply elem_of_cons. by left.
    + intros q. by apply Hcov.
  - apply last_None in Hlast. rewrite Hadd, Hfull, Ha in Hlast. done.
Qed.

End planner_covers.

Section planner_safe.
Context {L : Libm} {F : ConvexFill} {P : Platform} {R : Relocator}.
Context {SL : SearchLaws R}.

(** C12. When the collision check reads [false], the plan of
    [spiral_stc] stays on free cells: every point of it is the start
    cell or a cell that is not set in the grid mask, because the plan
    is then made of relocations alone and the search enters free cells
    only.  The start cell itself is not tested. *)
Theorem spiral_stc_plan_on_free fuel st grid init yaw_start full_path shown st' :
  flow_off_end = false → man_grids st = [] →
  spiral_stc fuel st grid init yaw_start = Ok (full_path, shown, st') →
  Forall (start_or_free grid init) full_path.
Proof.
  intros Hflow Hg. unfold spiral_stc. intros (c & Hf & H)%res_bind_Ok.
  apply res_bind_Ok in H as (c' & Hl & [= <- _ _]).
  pose proof (spiral_stc_first_Ok _ _ _ _ _ _ Hf) as (Hs & _ & _ & _ & Hfull & _).
  apply same_setup_fields in Hs as (_ & Hg' & _).
  pose proof (spiral_stc_first_blocked _ _ _ _ _ _ Hflow Hg Hf) as Hp.
  eapply (spiral_stc_loop_on_free _ _ _ init), Hl; [done|].
  rewrite Hp in Hfull. split; [rewrite Hfull|rewrite Hp|congruence];
    repeat constructor.
Qed.

End planner_safe.

(** ** The theorem at a concrete input *)

(** A planner that has planned before, its counter of spirals past 2,
    on the grid of ten by ten cells with the cell (5, 5) blocked. *)
Lemma makePlan_returns_witness :
  is_Ok (makePlan (L := approx_libm) (F := hull_fill) (P := returns_false)
           (R := a_star_obstacle_aware) 100 (set_spiral_counter 2 roomy_obj)
           blocked_centre (mkPoint 0 0) 0).
Proof.
  apply (makePlan_returns (L := approx_libm) (F := hull_fill) (P := returns_false)
           (R := a_star_obstacle_aware) 100 (set_spiral_counter 2 roomy_obj)
           blocked_centre (mkPoint 0 0) 0 10); try reflexivity.
  - split; [reflexivity|]. vm_compute. repeat constructor.
  - constructor.
  - simpl. lia.
  - simpl. lia.
  - vm_compute. lia.
Defined.

(** The same plan: 80 points that end at the cell (8, 3), with every
    entry of [visited] set. *)
Lemma spiral_stc_complete_witness :
  ∃ (full_path : list Point_t) (shown : list display) visited g,
    last full_path = Some g ∧
    ShowGrid visited "visited_cubes" (3 # 10) 0 0 (8 # 10) ∈ shown ∧
    mask_le blocked_centre visited ∧
    ∀ q, rtc (cell_step true blocked_centre visited) g q →
      goal_cell blocked_centre visited q = false.
Proof.
  eexists _, _.
  eapply (spiral_stc_complete (L := approx_libm) (F := hull_fill)
    (P := returns_false) true 100 (set_spiral_counter 2 roomy_obj) blocked_centre
    (mkPoint 0 0) 0); [simpl; lia|].
  vm_compute. reflexivity.
Defined.

(** The same plan again: its 80 points are the start cell (0, 0) or
    cells other than the blocked cell (5, 5). *)
Lemma spiral_stc_plan_on_free_witness :
  ∃ full_path : list Point_t,
    length full_path = 80%nat ∧
    Forall (start_or_free blocked_centre (mkPoint 0 0)) full_path.
Proof.
  eexists. split; [|
    eapply (spiral_stc_plan_on_free (L := approx_libm) (F := hull_fill)
      (P := returns_false) (R := a_star_obstacle_aware) 100
      (set_spiral_counter 2 roomy_obj) blocked_centre (mkPoint 0 0) 0);
    [reflexivity|reflexivity|vm_compute; reflexivity]].
  reflexivity.
Defined.
