(* ===== verification/Host.v ===== *)
(** * Host: the plugin object and the runtime that loads it

    The fields of [SpiralSTC] that the planning methods do not touch
    (record [Plugin], around the object [SpiralSTC] of [State]), and
    the part of the host the plugin calls: the parameters of the node,
    the publishers, and the messages handed to them.

    The node belongs to the host and outlives a call, so its state
    ([Node]) is an argument and a result of the methods that use it,
    and the field [node_] only says whether the pointer is set.  A
    publisher records every message handed to [publish], with whether
    the publisher was activated at that moment.  Values of type [float]
    and [double] are the rationals they are written as; an orientation
    is its yaw. *)

From Stdlib Require Import ZArith QArith Lia.
From stdpp Require Import base tactics list option strings gmap.
From S2P Require Import Prelude Grid State.

#[local] Open Scope fcpp_scope.

(** ** Messages *)

(** [geometry_msgs::msg::Point]; a new point is the origin. *)
Record Point : Type := mkPointXYZ { px : Q; py : Q; pz : Q }.

(** The marker types and actions the plugin uses, and the type of a
    new message. *)
Inductive marker_type : Type := ARROW | LINE_STRIP | LINE_LIST | CUBE_LIST.

Inductive marker_action : Type := ADD | DELETE.

(** [visualization_msgs::msg::Marker], the fields the plugin writes. *)
Record Marker : Type := mkMarker {
  frame_id : string;
  stamp : Z;
  ns : string;
  marker_id : Z;
  type_ : marker_type;
  action : marker_action;
  orientation_w : Q;
  scale_x : Q;
  scale_y : Q;
  scale_z : Q;
  color_a : Q;
  color_r : Q;
  color_g : Q;
  color_b : Q;
  points : list Point
}.

(** [geometry_msgs::msg::PoseStamped] and [nav_msgs::msg::Path]. *)
Record PoseStamped : Type := mkPose {
  pose_frame_id : string;
  pose_x : Q;
  pose_y : Q;
  pose_yaw : Q
}.

Record Path : Type := mkPath {
  path_stamp : Z;
  path_frame_id : string;
  poses : list PoseStamped
}.

#[global] Instance Q_eq_dec : EqDecision Q.
Proof. solve_decision. Defined.
#[global] Instance Point_eq_dec : EqDecision Point.
Proof. solve_decision. Defined.
#[global] Instance marker_type_eq_dec : EqDecision marker_type.
Proof. solve_decision. Defined.

(** ** The node *)

(** [rclcpp::ParameterValue], the two types the plugin declares. *)
Inductive ParameterValue : Type :=
| PARAMETER_DOUBLE (v : Q)
| PARAMETER_INTEGER (v : Z).

(** The node as the plugin sees it: the values given for parameters
    when the node was started, the parameters declared so far, and
    its clock. *)
Record Node : Type := mkNodeState {
  overrides : gmap string ParameterValue;
  parameters : gmap string ParameterValue;
  now : Z
}.

(** The costmap of the host: its size in metres, as
    [getSizeInMetersX] and [getSizeInMetersY] return it, its cells and
    which of them are occupied. *)
Record HostCostmap : Type := mkHostCostmap {
  getSizeInMetersX : Q;
  getSizeInMetersY : Q;
  host_cells : Costmap2D;
  host_occupied : Mask
}.

(** [nav2_costmap_2d::Costmap2DROS], what [configure] reads of it. *)
Record Costmap2DROS : Type := mkCostmapROS {
  getCostmap : HostCostmap;
  getGlobalFrameID : string;
  getRobotFootprint : list (Q * Q)
}.

(** A lifecycle publisher: whether it is activated, and the messages
    handed to it, each with the state it was in. *)
Record publisher (A : Type) : Type := mkPublisher {
  topic : string;
  active : bool;
  handed : list (bool * A)
}.

Arguments mkPublisher {A} topic active handed.
Arguments topic {A} p.
Arguments active {A} p.
Arguments handed {A} p.

(** ** The plugin *)

(** The fields of the object beside those of [State.SpiralSTC]; a
    pointer that may be null is an [option]. *)
Record Plugin : Type := mkPlugin {
  core : SpiralSTC;
  initialized_ : bool;
  node_ : bool;  (* whether node_ points at the node *)
  name_ : string;
  costmap_ : option HostCostmap;
  global_frame_ : string;
  plan_pub_ : option (publisher Path);
  grid_pub : option (publisher Marker);
  spirals_pub : option (publisher Marker);
  vehicle_width_ : Q;
  division_factor_ : Z;
  tile_size_ : Q;
  grid_origin_ : Q * Q
}.

Definition set_core (v : SpiralSTC) (p : Plugin) : Plugin :=
  mkPlugin v (p.(initialized_)) (p.(node_)) (p.(name_)) (p.(costmap_))
    (p.(global_frame_)) (p.(plan_pub_)) (p.(grid_pub)) (p.(spirals_pub))
    (p.(vehicle_width_)) (p.(division_factor_)) (p.(tile_size_))
    (p.(grid_origin_)).

Definition set_initialized_ (v : bool) (p : Plugin) : Plugin :=
  mkPlugin (p.(core)) v (p.(node_)) (p.(name_)) (p.(costmap_))
    (p.(global_frame_)) (p.(plan_pub_)) (p.(grid_pub)) (p.(spirals_pub))
    (p.(vehicle_width_)) (p.(division_factor_)) (p.(tile_size_))
    (p.(grid_origin_)).

Definition set_node_ (v : bool) (p : Plugin) : Plugin :=
  mkPlugin (p.(core)) (p.(initialized_)) v (p.(name_)) (p.(costmap_))
    (p.(global_frame_)) (p.(plan_pub_)) (p.(grid_pub)) (p.(spirals_pub))
    (p.(vehicle_width_)) (p.(division_factor_)) (p.(tile_size_))
    (p.(grid_origin_)).

Definition set_name_ (v : string) (p : Plugin) : Plugin :=
  mkPlugin (p.(core)) (p.(initialized_)) (p.(node_)) v (p.(costmap_))
    (p.(global_frame_)) (p.(plan_pub_)) (p.(grid_pub)) (p.(spirals_pub))
    (p.(vehicle_width_)) (p.(division_factor_)) (p.(tile_size_))
    (p.(grid_origin_)).

Definition set_costmap_ (v : option HostCostmap) (p : Plugin) : Plugin :=
  mkPlugin (p.(core)) (p.(initialized_)) (p.(node_)) (p.(name_)) v
    (p.(global_frame_)) (p.(plan_pub_)) (p.(grid_pub)) (p.(spirals_pub))
    (p.(vehicle_width_)) (p.(division_factor_)) (p.(tile_size_))
    (p.(grid_origin_)).

Definition set_global_frame_ (v : string) (p : Plugin) : Plugin :=
  mkPlugin (p.(core)) (p.(initialized_)) (p.(node_)) (p.(name_))
    (p.(costmap_)) v (p.(plan_pub_)) (p.(grid_pub)) (p.(spirals_pub))
    (p.(vehicle_width_)) (p.(division_factor_)) (p.(tile_size_))
    (p.(grid_origin_)).

Definition set_plan_pub_ (v : option (publisher Path)) (p : Plugin) : Plugin :=
  mkPlugin (p.(core)) (p.(initialized_)) (p.(node_)) (p.(name_))
    (p.(costmap_)) (p.(global_frame_)) v (p.(grid_pub)) (p.(spirals_pub))
    (p.(vehicle_width_)) (p.(division_factor_)) (p.(tile_size_))
    (p.(grid_origin_)).

Definition set_grid_pub (v : option (publisher Marker)) (p : Plugin) : Plugin :=
  mkPlugin (p.(core)) (p.(initialized_)) (p.(node_)) (p.(name_))
    (p.(costmap_)) (p.(global_frame_)) (p.(plan_pub_)) v (p.(spirals_pub))
    (p.(vehicle_width_)) (p.(division_factor_)) (p.(tile_size_))
    (p.(grid_origin_)).

Definition set_spirals_pub (v : option (publisher Marker)) (p : Plugin) : Plugin :=
  mkPlugin (p.(core)) (p.(initialized_)) (p.(node_)) (p.(name_))
    (p.(costmap_)) (p.(global_frame_)) (p.(plan_pub_)) (p.(grid_pub)) v
    (p.(vehicle_width_)) (p.(division_factor_)) (p.(tile_size_))
    (p.(grid_origin_)).

Definition set_vehicle_width_ (v : Q) (p : Plugin) : Plugin :=
  mkPlugin (p.(core)) (p.(initialized_)) (p.(node_)) (p.(name_))
    (p.(costmap_)) (p.(global_frame_)) (p.(plan_pub_)) (p.(grid_pub))
    (p.(spirals_pub)) v (p.(division_factor_)) (p.(tile_size_))
    (p.(grid_origin_)).

Definition set_division_factor_ (v : Z) (p : Plugin) : Plugin :=
  mkPlugin (p.(core)) (p.(initialized_)) (p.(node_)) (p.(name_))
    (p.(costmap_)) (p.(global_frame_)) (p.(plan_pub_)) (p.(grid_pub))
    (p.(spirals_pub)) (p.(vehicle_width_)) v (p.(tile_size_))
    (p.(grid_origin_)).

Definition set_tile_size_ (v : Q) (p : Plugin) : Plugin :=
  mkPlugin (p.(core)) (p.(initialized_)) (p.(node_)) (p.(name_))
    (p.(costmap_)) (p.(global_frame_)) (p.(plan_pub_)) (p.(grid_pub))
    (p.(spirals_pub)) (p.(vehicle_width_)) (p.(division_factor_)) v
    (p.(grid_origin_)).

Definition set_grid_origin_ (v : Q * Q) (p : Plugin) : Plugin :=
  mkPlugin (p.(core)) (p.(initialized_)) (p.(node_)) (p.(name_))
    (p.(costmap_)) (p.(global_frame_)) (p.(plan_pub_)) (p.(grid_pub))
    (p.(spirals_pub)) (p.(vehicle_width_)) (p.(division_factor_))
    (p.(tile_size_)) v.


(** ** Operations of the host *)

(** Two parameter values have the same type. *)
Definition same_type (a b : ParameterValue) : bool :=
  match a, b with
  | PARAMETER_DOUBLE _, PARAMETER_DOUBLE _ => true
  | PARAMETER_INTEGER _, PARAMETER_INTEGER _ => true
  | _, _ => false
  end.

(** [nav2_util::declare_parameter_if_not_declared]: a parameter not
    yet declared is declared with the value given at start, when there
    is one, and with the default otherwise.  [None] when the call
    throws: the value given at start has another type than the
    default. *)
Definition declare_parameter_if_not_declared (node : Node) (name : string)
    (default_value : ParameterValue) : option Node :=
  match parameters node !! name with
  | Some _ => Some node
  | None =>
      match overrides node !! name with
      | None =>
          Some (mkNodeState (overrides node)
                  (<[name := default_value]> (parameters node)) (now node))
      | Some v =>
          if same_type v default_value then
            Some (mkNodeState (overrides node) (<[name := v]> (parameters node))
                    (now node))
          else None
      end
  end.

(** [node->get_parameter(name, field)] for a field of type [double]
    and one of type [int]: the field after the call.  [None] when the
    call throws: the parameter holds a value of another type. *)
Definition get_parameter_double (node : Node) (name : string) (field : Q)
    : option Q :=
  match parameters node !! name with
  | Some (PARAMETER_DOUBLE v) => Some v
  | Some (PARAMETER_INTEGER _) => None
  | None => Some field
  end.

Definition get_parameter_int (node : Node) (name : string) (field : Z)
    : option Z :=
  match parameters node !! name with
  | Some (PARAMETER_INTEGER v) => Some v
  | Some (PARAMETER_DOUBLE _) => None
  | None => Some field
  end.

(** [node->create_publisher<A>(topic, qos)]: a publisher that is not
    activated. *)
Definition create_publisher {A} (topic : string) : publisher A :=
  mkPublisher topic false [].

Definition on_activate {A} (pub : publisher A) : publisher A :=
  mkPublisher (topic pub) true (handed pub).

Definition on_deactivate {A} (pub : publisher A) : publisher A :=
  mkPublisher (topic pub) false (handed pub).

Definition publish {A} (pub : publisher A) (msg : A) : publisher A :=
  mkPublisher (topic pub) (active pub) (handed pub ++ [(active pub, msg)]).

(** The messages handed to a publisher while it was activated. *)
Definition delivered {A} (pub : publisher A) : list A :=
  (filter (λ m, m.1 = true) (handed pub)).*2.

(** A call through a pointer: undefined when the pointer is null. *)
Definition deref {A} (ptr : option A) : res A :=
  match ptr with
  | Some a => Ok a
  | None => Undefined
  end.

(** ** What a call leaves as it was *)

(** A publisher after more messages were handed to it, in the state
    it was in. *)
Definition grown {A} (pub pub' : publisher A) : Prop :=
  topic pub' = topic pub ∧ active pub' = active pub ∧
  ∃ msgs, handed pub' = handed pub ++ map (pair (active pub)) msgs.

(** What showing changes: the messages handed to the two publishers of
    markers, and nothing else. *)
Record shown_more (p p' : Plugin) : Prop := mkShownMore {
  sm_core : core p' = core p;
  sm_initialized_ : initialized_ p' = initialized_ p;
  sm_node_ : node_ p' = node_ p;
  sm_name_ : name_ p' = name_ p;
  sm_costmap_ : costmap_ p' = costmap_ p;
  sm_global_frame_ : global_frame_ p' = global_frame_ p;
  sm_plan_pub_ : plan_pub_ p' = plan_pub_ p;
  sm_grid_pub : option_Forall2 grown (grid_pub p) (grid_pub p');
  sm_spirals_pub : option_Forall2 grown (spirals_pub p) (spirals_pub p');
  sm_vehicle_width_ : vehicle_width_ p' = vehicle_width_ p;
  sm_division_factor_ : division_factor_ p' = division_factor_ p;
  sm_tile_size_ : tile_size_ p' = tile_size_ p;
  sm_grid_origin_ : grid_origin_ p' = grid_origin_ p
}.

(** What a call that plans changes at most: the planner, the tiles,
    and the messages handed to the three publishers. *)
Record planned (p p' : Plugin) : Prop := mkPlanned {
  pl_initialized_ : initialized_ p' = initialized_ p;
  pl_node_ : node_ p' = node_ p;
  pl_name_ : name_ p' = name_ p;
  pl_costmap_ : costmap_ p' = costmap_ p;
  pl_global_frame_ : global_frame_ p' = global_frame_ p;
  pl_plan_pub_ : option_Forall2 grown (plan_pub_ p) (plan_pub_ p');
  pl_grid_pub : option_Forall2 grown (grid_pub p) (grid_pub p');
  pl_spirals_pub : option_Forall2 grown (spirals_pub p) (spirals_pub p');
  pl_vehicle_width_ : vehicle_width_ p' = vehicle_width_ p;
  pl_division_factor_ : division_factor_ p' = division_factor_ p
}.

(** ** A plugin for the examples *)

(** The object as its constructor leaves it, around a planner of
    [State]: nothing set, no pointer valid. *)
Definition new_plugin (st : SpiralSTC) : Plugin :=
  mkPlugin st false false "" None "" None None None 0 0 0 (0%Q, 0%Q).

(** A node started without parameters, and one started with a vehicle
    width of 3/2 m for the plugin named [GridBased]. *)
Definition plain_node : Node := mkNodeState ∅ ∅ 0.

Definition wide_node : Node :=
  mkNodeState {[ "GridBased.vehicle_width" := PARAMETER_DOUBLE (3 # 2) ]} ∅ 0.

(** A costmap of 4 m by 4 m in 40 by 40 cells, nothing occupied. *)
Definition example_costmap : HostCostmap :=
  mkHostCostmap 4 4 (mkCostmap 40 40 (1 # 10) 0 0)
    (replicate 40 (replicate 40 false)).

Definition example_costmap_ros : Costmap2DROS :=
  mkCostmapROS example_costmap "map" example_vehicle.

(** A costmap of 4 m by 2 m, and a plugin on it as [configure] and
    [activate] leave it, with tiles of 1 m and the planner of 2 by 2
    cells. *)
Definition wide_costmap : HostCostmap :=
  mkHostCostmap 4 2 (mkCostmap 40 20 (1 # 10) 0 0)
    (replicate 20 (replicate 40 false)).

Definition shown_plugin : Plugin :=
  mkPlugin small_obj true true "GridBased" (Some wide_costmap) "map"
    (Some (create_publisher "plan"))
    (Some (on_activate (create_publisher "grid")))
    (Some (on_activate (create_publisher "spirals")))
    (11 # 10) 3 1 (0%Q, 0%Q).

(** ** Lemmas on the host *)

Lemma deref_Ok {A} (ptr : option A) a : deref ptr = Ok a ↔ ptr = Some a.
Proof. destruct ptr; simpl; naive_solver. Qed.

(** A declaration keeps what is declared and declares the name. *)
Lemma declare_parameter_if_not_declared_Some node name v node' :
  declare_parameter_if_not_declared node name v = Some node' →
  overrides node' = overrides node ∧ now node' = now node ∧
  parameters node ⊆ parameters node' ∧
  ∃ w, parameters node' !! name = Some w ∧
       (parameters node !! name = None → same_type w v = true).
Proof.
  unfold declare_parameter_if_not_declared. intros H.
  destruct (parameters node !! name) as [w|] eqn:Hp.
  { simplify_eq. repeat split; [done|]. by exists w. }
  destruct (overrides node !! name) as [w|] eqn:Ho.
  - destruct (same_type w v) eqn:Ht; simplify_eq. simpl.
    repeat split; [by apply insert_subseteq|]. exists w. by rewrite lookup_insert_eq.
  - simplify_eq. simpl. repeat split; [by apply insert_subseteq|].
    exists v. rewrite lookup_insert_eq. split; [done|]. by destruct v.
Qed.

Lemma delivered_publish {A} (pub : publisher A) msg :
  delivered (publish pub msg) =
  delivered pub ++ (if active pub then [msg] else []).
Proof.
  unfold delivered, publish. simpl. rewrite filter_app, fmap_app. f_equal.
  destruct (active pub); by vm_compute.
Qed.

#[export] Instance grown_preorder {A} : PreOrder (@grown A).
Proof.
  split.
  - intros pub. repeat split. exists []. by rewrite app_nil_r.
  - intros a b c (? & Ha & l1 & H1) (? & ? & l2 & H2).
    split; [congruence|]. split; [congruence|].
    exists (l1 ++ l2). by rewrite H2, H1, Ha, map_app, app_assoc.
Qed.

Lemma publish_grown {A} (pub : publisher A) msg : grown pub (publish pub msg).
Proof. repeat split. by exists [msg]. Qed.

(** Nothing is delivered through a publisher that is not activated. *)
Lemma grown_delivered {A} (pub pub' : publisher A) :
  grown pub pub' → active pub = false → delivered pub' = delivered pub.
Proof.
  intros (_ & _ & msgs & Hm) Ha. unfold delivered.
  rewrite Hm, Ha, filter_app, fmap_app. clear Hm.
  assert (filter (λ m : bool * A, m.1 = true) (map (pair false) msgs) = [])
    as ->; [|by rewrite app_nil_r].
  induction msgs as [|msg msgs IH]; [done|].
  rewrite map_cons, filter_cons_False; [done|by simpl].
Qed.

#[export] Instance shown_more_preorder : PreOrder shown_more.
Proof.
  split.
  - intros p. by split.
  - intros a b c [] []. split; try congruence; by etrans.
Qed.

Lemma set_grid_pub_shown_more p pub pub' :
  grid_pub p = Some pub → grown pub pub' →
  shown_more p (set_grid_pub (Some pub') p).
Proof. intros Hp Hg. split; try done. simpl. rewrite Hp. by constructor. Qed.

Lemma set_spirals_pub_shown_more p pub pub' :
  spirals_pub p = Some pub → grown pub pub' →
  shown_more p (set_spirals_pub (Some pub') p).
Proof. intros Hp Hg. split; try done. simpl. rewrite Hp. by constructor. Qed.

#[export] Instance planned_preorder : PreOrder planned.
Proof.
  split.
  - intros p. by split.
  - intros a b c [] []. split; try congruence; by etrans.
Qed.

Lemma shown_more_planned p p' : shown_more p p' → planned p p'.
Proof. intros []. split; try done. by rewrite sm_plan_pub_0. Qed.

#[export] Hint Resolve publish_grown set_grid_pub_shown_more
  set_spirals_pub_shown_more shown_more_planned : fcpp.
