(* ===== verification/Visual.v ===== *)
(** * Visual: the markers the plugin shows

    [SpiralSTC::visualizeGridlines], [visualizeGrid], [visualizeSpiral],
    [cubeMarker] and [lineStrip] (src/src/spiral_stc.cpp, lines
    815-930).

    A method that publishes returns the plugin with the message handed
    to its publisher.  The two [for] loops of [visualizeGridlines] run
    while a counter of type [uint32_t] is below a quotient of two
    [double] values: [for_below] gives the values of the counter, and
    says when the loop does not end (a quotient that is infinite, or
    above the range of the counter).  [visualizeGrid] reads every row
    up to the length of the first one. *)

From Stdlib Require Import ZArith QArith Qround Lia Lqa.
From stdpp Require Import base tactics list option numbers list_numbers strings.
From S2P Require Import Prelude Grid State Planner Host.

#[local] Open Scope fcpp_scope.

(** ** Operations *)

(** Lines 892-910. *)
Definition cubeMarker (frame_id name_space : string) (id : Z)
    (size a r g b : Q) : Marker :=
  mkMarker frame_id 0 name_space id CUBE_LIST ADD 1 size size size a r g b [].

(** Lines 912-930. *)
Definition lineStrip (frame_id name_space : string) (id : Z)
    (size a r g b : Q) : Marker :=
  mkMarker frame_id 0 name_space id LINE_STRIP ADD 1 size size size a r g b [].

(** [marker.points.push_back(p)] for every point of a list. *)
Definition push_points (ps : list Point) (m : Marker) : Marker :=
  mkMarker (frame_id m) (stamp m) (ns m) (marker_id m) (type_ m) (action m)
    (orientation_w m) (scale_x m) (scale_y m) (scale_z m) (color_a m)
    (color_r m) (color_g m) (color_b m) (points m ++ ps).

(** The values of [i] in [for (uint32_t i = 0; i < a / b; i++)], where
    [a] and [b] are of type [double].  With [b] zero the quotient is
    infinite for a positive [a], and the test never fails; it is not a
    number or negative otherwise, and the test fails at once.  A
    quotient above the largest value of [i] is never reached either. *)
Definition for_below (a b : Q) : res (list Z) :=
  if b ==q 0 then (if 0 <q a then OutOfFuel else Ok [])
  else if inject_Z (2 ^ 32 - 1) <q a / b then OutOfFuel
  else Ok (seqZ 0 (Qceiling (a / b))).

(** Lines 833-838 and 843-848: the two ends of a line. *)
Definition gridline_x (p : Plugin) (c : HostCostmap) (i : Z) : list Point :=
  let y := ((grid_origin_ p).2 + inject_Z i * tile_size_ p)%Q in
  [mkPointXYZ (grid_origin_ p).1 y 0;
   mkPointXYZ ((grid_origin_ p).1 + getSizeInMetersX c) y 0].

Definition gridline_y (p : Plugin) (c : HostCostmap) (i : Z) : list Point :=
  let x := ((grid_origin_ p).1 + inject_Z i * tile_size_ p)%Q in
  [mkPointXYZ x (grid_origin_ p).2 0;
   mkPointXYZ x ((grid_origin_ p).2 + getSizeInMetersY c) 0].

(** Lines 815-852. *)
Definition visualizeGridlines (p : Plugin) : res Plugin :=
  let grid_lines :=
    mkMarker (global_frame_ p) 0 "grid_lines" 0 LINE_LIST ADD 1
      (2 # 100) 0 0 (1 # 2) 0 0 0 [] in
  c ← deref (costmap_ p);
  along_x ← for_below (getSizeInMetersX c) (tile_size_ p);
  let grid_lines := push_points (along_x ≫= gridline_x p c) grid_lines in
  along_y ← for_below (getSizeInMetersY c) (tile_size_ p);
  let grid_lines := push_points (along_y ≫= gridline_y p c) grid_lines in
  pub ← deref (grid_pub p);
  Ok (set_grid_pub (Some (publish pub grid_lines)) p).

(** Lines 868-869 and 885-886: the centre of a cell. *)
Definition cell_centre (p : Plugin) (ix iy : Z) : Point :=
  mkPointXYZ ((inject_Z ix + (1 # 2)) * tile_size_ p + (grid_origin_ p).1)
    ((inject_Z iy + (1 # 2)) * tile_size_ p + (grid_origin_ p).2) 0.

(** Lines 859-873: the two loops over the mask. *)
Definition grid_cubes_row (p : Plugin) (grid : Mask) (n_cols : Z)
    (points : list Point) (iy : Z) : res (list Point) :=
  res_foldl (λ points ix,
    c ← mask_at grid ix iy;
    if Bool.eqb c true then Ok (points ++ [cell_centre p ix iy])
    else Ok points) points (seqZ 0 n_cols).

Definition grid_cubes (p : Plugin) (grid : Mask) : res (list Point) :=
  let n_rows := Z.of_nat (length grid) in
  row ← vec_at grid 0;
  let n_cols := Z.of_nat (length row) in
  res_foldl (grid_cubes_row p grid n_cols) [] (seqZ 0 n_rows).

(** Lines 854-876. *)
Definition visualizeGrid (p : Plugin) (grid : Mask) (name_space : string)
    (a r g b : Q) : res Plugin :=
  let grid_cubes_marker :=
    cubeMarker (global_frame_ p) name_space 0 (tile_size_ p) a r g b in
  ps ← grid_cubes p grid;
  pub ← deref (grid_pub p);
  Ok (set_grid_pub (Some (publish pub (push_points ps grid_cubes_marker))) p).

(** Lines 878-890. *)
Definition visualizeSpiral (p : Plugin) (spiral_nodes : list gridNode_t)
    (name_space : string) (w a r g b : Q) : res Plugin :=
  let spiral := lineStrip (global_frame_ p) name_space 0 w a r g b in
  let ps := map (λ spiral_node,
              cell_centre p (p_x (pos spiral_node)) (p_y (pos spiral_node)))
              spiral_nodes in
  pub ← deref (spirals_pub p);
  Ok (set_spirals_pub (Some (publish pub (push_points ps spiral))) p).

(** ** Predicates of the theorems *)

(** The centre of a cell given as a point of the grid. *)
Definition centre_of (p : Plugin) (c : Point_t) : Point :=
  cell_centre p (p_x c) (p_y c).

(** The centres of the cells of a mask that are set, row by row. *)
Definition set_centres (p : Plugin) (grid : Mask) : list Point :=
  map (centre_of p) (open_cells grid true).

(** The planner grid has the tiles of the plugin: the state after
    [resizeMap] in [makePlan]. *)
Definition tiles_agree (p : Plugin) : Prop :=
  resolution (planner_grid (core p)) = tile_size_ p ∧
  origin_x (planner_grid (core p)) = (grid_origin_ p).1 ∧
  origin_y (planner_grid (core p)) = (grid_origin_ p).2.

(** ** Lemmas on the loops *)

(** The counter of a loop that ends takes the values from 0 up to the
    quotient. *)
Lemma for_below_Ok a b l :
  for_below a b = Ok l →
  ∃ n, l = seqZ 0 n ∧
    (¬ b == 0 → ∀ i, 0 ≤ i < n ↔ 0 ≤ i ∧ (inject_Z i < a / b)%Q).
Proof.
  unfold for_below. intros H. destruct (b ==q 0) eqn:Hb.
  { destruct (0 <q a); [done|]. simplify_eq. exists 0. split; [done|].
    intros []. by apply Qeq_bool_eq. }
  destruct (_ <q a / b); simplify_eq. exists (Qceiling (a / b)).
  split; [done|]. intros _ i. by rewrite Qceiling_gt.
Qed.

(** The loop ends when the tiles have a size and the map is not
    larger than the counter can count. *)
Lemma for_below_is_Ok a b :
  (0 < b)%Q → (a / b <= inject_Z (2 ^ 32 - 1))%Q →
  for_below a b = Ok (seqZ 0 (Qceiling (a / b))).
Proof.
  intros Hb Hle. unfold for_below.
  destruct (b ==q 0) eqn:E; [apply Qeq_bool_eq in E; lra|].
  by apply Qlt_bool_false_iff in Hle as ->.
Qed.

(** The inner loop over the first [j] entries of a row, and the outer
    loop over the first [k] rows. *)
Lemma grid_cubes_row_take p grid iy row points (j : nat) :
  grid !! iy = Some row → (j ≤ length row)%nat →
  grid_cubes_row p grid (Z.of_nat j) points (Z.of_nat iy) =
  Ok (points ++ map (centre_of p) (row_cells iy (take j row) true)).
Proof.
  intros Hrow. unfold grid_cubes_row. induction j as [|j IH]; intros Hj.
  { simpl. by rewrite app_nil_r. }
  rewrite seqZ_snoc, res_foldl_app, IH by lia. simpl.
  destruct (lookup_lt_is_Some_2 row j) as [b Hb]; [lia|].
  rewrite (take_S_r _ _ _ Hb), row_cells_snoc, map_app, app_assoc.
  rewrite length_take_le by lia.
  assert (mask_at grid (Z.of_nat j) (Z.of_nat iy) = Ok b) as ->.
  { apply mask_at_Ok. exists row. rewrite !Nat2Z.id. repeat split; try done; lia. }
  simpl. destruct b; simpl; [done|by rewrite app_nil_r].
Qed.

Lemma grid_cubes_rows p grid (w k : nat) :
  Forall (λ row, length row = w) grid → (k ≤ length grid)%nat →
  res_foldl (grid_cubes_row p grid (Z.of_nat w)) [] (seqZ 0 (Z.of_nat k)) =
  Ok (map (centre_of p) (open_cells (take k grid) true)).
Proof.
  intros Hw. induction k as [|k IH]; intros Hk; [done|].
  rewrite seqZ_snoc, res_foldl_app, IH by lia. simpl.
  destruct (lookup_lt_is_Some_2 grid k) as [row Hrow]; [lia|].
  rewrite (take_S_r _ _ _ Hrow), open_cells_snoc, map_app, length_take_le by lia.
  rewrite (grid_cubes_row_take _ _ _ row) by
    (done || by rewrite (Forall_lookup_1 _ _ _ _ Hw Hrow)).
  rewrite (take_ge row); [done|]. by rewrite (Forall_lookup_1 _ _ _ _ Hw Hrow).
Qed.

(** The loops over a mask with a first row and rows of one length:
    the centres of its set cells, row by row. *)
Lemma grid_cubes_centres p grid w h :
  mask_dims grid w h → 0 < h →
  grid_cubes p grid = Ok (map (centre_of p) (open_cells grid true)).
Proof.
  intros [Hh Hw] Hpos. unfold grid_cubes.
  destruct grid as [|row grid]; [simpl in Hh; lia|].
  change (vec_at (row :: grid) 0) with (Ok (A := list bool) row).
  cbn [mbind res_bind].
  rewrite (grid_cubes_rows _ _ (length row)); [by rewrite firstn_all|..|done].
  apply Forall_cons_1 in Hw as [Hr Hw].
  eapply Forall_impl; [exact (Forall_cons_2 _ _ _ Hr Hw)|]. simpl. lia.
Qed.

(** A mask without rows has no first row to take the length of. *)
Lemma grid_cubes_empty p : grid_cubes p [] = Undefined.
Proof. done. Qed.

(** The centre of a cell lies in that cell of the planner grid. *)
Lemma cell_centre_cell p x y :
  tiles_agree p → (0 < tile_size_ p)%Q →
  worldToMapNoBounds (planner_grid (core p)) (px (cell_centre p x y))
    (py (cell_centre p x y)) = (x, y).
Proof.
  intros (Hr & Hx & Hy) Ht. unfold worldToMapNoBounds, cell_centre. cbn [px py].
  rewrite Hr, Hx, Hy. f_equal.
  - etrans; [|apply (Qfloor_cell (grid_origin_ p).1 (tile_size_ p) 0 x); lra].
    apply Qfloor_comp. field. lra.
  - etrans; [|apply (Qfloor_cell (grid_origin_ p).2 (tile_size_ p) 0 y); lra].
    apply Qfloor_comp. field. lra.
Qed.

(** A method that shows hands one marker to its publisher and changes
    nothing else. *)
Lemma visualizeGridlines_Ok p p' :
  visualizeGridlines p = Ok p' →
  ∃ pub m, grid_pub p = Some pub ∧ p' = set_grid_pub (Some (publish pub m)) p.
Proof.
  unfold visualizeGridlines. intros (c & _ & H)%res_bind_Ok.
  apply res_bind_Ok in H as (along_x & _ & H).
  apply res_bind_Ok in H as (along_y & _ & H).
  apply res_bind_Ok in H as (pub & Hpub%deref_Ok & [= <-]). by eexists _, _.
Qed.

Lemma visualizeGrid_Ok p grid name_space a r g b p' :
  visualizeGrid p grid name_space a r g b = Ok p' →
  ∃ pub m, grid_pub p = Some pub ∧ p' = set_grid_pub (Some (publish pub m)) p.
Proof.
  unfold visualizeGrid. intros (ps & _ & H)%res_bind_Ok.
  apply res_bind_Ok in H as (pub & Hpub%deref_Ok & [= <-]). by eexists _, _.
Qed.

Lemma visualizeSpiral_Ok p spiral_nodes name_space w a r g b p' :
  visualizeSpiral p spiral_nodes name_space w a r g b = Ok p' →
  ∃ pub m, spirals_pub p = Some pub ∧
    p' = set_spirals_pub (Some (publish pub m)) p.
Proof.
  unfold visualizeSpiral.
  intros (pub & Hpub%deref_Ok & [= <-])%res_bind_Ok. by eexists _, _.
Qed.

(** A method that shows returns when its publisher is there; the
    loops of [visualizeGridlines] have to end, and [visualizeGrid]
    needs a mask with a first row and rows of one length. *)
Lemma visualizeGridlines_returns p c along_x along_y :
  costmap_ p = Some c → is_Some (grid_pub p) →
  for_below (getSizeInMetersX c) (tile_size_ p) = Ok along_x →
  for_below (getSizeInMetersY c) (tile_size_ p) = Ok along_y →
  is_Ok (visualizeGridlines p).
Proof.
  intros Hc [pub Hpub] Hx Hy. unfold visualizeGridlines.
  rewrite Hc. simpl. rewrite Hx. simpl. rewrite Hy. simpl. rewrite Hpub. by eexists.
Qed.

Lemma visualizeGrid_returns p grid name_space a r g b w h :
  mask_dims grid w h → 0 < h → is_Some (grid_pub p) →
  is_Ok (visualizeGrid p grid name_space a r g b).
Proof.
  intros Hd Hh [pub Hpub]. unfold visualizeGrid.
  rewrite (grid_cubes_centres p grid w h Hd Hh). simpl. rewrite Hpub. by eexists.
Qed.

Lemma visualizeSpiral_returns p spiral_nodes name_space w a r g b :
  is_Some (spirals_pub p) →
  is_Ok (visualizeSpiral p spiral_nodes name_space w a r g b).
Proof. intros [pub Hpub]. unfold visualizeSpiral. rewrite Hpub. by eexists. Qed.

(** ** Properties of the markers *)

(** C27. The cubes that [visualizeGrid] computes with its two loops
    over indices are the centres of the cells of the mask that are
    set, in the order of [map_2_goals]: row by row, for every mask with
    a first row and rows of one length. *)
Theorem grid_cubes_set_centres p grid w h :
  mask_dims grid w h → 0 < h → grid_cubes p grid = Ok (set_centres p grid).
Proof. intros Hd Hpos. unfold set_centres. by eapply grid_cubes_centres. Qed.

(** C32. [visualizeGridlines] counts its horizontal lines along x: for
    every [i] with [i * tile_size_] below the width of the map in
    metres the marker holds the line at height [i * tile_size_] above
    the origin, whatever the height of the map is, and the vertical
    lines are counted along y in the same way. *)
Theorem visualizeGridlines_lines p c pub p' i :
  costmap_ p = Some c → grid_pub p = Some pub → (0 < tile_size_ p)%Q →
  visualizeGridlines p = Ok p' → 0 ≤ i →
  (inject_Z i * tile_size_ p < getSizeInMetersX c)%Q →
  ∃ m, grid_pub p' = Some (publish pub m) ∧ gridline_x p c i ⊆ points m.
Proof.
  intros Hc Hpub Ht H Hi Hlt. unfold visualizeGridlines in H.
  rewrite Hc, Hpub in H. simpl in H.
  apply res_bind_Ok in H as (along_x & (n & -> & Hx)%for_below_Ok & H).
  apply res_bind_Ok in H as (along_y & _ & [= <-]). eexists. split; [done|].
  simpl. intros pt Hpt. apply elem_of_app. left. apply list_elem_of_bind.
  exists i. split; [done|]. apply elem_of_seqZ. rewrite Z.add_0_l.
  apply Hx; [lra|]. split; [done|]. by apply Qlt_shift_div_l.
Qed.

(** ** The theorems at concrete inputs *)

(** The mask of 2 by 2 cells with (0, 1) set: one cube, at the centre
    of that cell. *)
Lemma grid_cubes_set_centres_witness :
  grid_cubes shown_plugin small_blocked = Ok [mkPointXYZ (1 # 2) (3 # 2) 0].
Proof.
  rewrite (grid_cubes_set_centres shown_plugin small_blocked 2 2).
  - vm_compute. reflexivity.
  - split; [done|]. repeat constructor.
  - lia.
Defined.

(** On the map of 4 m by 2 m with tiles of 1 m the marker has a
    horizontal line 3 m above the origin, 1 m above the map. *)
Lemma visualizeGridlines_lines_witness :
  ∃ p' m, visualizeGridlines shown_plugin = Ok p' ∧
    grid_pub p' = Some (publish (on_activate (create_publisher "grid")) m) ∧
    [mkPointXYZ 0 (0 + inject_Z 3 * 1) 0; mkPointXYZ (0 + 4) (0 + inject_Z 3 * 1) 0]
      ⊆ points m.
Proof.
  destruct (visualizeGridlines shown_plugin) as [p'| |] eqn:E;
    [|by vm_compute in E..].
  exists p'.
  destruct (visualizeGridlines_lines shown_plugin wide_costmap
              (on_activate (create_publisher "grid")) p' 3) as (m & Hm & Hl);
    [done|done|done|done|lia|by vm_compute|].
  by exists m.
Defined.
