(* ===== verification/Lifecycle.v ===== *)
(** * Lifecycle: the plugin in its host

    [SpiralSTC::configure], [activate], [deactivate], [cleanup] and
    [createPlan] (src/src/spiral_stc.cpp, lines 25-103) and the whole
    of [SpiralSTC::makePlan] (lines 466-579): [makePlan_host], whose
    middle part (lines 497-561) is [Planner.makePlan], with the
    conversion of the plan where the source has it, before the last
    counter is set.

    The functions of the base class that [makePlan] calls,
    [parseGrid], [parsePointlist2Plan] and [publishPlan], are the
    interface [BaseClass].  [parseGrid] gets the quotient
    [vehicle_width_ / division_factor_] for two of its parameters; the
    model hands it the plugin, with the two fields.

    A method returns the node and the plugin as it leaves them.
    [configure] may leave through an exception of the parameter calls:
    its result says so ([Thrown]), with the state at that point.  The
    calls that [spiral_stc] makes to show its progress are replayed on
    the publishers when the planning returns ([show]): planning and
    showing do not read what the other writes.

    The host calls the methods in any order; [run] is one call, and
    [reachable] the states that calls lead to. *)

From Stdlib Require Import ZArith QArith Qround Lia Lqa.
From stdpp Require Import base tactics list option numbers list_numbers strings gmap.
From S2P Require Import Prelude Grid Libm State Raster Footprint Catalog Spiral.
From S2P Require Import Planner Host Visual.

Set Warnings "-clear-no-such-hyp".

#[local] Open Scope fcpp_scope.

(** ** The base class *)

(** What [parseGrid] leaves: its result, its three output parameters,
    and the fields [tile_size_] and [grid_origin_] of the object. *)
Record parsed : Type := mkParsed {
  parsed_ok : bool;
  parsed_grid : Mask;
  parsed_start_point : Point_t;
  parsed_yaw_start : Q;
  parsed_tile_size_ : Q;
  parsed_grid_origin_ : Q * Q
}.

Class BaseClass : Type := {
  parseGrid : Plugin → HostCostmap → PoseStamped → parsed;
  parsePointlist2Plan :
    Plugin → PoseStamped → list Point_t → list PoseStamped → list PoseStamped;
  publishPlan : Plugin → list PoseStamped → res Plugin
}.

(** What the theorems rely on: publishing a plan hands one message to
    the publisher of plans and changes nothing else, and it returns
    when that publisher was created. *)
Class BaseClassLaws (B : BaseClass) : Prop := {
  publishPlan_frame : ∀ p plan p', publishPlan p plan = Ok p' →
    ∃ pub msg, plan_pub_ p = Some pub ∧
      p' = set_plan_pub_ (Some (publish pub msg)) p;
  publishPlan_returns : ∀ p plan,
    is_Some (plan_pub_ p) → is_Ok (publishPlan p plan)
}.

(** ** Operations *)

(** How a call ends. *)
Inductive completion : Type := Returned | Thrown.

(** Lines 49-60: the three parameters, each declared with its default
    and read into its field. *)
Definition configure_parameters (node : Node) (p : Plugin)
    : completion * Node * Plugin :=
  let vehicle_width_default := (11 # 10)%Q in
  match declare_parameter_if_not_declared node (name_ p +:+ ".vehicle_width")
          (PARAMETER_DOUBLE vehicle_width_default) with
  | None => (Thrown, node, p)
  | Some node =>
  match get_parameter_double node (name_ p +:+ ".vehicle_width")
          (vehicle_width_ p) with
  | None => (Thrown, node, p)
  | Some v =>
  let p := set_vehicle_width_ v p in
  let division_factor_default := 3 in
  match declare_parameter_if_not_declared node (name_ p +:+ ".division_factor")
          (PARAMETER_INTEGER division_factor_default) with
  | None => (Thrown, node, p)
  | Some node =>
  match get_parameter_int node (name_ p +:+ ".division_factor")
          (division_factor_ p) with
  | None => (Thrown, node, p)
  | Some v =>
  let p := set_division_factor_ v p in
  let manoeuvre_resolution_default := 100 in
  match declare_parameter_if_not_declared node
          (name_ p +:+ ".manoeuvre_resolution")
          (PARAMETER_INTEGER manoeuvre_resolution_default) with
  | None => (Thrown, node, p)
  | Some node =>
  match get_parameter_int node (name_ p +:+ ".manoeuvre_resolution")
          (manoeuvre_resolution_ (core p)) with
  | None => (Thrown, node, p)
  | Some v =>
  (Returned, node, set_core (set_manoeuvre_resolution_ v (core p)) p)
  end end end end end end.

(** Lines 25-64.  [parent] says whether the node still exists when the
    weak pointer is locked. *)
Definition configure (parent : bool) (name : string)
    (costmap_ros : option Costmap2DROS) (node : Node) (p : Plugin)
    : res (completion * Node * Plugin) :=
  if negb (initialized_ p) then
    let p := set_node_ parent p in
    let p := set_name_ name p in
    costmap ← deref costmap_ros;
    let p := set_costmap_ (Some (getCostmap costmap)) p in
    let p := set_global_frame_ (getGlobalFrameID costmap) p in
    let p := set_core (set_robot_footprint (getRobotFootprint costmap) (core p)) p in
    if negb (node_ p) then Undefined
    else
      let p := set_plan_pub_ (Some (create_publisher "plan")) p in
      let p := set_grid_pub (Some (create_publisher "grid")) p in
      let p := set_spirals_pub (Some (create_publisher "spirals")) p in
      let '(how, node, p) := configure_parameters node p in
      match how with
      | Thrown => Ok (Thrown, node, p)
      | Returned => Ok (Returned, node, set_initialized_ true p)
      end
  else Ok (Returned, node, p).

(** Lines 66-73. *)
Definition activate (p : Plugin) : res Plugin :=
  pub ← deref (grid_pub p);
  let p := set_grid_pub (Some (on_activate pub)) p in
  pub ← deref (spirals_pub p);
  Ok (set_spirals_pub (Some (on_activate pub)) p).

(** Lines 75-82. *)
Definition deactivate (p : Plugin) : res Plugin :=
  pub ← deref (grid_pub p);
  let p := set_grid_pub (Some (on_deactivate pub)) p in
  pub ← deref (spirals_pub p);
  Ok (set_spirals_pub (Some (on_deactivate pub)) p).

(** Lines 84-90: nothing is released. *)
Definition cleanup (p : Plugin) : Plugin := p.

(** [(unsigned int) ceil(a / b)], as line 491 passes it to [resizeMap]:
    the conversion of a value that is infinite, not a number, negative
    or beyond the range of [unsigned int] is undefined. *)
Definition ceil_quotient (a b : Q) : res Z :=
  if b ==q 0 then Undefined
  else
    let n := Qceiling (a / b) in
    if (n <? 0) || (2 ^ 32 <=? n) then Undefined else Ok n.

(** A call of [spiral_stc] to show its progress, on the publishers. *)
Definition show (p : Plugin) (d : display) : res Plugin :=
  match d with
  | ShowSpiral spiral_nodes name_space w a r g b =>
      visualizeSpiral p spiral_nodes name_space w a r g b
  | ShowGrid grid name_space a r g b => visualizeGrid p grid name_space a r g b
  end.

(** Lines 466-579: whether a plan was made, the plan, and the
    plugin.  [parseGrid] reads the costmap through the pointer
    [costmap_] that line 485 hands to it, so a null pointer is
    undefined at that call; an initialised plugin has the pointer
    set ([reachable_wf]). *)
Definition makePlan_host {L : Libm} {F : ConvexFill} {P : Platform}
    {R : Relocator} {B : BaseClass} (fuel : nat) (start goal : PoseStamped)
    (plan : list PoseStamped) (p : Plugin)
    : res (bool * list PoseStamped * Plugin) :=
  if negb (initialized_ p) then Ok (false, plan, p)
  else
    costmap ← deref (costmap_ p);
    let r := parseGrid p costmap start in
    let p := set_grid_origin_ (parsed_grid_origin_ r)
               (set_tile_size_ (parsed_tile_size_ r) p) in
    if negb (parsed_ok r) then Ok (false, plan, p)
    else
      let grid := parsed_grid r in
      size_x ← ceil_quotient (getSizeInMetersX costmap) (tile_size_ p);
      size_y ← ceil_quotient (getSizeInMetersY costmap) (tile_size_ p);
      let p := set_core (set_planner_grid
                 (mkCostmap size_x size_y (tile_size_ p) (grid_origin_ p).1
                    (grid_origin_ p).2) (core p)) p in
      p ← visualizeGridlines p;
      p ← visualizeGrid p grid "grid_cubes" (6 # 10) 0 0 0;
      let st := makePlan_catalog (core p) in
      '(goal_points, shown, st) ←
        spiral_stc fuel st grid (parsed_start_point r) (parsed_yaw_start r);
      p ← res_foldl show (set_core st p) shown;
      let plan := parsePointlist2Plan p start goal_points plan in
      let st := set_accessible_counter
                  (visited_counter st - multiple_pass_counter st) st in
      p ← publishPlan (set_core st p) plan;
      Ok (true, plan, p).

(** Lines 92-103. *)
Definition createPlan {L : Libm} {F : ConvexFill} {P : Platform}
    {R : Relocator} {B : BaseClass} (fuel : nat) (start goal : PoseStamped)
    (node : Node) (p : Plugin) : res (Path * Plugin) :=
  '(_, poses, p) ← makePlan_host fuel start goal [] p;
  if negb (node_ p) then Undefined
  else Ok (mkPath (now node) (global_frame_ p) poses, p).

(** ** The host *)

(** The calls of the host. *)
Inductive call : Type :=
| Configure (parent : bool) (name : string) (costmap_ros : option Costmap2DROS)
| Activate
| Deactivate
| Cleanup
| CreatePlan (start goal : PoseStamped).

(** One call, on the node and the plugin. *)
Definition run {L : Libm} {F : ConvexFill} {P : Platform} {R : Relocator}
    {B : BaseClass} (fuel : nat) (c : call) (w : Node * Plugin)
    : res (Node * Plugin) :=
  match c with
  | Configure parent name costmap_ros =>
      '(_, node, p) ← configure parent name costmap_ros w.1 w.2; Ok (node, p)
  | Activate => p ← activate w.2; Ok (w.1, p)
  | Deactivate => p ← deactivate w.2; Ok (w.1, p)
  | Cleanup => Ok (w.1, cleanup w.2)
  | CreatePlan start goal =>
      '(_, p) ← createPlan fuel start goal w.1 w.2; Ok (w.1, p)
  end.

(** The states that the calls of the host lead to from a new
    plugin. *)
Inductive reachable {L : Libm} {F : ConvexFill} {P : Platform} {R : Relocator}
    {B : BaseClass} (node0 : Node) (st0 : SpiralSTC) : Node * Plugin → Prop :=
| reachable_new : reachable node0 st0 (node0, new_plugin st0)
| reachable_run fuel c w w' :
    reachable node0 st0 w → run fuel c w = Ok w' → reachable node0 st0 w'.

(** ** Predicates of the theorems *)

(** What the methods rely on once the plugin is initialised: the
    pointers they use are set.  And the publisher of plans, which no
    method activates, has delivered nothing. *)
Record plugin_wf (p : Plugin) : Prop := mkPluginWf {
  wf_node_ : initialized_ p = true → node_ p = true;
  wf_costmap_ : initialized_ p = true → is_Some (costmap_ p);
  wf_plan_pub_ : initialized_ p = true → is_Some (plan_pub_ p);
  wf_grid_pub : initialized_ p = true → is_Some (grid_pub p);
  wf_spirals_pub : initialized_ p = true → is_Some (spirals_pub p);
  wf_plan_inactive : ∀ pub, plan_pub_ p = Some pub →
    active pub = false ∧ delivered pub = []
}.

(** The value a parameter gets when it is declared: the one given at
    the start of the node, or the default. *)
Definition parameter_or (node : Node) (name : string)
    (default_value : ParameterValue) : ParameterValue :=
  default default_value (overrides node !! name).

(** ** A base class for the examples *)

(** [parseGrid] returns a given mask with tiles of a given size from
    the origin of the world, and fails when the mask has no row;
    [parsePointlist2Plan] appends the centres of the cells;
    [publishPlan] hands the plan to the publisher of plans. *)
Definition given_grid (grid : Mask) (tile : Q) : BaseClass :=
  {| parseGrid := λ p costmap start,
       mkParsed (bool_decide (grid ≠ [])) grid
         (mkPoint (Qfloor (pose_x start / tile)) (Qfloor (pose_y start / tile)))
         (pose_yaw start) tile (0%Q, 0%Q);
     parsePointlist2Plan := λ p start goal_points plan,
       plan ++ map (λ c, mkPose (global_frame_ p) (px (centre_of p c))
                           (py (centre_of p c)) 0) goal_points;
     publishPlan := λ p plan,
       pub ← deref (plan_pub_ p);
       Ok (set_plan_pub_
             (Some (publish pub (mkPath 0 (global_frame_ p) plan))) p) |}.

(** A host with a costmap of 2 m by 2 m, and a pose in the cell
    (0, 0) of a grid with tiles of 1 m. *)
Definition square_costmap_ros : Costmap2DROS :=
  mkCostmapROS
    (mkHostCostmap 2 2 (mkCostmap 2 2 1 0 0) [[false; false]; [true; false]])
    "map" example_vehicle.

Definition start_pose : PoseStamped := mkPose "map" (1 # 2) (1 # 2) 0.

(** The plugin on that host after [configure] and [activate], with the
    planner of 2 by 2 cells. *)
Definition ready_plugin : Plugin :=
  mkPlugin
    (set_manoeuvre_resolution_ 100 (set_robot_footprint example_vehicle small_obj))
    true true "GridBased" (Some (getCostmap square_costmap_ros)) "map"
    (Some (create_publisher "plan"))
    (Some (on_activate (create_publisher "grid")))
    (Some (on_activate (create_publisher "spirals")))
    (11 # 10) 3 0 (0%Q, 0%Q).

(** ** Lemmas on the calls *)

#[export] Instance given_grid_laws grid tile : BaseClassLaws (given_grid grid tile).
Proof.
  split; simpl.
  - intros p plan p' (pub & ?%deref_Ok & [= <-])%res_bind_Ok. by eexists _, _.
  - intros p plan [pub ->]. by eexists.
Qed.

(** A parameter that was not declared: what the two calls for it
    leave. *)
Lemma declare_get_double node name d field node' v :
  parameters node !! name = None →
  declare_parameter_if_not_declared node name (PARAMETER_DOUBLE d) = Some node' →
  get_parameter_double node' name field = Some v →
  PARAMETER_DOUBLE v = parameter_or node name (PARAMETER_DOUBLE d) ∧
  overrides node' = overrides node ∧
  parameters node' = <[name := PARAMETER_DOUBLE v]> (parameters node).
Proof.
  unfold declare_parameter_if_not_declared, get_parameter_double, parameter_or.
  intros -> Hd Hg. destruct (overrides node !! name) as [[w|w]|];
    simplify_eq/=; rewrite lookup_insert_eq in Hg; by simplify_eq.
Qed.

Lemma declare_get_int node name d field node' v :
  parameters node !! name = None →
  declare_parameter_if_not_declared node name (PARAMETER_INTEGER d) = Some node' →
  get_parameter_int node' name field = Some v →
  PARAMETER_INTEGER v = parameter_or node name (PARAMETER_INTEGER d) ∧
  overrides node' = overrides node ∧
  parameters node' = <[name := PARAMETER_INTEGER v]> (parameters node).
Proof.
  unfold declare_parameter_if_not_declared, get_parameter_int, parameter_or.
  intros -> Hd Hg. destruct (overrides node !! name) as [[w|w]|];
    simplify_eq/=; rewrite lookup_insert_eq in Hg; by simplify_eq.
Qed.

(** The calls for the parameters change the fields of the parameters
    and nothing else. *)
Lemma configure_parameters_frame node p how node' p' :
  configure_parameters node p = (how, node', p') →
  initialized_ p' = initialized_ p ∧ node_ p' = node_ p ∧
  name_ p' = name_ p ∧ costmap_ p' = costmap_ p ∧
  plan_pub_ p' = plan_pub_ p ∧ grid_pub p' = grid_pub p ∧
  spirals_pub p' = spirals_pub p ∧
  robot_footprint (core p') = robot_footprint (core p).
Proof.
  unfold configure_parameters. intros H.
  repeat case_match; simplify_eq; by repeat split.
Qed.

(** Showing changes the publishers of markers only. *)
Lemma show_shown_more p d p' : show p d = Ok p' → shown_more p p'.
Proof.
  destruct d; simpl.
  - intros (pub & m & ? & ->)%visualizeSpiral_Ok. eauto with fcpp.
  - intros (pub & m & ? & ->)%visualizeGrid_Ok. eauto with fcpp.
Qed.

Lemma shows_shown_more p shown p' :
  res_foldl show p shown = Ok p' → shown_more p p'.
Proof.
  apply (res_foldl_invariant (shown_more p)); [|done].
  intros p1 d p2 _ ? ?%show_shown_more. by etrans.
Qed.

(** A change of the planner or of the tiles is a change that planning
    may make. *)
Lemma set_core_planned st p : planned p (set_core st p).
Proof. by split. Qed.

Lemma set_tiles_planned tile origin p :
  planned p (set_grid_origin_ origin (set_tile_size_ tile p)).
Proof. by split. Qed.

Lemma set_plan_pub__planned p pub pub' :
  plan_pub_ p = Some pub → grown pub pub' →
  planned p (set_plan_pub_ (Some pub') p).
Proof. intros Hp Hg. split; try done. simpl. rewrite Hp. by constructor. Qed.

#[export] Hint Resolve set_core_planned set_tiles_planned set_plan_pub__planned
  : fcpp.

Section calls.
Context {L : Libm} {F : ConvexFill} {P : Platform} {R : Relocator}.
Context {B : BaseClass}.

(** The two ways in which [makePlan] returns [false]. *)
Lemma makePlan_host_false fuel start goal plan p plan' p' :
  makePlan_host fuel start goal plan p = Ok (false, plan', p') ↔
  plan' = plan ∧
  (initialized_ p = false ∧ p' = p ∨
   initialized_ p = true ∧ ∃ costmap, costmap_ p = Some costmap ∧
     let r := parseGrid p costmap start in
     parsed_ok r = false ∧
     p' = set_grid_origin_ (parsed_grid_origin_ r)
            (set_tile_size_ (parsed_tile_size_ r) p)).
Proof.
  unfold makePlan_host. destruct (initialized_ p); simpl; [|naive_solver].
  destruct (costmap_ p) as [costmap|]; simpl; [|naive_solver].
  destruct (parsed_ok (parseGrid p costmap start)) eqn:E; simpl; [|naive_solver].
  split; [|intros [_ [[? _]|(_ & c & [= <-] & Hf & _)]]; congruence].
  intros H. exfalso.
  do 4 apply res_bind_Ok in H as (? & _ & H).
  apply res_bind_Ok in H as ([[? ?] ?] & _ & H).
  by do 2 apply res_bind_Ok in H as (? & _ & H).
Qed.

(** A call that returns a plan: the steps it went through. *)
Lemma makePlan_host_true fuel start goal plan p plan' p' :
  makePlan_host fuel start goal plan p = Ok (true, plan', p') →
  ∃ costmap size_x size_y p1 goal_points shown st p2,
    let r := parseGrid p costmap start in
    let p0 := set_grid_origin_ (parsed_grid_origin_ r)
                (set_tile_size_ (parsed_tile_size_ r) p) in
    let st0 := set_planner_grid
                 (mkCostmap size_x size_y (parsed_tile_size_ r)
                    (parsed_grid_origin_ r).1 (parsed_grid_origin_ r).2)
                 (core p) in
    let st' := set_accessible_counter
                 (visited_counter st - multiple_pass_counter st) st in
    initialized_ p = true ∧ costmap_ p = Some costmap ∧ parsed_ok r = true ∧
    ceil_quotient (getSizeInMetersX costmap) (parsed_tile_size_ r) = Ok size_x ∧
    ceil_quotient (getSizeInMetersY costmap) (parsed_tile_size_ r) = Ok size_y ∧
    shown_more (set_core st0 p0) p1 ∧
    spiral_stc fuel (makePlan_catalog st0) (parsed_grid r)
      (parsed_start_point r) (parsed_yaw_start r) = Ok (goal_points, shown, st) ∧
    shown_more (set_core st p1) p2 ∧
    plan' = parsePointlist2Plan p2 start goal_points plan ∧
    publishPlan (set_core st' p2) plan' = Ok p'.
Proof.
  unfold makePlan_host. destruct (initialized_ p); simpl; [|done].
  destruct (costmap_ p) as [costmap|]; simpl; [|done].
  destruct (parsed_ok (parseGrid p costmap start)) eqn:E; simpl; [|done].
  intros (size_x & Hx & H)%res_bind_Ok. apply res_bind_Ok in H as (size_y & Hy & H).
  apply res_bind_Ok in H as (pa & Ha & H).
  apply res_bind_Ok in H as (pb & Hb & H).
  apply res_bind_Ok in H as ([[goal_points shown] st] & Hs & H).
  apply res_bind_Ok in H as (pc & Hc%shows_shown_more & H).
  apply res_bind_Ok in H as (pd & Hd & [= <- <-]).
  exists costmap, size_x, size_y, pb, goal_points, shown, st, pc.
  assert (shown_more pa pb) as Hab.
  { apply visualizeGrid_Ok in Hb as (? & ? & ? & ->). eauto with fcpp. }
  apply visualizeGridlines_Ok in Ha as (? & ? & ? & ->).
  rewrite (sm_core _ _ Hab) in Hs.
  split_and!; try done. etrans; [|done]. eauto with fcpp.
Qed.

(** A call of [makePlan] leaves the wiring of the plugin as it was. *)
Lemma makePlan_host_planned {BL : BaseClassLaws B} fuel start goal plan p ok
    plan' p' :
  makePlan_host fuel start goal plan p = Ok (ok, plan', p') → planned p p'.
Proof.
  destruct ok.
  - intros (c & sx & sy & p1 & gp & sh & st & p2 & H)%makePlan_host_true.
    destruct H as (_ & _ & _ & _ & _ & H1 & _ & H2 & _ & Hp).
    apply publishPlan_frame in Hp as (pub & msg & ? & ->).
    etrans; [apply set_tiles_planned|]. etrans; [apply set_core_planned|].
    etrans; [apply shown_more_planned, H1|]. etrans; [apply set_core_planned|].
    etrans; [apply shown_more_planned, H2|]. etrans; [apply set_core_planned|].
    eauto with fcpp.
  - intros [_ [[_ ->]|(_ & c & _ & _ & ->)]]%makePlan_host_false; [done|].
    apply set_tiles_planned.
Qed.

(** [activate] and [deactivate] switch the two publishers of markers
    and leave the rest. *)
Lemma activate_Ok p p' :
  activate p = Ok p' →
  ∃ g s, grid_pub p = Some g ∧ spirals_pub p = Some s ∧
    p' = set_spirals_pub (Some (on_activate s))
           (set_grid_pub (Some (on_activate g)) p).
Proof.
  unfold activate. intros (g & Hg%deref_Ok & H)%res_bind_Ok.
  apply res_bind_Ok in H as (s & Hs%deref_Ok & [= <-]). by exists g, s.
Qed.

Lemma deactivate_Ok p p' :
  deactivate p = Ok p' →
  ∃ g s, grid_pub p = Some g ∧ spirals_pub p = Some s ∧
    p' = set_spirals_pub (Some (on_deactivate s))
           (set_grid_pub (Some (on_deactivate g)) p).
Proof.
  unfold deactivate. intros (g & Hg%deref_Ok & H)%res_bind_Ok.
  apply res_bind_Ok in H as (s & Hs%deref_Ok & [= <-]). by exists g, s.
Qed.

(** The invariant is about the wiring. *)
Lemma planned_wf p p' : planned p p' → plugin_wf p → plugin_wf p'.
Proof.
  intros [Hi Hn _ Hc _ Hpp Hg Hs _ _] [W1 W2 W3 W4 W5 W6].
  split; rewrite ?Hi, ?Hn, ?Hc; try done.
  - intros [pub Hp]%W3. rewrite Hp in Hpp. inv Hpp. by eexists.
  - intros [pub Hp]%W4. rewrite Hp in Hg. inv Hg. by eexists.
  - intros [pub Hp]%W5. rewrite Hp in Hs. inv Hs. by eexists.
  - intros pub' Hp'. rewrite Hp' in Hpp.
    inversion Hpp as [pub ? Hgr Hpub|]; subst.
    destruct (W6 pub) as [Ha Hd]; [done|].
    rewrite (grown_delivered _ _ Hgr Ha). by destruct Hgr as (_ & -> & _).
Qed.

(** Every call keeps the invariant. *)
Lemma configure_wf parent name costmap_ros node p how node' p' :
  configure parent name costmap_ros node p = Ok (how, node', p') →
  plugin_wf p → plugin_wf p'.
Proof.
  unfold configure. destruct (initialized_ p) eqn:Hi; simpl.
  { by intros [= <- <- <-]. }
  destruct costmap_ros as [costmap|]; simpl; [|done].
  destruct parent; simpl; [|done].
  destruct (configure_parameters _ _) as [[how1 node1] p1] eqn:E.
  apply configure_parameters_frame in E as (Hi1 & Hn & _ & Hc & Hp & Hg & Hs & _).
  simpl in *. intros H _.
  assert (plugin_wf p1) as Hwf.
  { split; rewrite ?Hi1, ?Hi, ?Hp; try done. by intros pub [= <-]. }
  destruct how1; simplify_eq; [|done]. destruct Hwf.
  split; simpl; [..|done]; rewrite ?Hn, ?Hc, ?Hp, ?Hg, ?Hs; try done;
    by eexists.
Qed.

Lemma run_wf {BL : BaseClassLaws B} fuel c w w' :
  run fuel c w = Ok w' → plugin_wf w.2 → plugin_wf w'.2.
Proof.
  destruct w as [node p]. destruct c; simpl.
  - intros ([[how node'] p'] & Hc & [= <-])%res_bind_Ok. by eapply configure_wf.
  - intros (p' & (g & s & _ & _ & ->)%activate_Ok & [= <-])%res_bind_Ok.
    intros []. by split.
  - intros (p' & (g & s & _ & _ & ->)%deactivate_Ok & [= <-])%res_bind_Ok.
    intros []. by split.
  - by intros [= <-].
  - intros ([path p'] & Hc & [= <-])%res_bind_Ok. unfold createPlan in Hc.
    apply res_bind_Ok in Hc as ([[ok plan'] p1] & Hm%makePlan_host_planned & Hc).
    destruct (node_ p1); simplify_eq/=. by apply planned_wf.
Qed.

End calls.

(** ** Properties of the plugin in its host *)

Section lifecycle_properties.
Context {L : Libm} {F : ConvexFill} {P : Platform} {R : Relocator}.
Context {B : BaseClass}.

(** C20. Whatever the host calls and in whatever order, a plugin that is
    initialised has its node, its costmap and its three publishers
    set, so that no method goes through a null pointer; and the
    publisher of plans, which [activate] leaves out, is never activated
    and has delivered nothing. *)
Theorem reachable_wf {BL : BaseClassLaws B} node0 st0 w :
  reachable node0 st0 w → plugin_wf w.2.
Proof.
  induction 1 as [|fuel c w w' _ IH Hrun]; [|by eapply run_wf].
  by split.
Qed.

(** C26. [createPlan] on a plugin that is not initialised: [makePlan]
    reports the error and returns, and [createPlan] goes on to read the
    clock of the node.  Where [configure] was never called the pointer
    to the node is null and the call is undefined; otherwise it returns
    a path without poses and leaves the plugin as it was. *)
Theorem createPlan_uninitialized fuel start goal node p :
  initialized_ p = false →
  createPlan fuel start goal node p =
  if node_ p then Ok (mkPath (now node) (global_frame_ p) [], p) else Undefined.
Proof.
  intros Hi. unfold createPlan, makePlan_host. rewrite Hi. simpl.
  by destruct (node_ p).
Qed.

(** C31. [configure] on a new plugin, with none of the three parameters
    declared yet: when it returns, the plugin is initialised, each
    parameter has the value given at the start of the node under the
    name of the plugin, or its default (1.1 m, 3 and 100), and the
    costmap, the frame and the footprint are those of the host. *)
Theorem configure_reads_parameters name costmap_ros node st node' p' :
  (∀ suffix, parameters node !! (name +:+ suffix) = None) →
  configure true name (Some costmap_ros) node (new_plugin st)
    = Ok (Returned, node', p') →
  initialized_ p' = true ∧
  PARAMETER_DOUBLE (vehicle_width_ p') =
    parameter_or node (name +:+ ".vehicle_width") (PARAMETER_DOUBLE (11 # 10)) ∧
  PARAMETER_INTEGER (division_factor_ p') =
    parameter_or node (name +:+ ".division_factor") (PARAMETER_INTEGER 3) ∧
  PARAMETER_INTEGER (manoeuvre_resolution_ (core p')) =
    parameter_or node (name +:+ ".manoeuvre_resolution") (PARAMETER_INTEGER 100) ∧
  costmap_ p' = Some (getCostmap costmap_ros) ∧
  global_frame_ p' = getGlobalFrameID costmap_ros ∧
  robot_footprint (core p') = getRobotFootprint costmap_ros.
Proof.
  intros Hnew. unfold configure, configure_parameters. simpl.
  destruct (declare_parameter_if_not_declared node _ _) as [n1|] eqn:D1; [|done].
  destruct (get_parameter_double n1 _ _) as [v1|] eqn:G1; [|done].
  destruct (declare_get_double _ _ _ _ _ _ (Hnew _) D1 G1) as (E1 & O1 & P1).
  destruct (declare_parameter_if_not_declared n1 _ _) as [n2|] eqn:D2; [|done].
  destruct (get_parameter_int n2 _ _) as [v2|] eqn:G2; [|done].
  edestruct (declare_get_int n1) as (E2 & O2 & P2); [|exact D2|exact G2|].
  { rewrite P1, lookup_insert_ne; [done|]. by intros ?%(inj _). }
  destruct (declare_parameter_if_not_declared n2 _ _) as [n3|] eqn:D3; [|done].
  destruct (get_parameter_int n3 _ _) as [v3|] eqn:G3; [|done].
  edestruct (declare_get_int n2) as (E3 & O3 & P3); [|exact D3|exact G3|].
  { rewrite P2, P1, !lookup_insert_ne; [done|by intros ?%(inj _)..]. }
  intros [= <- <-]. simpl. unfold parameter_or in *.
  by rewrite E1, E2, E3, O2, O1.
Qed.

(** A call of [makePlan] that returns a plan is a run of the
    planner of [Planner] on the grid that [parseGrid] returned, with
    the planner grid resized to the tiles of that grid: the plugin
    holds the object that run leaves, and the plan is the conversion
    of its cells. *)
Theorem makePlan_host_plans {BL : BaseClassLaws B} fuel start goal plan p plan' p' :
  makePlan_host fuel start goal plan p = Ok (true, plan', p') →
  ∃ costmap size_x size_y goal_points shown q,
    let r := parseGrid p costmap start in
    costmap_ p = Some costmap ∧ parsed_ok r = true ∧
    ceil_quotient (getSizeInMetersX costmap) (parsed_tile_size_ r) = Ok size_x ∧
    ceil_quotient (getSizeInMetersY costmap) (parsed_tile_size_ r) = Ok size_y ∧
    makePlan fuel
      (set_planner_grid
         (mkCostmap size_x size_y (parsed_tile_size_ r)
            (parsed_grid_origin_ r).1 (parsed_grid_origin_ r).2) (core p))
      (parsed_grid r) (parsed_start_point r) (parsed_yaw_start r)
      = Ok (goal_points, shown, core p') ∧
    tile_size_ p' = parsed_tile_size_ r ∧
    grid_origin_ p' = parsed_grid_origin_ r ∧
    plan' = parsePointlist2Plan q start goal_points plan.
Proof.
  intros (c & sx & sy & p1 & gp & sh & st & p2 & H)%makePlan_host_true.
  destruct H as (_ & Hc & Hok & Hx & Hy & H1 & Hs & H2 & -> & Hp).
  apply publishPlan_frame in Hp as (pub & msg & _ & ->).
  exists c, sx, sy, gp, sh, p2. split_and!; try done; simpl.
  - unfold makePlan. by rewrite Hs.
  - etrans; [apply (sm_tile_size_ _ _ H2)|]. apply (sm_tile_size_ _ _ H1).
  - etrans; [apply (sm_grid_origin_ _ _ H2)|]. apply (sm_grid_origin_ _ _ H1).
Qed.

End lifecycle_properties.

(** ** The theorems at concrete inputs *)

(** A plugin configured and activated, after a planning call on the
    grid of 2 by 2 cells. *)
Lemma reachable_wf_witness :
  ∃ w, reachable (L := approx_libm) (F := hull_fill) (P := returns_false)
         (R := resigning) (B := given_grid small_blocked 1) plain_node small_obj w ∧
       initialized_ w.2 = true ∧ plugin_wf w.2.
Proof.
  eassert (reachable (L := approx_libm) (F := hull_fill) (P := returns_false)
             (R := resigning) (B := given_grid small_blocked 1) plain_node
             small_obj _) as Hr.
  { eapply (reachable_run _ _ 3 (CreatePlan start_pose start_pose)).
    - eapply (reachable_run _ _ 0 Activate).
      + eapply (reachable_run _ _ 0
                  (Configure true "GridBased" (Some square_costmap_ros)));
          [apply reachable_new|vm_compute; reflexivity].
      + vm_compute. reflexivity.
    - vm_compute. reflexivity. }
  eexists. split; [exact Hr|]. split; [reflexivity|].
  exact (reachable_wf _ _ _ Hr).
Defined.

(** A plugin as its constructor leaves it: the call is undefined. *)
Lemma createPlan_uninitialized_witness :
  createPlan (L := approx_libm) (F := hull_fill) (P := returns_false)
    (R := resigning) (B := given_grid small_blocked 1) 3 start_pose start_pose
    plain_node (new_plugin small_obj) = Undefined.
Proof.
  apply (createPlan_uninitialized (L := approx_libm) (F := hull_fill)
           (P := returns_false) (R := resigning)
           (B := given_grid small_blocked 1) 3 start_pose start_pose plain_node
           (new_plugin small_obj)).
  reflexivity.
Defined.

(** The node started with a vehicle width of 3/2 m for the plugin
    [GridBased]: the width is read, the other two parameters get
    their defaults. *)
Lemma configure_reads_parameters_witness :
  ∃ node' p',
    configure true "GridBased" (Some square_costmap_ros) wide_node
      (new_plugin small_obj) = Ok (Returned, node', p') ∧
    PARAMETER_DOUBLE (vehicle_width_ p') = PARAMETER_DOUBLE (3 # 2) ∧
    PARAMETER_INTEGER (division_factor_ p') = PARAMETER_INTEGER 3 ∧
    PARAMETER_INTEGER (manoeuvre_resolution_ (core p')) = PARAMETER_INTEGER 100.
Proof.
  eassert (configure true "GridBased" (Some square_costmap_ros) wide_node
             (new_plugin small_obj) = Ok (Returned, _, _)) as E.
  { vm_compute. reflexivity. }
  eexists _, _. split; [exact E|].
  assert (∀ suffix, parameters wide_node !! ("GridBased" +:+ suffix) = None)
    as Hn by (intros; apply lookup_empty).
  destruct (configure_reads_parameters "GridBased" square_costmap_ros wide_node
              small_obj _ _ Hn E) as (_ & Hw & Hd & Hm & _).
  split; [|split]; (etrans; [eassumption|vm_compute; reflexivity]).
Defined.

(** The plugin after [configure] and [activate], on the grid of 2 by 2
    cells with a blocked cell: the plugin holds the planner that
    [Planner.makePlan] leaves on that grid. *)
Lemma makePlan_host_plans_witness :
  ∃ plan' p' goal_points shown,
    makePlan_host (L := approx_libm) (F := hull_fill) (P := returns_false)
      (R := resigning) (B := given_grid small_blocked 1) 3 start_pose start_pose
      [] ready_plugin = Ok (true, plan', p') ∧
    makePlan (L := approx_libm) (F := hull_fill) (P := returns_false)
      (R := resigning) 3
      (set_planner_grid (mkCostmap 2 2 1 0 0) (core ready_plugin)) small_blocked
      (mkPoint 0 0) 0 = Ok (goal_points, shown, core p').
Proof.
  eassert (makePlan_host (L := approx_libm) (F := hull_fill)
             (P := returns_false) (R := resigning)
             (B := given_grid small_blocked 1) 3 start_pose start_pose []
             ready_plugin = Ok (true, _, _)) as E.
  { vm_compute. reflexivity. }
  destruct (makePlan_host_plans _ _ _ _ _ _ _ E)
    as (c & sx & sy & gp & sh & q & [= <-] & _ & Hx & Hy & Hm & _).
  assert (ceil_quotient 2 1 = Ok 2) as Ec by (vm_compute; reflexivity).
  change (ceil_quotient 2 1 = Ok sx) in Hx.
  change (ceil_quotient 2 1 = Ok sy) in Hy.
  rewrite Ec in Hx, Hy. injection Hx as <-. injection Hy as <-.
  eexists _, _, gp, sh. split; [exact E|]. exact Hm.
Defined.
