(* ===== verification/Service.v ===== *)
(** * Service: a planning call, from the host to the plan

    [SpiralSTC::createPlan] and the whole of [SpiralSTC::makePlan]
    ([Lifecycle.makePlan_host]) on a plugin that was configured, for
    the build in which the collision check reads [false]: the call
    returns a plan, and leaves a plugin on which the next call of the
    host returns as well, whichever it is ([runs]).  The parts meet
    here: the parameters of [resizeMap] ([ceil_quotient]) bound the
    loops of [visualizeGridlines] ([for_below]); the masks that
    [spiral_stc] shows have the size that [visualizeGrid] can read
    ([Returns.showable]); the plan goes to [publishPlan] of the base
    class.

    What the call needs of [parseGrid] is [parsed_square]; what it needs
    of the plugin, and keeps, is [serving].  The fuel is the number of
    cells of the grid and one more.

    For the build in which the check reads [true] the file has the
    opposite: the catalog of a new planner is empty and stays so in
    every state that the host can reach ([empty_catalog],
    [reachable_catalog]), so no call returns a plan
    ([service_never_plans]). *)

From Stdlib Require Import ZArith QArith Qround Lia Lqa.
From stdpp Require Import base tactics list option numbers list_numbers strings gmap.
From S2P Require Import Prelude Grid Libm State Raster Footprint Catalog Spiral.
From S2P Require Import Planner Search Returns Host Visual Lifecycle.

Set Warnings "-clear-no-such-hyp".

#[local] Open Scope fcpp_scope.

(** ** Predicates of the theorems *)

(** What [parseGrid] returned is a square grid of side [w] with the
    start cell in it, and [w] is the number of tiles that [resizeMap]
    gets for each side. *)
Record parsed_square (w : Z) (costmap : HostCostmap) (r : parsed) : Prop :=
  mkParsedSquare {
  ps_ok : parsed_ok r = true;
  ps_grid : mask_dims (parsed_grid r) w w;
  ps_start_x : 0 ≤ p_x (parsed_start_point r) < w;
  ps_start_y : 0 ≤ p_y (parsed_start_point r) < w;
  ps_size_x :
    ceil_quotient (getSizeInMetersX costmap) (parsed_tile_size_ r) = Ok w;
  ps_size_y :
    ceil_quotient (getSizeInMetersY costmap) (parsed_tile_size_ r) = Ok w
}.

(** A plugin that plans: it is initialised with its pointers set, its
    planner has nothing in [man_grids], and the rows of [visited_copy]
    that an earlier call left have the length of the grid. *)
Record serving (w : Z) (p : Plugin) : Prop := mkServing {
  sv_initialized_ : initialized_ p = true;
  sv_wf : plugin_wf p;
  sv_man_grids : man_grids (core p) = [];
  sv_visited_copy :
    Forall (λ row, Z.of_nat (length row) = w) (visited_copy (core p))
}.

(** A planner with the vectors of its catalog as the constructor
    leaves them, nothing in [man_grids] and an overlap bound that is
    not negative: a spiral on it accepts every left turn when the
    collision check reads [true]. *)
Definition empty_catalog (st : SpiralSTC) : Prop :=
  left_turn st = [] ∧ man_grids st = [] ∧ 0 ≤ max_overlap_turn st.

(** The calls that a host makes one after the other. *)
Definition runs {L : Libm} {F : ConvexFill} {P : Platform} {R : Relocator}
    {B : BaseClass} (fuel : nat) (calls : list call) (w : Node * Plugin)
    : res (Node * Plugin) :=
  res_foldl (λ w c, run fuel c w) w calls.

(** What a call needs of the host: a planning call, that the grid
    parsed from the costmap for its start is [parsed_square], whatever
    the plugin holds by then. *)
Definition served {B : BaseClass} (w : Z) (costmap : HostCostmap) (c : call)
    : Prop :=
  match c with
  | CreatePlan start goal =>
      ∀ q, costmap_ q = Some costmap →
        parsed_square w costmap (parseGrid q costmap start)
  | _ => True
  end.

(** ** Lemmas on showing *)

(** The number that [resizeMap] gets bounds the loops of
    [visualizeGridlines]. *)
Lemma ceil_quotient_for_below a b n :
  ceil_quotient a b = Ok n → for_below a b = Ok (seqZ 0 n).
Proof.
  unfold ceil_quotient, for_below. destruct (b ==q 0); [done|].
  destruct (_ || _) eqn:E; [done|]. intros [= <-].
  apply orb_false_iff in E as [_ E%Z.leb_gt].
  assert (a / b <= inject_Z (2 ^ 32 - 1))%Q as Hle.
  { eapply Qle_trans; [apply Qle_ceiling|]. rewrite <- Zle_Qle. lia. }
  by apply Qlt_bool_false_iff in Hle as ->.
Qed.

Lemma shown_more_pubs p p' :
  shown_more p p' → is_Some (grid_pub p) → is_Some (spirals_pub p) →
  is_Some (grid_pub p') ∧ is_Some (spirals_pub p').
Proof.
  intros [] [g Hg] [s Hs]. rewrite Hg in sm_grid_pub. rewrite Hs in sm_spirals_pub.
  inversion sm_grid_pub. inversion sm_spirals_pub. by split.
Qed.

(** What [spiral_stc] shows can be shown on the two publishers of
    markers. *)
Lemma show_returns w p d :
  0 < w → showable w d → is_Some (grid_pub p) → is_Some (spirals_pub p) →
  is_Ok (show p d).
Proof.
  intros Hw Hd Hg Hs. destruct d; simpl.
  - by apply visualizeSpiral_returns.
  - by apply (visualizeGrid_returns _ _ _ _ _ _ _ w w).
Qed.

Lemma shows_return w shown : ∀ p,
  0 < w → Forall (showable w) shown →
  is_Some (grid_pub p) → is_Some (spirals_pub p) →
  is_Ok (res_foldl show p shown).
Proof.
  induction shown as [|d shown IH]; intros p Hw Hsh Hg Hs; [by eexists|].
  apply Forall_cons_1 in Hsh as [Hd Hsh].
  destruct (show_returns w p d) as [p1 E]; [done..|]. simpl. rewrite E. simpl.
  apply show_shown_more, shown_more_pubs in E as [Hg1 Hs1]; [|done..].
  by apply IH.
Qed.

(** ** The planning call *)

Section calls.
Context {L : Libm} {F : ConvexFill} {P : Platform} {R : Relocator} {B : BaseClass}.
Context {FL : ConvexFillLaws F} {SL : SearchLaws R} {BL : BaseClassLaws B}.

(** Lines 491-495: the grid lines and the grid are shown. *)
Lemma show_grid_returns w p costmap grid :
  0 < w → costmap_ p = Some costmap → is_Some (grid_pub p) →
  ceil_quotient (getSizeInMetersX costmap) (tile_size_ p) = Ok w →
  ceil_quotient (getSizeInMetersY costmap) (tile_size_ p) = Ok w →
  mask_dims grid w w →
  ∃ p', (p ← visualizeGridlines p;
         visualizeGrid p grid "grid_cubes" (6 # 10) 0 0 0) = Ok p' ∧
    shown_more p p'.
Proof.
  intros Hw Hc Hg Hx%ceil_quotient_for_below Hy%ceil_quotient_for_below Hd.
  destruct (visualizeGridlines_returns p costmap _ _ Hc Hg Hx Hy) as [pa Ea].
  rewrite Ea. simpl.
  apply visualizeGridlines_Ok in Ea as (pub & m & Hpub & ->).
  destruct (visualizeGrid_returns (set_grid_pub (Some (publish pub m)) p) grid
    "grid_cubes" (6 # 10) 0 0 0 w w) as [pb Eb]; [done..|].
  exists pb. split; [done|].
  apply visualizeGrid_Ok in Eb as (pub' & m' & Hpub' & ->).
  etrans; eauto with fcpp.
Qed.

(** Lines 466-579 return a plan. *)
Lemma makePlan_host_returns fuel start goal plan p w costmap :
  flow_off_end = false → serving w p → costmap_ p = Some costmap →
  parsed_square w costmap (parseGrid p costmap start) →
  (Z.to_nat (w * w) < fuel)%nat →
  ∃ plan' p', makePlan_host fuel start goal plan p = Ok (true, plan', p').
Proof.
  intros Hflow [Hinit Hwf Hmg Hvc] Hc [Hok Hgrid Hsx Hsy Hcx Hcy] Hfuel.
  unfold makePlan_host. rewrite Hinit, Hc. simpl. rewrite Hok. simpl.
  rewrite Hcx. simpl. rewrite Hcy. simpl.
  set (r := parseGrid p costmap start) in *.
  set (st0 := set_planner_grid _ (core p)).
  set (p0 := set_core st0 _).
  destruct (show_grid_returns w p0 costmap (parsed_grid r)) as (pb & Eb & Hb);
    [lia|done|by apply Hwf|done..|].
  apply res_bind_Ok in Eb as (pa & Ea & Eb). rewrite Ea. simpl. rewrite Eb. simpl.
  rewrite (sm_core _ _ Hb). simpl.
  pose proof (open_count_dims _ _ _ Hgrid).
  destruct (spiral_stc_catalog_returns fuel st0 (parsed_grid r) (parsed_start_point r)
    (parsed_yaw_start r) w) as (path & shown & st' & -> & Hsh & _); [done..|lia|].
  simpl.
  destruct (shown_more_pubs _ _ Hb) as [Hg Hs]; [by apply Hwf..|].
  destruct (shows_return w shown (set_core st' pb)) as [pc Ec]; [lia|done..|].
  rewrite Ec. simpl.
  apply shows_shown_more in Ec.
  destruct (publishPlan_returns
    (set_core (set_accessible_counter (visited_counter st' - multiple_pass_counter st')
       st') pc) (parsePointlist2Plan pc start path plan)) as [pd ->]; [|by eexists _, _].
  simpl. rewrite (sm_plan_pub_ _ _ Ec). simpl. rewrite (sm_plan_pub_ _ _ Hb).
  by apply Hwf.
Qed.

(** The plugin that a planning call leaves plans again. *)
Lemma makePlan_host_serving fuel start goal plan p w costmap plan' p' :
  flow_off_end = false → serving w p → costmap_ p = Some costmap →
  parsed_square w costmap (parseGrid p costmap start) →
  (Z.to_nat (w * w) < fuel)%nat →
  makePlan_host fuel start goal plan p = Ok (true, plan', p') →
  serving w p'.
Proof.
  intros Hflow [Hinit Hwf Hmg Hvc] Hc [Hok Hgrid Hsx Hsy Hcx Hcy] Hfuel E.
  pose proof (makePlan_host_planned _ _ _ _ _ _ _ _ E) as Hpl.
  apply makePlan_host_true in E as (c & sx & sy & p1 & gp & sh & st & p2 & E).
  destruct E as (_ & Hc' & _ & Hx & Hy & _ & Hs & _ & _ & Hp).
  rewrite Hc in Hc'. injection Hc' as <-.
  rewrite Hcx in Hx. injection Hx as <-. rewrite Hcy in Hy. injection Hy as <-.
  pose proof (open_count_dims _ _ _ Hgrid).
  destruct (spiral_stc_catalog_returns fuel
    (set_planner_grid (mkCostmap w w (parsed_tile_size_ (parseGrid p costmap start))
       (parsed_grid_origin_ (parseGrid p costmap start)).1
       (parsed_grid_origin_ (parseGrid p costmap start)).2) (core p))
    (parsed_grid (parseGrid p costmap start))
    (parsed_start_point (parseGrid p costmap start))
    (parsed_yaw_start (parseGrid p costmap start)) w)
    as (path & shown & st' & Es & _ & Hsq); [done..|lia|].
  rewrite Es in Hs. injection Hs as <- <- <-.
  apply publishPlan_frame in Hp as (pub & msg & _ & ->).
  split; simpl.
  - by rewrite <- Hinit, <- (pl_initialized_ _ _ Hpl).
  - by eapply planned_wf.
  - apply Hsq.
  - apply Hsq.
Qed.

(** Lines 92-103 on a plugin that plans. *)
Lemma createPlan_returns fuel start goal node p w costmap :
  flow_off_end = false → serving w p → costmap_ p = Some costmap →
  parsed_square w costmap (parseGrid p costmap start) →
  (Z.to_nat (w * w) < fuel)%nat →
  ∃ poses p', createPlan fuel start goal node p
      = Ok (mkPath (now node) (global_frame_ p) poses, p') ∧
    serving w p' ∧ planned p p'.
Proof.
  intros Hflow Hsv Hc Hps Hfuel. unfold createPlan.
  destruct (makePlan_host_returns fuel start goal [] p w costmap)
    as (poses & p' & E); [done..|]. rewrite E. simpl.
  pose proof (makePlan_host_planned _ _ _ _ _ _ _ _ E) as Hpl.
  pose proof (makePlan_host_serving _ _ _ _ _ _ _ _ _ Hflow Hsv Hc Hps Hfuel E).
  rewrite (pl_node_ _ _ Hpl), (wf_node_ _ (sv_wf _ _ Hsv) (sv_initialized_ _ _ Hsv)).
  simpl. rewrite (pl_global_frame_ _ _ Hpl). by eexists _, _.
Qed.

(** Every call of the host returns on a plugin that plans, and leaves
    one. *)
Lemma run_serving fuel c node p w costmap :
  flow_off_end = false → serving w p → costmap_ p = Some costmap →
  served w costmap c → (Z.to_nat (w * w) < fuel)%nat →
  ∃ p', run fuel c (node, p) = Ok (node, p') ∧ serving w p' ∧
    costmap_ p' = Some costmap.
Proof.
  intros Hflow Hsv Hc Hs Hfuel. pose proof Hsv as [Hinit Hwf Hmg Hvc].
  destruct c as [parent name costmap_ros| | | |start goal]; simpl.
  - unfold configure. rewrite Hinit. by exists p.
  - unfold activate.
    destruct (wf_grid_pub _ Hwf Hinit) as [g Hg], (wf_spirals_pub _ Hwf Hinit) as [s Hs'].
    rewrite Hg. simpl. rewrite Hs'. simpl. eexists. split; [done|]. split; [|done].
    destruct Hwf. by split; [|split|..].
  - unfold deactivate.
    destruct (wf_grid_pub _ Hwf Hinit) as [g Hg], (wf_spirals_pub _ Hwf Hinit) as [s Hs'].
    rewrite Hg. simpl. rewrite Hs'. simpl. eexists. split; [done|]. split; [|done].
    destruct Hwf. by split; [|split|..].
  - by exists p.
  - destruct (createPlan_returns fuel start goal node p w costmap)
      as (poses & p1 & -> & Hsv1 & Hpl1); [done|done|done|by apply Hs|done|].
    exists p1. split; [done|]. split; [done|]. by rewrite (pl_costmap_ _ _ Hpl1).
Qed.

End calls.

(** ** The calls of the host on an empty catalog *)

Section empty.
Context {L : Libm} {F : ConvexFill} {P : Platform} {R : Relocator} {B : BaseClass}.

(** No method but [makePlan] writes the catalog, and [makePlan]
    writes the relative manoeuvres only. *)
Lemma configure_catalog parent name costmap_ros node p how node' p' :
  configure parent name costmap_ros node p = Ok (how, node', p') →
  empty_catalog (core p) → empty_catalog (core p').
Proof.
  unfold configure. destruct (initialized_ p); simpl; [by intros [= <- <- <-]|].
  destruct costmap_ros as [costmap|]; simpl; [|done].
  destruct parent; simpl; [|done].
  destruct (configure_parameters _ _) as [[how1 node1] p1] eqn:E.
  intros H Hc. assert (empty_catalog (core p1)) as H1.
  { unfold configure_parameters in E. repeat case_match; by simplify_eq. }
  destruct how1; by simplify_eq.
Qed.

(** With the collision check reading [true] a call of [makePlan] on
    an empty catalog returns without a plan, if it returns. *)
Lemma makePlan_host_unchecked fuel start goal plan p ok plan' p' :
  flow_off_end = true → empty_catalog (core p) →
  makePlan_host fuel start goal plan p = Ok (ok, plan', p') →
  ok = false ∧ plan' = plan ∧ core p' = core p.
Proof.
  intros Hflow (Hl & Hg & Ho) E. destruct ok.
  - apply makePlan_host_true in E as (c & sx & sy & p1 & gp & sh & st & p2 & E).
    destruct E as (_ & _ & _ & _ & _ & _ & Hs & _). exfalso.
    eapply (spiral_stc_catalog_unchecked fuel); [done| | | |by eexists]; done.
  - apply makePlan_host_false in E as [-> [[_ ->]|(_ & c & _ & _ & ->)]]; by repeat split.
Qed.

Lemma run_catalog fuel c w w' :
  flow_off_end = true → run fuel c w = Ok w' →
  empty_catalog (core w.2) → empty_catalog (core w'.2).
Proof.
  intros Hflow. destruct w as [node p]. destruct c; simpl.
  - intros ([[how node'] p'] & Hc & [= <-])%res_bind_Ok. by eapply configure_catalog.
  - by intros (p' & (g & s & _ & _ & ->)%activate_Ok & [= <-])%res_bind_Ok.
  - by intros (p' & (g & s & _ & _ & ->)%deactivate_Ok & [= <-])%res_bind_Ok.
  - by intros [= <-].
  - intros ([path p'] & Hc & [= <-])%res_bind_Ok He. unfold createPlan in Hc.
    apply res_bind_Ok in Hc as ([[ok plan'] p1] & Hm & Hc).
    apply makePlan_host_unchecked in Hm as (_ & _ & Hcore); [|done..].
    destruct (node_ p1); simplify_eq/=. by rewrite Hcore.
Qed.

Lemma reachable_catalog node0 st0 w :
  flow_off_end = true → empty_catalog st0 →
  reachable node0 st0 w → empty_catalog (core w.2).
Proof.
  intros Hflow H0. induction 1 as [|fuel c w w' _ IH Hrun]; [done|].
  by eapply run_catalog.
Qed.

End empty.

(** ** The theorem *)

Section service.
Context {L : Libm} {F : ConvexFill} {P : Platform} {R : Relocator} {B : BaseClass}.
Context {FL : ConvexFillLaws F} {SL : SearchLaws R} {BL : BaseClassLaws B}.

(** C7. When the collision check reads [false], a plugin that was
    configured serves every sequence of calls of the host: each call
    returns, with no null pointer dereferenced, no vector read or
    written outside its range and no loop that does not end, and
    leaves the plugin ready for the next call, whatever its counters
    and [visited_copy] hold by then; each call of [createPlan] returns
    a path.  The grid that [parseGrid] returns has to be square, with
    the start cell in it and the side that [resizeMap] gets; the fuel
    is the number of its cells and one more. *)
Theorem service_returns fuel calls node w costmap : ∀ p,
  flow_off_end = false → serving w p → costmap_ p = Some costmap →
  Forall (served w costmap) calls → (Z.to_nat (w * w) < fuel)%nat →
  ∃ p', runs fuel calls (node, p) = Ok (node, p') ∧ serving w p' ∧
    costmap_ p' = Some costmap.
Proof.
  induction calls as [|c calls IH]; intros p Hflow Hsv Hc Hps Hfuel.
  { by exists p. }
  apply Forall_cons_1 in Hps as [Hp Hps]. unfold runs. cbn [res_foldl].
  destruct (run_serving fuel c node p w costmap) as (p1 & -> & Hsv1 & Hc1);
    [done..|].
  simpl. by apply IH.
Qed.

End service.

Section no_service.
Context {L : Libm} {F : ConvexFill} {P : Platform} {R : Relocator} {B : BaseClass}.

(** C8. When the collision check reads [true], a plugin around a new
    planner never plans, whatever the host has called before: a call
    of [createPlan] that returns has found the plugin not initialised
    or the grid not parsed, and returns a path without poses and the
    planner as it was.  Every other call runs into the first spiral,
    which does not end on the catalog that [makePlan] leaves. *)
Theorem service_never_plans node0 st0 w fuel start goal path p' :
  flow_off_end = true → empty_catalog st0 → reachable node0 st0 w →
  createPlan fuel start goal w.1 w.2 = Ok (path, p') →
  poses path = [] ∧ core p' = core w.2.
Proof.
  intros Hflow H0 Hr%reachable_catalog; [|done..]. unfold createPlan.
  intros ([[ok plan'] p1] & Hm & H)%res_bind_Ok.
  apply makePlan_host_unchecked in Hm as (_ & -> & Hcore); [|done..].
  destruct (node_ p1); by simplify_eq/=.
Qed.

End no_service.

(** ** The theorem at a concrete input *)

(** Calls on the plugin after [configure] and [activate], on the grid
    of 2 by 2 cells with a blocked cell: two plans, a second
    [configure] and a [deactivate] in between, and [cleanup]. *)
Lemma service_returns_witness :
  ∃ p', runs (L := approx_libm) (F := hull_fill) (P := returns_false)
          (R := a_star_obstacle_aware) (B := given_grid small_blocked 1) 5
          [CreatePlan start_pose start_pose;
           Configure true "Other" None; Deactivate;
           CreatePlan start_pose start_pose; Cleanup]
          (plain_node, ready_plugin) = Ok (plain_node, p') ∧
        serving 2 p' ∧ costmap_ p' = Some (getCostmap square_costmap_ros).
Proof.
  apply (service_returns (L := approx_libm) (F := hull_fill) (P := returns_false)
           (R := a_star_obstacle_aware) (B := given_grid small_blocked 1) 5 _
           plain_node 2 (getCostmap square_costmap_ros)); [reflexivity| |reflexivity| |].
  - split; [reflexivity| |reflexivity|by repeat constructor].
    split; simpl; try (intros _; by eexists). by intros pub [= <-].
  - repeat constructor; try reflexivity; simpl; lia.
  - simpl. lia.
Defined.

(** The plugin after [configure] and [activate] on a host whose grid
    cannot be parsed: the call returns a path without poses. *)
Lemma service_never_plans_witness :
  ∃ w path p',
    reachable (L := approx_libm) (F := hull_fill) (P := returns_true)
      (R := a_star_obstacle_aware) (B := given_grid [] 1) plain_node small_obj w ∧
    createPlan (L := approx_libm) (F := hull_fill) (P := returns_true)
      (R := a_star_obstacle_aware) (B := given_grid [] 1) 3 start_pose start_pose
      w.1 w.2 = Ok (path, p') ∧
    poses path = [] ∧ core p' = core w.2.
Proof.
  eassert (reachable (L := approx_libm) (F := hull_fill) (P := returns_true)
             (R := a_star_obstacle_aware) (B := given_grid [] 1) plain_node
             small_obj _) as Hr.
  { eapply (reachable_run _ _ 0 Activate).
    - eapply (reachable_run _ _ 0
                (Configure true "GridBased" (Some square_costmap_ros)));
        [apply reachable_new|vm_compute; reflexivity].
    - vm_compute. reflexivity. }
  assert (empty_catalog small_obj) as Hcat.
  { split; [reflexivity|split; [reflexivity|simpl; lia]]. }
  eexists _, _, _. split; [exact Hr|].
  match goal with
  | |- ?call = Ok _ ∧ _ =>
      eassert (call = Ok (_, _)) as E by (vm_compute; reflexivity)
  end.
  split; [exact E|].
  exact (service_never_plans (P := returns_true) _ _ _ _ _ _ _ _ eq_refl Hcat Hr E).
Defined.
